(* ===== verification/_CoqProject ===== *)
-Q . S2P
Prelude.v
Pagination.v
Element.v
SignedElement.v
MerkleHash.v
Primality.v
Poseidon.v
PoseidonBn256.v
Poseidon2.v
PoseidonNoir.v
HashCache.v
SmirkBatch.v
SmirkNode.v
SmirkNodeSpec.v
SmirkTree.v
SmirkPath.v
SmirkProps.v
SmirkStorage.v
Utxo.v
BlockStore.v
Crypto.v
NodeBlock.v
Mempool.v
BlockCache.v
NodeCommit.v
NodeLedger.v
NodeProps.v
NodeProducer.v
NodeWitness.v
NodeSync.v
NodeSyncProps.v
NodeSyncWitness.v
RpcTxns.v
RpcTxnsProps.v
RpcRoutes.v
RpcErrors.v
RpcRoutesProps.v
RpcWitness.v
SolidProposal.v
SolidCache.v
SolidCore.v
SolidCoreSpec.v
SolidProps.v
SolidQuorum.v
SolidWitness.v
SolidStream.v
SolidStreamProps.v
SolidStreamWitness.v
Doomslug.v
DoomslugSpec.v
DoomslugProps.v
DoomslugWitness.v
Pool.v
Batch.v
Workers.v
Links.v
Wallet.v
WalletProps.v
Circuit.v
Attest.v
Cli.v
CliProps.v
CliNode.v
CliWitness.v
Aggregate.v
AggregateSpec.v
AggregateProps.v
AggregateGaps.v
AggregateWitness.v
ProverWorker.v
ProverProps.v
ProverRun.v
ProverRollup.v
ProverWitness.v
Erc20.v
Contracts.v
ContractsProps.v
ValidatorSets.v
Atomiq.v
BurnSubstitutor.v
