(* ===== verification/Prelude.v ===== *)
(** * Ciphera: a verification development of the zerosats rollup

    Ciphera is a private rollup.  Users hold notes (an amount of a token locked to
    a key); a transaction spends at most two notes and creates at most two, and
    a zero-knowledge proof shows that it balances.  Nodes order transactions into
    blocks by a leader-based consensus, keep the commitments of the unspent notes
    in a sparse Merkle tree and agree on its root.  A prover aggregates the proofs
    of each block into one and rolls it up to a contract on the base chain, through
    which money enters (mints) and leaves (burns); a substitutor pays burns
    ahead of that.  A client keeps wallets and talks to a node and to the contract.
    This library models the Rust packages
    under src/ciphera/pkg (paths below are relative to it) as executable Rocq
    functions and proves what makes them correct.

    ** Conventions

    A fallible function returns an [outcome]: [Ok], [Err] or [Panic] (an
    [unwrap], assertion or index out of range).  A method on [&mut self] is a
    function on the state or a computation in the state monad [ST] of this file,
    which keeps the state it has reached when it fails.  Machine integers are
    [Z] with [wrap] and [in_width] where overflow can happen; bytes are [Z]
    below 256.  A [HashMap] is a [gmap], its iteration order a parameter with the
    law that it is a permutation; a [BTreeMap] is a sorted list or a [gmap] read
    in order.  Time, random keys and the answers of other machines are
    arguments.  Code that is not in the repository is a class of operations with
    a class of laws that state what its documentation promises: the field and
    the hash of elements ([FieldLib], [FieldLaws]), the scalar field and the
    permutation of the Poseidon packages ([PrimeField], [PrimeFieldLaws],
    [Poseidon2Lib], [Poseidon2Laws]), Keccak and secp256k1
    ([CryptoLib], [CryptoLaws]), base58, SHA-3, JSON, the prover a client calls
    ([Prover], [ProverLaws]), the proving backend of the rollup ([Barretenberg],
    [BarretenbergLaws], [Backend], [BackendLaws]: it proves exactly the satisfied circuits and verifies what
    it proved), ABI tokens and text parsers ([AbiLib], [AbiLaws], [TextLib]), the
    application and peers of the consensus ([App], [Peer], [PeerSigner]).  Each class has an instance in a witness file,
    at which the theorems with hypotheses are applied.

    ** Files

    - Prelude: outcomes, the state monad, integers, lists and maps.
    - Pagination: primitives/src/pagination.rs (cursors, their text, the Paginator).
    - Element, SignedElement, MerkleHash: element/src (elements of 256 bits,
      words, bytes, bits, lsb; signed elements) and hash/src.
    - Primality: the order of the field is prime, by a checked certificate.
      Poseidon, PoseidonBn256, Poseidon2: minimal-poseidon/src (permutation, sponge,
      fixed-length hash, constants), hash-poseidon/src and hash/src/poseidon.rs.
      PoseidonNoir: noir/poseidon_alt, the same hash for circuits, and its agreement.
    - HashCache, SmirkBatch, SmirkNode, SmirkTree, SmirkPath, SmirkStorage:
      smirk/src, the sparse Merkle tree: hash caches, batches, nodes, the tree with
      its entries, membership paths, the tree beside its database.
      SmirkNodeSpec holds the specification by finite maps and the
      induction over depth, SmirkProps the theorems.
    - Utxo: zk-primitives/src (notes, transactions, public inputs, messages).
    - BlockStore: block-store/src (keys, records, [set] and the reads).
    - Crypto: primitives/src (hashes, addresses, signatures).
    - NodeBlock, Mempool, BlockCache, NodeCommit: node/src (block.rs, utxo.rs,
      mempool.rs, cache.rs; node.rs, node/*.rs: proposals, the tick
      worker, transactions, loading).  NodeLedger is the abstract ledger, a list of
      blocks, and the invariant that ties databases and trees to it;
      NodeProps and NodeProducer are the theorems, NodeWitness their instances.
    - NodeSync, NodeSyncProps, NodeSyncWitness: node/src/sync.rs and
      node/snapshot.rs, catching up by slow and fast snapshots.
    - RpcTxns, RpcRoutes: node/src/rpc (the routes, statistics, errors and status
      codes) and the reads of node.rs behind them.  RpcTxnsProps, RpcRoutesProps,
      RpcWitness: theorems.  RpcErrors: rpc/src/error.rs, the macro rpc-error-convert and
      node-interface/src/error.rs, errors on their way to a client.
    - SolidProposal, SolidCache, SolidCore: solid/src (proposals, accepts,
      manifests, the proposal cache, the core's event machine).  SolidCoreSpec,
      SolidProps, SolidQuorum, SolidWitness: theorems.  SolidStream,
      SolidStreamProps, SolidStreamWitness: the instance around the core (solid/mod.rs,
      shared.rs, stream.rs, util): locked sections, queue, wakers, timers.
    - Doomslug, DoomslugSpec, DoomslugProps, DoomslugWitness: doomslug/src, the
      consensus library with stakes, approvals and timers.
    - Pool, Batch, Workers: primitives/src (pool.rs, batch.rs, retry.rs,
      tick_worker.rs), concurrent helpers as interleaved locked sections.
    - Links, Wallet, Circuit, Cli: cli/src (address.rs, note_url.rs, units.rs,
      wallet.rs, main.rs, client.rs), zk-primitives/src/note_url.rs, and the utxo
      circuit of noir/utxo as a boolean function.  WalletProps, CliProps,
      CliNode, CliWitness: theorems.
    - Attest: zk-primitives/src (signature.rs, points.rs, migrate.rs), their circuits and
      the command line of bb (barretenberg/src: circuits, prove.rs, backend/bb_cli.rs).
    - Aggregate: prover/src, zk-primitives/src/agg_*.rs, barretenberg/src/circuits
      and the circuits noir/agg_utxo and noir/agg_agg: the Merkle paths of a block,
      its groups, the two layers of aggregation.  AggregateSpec (trees against the
      circuits' checks), AggregateProps, AggregateGaps, AggregateWitness: theorems.
    - ProverWorker: node/src/prover (db.rs, worker.rs) and Prover::rollup, every
      durable write a state of its own.  ProverProps (a commit, a start),
      ProverRun (the process with stops and restarts), ProverRollup (the rollup
      worker against verifyRollup of the contract), ProverWitness.
    - Contracts, ContractsProps, ValidatorSets: contracts/src, the client of the
      rollup contract, and the validator sets it keeps.  Erc20: contracts/src/erc20.rs and
      the approval of the rollup contract by an admin (cli/src/client.rs).
    - Atomiq, BurnSubstitutor: atomiq/src and burn-substitutor/src.

    ** What the theorems show

    - Hashing: the Poseidon sponges compute the permutation folded over padded blocks
      and never fail on an input (of no element at all, the one of
      minimal-poseidon panics); the permutation is a bijection and the computed inverse
      matrix is the inverse; a test vector of the repository is reproduced; the hash
      written in Noir and the one in Rust agree.
    - Attestations: signatures, sums of notes and migrations are proved exactly by
      the owners of the keys; a proof that is too short makes the verifier panic.
    - The tree refines a finite map; the root binds the entries unless the hash
      collides; predicted roots are the real ones; membership paths are complete
      and sound; a reloaded database gives back the tree.
    - Blocks: content validation accepts exactly the blocks whose transactions
      are valid one by one, with distinct commitments and the right root; an
      accepted block commits without error; in every reachable node state
      no note is spent twice and the tree holds the unspent notes; crashes between
      the two writes of a commit are repaired; producers build blocks that
      everyone accepts; the commit loop terminates; slow synchronisation catches
      up.
    - RPC: following the cursors lists every transaction once and in order, a
      poll returns what was committed meanwhile, the stream of commits has no
      gap; elements, transactions, blocks, Merkle paths and statistics are
      answered from the chain; a mint is waited for as long as it may be confirmed;
      errors reach a client as they were raised.
    - Consensus (solid): committed manifests form one chain, no method panics and
      every loop ends, what a node proposes and accepts is valid for the others,
      quorums intersect; the stream around the core delivers that chain, loses no
      wakeup and skips in time.  (doomslug): one approval per height and account, two
      thirds of the stake, timers that keep approving, bounded memory.
    - Helpers: no value of a pool is lost, no caller of a batch is forgotten and
      each is answered within five steps of the scheduler.
    - Client: the wallet's books balance, it pays whenever it can with the best
      choice of notes, what it builds satisfies the circuit, a payment by link
      arrives, a deposit is what the node expects, a burn loses nothing while
      answers arrive.
    - Rollup: a validated block of one to six regular transactions is proved, from
      the root of the tree to the root of the block; whatever stops and restarts
      the prover, its stored proofs lead from block to block, none is skipped, and it
      goes on; the rollup worker brings the contract up to the last of them, whatever
      is said of the transactions it sends; waiting for one ends, for a reason.
    - Base chain: the kept validator sets stay the contract's while the worker
      listens, requests are retried within bounds, fees stay admissible, escrows
      survive their encoding, no burn is paid twice.
    - Error behaviour of the code, also where it is a defect: a proposal of a stranger
      is committed, a lost answer loses a payment, a second address forgets
      the first, messages of padding are not constrained, a stray message stops the
      rollup, nonce conflicts are not noticed, a migration is refused, a worker that
      listens late misses validator sets, skipped burns are passed, the page before a
      cursor is not what precedes it, an approval checks the wrong allowance, elements
      of a fast synchronisation are not answered.  Further theorems of this kind stand beside the component they
      concern.

    ** Fuel and bounds

    [commit_loop] is given one step more than the cache has indexed blocks, and
    each step confirms or removes one ([follower_tick_total]).  The loops of the
    proposal cache are given one step more than there are proposals and the
    mutual calls of the core a depth of three; [solid_never_panics] shows that
    they never run out.  Doomslug's timer loop is bounded in the source.
    [exec_forever] of Workers takes fuel and its theorem says how much is enough.
    The polling loops of the client run 150 times, as in the source.  The loops that
    poll a chain take the list of polls and return [None] when it ends first; their
    theorems say which polls end them.  [rollup_rounds] takes fuel, and
    [rollup_catches_up] shows that the number of blocks is enough.  A [Paginator] is
    run one step more than it has items; a client that lists all transactions
    takes at most one request more than there are ([pages_list_every_txn]).  The loop
    of [squeeze] is left in its second turn at the latest ([squeeze_ends]).

    ** Not modelled

    Network transport (p2p2), the HTTP server around the routes, configuration, command
    lines, logging and metrics: I/O around the handlers.  The inside of the proving
    backend, of postgres and of the base chain: calls of external services, which the
    code sees through parameters.  Solidity code beyond the checks of verifyRollup
    on root and height, test utilities and examples.  Serialisation code
    that is derived or only display. *)
From stdpp Require Export base tactics numbers list list_numbers gmap sorting strings.
From Stdlib Require Export Lia ZArith.

#[global] Open Scope Z_scope.
#[global] Set Default Goal Selector "!".

(** * Outcomes of Rust code

    [Ok] and [Err] are the two constructors of [Result]; [Panic] is an
    unwinding panic ([unwrap], [assert!], [todo!], [unreachable!], an index out
    of range), which no caller in the modelled code catches. *)
Inductive outcome (E A : Type) : Type :=
| Ok (a : A)
| Err (e : E)
| Panic (msg : string).
Arguments Ok {E A} _.
Arguments Err {E A} _.
Arguments Panic {E A} _.

Definition outcome_bind {E A B} (x : outcome E A) (f : A → outcome E B) : outcome E B :=
  match x with
  | Ok a => f a
  | Err e => Err e
  | Panic m => Panic m
  end.

Definition outcome_map {E A B} (f : A → B) (x : outcome E A) : outcome E B :=
  outcome_bind x (λ a, Ok (f a)).

#[export] Instance Ok_inj {E A} : Inj (=) (=) (@Ok E A).
Proof. by intros ?? [= ->]. Qed.

(** [map_err], used by the [?] operator when it converts the error type. *)
Definition map_err {E E' A} (f : E → E') (x : outcome E A) : outcome E' A :=
  match x with
  | Ok a => Ok a
  | Err e => Err (f e)
  | Panic m => Panic m
  end.

(** [Option::ok_or] and [Option::unwrap]. *)
Definition ok_or {E A} (o : option A) (e : E) : outcome E A :=
  match o with Some a => Ok a | None => Err e end.
Definition unwrap {E A} (o : option A) (msg : string) : outcome E A :=
  match o with Some a => Ok a | None => Panic msg end.
(** [Result::unwrap]. *)
Definition unwrap_ok {E E' A} (o : outcome E A) (msg : string) : outcome E' A :=
  match o with Ok a => Ok a | Err _ => Panic msg | Panic m => Panic m end.

Definition is_ok {E A} (x : outcome E A) : bool :=
  match x with Ok _ => true | _ => false end.

Declare Scope outcome_scope.
Delimit Scope outcome_scope with out.
Notation "'let?' x ':=' c 'in' k" := (outcome_bind c (λ x, k))
  (at level 10, x pattern, c at level 100, k at level 200,
   format "'let?'  x  ':='  c  'in' '//' k") : outcome_scope.
#[global] Open Scope outcome_scope.

(** * Stateful code that can fail

    A method that takes [&mut self] and returns a [Result] or panics: the state
    it leaves is kept in every case. *)
Definition ST (s E A : Type) : Type := s → s * outcome E A.
Definition st_ret {s E A} (a : A) : ST s E A := λ x, (x, Ok a).
Definition st_bind {s E A B} (m : ST s E A) (f : A → ST s E B) : ST s E B := λ x,
  match m x with
  | (x, Ok a) => f a x
  | (x, Err e) => (x, Err e)
  | (x, Panic msg) => (x, Panic msg)
  end.
Definition st_get {s E A} (f : s → A) : ST s E A := λ x, (x, Ok (f x)).
Definition st_lift {s E A} (f : s → outcome E A) : ST s E A := λ x, (x, f x).
Definition st_modify {s E} (f : s → s) : ST s E unit := λ x, (f x, Ok tt).
Notation "'let!' x ':=' c 'in' k" := (st_bind c (λ x, k))
  (at level 10, x pattern, c at level 100, k at level 200,
   format "'let!'  x  ':='  c  'in' '//' k") : outcome_scope.

(** * Machine integers *)

Definition u8_max : Z := 2 ^ 8 - 1.
Definition u32_max : Z := 2 ^ 32 - 1.
Definition u64_max : Z := 2 ^ 64 - 1.
Definition u128_max : Z := 2 ^ 128 - 1.

Definition in_width (w x : Z) : Prop := 0 ≤ x < 2 ^ w.
#[export] Instance in_width_dec w x : Decision (in_width w x).
Proof. unfold in_width. apply _. Defined.

Definition wrap (w x : Z) : Z := x mod 2 ^ w.
Lemma wrap_small w x : in_width w x → wrap w x = x.
Proof. apply Z.mod_small. Qed.

(** [checked_add], [checked_sub], [checked_mul]: [None] on overflow. *)
Definition checked_add (w a b : Z) : option Z :=
  if decide (in_width w (a + b)) then Some (a + b) else None.
Definition checked_sub (a b : Z) : option Z :=
  if decide (b ≤ a) then Some (a - b) else None.
Definition saturating_sub (a b : Z) : Z := Z.max 0 (a - b).
Definition saturating_add (w a b : Z) : Z := Z.min (2 ^ w - 1) (a + b).

(** [to_be_bytes] of an integer of [n] bytes. *)
Definition be_bytes (n : Z) (x : Z) : list Z := reverse (Z_to_little_endian n 8 x).

(** * Tactics *)

(** Case analysis on the scrutinee of every match of the goal or of the
    hypotheses, closing the contradictory branches. *)
Ltac destr_match :=
  repeat (case_match; simplify_eq/=; try done).

Ltac inv_ok :=
  repeat match goal with
  | H : Ok _ = Ok _ |- _ => injection H as H; subst
  | H : Err _ = Err _ |- _ => injection H as H; subst
  | H : Ok _ = Err _ |- _ => discriminate H
  | H : Err _ = Ok _ |- _ => discriminate H
  | H : Ok _ = Panic _ |- _ => discriminate H
  | H : Panic _ = Ok _ |- _ => discriminate H
  | H : Err _ = Panic _ |- _ => discriminate H
  | H : Panic _ = Err _ |- _ => discriminate H
  end.

Create HintDb zs discriminated.

(** * Generic lemmas *)

Section outcomes.
Context {E A B : Type}.

Lemma outcome_bind_ok (x : outcome E A) (f : A → outcome E B) b :
  outcome_bind x f = Ok b ↔ ∃ a, x = Ok a ∧ f a = Ok b.
Proof. destruct x; naive_solver. Qed.

Lemma outcome_bind_err (x : outcome E A) (f : A → outcome E B) e :
  outcome_bind x f = Err e ↔ x = Err e ∨ ∃ a, x = Ok a ∧ f a = Err e.
Proof. destruct x; naive_solver. Qed.
End outcomes.

Lemma st_bind_ok {s E A B} (m : ST s E A) (f : A → ST s E B) x x' b :
  st_bind m f x = (x', Ok b) ↔ ∃ y a, m x = (y, Ok a) ∧ f a y = (x', Ok b).
Proof. unfold st_bind. destruct (m x) as [y [a|e|msg]]; naive_solver. Qed.

(** [m] returns from [x], neither failing nor panicking, with a result and a
    state that satisfy [Q]. *)
Definition returns {s E A} (m : ST s E A) (x : s) (Q : A → s → Prop) : Prop :=
  ∃ x' a, m x = (x', Ok a) ∧ Q a x'.

Section returns.
Context {s E A B : Type}.
Implicit Types x : s.

Lemma returns_ret (a : A) x (Q : A → s → Prop) : Q a x → returns (E := E) (st_ret a) x Q.
Proof. by exists x, a. Qed.
Lemma returns_get (f : s → A) x (Q : A → s → Prop) : Q (f x) x → returns (E := E) (st_get f) x Q.
Proof. by exists x, (f x). Qed.
Lemma returns_modify (f : s → s) x (Q : unit → s → Prop) :
  Q tt (f x) → returns (E := E) (st_modify f) x Q.
Proof. by exists (f x), tt. Qed.
Lemma returns_lift (f : s → outcome E A) x a (Q : A → s → Prop) :
  f x = Ok a → Q a x → returns (st_lift f) x Q.
Proof. intros Hf HQ. exists x, a. unfold st_lift. by rewrite Hf. Qed.
Lemma returns_bind (m : ST s E A) (f : A → ST s E B) x (Q : B → s → Prop) :
  returns m x (λ a x', returns (f a) x' Q) → returns (st_bind m f) x Q.
Proof. intros (y & a & Hm & Hf). unfold returns, st_bind. by rewrite Hm. Qed.
Lemma st_bind_run (m : ST s E A) (f : A → ST s E B) x x' a : m x = (x', Ok a) → st_bind m f x = f a x'.
Proof. unfold st_bind. by intros ->. Qed.
Lemma returns_mono (m : ST s E A) x (Q Q' : A → s → Prop) :
  returns m x Q → (∀ a x', Q a x' → Q' a x') → returns m x Q'.
Proof. intros (y & a & Hm & Hq) HQ. exists y, a. auto. Qed.
Lemma returns_elim (m : ST s E A) x x' a (Q : A → s → Prop) :
  returns m x Q → m x = (x', Ok a) → Q a x'.
Proof. intros (y & b & Hm & Hq) Hm'. rewrite Hm in Hm'. by simplify_eq. Qed.
End returns.

(** One step through a computation: reads and writes by themselves, calls by
    the given specification. *)
Ltac st_pure :=
  repeat (cbv beta iota; match goal with
  | |- returns (st_bind _ _) _ _ => apply returns_bind
  | |- returns (st_get _) _ _ => apply returns_get
  | |- returns (st_modify _) _ _ => apply returns_modify
  | |- returns (st_ret _) _ _ => apply returns_ret
  end).
Tactic Notation "st_call" uconstr(t) := st_pure; eapply returns_mono; [eapply t|].
Tactic Notation "st_read" uconstr(t) := st_pure; eapply returns_lift; [eapply t|].

Section positions.
Context {A : Type}.

(** [iter().position(p).unwrap_or(len)]. *)
Fixpoint position_or_len (p : A → bool) (l : list A) : nat :=
  match l with
  | [] => 0
  | x :: l' => if p x then 0%nat else S (position_or_len p l')
  end.

(** On a list in which nothing that satisfies [p] comes before something
    that does not, the split at the first hit is the partition by [p]. *)
Lemma split_position_filter (R : relation A) (p : A → bool) l :
  StronglySorted R l →
  (∀ x y, x ∈ l → y ∈ l → R x y → p x → p y) →
  take (position_or_len p l) l = List.filter (λ x, negb (p x)) l ∧
  drop (position_or_len p l) l = List.filter p l.
Proof.
  induction 1 as [|x l Hs IH Hall]; intros Hmono; [done|].
  assert (∀ y z, y ∈ l → z ∈ l → R y z → p y → p z) as Hmono'.
  { intros y z ??. apply Hmono; by right. }
  destruct (IH Hmono') as [IH1 IH2]. simpl. destruct (p x) eqn:Hp; simpl.
  - rewrite Forall_forall in Hall.
    assert (∀ y, y ∈ l → p y = true) as Hp'.
    { intros y Hy. apply Is_true_true. apply (Hmono x y).
      - by left.
      - by right.
      - by apply Hall.
      - by rewrite Hp. }
    clear -Hp'. split.
    + induction l as [|y l IHl]; simpl; [done|].
      rewrite (Hp' y) by (by left). simpl. apply IHl.
      intros z Hz. apply Hp'. by right.
    + f_equal. induction l as [|y l IHl]; simpl; [done|].
      rewrite (Hp' y) by (by left). f_equal. apply IHl.
      intros z Hz. apply Hp'. by right.
  - by rewrite IH1, IH2.
Qed.

Lemma elem_of_list_filterb (p : A → bool) l x :
  x ∈ List.filter p l ↔ x ∈ l ∧ p x = true.
Proof. rewrite !list_elem_of_In. apply filter_In. Qed.

Lemma sorted_filterb (R : relation A) (p : A → bool) l :
  StronglySorted R l → StronglySorted R (List.filter p l).
Proof.
  induction 1 as [|x l Hs IH Hall]; simpl; [constructor|].
  destruct (p x); [|done]. constructor; [done|].
  rewrite Forall_forall in *. intros y [Hy _]%elem_of_list_filterb. auto.
Qed.

Lemma nodup_filterb (p : A → bool) l : NoDup l → NoDup (List.filter p l).
Proof.
  induction 1; simpl; [constructor|]. destruct (p x); [|done].
  constructor; [|done]. rewrite elem_of_list_filterb. naive_solver.
Qed.
End positions.

Lemma position_or_len_fmap {A B} (f : A → B) (p : B → bool) l :
  position_or_len p (f <$> l) = position_or_len (λ x, p (f x)) l.
Proof. induction l; simpl; [done|]. destruct (p _); [done|]. by f_equal. Qed.

Lemma find_fmap_ext {A B} (f : A → B) (l : list A) (g : B → bool) :
  List.find g (f <$> l) = f <$> List.find (λ x, g (f x)) l.
Proof. induction l; simpl; [done|]. by destruct (g _). Qed.

Lemma find_elem_of {A} (p : A → bool) l x :
  List.find p l = Some x → x ∈ l ∧ p x = true.
Proof. intros H%List.find_some. by rewrite list_elem_of_In. Qed.

Lemma find_none_iff {A} (p : A → bool) l :
  List.find p l = None ↔ ∀ x, x ∈ l → p x = false.
Proof.
  split.
  - intros H x Hx. apply (List.find_none _ _ H). by apply list_elem_of_In.
  - induction l as [|y l IH]; simpl; [done|]. intros H.
    rewrite (H y) by (by left). apply IH. intros. apply H. by right.
Qed.

Lemma find_ext {A} (f g : A → bool) l :
  (∀ x, f x = g x) → List.find f l = List.find g l.
Proof. intros Hfg. induction l as [|x l IH]; simpl; [done|]. by rewrite Hfg, IH. Qed.

Lemma find_filterb {A} (f g : A → bool) l :
  List.find f (List.filter g l) = List.find (λ x, g x && f x) l.
Proof. induction l as [|x l IH]; simpl; [done|]. destruct (g x); simpl; by rewrite IH. Qed.

(** The unique member of [l] that satisfies [p] is the one [find] returns. *)
Lemma find_unique {A} (p : A → bool) l x :
  x ∈ l → p x = true → (∀ y, y ∈ l → p y = true → y = x) →
  List.find p l = Some x.
Proof.
  intros Hx Hp Hu. destruct (List.find p l) as [y|] eqn:E.
  - apply find_elem_of in E as [Hy Hpy]. by rewrite (Hu y).
  - rewrite find_none_iff in E. by rewrite (E x) in Hp.
Qed.

Lemma existsb_elem_of {A} (p : A → bool) l :
  List.existsb p l = true ↔ ∃ x, x ∈ l ∧ p x = true.
Proof. rewrite List.existsb_exists. by setoid_rewrite list_elem_of_In. Qed.

Lemma existsb_false {A} (p : A → bool) l :
  List.existsb p l = false ↔ ∀ x, x ∈ l → p x = false.
Proof.
  rewrite <-not_true_iff_false, existsb_elem_of. split.
  - intros H x Hx. destruct (p x) eqn:E; [|done]. naive_solver.
  - intros H (x & Hx & Hp). rewrite H in Hp; done.
Qed.

Lemma elem_of_option_list {A} (o : option A) (x : A) : x ∈ option_list o ↔ o = Some x.
Proof. destruct o as [y|]; simpl; rewrite ?list_elem_of_singleton, ?elem_of_nil; naive_solver. Qed.

Lemma list_last_snoc {A} (l : list A) (d : A) :
  l ≠ [] → l = removelast l ++ [List.last l d].
Proof. apply app_removelast_last. Qed.

(** * Ordered maps *)

Definition key_le_pair {A} (x y : Z * A) : Prop := x.1 ≤ y.1.
#[export] Instance key_le_pair_dec {A} (x y : Z * A) : Decision (key_le_pair x y).
Proof. unfold key_le_pair. apply _. Defined.
#[export] Instance key_le_pair_total {A} : Total (@key_le_pair A).
Proof. intros x y. unfold key_le_pair. lia. Qed.
#[export] Instance key_le_pair_trans {A} : Transitive (@key_le_pair A).
Proof. intros x y z. unfold key_le_pair. lia. Qed.

(** The iteration order of a [BTreeMap] with integer keys. *)
Definition btree_iter {A} (m : gmap Z A) : list (Z * A) := merge_sort key_le_pair (map_to_list m).

Lemma elem_btree_iter {A} (m : gmap Z A) k x : (k, x) ∈ btree_iter m ↔ m !! k = Some x.
Proof. unfold btree_iter. by rewrite merge_sort_Permutation, elem_of_map_to_list. Qed.

Lemma btree_iter_nodup {A} (m : gmap Z A) : NoDup (btree_iter m).*1.
Proof. unfold btree_iter. rewrite merge_sort_Permutation. apply NoDup_fst_map_to_list. Qed.

(** The last entry is the one with the greatest key. *)
Lemma btree_last {A} (m : gmap Z A) k x :
  last (btree_iter m) = Some (k, x) →
  m !! k = Some x ∧ ∀ k', is_Some (m !! k') → k' ≤ k.
Proof.
  intros Hl. split.
  { apply elem_btree_iter. apply last_Some in Hl as [l ->]. rewrite elem_of_app. right. by left. }
  intros k' [x' Hx']. apply elem_btree_iter in Hx'.
  pose proof (StronglySorted_merge_sort key_le_pair (map_to_list m)) as Hs.
  fold (btree_iter m) in Hs. apply last_Some in Hl as [l Hl]. rewrite Hl in Hs, Hx'.
  apply elem_of_app in Hx' as [Hin|Hin].
  - clear Hl. induction l as [|y l IH]; [by apply elem_of_nil in Hin|].
    cbn in Hs. apply StronglySorted_inv in Hs as [Hs Hall].
    apply elem_of_cons in Hin as [<-|Hin]; [|by apply IH].
    rewrite Forall_forall in Hall. apply (Hall (k, x)). rewrite elem_of_app. right. by left.
  - apply list_elem_of_singleton in Hin. by simplify_eq.
Qed.

Lemma btree_last_none {A} (m : gmap Z A) : last (btree_iter m) = None ↔ m = ∅.
Proof.
  rewrite last_None. split.
  - intros Hm. apply map_empty. intros k. destruct (m !! k) as [x|] eqn:E; [|done].
    apply elem_btree_iter in E. rewrite Hm in E. by apply elem_of_nil in E.
  - intros ->. unfold btree_iter. by rewrite map_to_list_empty.
Qed.

#[export] Hint Resolve sorted_filterb nodup_filterb : zs.

(** * Sums over maps *)

(** The sum of [f] over the values of a map, in any order. *)
Definition map_sum {K A} `{Countable K} (f : K → A → Z) (m : gmap K A) : Z :=
  map_fold (λ k a acc, f k a + acc) 0 m.

Section map_sum.
Context {K A : Type} `{Countable K}.
Implicit Types (f g : K → A → Z) (m : gmap K A).

Lemma map_sum_empty f : map_sum f ∅ = 0.
Proof. apply map_fold_empty. Qed.
Lemma map_sum_insert f m k a : m !! k = None → map_sum f (<[k := a]> m) = f k a + map_sum f m.
Proof. intros Hk. unfold map_sum. rewrite map_fold_insert_L; [done|lia|done]. Qed.
Lemma map_sum_delete f m k a : m !! k = Some a → map_sum f m = f k a + map_sum f (delete k m).
Proof. intros Hk. rewrite <-map_sum_insert by apply lookup_delete_eq. by rewrite insert_delete_id. Qed.
Lemma map_sum_ext f g m : (∀ k a, m !! k = Some a → f k a = g k a) → map_sum f m = map_sum g m.
Proof.
  induction m as [|k a m Hk IH] using map_ind; intros Hfg; [by rewrite !map_sum_empty|].
  rewrite !map_sum_insert by done. f_equal; [apply Hfg; by simplify_map_eq|].
  apply IH. intros k' a' Hk'. apply Hfg. by rewrite lookup_insert_ne by naive_solver.
Qed.
Lemma map_sum_le f g m : (∀ k a, m !! k = Some a → f k a ≤ g k a) → map_sum f m ≤ map_sum g m.
Proof.
  induction m as [|k a m Hk IH] using map_ind; intros Hfg; [by rewrite !map_sum_empty|].
  rewrite !map_sum_insert by done. apply Z.add_le_mono; [apply Hfg; by simplify_map_eq|].
  apply IH. intros k' a' Hk'. apply Hfg. by rewrite lookup_insert_ne by naive_solver.
Qed.
Lemma map_sum_nonneg f m : (∀ k a, m !! k = Some a → 0 ≤ f k a) → 0 ≤ map_sum f m.
Proof.
  intros Hf. transitivity (map_sum (λ _ (_ : A), 0) m).
  - clear Hf. induction m as [|k a m Hk IH] using map_ind; [done|]. by rewrite map_sum_insert.
  - by apply map_sum_le.
Qed.
End map_sum.

(** * Filters *)

Lemma filter_all {A} (P : A → Prop) `{∀ x, Decision (P x)} (l : list A) : (∀ x, x ∈ l → P x) → filter P l = l.
Proof.
  induction l as [|x l IH]; intros Hl; [done|]. rewrite filter_cons_True by (apply Hl; by left).
  f_equal. apply IH. intros y Hy. apply Hl. by right.
Qed.
Lemma filter_none {A} (P : A → Prop) `{∀ x, Decision (P x)} (l : list A) : (∀ x, x ∈ l → ¬ P x) → filter P l = [].
Proof.
  induction l as [|x l IH]; intros Hl; [done|]. rewrite filter_cons_False by (apply Hl; by left).
  apply IH. intros y Hy. apply Hl. by right.
Qed.

(** Lists grouped by a key: the elements with one key are its group. *)
Lemma filter_bind_key {A} (key : A → option string) (f : string → list A) keys t :
  NoDup keys → (∀ k x, x ∈ f k → key x = Some k) → (t ∉ keys → f t = []) →
  filter (λ x, key x = Some t) (keys ≫= f) = f t.
Proof.
  intros Hnd Hkey. induction Hnd as [|k keys Hk Hnd IH]; intros Hno.
  { symmetry. apply Hno, not_elem_of_nil. }
  rewrite bind_cons, filter_app. destruct (decide (k = t)) as [<-|Hne].
  - rewrite (filter_all _ (f k)) by (intros; by apply Hkey). rewrite filter_none; [by rewrite app_nil_r|].
    intros x (k' & Hx & Hk')%list_elem_of_bind Heq. apply Hkey in Hx. congruence.
  - rewrite filter_none, IH; [done| |]; [intros Ht; apply Hno; rewrite elem_of_cons; naive_solver|].
    intros x Hx Heq. apply Hkey in Hx. congruence.
Qed.

Lemma filter_split {A} (P Q : A → Prop) `{∀ x, Decision (P x), ∀ x, Decision (Q x)} (l : list A) :
  filter (λ x, P x ∨ Q x) l ≡ₚ filter P l ++ filter Q (filter (λ x, ¬ P x) l).
Proof.
  induction l as [|x l IH]; [done|]. destruct (decide (P x)) as [HP|HP].
  - rewrite filter_cons_True, (filter_cons_True P), filter_cons_False by tauto. cbn. by rewrite IH.
  - rewrite (filter_cons_False P), (filter_cons_True (λ x, ¬ P x)) by tauto.
    destruct (decide (Q x)) as [HQ|HQ].
    + rewrite filter_cons_True, (filter_cons_True Q) by tauto. rewrite IH. apply Permutation_middle.
    + rewrite filter_cons_False, (filter_cons_False Q) by tauto. done.
Qed.
