(* ===== verification/Pagination.v ===== *)
(** Cursors and pages (pkg/primitives/src/pagination.rs): the choice of a
    cursor with its bounds, the opaque text a cursor travels as, and the
    [Paginator] that notes the first and the last position while it is
    iterated.

    serde_json's text and base64 are parameters of [JsonText]; [JsonTextLaws]
    states that both are decoded to what was encoded.  The JSON values the
    derived [Serialize] and [Deserialize] of the cursors exchange with
    serde_json are written out. *)
From S2P Require Import Prelude.

(** * Bounds and cursors *)

(** [std::ops::Bound]. *)
Inductive Bound (Pos : Type) := Included (h : Pos) | Excluded (h : Pos) | Unbounded.
Arguments Included {Pos} _.
Arguments Excluded {Pos} _.
Arguments Unbounded {Pos}.

Inductive CursorChoiceAfter (Pos : Type) := After (pos : Pos) | AfterInclusive (pos : Pos).
Arguments After {Pos} _.
Arguments AfterInclusive {Pos} _.
Inductive CursorChoiceBefore (Pos : Type) := Before (pos : Pos) | BeforeInclusive (pos : Pos).
Arguments Before {Pos} _.
Arguments BeforeInclusive {Pos} _.
Inductive CursorChoice (Pos : Type) :=
| CursorAfter (a : CursorChoiceAfter Pos)
| CursorBefore (b : CursorChoiceBefore Pos).
Arguments CursorAfter {Pos} _.
Arguments CursorBefore {Pos} _.

(** [Cursor]: what a page returns. *)
Record Cursor (Pos : Type) := mk_cursor {
  cur_after : option (CursorChoiceAfter Pos);
  cur_before : option (CursorChoiceBefore Pos);
}.
Arguments mk_cursor {Pos} _ _.
Arguments cur_after {Pos} _.
Arguments cur_before {Pos} _.

Section cursors.
Context {Pos NewPos : Type}.

Definition after_inner (a : CursorChoiceAfter Pos) : Pos :=
  match a with After p => p | AfterInclusive p => p end.
Definition after_inclusive (a : CursorChoiceAfter Pos) : CursorChoiceAfter Pos :=
  match a with After p => AfterInclusive p | AfterInclusive p => AfterInclusive p end.
Definition after_to_bound (a : CursorChoiceAfter Pos) : Bound Pos :=
  match a with After p => Excluded p | AfterInclusive p => Included p end.
Definition after_map_pos (f : Pos → NewPos) (a : CursorChoiceAfter Pos) : CursorChoiceAfter NewPos :=
  match a with After p => After (f p) | AfterInclusive p => AfterInclusive (f p) end.

Definition before_inner (b : CursorChoiceBefore Pos) : Pos :=
  match b with Before p => p | BeforeInclusive p => p end.
Definition before_inclusive (b : CursorChoiceBefore Pos) : CursorChoiceBefore Pos :=
  match b with Before p => BeforeInclusive p | BeforeInclusive p => BeforeInclusive p end.
Definition before_to_bound (b : CursorChoiceBefore Pos) : Bound Pos :=
  match b with Before p => Excluded p | BeforeInclusive p => Included p end.
Definition before_map_pos (f : Pos → NewPos) (b : CursorChoiceBefore Pos) : CursorChoiceBefore NewPos :=
  match b with Before p => Before (f p) | BeforeInclusive p => BeforeInclusive (f p) end.

Definition cursor_inner (c : CursorChoice Pos) : Pos :=
  match c with CursorAfter a => after_inner a | CursorBefore b => before_inner b end.
Definition cursor_inclusive (c : CursorChoice Pos) : CursorChoice Pos :=
  match c with
  | CursorAfter a => CursorAfter (after_inclusive a)
  | CursorBefore b => CursorBefore (before_inclusive b)
  end.
Definition cursor_map_pos (f : Pos → NewPos) (c : CursorChoice Pos) : CursorChoice NewPos :=
  match c with
  | CursorAfter a => CursorAfter (after_map_pos f a)
  | CursorBefore b => CursorBefore (before_map_pos f b)
  end.
End cursors.

(** * Paginator *)

Record Paginator (Item Pos : Type) := mk_paginator {
  pg_iter : list Item;
  pg_before : option (CursorChoiceBefore Pos);
  pg_after : option (CursorChoiceAfter Pos);
}.
Arguments mk_paginator {Item Pos} _ _ _.
Arguments pg_iter {Item Pos} _.
Arguments pg_before {Item Pos} _.
Arguments pg_after {Item Pos} _.

Section paginator.
Context {E A Pos : Type} (item_to_pos : outcome E A → option Pos).
Notation Item := (outcome E A).

Definition paginator_new (iter : list Item) : Paginator Item Pos := mk_paginator iter None None.

(** [Iterator::next]. *)
Definition paginator_next (p : Paginator Item Pos) : Paginator Item Pos * option Item :=
  match pg_iter p with
  | [] => (p, None)
  | item :: rest =>
      match item_to_pos item with
      | Some pos =>
          (mk_paginator rest
             (match pg_before p with None => Some (Before pos) | b => b end)
             (Some (After pos)), Some item)
      | None => (mk_paginator rest (pg_before p) (pg_after p), Some item)
      end
  end.

(** [collect::<Result<Vec<_>, _>>], which stops at the first error; the
    iterator yields no more than [fuel] items. *)
Fixpoint paginator_run (fuel : nat) (p : Paginator Item Pos) : Paginator Item Pos * outcome E (list A) :=
  match fuel with
  | O => (p, Ok [])
  | S fuel =>
      let '(p, item) := paginator_next p in
      match item with
      | None => (p, Ok [])
      | Some (Err e) => (p, Err e)
      | Some (Panic m) => (p, Panic m)
      | Some (Ok a) =>
          let '(p, rest) := paginator_run fuel p in
          (p, let? l := rest in Ok (a :: l))
      end
  end.
Definition paginator_collect (iter : list Item) : Cursor Pos * outcome E (list A) :=
  let '(p, collected) := paginator_run (S (length iter)) (paginator_new iter) in
  (mk_cursor (pg_after p) (pg_before p), collected).

(** ** The cursor of a page *)

Lemma paginator_run_ok fuel (l : list A) before after :
  (length l < fuel)%nat →
  paginator_run fuel (mk_paginator (Ok <$> l) before after) =
    (mk_paginator []
       (match before with Some b => Some b | None => Before <$> head (omap (item_to_pos ∘ Ok) l) end)
       (match last (omap (item_to_pos ∘ Ok) l) with Some pos => Some (After pos) | None => after end),
     Ok l).
Proof.
  revert fuel before after. induction l as [|a l IH]; intros [|fuel] before after Hf; cbn [length] in Hf; try lia.
  { by destruct before. }
  rewrite fmap_cons. cbn [paginator_run]. unfold paginator_next. cbn [pg_iter pg_before pg_after].
  cbn [omap list_omap]. change ((item_to_pos ∘ Ok) a) with (item_to_pos (Ok a)).
  destruct (item_to_pos (Ok a)) as [pos|]; cbv beta iota; (rewrite IH by lia); cbn [outcome_bind]; [|done].
  rewrite last_cons. by destruct before, (last (omap _ l)).
Qed.

(** Of a page without errors the cursor names the first and the last position. *)
Lemma paginator_collect_ok (l : list A) :
  paginator_collect (Ok <$> l) =
    (mk_cursor (After <$> last (omap (item_to_pos ∘ Ok) l)) (Before <$> head (omap (item_to_pos ∘ Ok) l)), Ok l).
Proof.
  unfold paginator_collect, paginator_new. rewrite paginator_run_ok by (rewrite length_fmap; lia).
  cbn [pg_after pg_before]. by destruct (last (omap _ l)).
Qed.

(** A page with an error is that error. *)
Lemma paginator_collect_err (l : list A) e rest :
  (paginator_collect ((Ok <$> l) ++ Err e :: rest)).2 = Err e.
Proof.
  unfold paginator_collect.
  assert (∀ fuel before after, (length l < fuel)%nat →
    (paginator_run fuel (mk_paginator ((Ok <$> l) ++ Err e :: rest) before after)).2 = Err e) as Hrun.
  { induction l as [|a l IH]; intros [|fuel] before after Hf; cbn [length] in Hf; try lia;
      cbn [fmap list_fmap app paginator_run]; unfold paginator_next; cbn [pg_iter pg_before pg_after].
    - by destruct (item_to_pos (Err e)).
    - destruct (item_to_pos (Ok a)); cbv beta iota.
      all: match goal with |- context [paginator_run ?n ?p] =>
             specialize (IH n (pg_before p) (pg_after p) ltac:(lia)); cbn [pg_before pg_after] in IH end.
      all: destruct (paginator_run _ _) as [pg r]; cbn [snd] in *; by rewrite IH. }
  unfold paginator_new. destruct (paginator_run _ _) as [p r] eqn:Er. simpl.
  change r with ((p, r).2). rewrite <-Er. apply Hrun. rewrite length_app, length_fmap. simpl. lia.
Qed.
End paginator.

(** * The text of a cursor *)

Inductive json := JNum (n : Z) | JStr (s : string) | JObj (members : list (string * json)).

Class JsonText := {
  json_to_vec : json → list Z;
  json_from_slice : list Z → option json;
  b64_encode : list Z → string;
  b64_decode : string → option (list Z);
}.
Class JsonTextLaws `{JsonText} : Prop := {
  json_text_roundtrip v : json_from_slice (json_to_vec v) = Some v;
  b64_roundtrip bytes : b64_decode (b64_encode bytes) = Some bytes;
}.

(** A type with its derived serialization. *)
Class Serde (T : Type) := {
  to_json : T → json;
  of_json : json → option T;
}.

(** The one member of an object with that name; serde rejects a repeated field. *)
Definition json_field (name : string) (v : json) : option json :=
  match v with
  | JObj members =>
      match filter (λ m, m.1 = name) members with
      | [(_, x)] => Some x
      | _ => None
      end
  | _ => None
  end.

#[export] Instance serde_after {Pos} `{Serde Pos} : Serde (CursorChoiceAfter Pos) := {|
  to_json a := match a with
               | After p => JObj [("After"%string, to_json p)]
               | AfterInclusive p => JObj [("AfterInclusive"%string, to_json p)]
               end;
  of_json v := match v with
               | JObj [(tag, x)] =>
                   if decide (tag = "After"%string) then After <$> of_json x
                   else if decide (tag = "AfterInclusive"%string) then AfterInclusive <$> of_json x
                   else None
               | _ => None
               end;
|}.
#[export] Instance serde_before {Pos} `{Serde Pos} : Serde (CursorChoiceBefore Pos) := {|
  to_json b := match b with
               | Before p => JObj [("Before"%string, to_json p)]
               | BeforeInclusive p => JObj [("BeforeInclusive"%string, to_json p)]
               end;
  of_json v := match v with
               | JObj [(tag, x)] =>
                   if decide (tag = "Before"%string) then Before <$> of_json x
                   else if decide (tag = "BeforeInclusive"%string) then BeforeInclusive <$> of_json x
                   else None
               | _ => None
               end;
|}.
(** [#[serde(untagged)]]: the first variant that fits. *)
#[export] Instance serde_cursor {Pos} `{Serde Pos} : Serde (CursorChoice Pos) := {|
  to_json c := match c with CursorAfter a => to_json a | CursorBefore b => to_json b end;
  of_json v := match of_json v with
               | Some a => Some (CursorAfter a)
               | None => CursorBefore <$> of_json v
               end;
|}.

Section opaque.
Context `{JsonText}.

(** [Opaque]: the JSON text in base64. *)
Definition opaque_serialize {T} `{Serde T} (x : T) : string := b64_encode (json_to_vec (to_json x)).
Definition opaque_deserialize {T} `{Serde T} (s : string) : option T :=
  match b64_decode s with
  | None => None
  | Some bytes => match json_from_slice bytes with None => None | Some v => of_json v end
  end.

(** [OpaqueClientCursor]: the texts of both ends of a page. *)
Definition into_opaque {Pos} `{Serde Pos} (c : Cursor Pos) : option string * option string :=
  (opaque_serialize <$> cur_after c, opaque_serialize <$> cur_before c).

Context `{!JsonTextLaws}.

Lemma opaque_roundtrip {T} `{Serde T} (x : T) : opaque_deserialize (opaque_serialize x) = of_json (to_json x).
Proof. unfold opaque_deserialize, opaque_serialize. by rewrite b64_roundtrip, json_text_roundtrip. Qed.

(** The texts a page returns for its two ends are what the next request's
    [cursor] expects: read as a [CursorChoice] they name the same position, and
    the text of an after-cursor never reads as a before-cursor. *)
Theorem page_ends_are_cursors {Pos} `{Serde Pos} (Hpos : ∀ p : Pos, of_json (to_json p) = Some p)
    (c : Cursor Pos) :
  ((λ s, opaque_deserialize (T := CursorChoice Pos) s) <$> (into_opaque c).1 = (λ a, Some (CursorAfter a)) <$> cur_after c) ∧
  ((λ s, opaque_deserialize (T := CursorChoice Pos) s) <$> (into_opaque c).2 = (λ b, Some (CursorBefore b)) <$> cur_before c).
Proof.
  unfold opaque_deserialize. unfold into_opaque, opaque_serialize.
  destruct c as [[[p|p]|] [[q|q]|]]; simpl; split; try done;
    by rewrite b64_roundtrip, json_text_roundtrip; simpl; rewrite Hpos.
Qed.
End opaque.
