(* ===== verification/Element.v ===== *)
(** The 256-bit [Element] of pkg/element: representation, conversions to and
    from words, bytes and field elements, and its least significant bits.

    An [Element] wraps an [ethnum::U256]; it is modelled by its value, an
    integer of [0, 2^256) ([wf_element]).  Bytes are integers of [0, 256),
    arrays are lists.  The field type [acvm::FieldElement] and the Poseidon
    permutation are other crates: they are the operations of the class
    [FieldLib], with the documented behaviour the code relies on in
    [FieldLaws]. *)
From S2P Require Import Prelude.

(** * Representation *)

Abbreviation Element := Z.
Definition wf_element (e : Element) : Prop := in_width 256 e.

Definition ZERO : Element := 0.
Definition ONE : Element := 1.
Definition MAX : Element := 2 ^ 256 - 1.
Definition NULL_HASH : Element := ZERO.
Definition BYTE_HASH_IV : Element := 2.
Definition MODULUS : Element :=
  0x30644E72E131A029B85045B68181585D2833E84879B9709143E1F593F0000001.

Definition as_bool (self : Element) : option bool :=
  if decide (self = ZERO) then Some false
  else if decide (self = ONE) then Some true
  else None.

Definition is_zero (self : Element) : bool := bool_decide (self = ZERO).

Definition from_bool (value : bool) : Element :=
  match value with false => ZERO | true => ONE end.

(** [From<uN>] is the inclusion; [TryFrom<Element> for uN] checks the width. *)
Definition try_into_uint (w : Z) (value : Element) : option Z :=
  if decide (value < 2 ^ w) then Some value else None.

(** * Words *)

Definition into_words (e : Element) : Z * Z := (e ≫ 128, Z.land e (Z.ones 128)).
Definition u256_from_words (hi lo : Z) : Element := Z.lor (hi ≪ 128) lo.

Definition to_words (self : Element) : list Z :=
  let '(high, low) := into_words self in [high; low].

Definition from_words (high low : Z) : Element := u256_from_words high low.

Definition from_u64_array (a0 a1 a2 a3 : Z) : Element :=
  let low_u128 := Z.lor a0 (wrap 128 (a1 ≪ 64)) in
  let high_u128 := Z.lor a2 (wrap 128 (a3 ≪ 64)) in
  u256_from_words high_u128 low_u128.

Definition to_u64_array (self : Element) : Z * Z * Z * Z :=
  let '(high_u128, low_u128) := into_words self in
  let arr0 := wrap 64 low_u128 in
  let arr1 := wrap 64 (low_u128 ≫ 64) in
  let arr2 := wrap 64 high_u128 in
  let arr3 := wrap 64 (high_u128 ≫ 64) in
  (arr0, arr1, arr2, arr3).

(** * Bytes *)

Definition is_byte (b : Z) : Prop := 0 ≤ b < 2 ^ 8.

Definition to_le_bytes (self : Element) : list Z := Z_to_little_endian 32 8 self.
Definition from_le_bytes (bytes : list Z) : Element := little_endian_to_Z 8 bytes.
Definition to_be_bytes (self : Element) : list Z := reverse (to_le_bytes self).
Definition from_be_bytes (bytes : list Z) : Element := from_le_bytes (reverse bytes).

Definition decompose_be (self : Element) : Element * Element :=
  let bytes := to_be_bytes self in
  let high_bytes := take 16 bytes in
  let low_bytes := drop 16 bytes in
  let high := from_be_bytes (replicate 16 0 ++ high_bytes) in
  let low := from_be_bytes (replicate 16 0 ++ low_bytes) in
  (high, low).

Definition decompose_le (self : Element) : Element * Element :=
  let bytes := to_le_bytes self in
  let low_bytes := take 16 bytes in
  let high_bytes := drop 16 bytes in
  let high := from_le_bytes (high_bytes ++ replicate 16 0) in
  let low := from_le_bytes (low_bytes ++ replicate 16 0) in
  (high, low).

(** Borsh writes the 32 big-endian bytes; reading takes the first 32 bytes of
    the input and fails on a short one. *)
Definition borsh_element (self : Element) : list Z := to_be_bytes self.
Definition unborsh_element (input : list Z) : option (Element * list Z) :=
  if decide (32 ≤ length input)%nat
  then Some (from_be_bytes (take 32 input), drop 32 input)
  else None.

(** * Bits *)

(** A byte viewed through [Msb0]: most significant bit first. *)
Definition byte_bits (b : Z) : list bool := (λ i, Z.testbit b i) <$> reverse (seqZ 0 8).

Definition to_be_bits (self : Element) : list bool :=
  concat (byte_bits <$> to_be_bytes self).

Record Lsb := mk_lsb { bits : list bool; count : nat }.

(** [bits.len() - count] underflows, and the slice panics, when more bits are
    asked for than there are. *)
Definition as_slice (self : Lsb) : outcome Empty_set (list bool) :=
  if decide (count self ≤ length (bits self))%nat
  then Ok (drop (length (bits self) - count self) (bits self))
  else Panic "attempt to subtract with overflow".

Definition lsb (self : Element) (count : nat) : Lsb := mk_lsb (to_be_bits self) count.

(** The bits behind an [Lsb] handle of at most 256 bits. *)
Definition lsb_bits (self : Element) (count : nat) : list bool :=
  drop (256 - count) (to_be_bits self).

Definition lsb_eqb (a b : Lsb) : outcome Empty_set bool :=
  let? x := as_slice a in
  let? y := as_slice b in
  Ok (bool_decide (x = y)).

Definition collides_with (DEPTH : nat) (self other : Element) : outcome Empty_set bool :=
  lsb_eqb (lsb self (DEPTH - 1)) (lsb other (DEPTH - 1)).

(** * The BN254 field and Poseidon *)

Class FieldLib := {
  base : Type;
  from_be_bytes_reduce : list Z → base;
  base_to_be_bytes : base → list Z;
  poseidon_hash : list base → base;
}.

(** Documented behaviour of the field library: a field element prints as the
    32 bytes of its canonical representative, and reading bytes reduces the
    number they denote. *)
Class FieldLaws `{FieldLib} : Prop := {
  base_bytes_length b : length (base_to_be_bytes b) = 32%nat;
  base_bytes_range b : Forall is_byte (base_to_be_bytes b);
  base_canonical b : from_be_bytes (base_to_be_bytes b) < MODULUS;
  base_reduce bs :
    Forall is_byte bs →
    from_be_bytes (base_to_be_bytes (from_be_bytes_reduce bs)) =
    from_be_bytes bs mod MODULUS;
  base_reduce_ext bs bs' :
    Forall is_byte bs → Forall is_byte bs' →
    from_be_bytes bs mod MODULUS = from_be_bytes bs' mod MODULUS →
    from_be_bytes_reduce bs = from_be_bytes_reduce bs';
}.

Definition from_base `{FieldLib} (b : base) : Element := from_be_bytes (base_to_be_bytes b).
Definition to_base `{FieldLib} (self : Element) : base :=
  from_be_bytes_reduce (to_be_bytes self).

(** A concrete library: field elements are their canonical representatives and
    the "hash" is a polynomial; only used to run the model. *)
Definition toy_hash (xs : list Z) : Z :=
  foldl (λ acc x, Z.land (acc * 1000003 + x + 1) (Z.ones 253)) 7 xs.
(** The representative of a number; most are in range already. *)
Definition toy_reduce (x : Z) : Z := if decide (0 ≤ x < MODULUS) then x else x mod MODULUS.
Lemma toy_reduce_mod x : toy_reduce x = x mod MODULUS.
Proof. unfold toy_reduce. case_decide; [|done]. by rewrite Z.mod_small. Qed.
#[export] Instance toy_field : FieldLib := {|
  base := Z;
  from_be_bytes_reduce bs := toy_reduce (from_be_bytes bs);
  base_to_be_bytes b := to_be_bytes (toy_reduce b);
  poseidon_hash := toy_hash;
|}.

(** * Byte and word lemmas *)

#[global] Arguments to_le_bytes : simpl never.
#[global] Arguments to_be_bytes : simpl never.
#[global] Arguments to_be_bits : simpl never.
#[global] Arguments lsb_bits : simpl never.
#[global] Arguments MODULUS : simpl never.

Lemma modulus_bounds : 0 < MODULUS < 2 ^ 256.
Proof. by vm_compute. Qed.

Lemma to_le_bytes_length e : length (to_le_bytes e) = 32%nat.
Proof.
  unfold to_le_bytes. apply Nat2Z.inj. by rewrite length_Z_to_little_endian.
Qed.

Lemma to_be_bytes_length e : length (to_be_bytes e) = 32%nat.
Proof. unfold to_be_bytes. by rewrite length_reverse, to_le_bytes_length. Qed.

Lemma to_le_bytes_range e : Forall is_byte (to_le_bytes e).
Proof. by apply Z_to_little_endian_bound. Qed.

Lemma to_be_bytes_range e : Forall is_byte (to_be_bytes e).
Proof. unfold to_be_bytes. rewrite Forall_reverse. apply to_le_bytes_range. Qed.

Lemma from_le_bytes_range bs :
  length bs = 32%nat → Forall is_byte bs → wf_element (from_le_bytes bs).
Proof.
  intros Hl Hb. pose proof (little_endian_to_Z_bound 8 bs ltac:(lia) Hb) as H.
  rewrite Hl in H. exact H.
Qed.

Lemma from_be_bytes_range bs :
  length bs = 32%nat → Forall is_byte bs → wf_element (from_be_bytes bs).
Proof.
  intros. apply from_le_bytes_range; [by rewrite length_reverse|by rewrite Forall_reverse].
Qed.

Lemma from_to_le_bytes e : wf_element e → from_le_bytes (to_le_bytes e) = e.
Proof.
  intros H. unfold from_le_bytes, to_le_bytes.
  rewrite little_endian_to_Z_to_little_endian by lia.
  by apply Z.mod_small.
Qed.

Lemma from_to_be_bytes e : wf_element e → from_be_bytes (to_be_bytes e) = e.
Proof.
  intros H. unfold from_be_bytes, to_be_bytes. rewrite reverse_involutive.
  by apply from_to_le_bytes.
Qed.

Lemma to_from_le_bytes bs :
  length bs = 32%nat → Forall is_byte bs → to_le_bytes (from_le_bytes bs) = bs.
Proof.
  intros Hl Hb. unfold from_le_bytes, to_le_bytes.
  rewrite Z_to_little_endian_to_Z; [done| |lia|done]. by rewrite Hl.
Qed.

Lemma to_from_be_bytes bs :
  length bs = 32%nat → Forall is_byte bs → to_be_bytes (from_be_bytes bs) = bs.
Proof.
  intros Hl Hb. unfold from_be_bytes, to_be_bytes.
  rewrite to_from_le_bytes, reverse_involutive; [done|by rewrite length_reverse|].
  by rewrite Forall_reverse.
Qed.

Lemma le_to_Z_app n a b :
  0 ≤ n → little_endian_to_Z n (a ++ b) =
  Z.lor (little_endian_to_Z n a) (little_endian_to_Z n b ≪ (Z.of_nat (length a) * n)).
Proof.
  intros Hn. induction a as [|x a IH]; simpl.
  - by rewrite Z.shiftl_0_r.
  - rewrite IH, Z.shiftl_lor, Z.lor_assoc, Z.shiftl_shiftl by lia.
    repeat f_equal. lia.
Qed.

Lemma le_to_Z_zeros n k : little_endian_to_Z n (replicate k 0) = 0.
Proof. induction k as [|k IH]; simpl; [done|]. by rewrite IH, Z.shiftl_0_l. Qed.

Lemma le_to_Z_append_zeros n a k :
  0 ≤ n → little_endian_to_Z n (a ++ replicate k 0) = little_endian_to_Z n a.
Proof.
  intros. rewrite le_to_Z_app, le_to_Z_zeros, Z.shiftl_0_l, Z.lor_0_r by done. done.
Qed.

Lemma lor_shiftl_split e n :
  0 ≤ n → Z.lor ((e ≫ n) ≪ n) (Z.land e (Z.ones n)) = e.
Proof.
  intros Hn. apply Z.bits_inj_iff'. intros i Hi.
  rewrite Z.lor_spec, Z.shiftl_spec, Z.land_spec by lia.
  destruct (decide (i < n)) as [Hlt|Hge].
  - rewrite Z.testbit_neg_r, Z.ones_spec_low by lia. simpl. apply andb_true_r.
  - rewrite Z.shiftr_spec, Z.ones_spec_high by lia. rewrite andb_false_r, orb_false_r.
    f_equal. lia.
Qed.

(** Two numbers below [2^n] whose sum of shifted halves is given are its
    halves: the converse of [lor_shiftl_split]. *)
Lemma split_lor_shiftl hi lo n :
  0 ≤ n → 0 ≤ lo < 2 ^ n → 0 ≤ hi →
  (Z.lor (hi ≪ n) lo) ≫ n = hi ∧ Z.land (Z.lor (hi ≪ n) lo) (Z.ones n) = lo.
Proof.
  intros Hn Hlo Hhi. rewrite Z.shiftr_lor, Z.shiftr_shiftl_l, Z.sub_diag, Z.shiftl_0_r by lia.
  rewrite Z.shiftr_div_pow2, (Z.div_small lo), Z.lor_0_r by lia. split; [done|].
  rewrite Z.land_lor_distr_l, !Z.land_ones by lia.
  rewrite Z.shiftl_mul_pow2, Z.mod_mul, Z.lor_0_l by lia. by apply Z.mod_small.
Qed.

Lemma words_roundtrip e : u256_from_words (into_words e).1 (into_words e).2 = e.
Proof. apply lor_shiftl_split. lia. Qed.

Lemma u64_array_roundtrip e :
  wf_element e →
  let '(a0, a1, a2, a3) := to_u64_array e in from_u64_array a0 a1 a2 a3 = e.
Proof.
  intros He. unfold to_u64_array, into_words. simpl.
  assert (∀ x, 0 ≤ x < 2 ^ 128 →
    Z.lor (wrap 64 x) (wrap 128 (wrap 64 (x ≫ 64) ≪ 64)) = x) as Hhalf.
  { intros x Hx. unfold wrap.
    assert (0 ≤ x ≫ 64 < 2 ^ 64) as Hs.
    { rewrite Z.shiftr_div_pow2 by lia. split; [apply Z.div_pos; lia|].
      apply Z.div_lt_upper_bound; lia. }
    rewrite (Z.mod_small (x ≫ 64)) by done.
    rewrite (Z.mod_small (_ ≪ 64)) by (rewrite Z.shiftl_mul_pow2 by lia; lia).
    rewrite Z.lor_comm, <-Z.land_ones by lia. apply lor_shiftl_split. lia. }
  unfold from_u64_array. rewrite !Hhalf.
  - apply words_roundtrip.
  - rewrite Z.land_ones by lia. apply Z.mod_pos_bound. lia.
  - rewrite Z.shiftr_div_pow2 by lia. destruct He. split; [apply Z.div_pos; lia|].
    apply Z.div_lt_upper_bound; lia.
Qed.

Lemma land_ones_ones e m n : 0 ≤ m ≤ n → Z.land (Z.land e (Z.ones n)) (Z.ones m) = Z.land e (Z.ones m).
Proof.
  intros. rewrite <-Z.land_assoc. f_equal. apply Z.bits_inj_iff'. intros i Hi.
  rewrite Z.land_spec. destruct (decide (i < m)).
  - by rewrite !Z.ones_spec_low by lia.
  - rewrite (Z.ones_spec_high m) by lia. apply andb_false_r.
Qed.

(** The halves of the little-endian byte string are the byte strings of the
    halves of the number. *)
Lemma le_bytes_halves e :
  wf_element e →
  little_endian_to_Z 8 (take 16 (to_le_bytes e)) = (into_words e).2 ∧
  little_endian_to_Z 8 (drop 16 (to_le_bytes e)) = (into_words e).1.
Proof.
  intros He. set (bs := to_le_bytes e).
  assert (Forall is_byte bs) as Hb by apply to_le_bytes_range.
  assert (length bs = 32%nat) as Hl by apply to_le_bytes_length.
  assert (length (take 16 bs) = 16%nat) as Hl' by (rewrite length_take; lia).
  pose proof (little_endian_to_Z_bound 8 (take 16 bs) ltac:(lia) (Forall_take _ _ _ Hb)) as B1.
  pose proof (little_endian_to_Z_bound 8 (drop 16 bs) ltac:(lia) (Forall_drop _ _ _ Hb)) as B2.
  rewrite Hl' in B1.
  assert (e = Z.lor (little_endian_to_Z 8 (drop 16 bs) ≪ 128)
                    (little_endian_to_Z 8 (take 16 bs))) as E.
  { rewrite <-(from_to_le_bytes e He) at 1. fold bs. unfold from_le_bytes.
    rewrite <-(take_drop 16 bs) at 1. rewrite le_to_Z_app, Z.lor_comm, Hl' by lia. done. }
  destruct (split_lor_shiftl (little_endian_to_Z 8 (drop 16 bs))
    (little_endian_to_Z 8 (take 16 bs)) 128) as [E1 E2]; [lia|lia|lia|].
  unfold into_words. simpl. rewrite <-E in E1, E2. done.
Qed.

Lemma decompose_le_words e : wf_element e → decompose_le e = into_words e.
Proof.
  intros He. destruct (le_bytes_halves e He) as [H1 H2].
  unfold decompose_le, from_le_bytes. rewrite !le_to_Z_append_zeros by lia.
  rewrite H1, H2. by destruct (into_words e).
Qed.

Lemma decompose_be_words e : wf_element e → decompose_be e = into_words e.
Proof.
  intros He. destruct (le_bytes_halves e He) as [H1 H2].
  pose proof (to_le_bytes_length e) as Hl.
  unfold decompose_be, from_be_bytes, from_le_bytes, to_be_bytes.
  rewrite !reverse_app, !reverse_replicate, !le_to_Z_append_zeros by lia.
  rewrite take_reverse, drop_reverse, !reverse_involutive, !Hl.
  change (32 - 16)%nat with 16%nat. rewrite H1, H2. by destruct (into_words e).
Qed.

Lemma borsh_element_roundtrip e rest :
  wf_element e → unborsh_element (borsh_element e ++ rest) = Some (e, rest).
Proof.
  intros He. unfold unborsh_element, borsh_element.
  pose proof (to_be_bytes_length e) as Hl.
  rewrite decide_True by (rewrite length_app; lia).
  rewrite take_app_length', drop_app_length', from_to_be_bytes by done. done.
Qed.

(** * Bits *)

Lemma byte_bits_land z :
  byte_bits (Z.land z (Z.ones 8)) = (λ i, Z.testbit z i) <$> reverse (seqZ 0 8).
Proof.
  unfold byte_bits. apply list_fmap_ext. intros k i Hi.
  apply list_elem_of_lookup_2 in Hi. rewrite elem_of_reverse, elem_of_seqZ in Hi.
  rewrite Z.land_spec, Z.ones_spec_low by lia. apply andb_true_r.
Qed.

Lemma bytes_bits_gen (m : nat) z :
  concat (byte_bits <$> reverse (Z_to_little_endian (Z.of_nat m) 8 z)) =
  (λ i, Z.testbit z i) <$> reverse (seqZ 0 (8 * Z.of_nat m)).
Proof.
  revert z. induction m as [|m IH]; intros z; [done|].
  rewrite Nat2Z.inj_succ, Z_to_little_endian_succ by lia.
  rewrite reverse_cons, fmap_app, concat_app, IH.
  change (concat (byte_bits <$> [Z.land z (Z.ones 8)]))
    with (byte_bits (Z.land z (Z.ones 8)) ++ []).
  rewrite app_nil_r, byte_bits_land.
  replace (8 * Z.succ (Z.of_nat m)) with (8 + 8 * Z.of_nat m) by lia.
  rewrite (seqZ_app 0 8 (8 * Z.of_nat m)) by lia.
  rewrite reverse_app, fmap_app. f_equal.
  change (0 + 8) with (8 + 0).
  rewrite <-(fmap_add_seqZ 8 0 (8 * Z.of_nat m)), <-fmap_reverse, <-list_fmap_compose.
  apply list_fmap_ext. intros k i Hi.
  apply list_elem_of_lookup_2 in Hi. rewrite elem_of_reverse, elem_of_seqZ in Hi.
  simpl. rewrite Z.shiftr_spec by lia. f_equal. lia.
Qed.

Lemma to_be_bits_spec e :
  to_be_bits e = (λ i, Z.testbit e i) <$> reverse (seqZ 0 256).
Proof. apply (bytes_bits_gen 32). Qed.

Lemma to_be_bits_length e : length (to_be_bits e) = 256%nat.
Proof. by rewrite to_be_bits_spec, length_fmap, length_reverse, length_seqZ. Qed.

Lemma lsb_bits_spec e (n : nat) :
  (n ≤ 256)%nat → lsb_bits e n = (λ i, Z.testbit e i) <$> reverse (seqZ 0 (Z.of_nat n)).
Proof.
  intros Hn. unfold lsb_bits. rewrite to_be_bits_spec, <-fmap_drop. f_equal.
  replace 256 with (Z.of_nat n + (256 - Z.of_nat n)) by lia.
  rewrite seqZ_app, reverse_app by lia.
  apply drop_app_length'. rewrite length_reverse, length_seqZ. lia.
Qed.

Lemma lsb_bits_length e n : (n ≤ 256)%nat → length (lsb_bits e n) = n.
Proof.
  intros. rewrite lsb_bits_spec, length_fmap, length_reverse, length_seqZ by done. lia.
Qed.

Lemma as_slice_lsb e n : (n ≤ 256)%nat → as_slice (lsb e n) = Ok (lsb_bits e n).
Proof.
  intros. unfold as_slice, lsb, lsb_bits. cbn [bits count].
  rewrite to_be_bits_length. by rewrite decide_True.
Qed.

Lemma lsb_bits_eq a b (n : nat) :
  (n ≤ 256)%nat →
  lsb_bits a n = lsb_bits b n ↔ a mod 2 ^ Z.of_nat n = b mod 2 ^ Z.of_nat n.
Proof.
  intros Hn. rewrite !lsb_bits_spec by done. split.
  - intros H. apply Z.bits_inj_iff'. intros i Hi.
    destruct (decide (i < Z.of_nat n)) as [Hlt|Hge].
    + rewrite !Z.mod_pow2_bits_low by lia.
      assert (i ∈ reverse (seqZ 0 (Z.of_nat n))) as [k Hk]%list_elem_of_lookup.
      { rewrite elem_of_reverse, elem_of_seqZ. lia. }
      apply (f_equal (λ l, l !! k)) in H. rewrite !list_lookup_fmap, Hk in H.
      by simplify_eq/=.
    + by rewrite !Z.mod_pow2_bits_high by lia.
  - intros H. apply list_fmap_ext. intros k i Hi.
    apply list_elem_of_lookup_2 in Hi. rewrite elem_of_reverse, elem_of_seqZ in Hi.
    rewrite <-(Z.mod_pow2_bits_low a (Z.of_nat n)), H by lia.
    apply Z.mod_pow2_bits_low. lia.
Qed.

(** Two elements take the same slot of a tree of depth [DEPTH] exactly when
    they agree modulo [2^(DEPTH-1)]. *)
Lemma collides_with_spec DEPTH a b :
  (DEPTH ≤ 257)%nat →
  collides_with DEPTH a b =
  Ok (bool_decide (a mod 2 ^ Z.of_nat (DEPTH - 1) = b mod 2 ^ Z.of_nat (DEPTH - 1))).
Proof.
  intros H. unfold collides_with, lsb_eqb. rewrite !as_slice_lsb by lia. simpl. f_equal.
  apply bool_decide_ext. apply lsb_bits_eq. lia.
Qed.

(** * Field conversions *)

Section field.
Context `{FieldLaws}.

Lemma from_base_wf b : wf_element (from_base b) ∧ from_base b < MODULUS.
Proof.
  split; [|apply base_canonical].
  apply from_be_bytes_range; [apply base_bytes_length|apply base_bytes_range].
Qed.

Lemma from_base_to_base e : wf_element e → from_base (to_base e) = e mod MODULUS.
Proof.
  intros He. unfold from_base, to_base.
  rewrite base_reduce by apply to_be_bytes_range. by rewrite from_to_be_bytes.
Qed.

(** An element and its aliases modulo the field order have one image. *)
Lemma to_base_mod a b :
  wf_element a → wf_element b → a mod MODULUS = b mod MODULUS → to_base a = to_base b.
Proof.
  intros Ha Hb Hab. apply base_reduce_ext; [apply to_be_bytes_range..|].
  by rewrite !from_to_be_bytes.
Qed.
End field.

#[export] Instance toy_laws : FieldLaws.
Proof.
  assert (∀ z, wf_element (z mod MODULUS)) as Hwf.
  { intros z. pose proof modulus_bounds. pose proof (Z.mod_pos_bound z MODULUS).
    unfold wf_element, in_width. lia. }
  split; unfold base_to_be_bytes, from_be_bytes_reduce, toy_field.
  - intros b. exact (to_be_bytes_length _).
  - intros b. exact (to_be_bytes_range _).
  - intros b. rewrite toy_reduce_mod, from_to_be_bytes by done. by apply Z.mod_pos_bound.
  - intros bs _. rewrite !toy_reduce_mod, from_to_be_bytes by done. by apply Z.mod_mod.
  - intros bs bs' _ _ Hbs. by rewrite !toy_reduce_mod.
Qed.
