(* ===== verification/SignedElement.v ===== *)
(** Arithmetic on elements (pkg/element/src/arith.rs) and signed elements
    (pkg/element/src/signed_element.rs, of which pkg/zk-primitives holds a copy):
    a magnitude of 256 bits with a sign.

    The arithmetic is that of a release build: [+], [-] and [*] of [U256] wrap at
    256 bits, a division by zero panics; [element_shl] and [element_shr] shift by
    a [u8], which is always below 256.  [signed_val] reads a signed element as
    an integer; the theorems say where the operations agree with those of Z. *)
From S2P Require Import Prelude Element.

(** * Elements (arith.rs) *)

Definition element_add (a b : Element) : Element := wrap 256 (a + b).
Definition element_sub (a b : Element) : Element := wrap 256 (a - b).
Definition element_mul (a b : Element) : Element := wrap 256 (a * b).
Definition element_div {E} (a b : Element) : outcome E Element :=
  if decide (b = 0) then Panic "attempt to divide by zero" else Ok (a / b).
Definition element_rem {E} (a b : Element) : outcome E Element :=
  if decide (b = 0) then Panic "attempt to calculate the remainder with a divisor of zero"
  else Ok (a mod b).
Definition element_bitxor (a b : Element) : Element := Z.lxor a b.
Definition element_bitor (a b : Element) : Element := Z.lor a b.
Definition element_bitand (a b : Element) : Element := Z.land a b.
Definition element_shl (a : Element) (rhs : Z) : Element := wrap 256 (Z.shiftl a rhs).
Definition element_shr (a : Element) (rhs : Z) : Element := Z.shiftr a rhs.
Definition element_sum (l : list Element) : Element := foldl element_add ZERO l.
Definition element_product (l : list Element) : Element := foldl element_mul ONE l.

(** * Signed elements *)

Record SignedElement := mk_signed { sg_value : Element; sg_negative : bool }.

#[export] Instance signed_eq_dec : EqDecision SignedElement.
Proof. solve_decision. Defined.

(** Zero is positive. *)
Definition signed_new (v : Element) (negative : bool) : SignedElement :=
  if is_zero v then mk_signed v false else mk_signed v negative.
Definition signed_positive (v : Element) : SignedElement := signed_new v false.
Definition signed_negative (v : Element) : SignedElement := signed_new v true.
Definition SIGNED_ZERO : SignedElement := mk_signed ZERO false.
Definition SIGNED_ONE : SignedElement := mk_signed ONE false.
Definition SIGNED_NEG_ONE : SignedElement := mk_signed ONE true.

Definition signed_abs (s : SignedElement) : Element := sg_value s.
Definition signed_is_negative (s : SignedElement) : bool := sg_negative s.
Definition signed_is_positive (s : SignedElement) : bool := negb (sg_negative s) && negb (is_zero (sg_value s)).
Definition signed_is_zero (s : SignedElement) : bool := is_zero (sg_value s).
Definition signum (s : SignedElement) : SignedElement :=
  if signed_is_zero s then SIGNED_ZERO
  else if sg_negative s then SIGNED_NEG_ONE else SIGNED_ONE.
Definition to_u256_with_sign (s : SignedElement) : Z * bool := (sg_value s, sg_negative s).

(** ** Conversions; an [i64] is an integer of [-2^63, 2^63) *)

Definition signed_from_element (v : Element) : SignedElement := signed_new v false.
Definition signed_from_u64 (v : Z) : SignedElement := signed_new v false.
Definition signed_from_i64 (v : Z) : SignedElement :=
  if decide (v < 0) then signed_new (Z.abs v) true else signed_new (Z.abs v) false.

Definition i64_max : Z := 2 ^ 63 - 1.
Definition in_i64 (v : Z) : Prop := - 2 ^ 63 ≤ v < 2 ^ 63.

Definition signed_to_i64 {E} (s : SignedElement) : outcome E (option Z) :=
  if decide (i64_max < sg_value s) then Ok None
  else
    let unsigned_val := wrap 64 (sg_value s) in
    if negb (sg_negative s) && bool_decide (i64_max < unsigned_val) then Ok None
    else if decide (i64_max < unsigned_val)
    then Panic "Failed to convert u64 to i64 despite being in range"
    else Ok (Some (if sg_negative s then - unsigned_val else unsigned_val)).
Definition fits_in_i64 {E} (s : SignedElement) : outcome E bool :=
  let? r := signed_to_i64 s in Ok (bool_decide (is_Some r)).

(** ** Arithmetic *)

Definition signed_neg (s : SignedElement) : SignedElement :=
  if signed_is_zero s then s else signed_new (sg_value s) (negb (sg_negative s)).

Definition signed_add (s rhs : SignedElement) : SignedElement :=
  if decide (sg_negative s = sg_negative rhs)
  then signed_new (element_add (sg_value s) (sg_value rhs)) (sg_negative s)
  else match sg_value s ?= sg_value rhs with
       | Eq => SIGNED_ZERO
       | Gt => signed_new (element_sub (sg_value s) (sg_value rhs)) (sg_negative s)
       | Lt => signed_new (element_sub (sg_value rhs) (sg_value s)) (sg_negative rhs)
       end.
Definition signed_sub (s rhs : SignedElement) : SignedElement := signed_add s (signed_neg rhs).
Definition signed_mul (s rhs : SignedElement) : SignedElement :=
  signed_new (element_mul (sg_value s) (sg_value rhs)) (xorb (sg_negative s) (sg_negative rhs)).
Definition signed_div {E} (s rhs : SignedElement) : outcome E SignedElement :=
  if signed_is_zero rhs then Panic "Division by zero"
  else let? q := element_div (sg_value s) (sg_value rhs) in
       Ok (signed_new q (xorb (sg_negative s) (sg_negative rhs))).

(** The operators with an element, a [u64] or an [i64] on the right. *)
Definition with_element {A} (op : SignedElement → SignedElement → A) s (rhs : Element) : A :=
  op s (signed_from_element rhs).
Definition with_u64 {A} (op : SignedElement → SignedElement → A) s (rhs : Z) : A :=
  op s (signed_from_u64 rhs).
Definition with_i64 {A} (op : SignedElement → SignedElement → A) s (rhs : Z) : A :=
  op s (signed_from_i64 rhs).

(** ** Comparison *)

Definition signed_cmp (s other : SignedElement) : comparison :=
  match sg_negative s, sg_negative other with
  | false, false => sg_value s ?= sg_value other
  | true, true => sg_value other ?= sg_value s
  | true, false => Lt
  | false, true => Gt
  end.

Definition signed_eq_element (s : SignedElement) (other : Element) : bool :=
  negb (sg_negative s) && bool_decide (sg_value s = other).
Definition signed_eq_u64 (s : SignedElement) (other : Z) : bool := signed_eq_element s other.
Definition signed_eq_i64 (s : SignedElement) (other : Z) : bool :=
  if decide (other < 0) then sg_negative s && bool_decide (sg_value s = Z.abs other)
  else negb (sg_negative s) && bool_decide (sg_value s = other).

Definition signed_cmp_element (s : SignedElement) (other : Element) : comparison :=
  if sg_negative s then Lt else sg_value s ?= other.
Definition signed_cmp_u64 (s : SignedElement) (other : Z) : comparison :=
  if sg_negative s then Lt else sg_value s ?= other.
(** Against a negative [i64] the magnitude is cut to 64 bits. *)
Definition signed_cmp_i64 (s : SignedElement) (other : Z) : comparison :=
  if decide (other < 0) then
    if sg_negative s then CompOpp (wrap 64 (sg_value s) ?= Z.abs other) else Gt
  else if sg_negative s then Lt else sg_value s ?= other.

(** * Meaning *)

Definition signed_val (s : SignedElement) : Z := if sg_negative s then - sg_value s else sg_value s.

(** A magnitude of 256 bits and no negative zero. *)
Definition wf_signed (s : SignedElement) : Prop :=
  wf_element (sg_value s) ∧ (sg_negative s = true → sg_value s ≠ 0).

Lemma wf_new v n : wf_element v → wf_signed (signed_new v n).
Proof.
  intros Hv. unfold signed_new, is_zero. case_bool_decide as Hz; split; try done.
Qed.
Lemma val_new v n : signed_val (signed_new v n) = if n then - v else v.
Proof. unfold signed_new, is_zero, signed_val. case_bool_decide as Hz; cbn; [subst; by destruct n|done]. Qed.

Lemma wf_wrap x : wf_element (wrap 256 x).
Proof. apply Z.mod_pos_bound. done. Qed.

Lemma signed_val_inj s s' : wf_signed s → wf_signed s' → signed_val s = signed_val s' → s = s'.
Proof.
  destruct s as [v n], s' as [v' n']. unfold wf_signed, signed_val, wf_element, in_width. cbn.
  intros [? Hn] [? Hn'] Hv. destruct n, n'; [|specialize (Hn eq_refl)|specialize (Hn' eq_refl)|]; f_equal; lia.
Qed.

Lemma neg_val s : signed_val (signed_neg s) = - signed_val s.
Proof.
  unfold signed_neg, signed_is_zero, is_zero. case_bool_decide as Hz; [|rewrite val_new].
  - unfold signed_val. rewrite Hz. by destruct (sg_negative s).
  - unfold signed_val. destruct (sg_negative s); cbn; lia.
Qed.
Lemma neg_wf s : wf_signed s → wf_signed (signed_neg s).
Proof. intros [Hv Hn]. unfold signed_neg. destruct (signed_is_zero s); [by split|by apply wf_new]. Qed.

(** The sum up to the wrap of the magnitude. *)
Lemma add_val s s' :
  wf_signed s → wf_signed s' →
  signed_val (signed_add s s') =
    if decide (sg_negative s = sg_negative s')
    then (if sg_negative s then - wrap 256 (sg_value s + sg_value s') else wrap 256 (sg_value s + sg_value s'))
    else signed_val s + signed_val s'.
Proof.
  intros [Hv _] [Hv' _]. unfold signed_add, element_add, element_sub. case_decide as Hd; [by rewrite val_new|].
  unfold wf_element, in_width in *. unfold signed_val at 2 3.
  destruct (Z.compare_spec (sg_value s) (sg_value s')); rewrite ?val_new, ?wrap_small by (unfold in_width; lia);
    destruct (sg_negative s), (sg_negative s'); try done; unfold SIGNED_ZERO, signed_val, ZERO; cbn; lia.
Qed.

Lemma add_wf s s' : wf_signed s → wf_signed s' → wf_signed (signed_add s s').
Proof.
  intros _ _. unfold signed_add, element_add, element_sub.
  case_decide; [|case_match]; try (apply wf_new, wf_wrap). split; done.
Qed.

Lemma add_exact s s' : wf_signed s → wf_signed s' → Z.abs (signed_val s + signed_val s') < 2 ^ 256 →
  signed_val (signed_add s s') = signed_val s + signed_val s'.
Proof.
  intros Hs Hs' Hb. rewrite add_val by done. destruct Hs as [Hv _], Hs' as [Hv' _]. case_decide as Hd; [|done].
  unfold wf_element, in_width, signed_val in *. rewrite <-Hd in *.
  rewrite wrap_small by (unfold in_width; destruct (sg_negative s); lia). destruct (sg_negative s); lia.
Qed.

Lemma add_overflow s s' : wf_signed s → wf_signed s' → 2 ^ 256 ≤ Z.abs (signed_val s + signed_val s') →
  Z.abs (signed_val (signed_add s s')) = Z.abs (signed_val s + signed_val s') - 2 ^ 256.
Proof.
  intros Hs Hs' Hb. rewrite add_val by done. destruct Hs as [Hv _], Hs' as [Hv' _].
  unfold wf_element, in_width, signed_val in *. case_decide as Hd.
  - rewrite <-Hd in *. unfold wrap.
    assert ((sg_value s + sg_value s') mod 2 ^ 256 = sg_value s + sg_value s' - 2 ^ 256) as ->.
    { symmetry. apply (Z.mod_unique _ _ 1); destruct (sg_negative s); lia. }
    destruct (sg_negative s); lia.
  - destruct (sg_negative s), (sg_negative s'); try done; lia.
Qed.

Lemma mul_exact s s' : wf_signed s → wf_signed s' → Z.abs (signed_val s * signed_val s') < 2 ^ 256 →
  signed_val (signed_mul s s') = signed_val s * signed_val s'.
Proof.
  intros [Hv _] [Hv' _] Hb. unfold signed_mul, element_mul. rewrite val_new.
  unfold wf_element, in_width, signed_val in *.
  rewrite wrap_small by (unfold in_width; destruct (sg_negative s), (sg_negative s'); nia).
  destruct (sg_negative s), (sg_negative s'); cbn [xorb]; nia.
Qed.

Lemma val_zero s : signed_val s = 0 ↔ sg_value s = 0.
Proof. unfold signed_val. destruct (sg_negative s); lia. Qed.

Lemma div_exact s s' : wf_signed s → wf_signed s' → signed_val s' ≠ 0 →
  ∃ q, signed_div (E := Empty_set) s s' = Ok q ∧ wf_signed q ∧ signed_val q = signed_val s ÷ signed_val s'.
Proof.
  intros [Hv _] [Hv' _] Hz. rewrite val_zero in Hz. unfold signed_div, signed_is_zero, is_zero, element_div.
  rewrite bool_decide_eq_false_2, decide_False by done. cbn. eexists. split; [done|].
  unfold wf_element, in_width in *. pose proof (Z.div_le_upper_bound (sg_value s) (sg_value s') (sg_value s)).
  pose proof (Z.div_pos (sg_value s) (sg_value s')). split; [apply wf_new; unfold wf_element, in_width; nia|].
  rewrite val_new. unfold signed_val. rewrite <-Z.quot_div_nonneg by lia.
  destruct (sg_negative s), (sg_negative s'); cbn [xorb]; rewrite ?Z.quot_opp_l, ?Z.quot_opp_r by lia; lia.
Qed.

(** Signed elements are integers of 256 bits and a sign. Every operation returns
    a magnitude below 2^256 without a negative zero; negation is exact, sums,
    differences and products are exact as long as the true result is below 2^256
    in magnitude, and quotients round towards zero, unless the divisor is zero,
    which panics; the sum of two values of one sign that is too large wraps its
    magnitude and keeps the sign. *)
Theorem signed_arithmetic s s' :
  wf_signed s → wf_signed s' →
  (wf_signed (signed_neg s) ∧ signed_val (signed_neg s) = - signed_val s) ∧
  (wf_signed (signed_add s s') ∧
   (Z.abs (signed_val s + signed_val s') < 2 ^ 256 → signed_val (signed_add s s') = signed_val s + signed_val s') ∧
   (2 ^ 256 ≤ Z.abs (signed_val s + signed_val s') →
      Z.abs (signed_val (signed_add s s')) = Z.abs (signed_val s + signed_val s') - 2 ^ 256)) ∧
  (wf_signed (signed_sub s s') ∧
   (Z.abs (signed_val s - signed_val s') < 2 ^ 256 → signed_val (signed_sub s s') = signed_val s - signed_val s')) ∧
  (wf_signed (signed_mul s s') ∧
   (Z.abs (signed_val s * signed_val s') < 2 ^ 256 → signed_val (signed_mul s s') = signed_val s * signed_val s')) ∧
  (if decide (signed_val s' = 0) then signed_div (E := Empty_set) s s' = Panic "Division by zero"
   else ∃ q, signed_div (E := Empty_set) s s' = Ok q ∧ wf_signed q ∧ signed_val q = signed_val s ÷ signed_val s').
Proof.
  intros Hs Hs'. split_and!.
  - by apply neg_wf.
  - apply neg_val.
  - by apply add_wf.
  - by apply add_exact.
  - by apply add_overflow.
  - apply add_wf; [done|by apply neg_wf].
  - unfold signed_sub. intros Hb. rewrite add_exact; rewrite ?neg_val; [lia|done|by apply neg_wf|lia].
  - apply wf_new, wf_wrap.
  - by apply mul_exact.
  - case_decide as Hz; [|by apply div_exact].
    rewrite val_zero in Hz. unfold signed_div, signed_is_zero, is_zero. by rewrite bool_decide_eq_true_2.
Qed.

Lemma signed_arithmetic_witness :
  let a := signed_from_i64 (-7) in let b := signed_from_i64 3 in
  signed_val (signed_add a b) = -4 ∧ signed_val (signed_mul a b) = -21.
Proof.
  destruct (signed_arithmetic (signed_from_i64 (-7)) (signed_from_i64 3)) as (_ & (_ & Ha & _) & _ & (_ & Hm) & _).
  - split; [by apply (bool_decide_unpack (in_width _ _))|done].
  - split; [by apply (bool_decide_unpack (in_width _ _))|done].
  - split; [exact (Ha eq_refl)|exact (Hm eq_refl)].
Defined.

(** The order of signed elements is that of the integers: [cmp] compares the
    values, equal values are the same element, and so do the comparisons with an
    element and, for a non-negative operand, with an [i64]. *)
Theorem signed_order s s' (e : Element) (i : Z) :
  wf_signed s → wf_signed s' →
  signed_cmp s s' = (signed_val s ?= signed_val s') ∧
  (signed_cmp s s' = Eq ↔ s = s') ∧
  (0 ≤ e → signed_cmp_element s e = (signed_val s ?= e) ∧ signed_eq_element s e = bool_decide (signed_val s = e)) ∧
  (in_i64 i → signed_eq_i64 s i = bool_decide (signed_val s = i)) ∧
  (in_i64 i → 0 ≤ i ∨ Z.abs (signed_val s) < 2 ^ 64 → signed_cmp_i64 s i = (signed_val s ?= i)).
Proof.
  intros Hs Hs'. assert (signed_cmp s s' = (signed_val s ?= signed_val s')) as Hc.
  { destruct Hs as [Hv Hn], Hs' as [Hv' Hn']. unfold signed_cmp, signed_val, wf_element, in_width in *.
    destruct (sg_negative s), (sg_negative s').
    - symmetry. apply Z.compare_opp.
    - specialize (Hn eq_refl). symmetry. apply Z.compare_lt_iff. lia.
    - specialize (Hn' eq_refl). symmetry. apply Z.compare_gt_iff. lia.
    - done. }
  split_and!; [done| |..].
  - rewrite Hc, Z.compare_eq_iff. split; [by apply signed_val_inj|by intros ->].
  - destruct Hs as [Hv Hn]. unfold signed_cmp_element, signed_eq_element, signed_val, wf_element, in_width in *.
    intros He. destruct (sg_negative s); cbn; [|done]. specialize (Hn eq_refl). split.
    + symmetry. apply Z.compare_lt_iff. lia.
    + symmetry. apply bool_decide_eq_false. lia.
  - destruct Hs as [Hv Hn]. unfold signed_eq_i64, signed_val, wf_element, in_width in *. intros Hi.
    case_decide; destruct (sg_negative s); cbn [andb negb]; [| | |done];
      first [apply bool_decide_ext; lia | symmetry; apply bool_decide_eq_false; lia
            | specialize (Hn eq_refl); symmetry; apply bool_decide_eq_false; lia].
  - destruct Hs as [Hv Hn]. unfold signed_cmp_i64, signed_val, wf_element, in_width, in_i64 in *. intros Hi Hb.
    case_decide; destruct (sg_negative s); [| | |done]; symmetry.
    + rewrite wrap_small by (unfold in_width; lia). destruct (Z.compare_spec (sg_value s) (Z.abs i)); cbn;
        [apply Z.compare_eq_iff|apply Z.compare_gt_iff|apply Z.compare_lt_iff]; lia.
    + apply Z.compare_gt_iff. lia.
    + specialize (Hn eq_refl). apply Z.compare_lt_iff. lia.
Qed.

Lemma signed_order_witness : signed_cmp (signed_from_i64 (-7)) (signed_from_i64 3) = Lt.
Proof.
  destruct (signed_order (signed_from_i64 (-7)) (signed_from_i64 3) 0 0) as [-> _]; [| |done];
    (split; [by apply (bool_decide_unpack (in_width _ _))|done]).
Defined.

(** Where the 64-bit conversions are wrong. The smallest [i64] is converted to a
    signed element that [to_i64] refuses to convert back, although it fits; and
    the comparison with a negative [i64] looks at the low 64 bits only, so that
    -(2^64 + 1) is greater than -5. *)
Theorem signed_i64_edges :
  (∀ i, in_i64 i → signed_to_i64 (E := Empty_set) (signed_from_i64 i) =
     Ok (if decide (i = - 2 ^ 63) then None else Some i)) ∧
  signed_cmp_i64 (signed_negative (2 ^ 64 + 1)) (-5) = Gt.
Proof.
  split; [|done]. intros i Hi. unfold in_i64 in Hi.
  assert (sg_value (signed_from_i64 i) = Z.abs i ∧ sg_negative (signed_from_i64 i) = bool_decide (i < 0)) as [Hv Hn].
  { unfold signed_from_i64, signed_new, is_zero, ZERO.
    case_decide; case_bool_decide; cbn; split; try done; symmetry;
      rewrite ?bool_decide_eq_true, ?bool_decide_eq_false; lia. }
  unfold signed_to_i64. rewrite Hv, Hn. unfold i64_max in *.
  destruct (decide (i = - 2 ^ 63)) as [->|Hne]; [done|].
  rewrite decide_False by lia. rewrite (wrap_small 64) by (unfold in_width; lia).
  rewrite (bool_decide_eq_false_2 (_ < Z.abs i)) by lia. rewrite andb_false_r, decide_False by lia.
  case_bool_decide; do 2 f_equal; lia.
Qed.
