(* ===== verification/MerkleHash.v ===== *)
(** Merkle hashing: pkg/hash (hash_merge, hash_bytes, the path computations of
    path.rs) and the empty-tree hashes of pkg/smirk/src/hash.rs, with the
    reference definition of the root of a complete binary tree that the sparse
    tree is compared against. *)
From S2P Require Import Prelude Element.

Section hashing.
Context `{FieldLib}.

(** ** hash_merge and hash_bytes *)

Definition hash_merge (elements : list Element) : Element :=
  let inputs := to_base <$> elements in
  from_base (poseidon_hash inputs).

(** [slice::chunks]: the last chunk may be shorter. *)
Fixpoint chunks_fuel (fuel n : nat) (l : list Z) : list (list Z) :=
  match fuel, l with
  | S fuel', _ :: _ => take n l :: chunks_fuel fuel' n (drop n l)
  | _, _ => []
  end.
Definition chunks (n : nat) (l : list Z) : list (list Z) := chunks_fuel (length l) n l.

Definition bytes_to_element (bytes : list Z) : Element :=
  from_be_bytes (bytes ++ replicate (16 - length bytes) 0).

Definition hash_bytes (bytes : list Z) : Element :=
  let initial := BYTE_HASH_IV in
  let elements_from_bytes := bytes_to_element <$> chunks 16 bytes in
  foldl (λ left right, hash_merge [left; right]) initial elements_from_bytes.

(** ** Merkle paths (path.rs) *)

Definition least_significant_bits (element : Element) (depth : nat) : list bool :=
  reverse (lsb_bits element depth).

Definition merge_step (leaf sibling : Element) (bit : bool) : Element :=
  match bit with
  | false => hash_merge [leaf; sibling]
  | true => hash_merge [sibling; leaf]
  end.

Fixpoint compute_merkle_root_from_iter (leaf : Element) (siblings : list (Element * bool))
  : Element :=
  match siblings with
  | [] => leaf
  | (sibling, bit) :: rest => compute_merkle_root_from_iter (merge_step leaf sibling bit) rest
  end.

Definition compute_merkle_root (leaf path_element : Element) (siblings : list Element)
  : Element :=
  let bits := least_significant_bits path_element (length siblings) in
  compute_merkle_root_from_iter leaf (zip siblings bits).

Definition compute_null_root (leaf : Element) (siblings : list Element) : Element :=
  let bits := least_significant_bits leaf (length siblings) in
  compute_merkle_root_from_iter NULL_HASH (zip siblings bits).

Fixpoint merkle_path_loop (hash : Element) (l : list (Element * bool)) : list Element :=
  match l with
  | [] => []
  | (sibling, bit) :: rest =>
      let hash' := merge_step hash sibling bit in hash' :: merkle_path_loop hash' rest
  end.

Definition compute_merkle_path_for_leaf (leaf : Element) (siblings : list Element)
  : list Element :=
  let bits := least_significant_bits leaf (length siblings) in
  leaf :: merkle_path_loop leaf (zip siblings bits).

Definition empty_tree_root (depth : nat) : outcome Empty_set Element :=
  if decide (depth = 0%nat) then Panic "the smallest possible tree has depth 1"
  else Ok (compute_merkle_root_from_iter NULL_HASH
             ((λ _, (NULL_HASH, false)) <$> seq 1 (depth - 1))).

(** ** Empty trees (smirk/src/hash.rs) *)

Definition COMPUTE_DEPTH : nat := 257.

Fixpoint fill_cache (n : nat) (vec : list Element) (hash : Element) : list Element :=
  match n with
  | O => vec
  | S n' => let new_hash := hash_merge [hash; hash] in
            fill_cache n' (vec ++ [new_hash]) new_hash
  end.
Definition get_cache : list Element := fill_cache (COMPUTE_DEPTH - 1) [NULL_HASH] NULL_HASH.

Fixpoint fallback (depth : nat) : outcome Empty_set Element :=
  if decide (1 ≤ depth ≤ COMPUTE_DEPTH)%nat
  then unwrap (get_cache !! (depth - 1)%nat) "index out of bounds"
  else match depth with
       | O => Panic "attempt to subtract with overflow"
       | S other => let? hashed := fallback other in Ok (hash_merge [hashed; hashed])
       end.

Definition empty_tree_hash (depth : nat) : outcome Empty_set Element :=
  if decide (depth = 0%nat) then Panic "the smallest possible tree has depth 1"
  else match get_cache !! (depth - 1)%nat with
       | Some h => Ok h
       | None => fallback depth
       end.

(** The hash of a node known to have a depth of at least one. *)
Definition empty_hash (depth : nat) : Element :=
  match empty_tree_hash depth with Ok h => h | _ => NULL_HASH end.

(** ** Reference definition

    A complete binary tree with [2^n] slots, given by the content of each
    slot: [s q] for the path [q] from the root ([false] is left). *)
Fixpoint ref_hash (n : nat) (s : list bool → Element) : Element :=
  match n with
  | O => s []
  | S n' => hash_merge [ref_hash n' (λ q, s (false :: q)); ref_hash n' (λ q, s (true :: q))]
  end.

(** The pairs fed to the hash along a root computation. *)
Fixpoint merkle_inputs (leaf : Element) (l : list (Element * bool)) : list (list Element) :=
  match l with
  | [] => []
  | (sibling, bit) :: rest =>
      (if bit : bool then [sibling; leaf] else [leaf; sibling])
        :: merkle_inputs (merge_step leaf sibling bit) rest
  end.

(** Root of the path [q] with siblings [xs], both from the root down. *)
Fixpoint path_root (leaf : Element) (q : list bool) (xs : list Element) : Element :=
  match q, xs with
  | b :: q', x :: xs' => merge_step (path_root leaf q' xs') x b
  | _, _ => leaf
  end.

(** Siblings of the slot [q] in the complete tree, from the root down. *)
Fixpoint ref_siblings (s : list bool → Element) (q : list bool) : list Element :=
  match q with
  | [] => []
  | b :: q' => ref_hash (length q') (λ r, s (negb b :: r)) :: ref_siblings (λ r, s (b :: r)) q'
  end.

(** ** Lemmas *)

Lemma ref_hash_ext n s s' :
  (∀ q, length q = n → s q = s' q) → ref_hash n s = ref_hash n s'.
Proof.
  revert s s'. induction n as [|n IH]; intros s s' Hs; simpl; [by apply Hs|].
  f_equal. f_equal; [|f_equal]; apply IH; intros q Hq; apply Hs; simpl; by rewrite Hq.
Qed.

Lemma from_iter_app leaf l x :
  compute_merkle_root_from_iter leaf (l ++ [x]) =
  merge_step (compute_merkle_root_from_iter leaf l) x.1 x.2.
Proof. revert leaf. induction l as [|[y b] l IH]; intros leaf; simpl; [by destruct x|apply IH]. Qed.

Lemma from_iter_reverse leaf q xs :
  length q = length xs →
  compute_merkle_root_from_iter leaf (zip (reverse xs) (reverse q)) = path_root leaf q xs.
Proof.
  revert xs. induction q as [|b q IH]; intros [|x xs] Hl; simplify_eq/=; [done|].
  rewrite !reverse_cons, zip_with_app by (rewrite !length_reverse; lia).
  simpl. rewrite from_iter_app. simpl. by rewrite IH.
Qed.

Lemma path_root_ref s q :
  path_root (s q) q (ref_siblings s q) = ref_hash (length q) s.
Proof.
  revert s. induction q as [|b q IH]; intros s; simpl; [done|].
  rewrite (IH (λ r, s (b :: r))). by destruct b.
Qed.

Lemma ref_siblings_length s q : length (ref_siblings s q) = length q.
Proof. revert s. induction q as [|b q IH]; intros s; simpl; [done|by rewrite IH]. Qed.

(** Two root computations that agree start from the same leaf, or feed two
    different pairs with one hash to [hash_merge] at the same level. *)
Lemma root_collision leaf leaf' l :
  compute_merkle_root_from_iter leaf l = compute_merkle_root_from_iter leaf' l →
  leaf = leaf' ∨
  ∃ i p p', merkle_inputs leaf l !! i = Some p ∧ merkle_inputs leaf' l !! i = Some p' ∧
            p ≠ p' ∧ hash_merge p = hash_merge p'.
Proof.
  revert leaf leaf'. induction l as [|[x b] l IH]; intros leaf leaf' Heq; simpl in Heq; [by left|].
  destruct (decide (leaf = leaf')) as [|Hne]; [by left|]. right.
  destruct (IH _ _ Heq) as [Heq'|(i & p & p' & ? & ? & ? & ?)].
  - exists 0%nat. destruct b; simpl in *; eexists _, _; split_and!; try done; congruence.
  - exists (S i), p, p'. by simpl.
Qed.

(** The inputs of the hash at the node [u] of the complete tree whose
    subtrees have [m] levels. *)
Definition node_inputs (s : list bool → Element) (u : list bool) (m : nat) : list Element :=
  [ref_hash m (λ q, s (u ++ false :: q)); ref_hash m (λ q, s (u ++ true :: q))].

(** A collision of [hash_merge] at one and the same node of two trees. *)
Definition ref_collision (n : nat) (s s' : list bool → Element) : Prop :=
  ∃ u m, (length u + S m)%nat = n ∧
         node_inputs s u m ≠ node_inputs s' u m ∧
         hash_merge (node_inputs s u m) = hash_merge (node_inputs s' u m).

Lemma ref_collision_down n s s' b :
  ref_collision n (λ q, s (b :: q)) (λ q, s' (b :: q)) → ref_collision (S n) s s'.
Proof. intros (u & m & <- & Hne & Heq). exists (b :: u), m. split; [simpl; lia|done]. Qed.

(** Two complete trees with one root hold the same slots, or exhibit a
    collision. *)
Lemma ref_hash_binding n s s' :
  ref_hash n s = ref_hash n s' →
  (∀ q, length q = n → s q = s' q) ∨ ref_collision n s s'.
Proof.
  revert s s'. induction n as [|n IH]; intros s s' Heq.
  { left. intros [|]; done. }
  destruct (decide (node_inputs s [] n = node_inputs s' [] n)) as [E|E].
  - unfold node_inputs in E. injection E as E1 E2.
    destruct (IH _ _ E1) as [H1|H1]; [|right; by eapply ref_collision_down].
    destruct (IH _ _ E2) as [H2|H2]; [|right; by eapply ref_collision_down].
    left. intros [|[] q] Hq; simplify_eq/=; auto.
  - right. exists [], n. done.
Qed.

Lemma iter_hash_comm n h :
  Nat.iter n (λ h, hash_merge [h; h]) (hash_merge [h; h]) =
  hash_merge [Nat.iter n (λ h, hash_merge [h; h]) h; Nat.iter n (λ h, hash_merge [h; h]) h].
Proof. induction n as [|n IH]; simpl; [done|by rewrite IH]. Qed.

Lemma fill_cache_lookup n vec h i :
  (i < length vec + n)%nat →
  fill_cache n vec h !! i =
  if decide (i < length vec)%nat then vec !! i
  else Some (Nat.iter (S (i - length vec)) (λ h, hash_merge [h; h]) h).
Proof.
  revert vec h. induction n as [|n IH]; intros vec h Hi; simpl.
  - rewrite decide_True by lia. done.
  - rewrite IH by (rewrite length_app; simpl; lia). rewrite length_app. simpl.
    destruct (decide (i < length vec)%nat) as [Hlt|Hge].
    + rewrite decide_True by lia. by rewrite lookup_app_l.
    + destruct (decide (i = length vec)) as [->|Hne].
      * rewrite decide_True by lia. rewrite list_lookup_middle by done.
        by rewrite Nat.sub_diag.
      * rewrite decide_False by lia. f_equal.
        replace (i - length vec)%nat with (S (i - (length vec + 1)))%nat by lia.
        simpl. by rewrite iter_hash_comm.
Qed.

Lemma get_cache_lookup i :
  (i < COMPUTE_DEPTH)%nat →
  get_cache !! i = Some (Nat.iter i (λ h, hash_merge [h; h]) NULL_HASH).
Proof.
  intros Hi. unfold get_cache. rewrite fill_cache_lookup.
  - destruct i as [|i].
    + by rewrite decide_True by (simpl; lia).
    + rewrite decide_False by (simpl; lia). simpl. by rewrite Nat.sub_0_r.
  - change (length [NULL_HASH]) with 1%nat. unfold COMPUTE_DEPTH in *. lia.
Qed.

Lemma get_cache_length : length get_cache = COMPUTE_DEPTH.
Proof.
  assert (∀ n vec h, length (fill_cache n vec h) = (length vec + n)%nat) as Hlen.
  { induction n as [|n IH]; intros vec h; simpl; [lia|].
    rewrite IH, length_app. simpl. lia. }
  unfold get_cache. rewrite Hlen. done.
Qed.

Lemma fallback_spec depth :
  (1 ≤ depth)%nat →
  fallback depth = Ok (Nat.iter (depth - 1) (λ h, hash_merge [h; h]) NULL_HASH).
Proof.
  induction depth as [|d IH]; [lia|]. intros _. cbn [fallback].
  destruct (decide _) as [Hin|Hout].
  - rewrite get_cache_lookup by lia. done.
  - assert (1 ≤ d)%nat as Hd by (unfold COMPUTE_DEPTH in Hout; lia).
    rewrite (IH Hd). simpl. rewrite Nat.sub_0_r.
    destruct d as [|d]; [lia|]. simpl. by rewrite Nat.sub_0_r.
Qed.

Lemma empty_tree_hash_ok depth :
  (1 ≤ depth)%nat →
  empty_tree_hash depth = Ok (Nat.iter (depth - 1) (λ h, hash_merge [h; h]) NULL_HASH).
Proof.
  intros Hd. unfold empty_tree_hash. rewrite decide_False by lia.
  destruct (decide (depth ≤ COMPUTE_DEPTH)%nat) as [Hle|Hgt].
  - rewrite get_cache_lookup; [done|]. unfold COMPUTE_DEPTH in *. lia.
  - destruct (get_cache !! (depth - 1)%nat) as [h|] eqn:E; [|by apply fallback_spec].
    apply lookup_lt_Some in E. rewrite get_cache_length in E. lia.
Qed.

Lemma empty_hash_spec depth :
  (1 ≤ depth)%nat → empty_hash depth = ref_hash (depth - 1) (λ _, NULL_HASH).
Proof.
  intros Hd. unfold empty_hash. rewrite empty_tree_hash_ok by done.
  generalize (depth - 1)%nat as n. clear. intros n.
  induction n as [|n IH]; simpl; [done|by rewrite IH].
Qed.

Lemma empty_hash_S n :
  (1 ≤ n)%nat → empty_hash (S n) = hash_merge [empty_hash n; empty_hash n].
Proof.
  intros Hn. rewrite !empty_hash_spec by lia. destruct n as [|n]; [lia|].
  simpl. by rewrite Nat.sub_0_r.
Qed.

Lemma empty_hash_1 : empty_hash 1 = NULL_HASH.
Proof. by rewrite empty_hash_spec by lia. Qed.
End hashing.

#[global] Arguments get_cache : simpl never.
#[global] Arguments empty_hash : simpl never.
#[global] Arguments hash_merge : simpl never.
