(* ===== verification/Primality.v ===== *)
(** Primality of the order of the BN254 scalar field, the modulus of every
    field element the program hashes ([Element.MODULUS]).

    The proof is Pocklington's criterion, checked by computation: a candidate
    [n] is prime when [n - 1] has a factored divisor larger than the square
    root of [n] and one base has order divisible by each of its prime powers.
    The prime factors are established by trial division or by the criterion
    itself. *)
From S2P Require Import Prelude Element.
From Stdlib Require Import ZArith Znumtheory Zdivisibility Zmod.

(** ** Executable checks *)

(** No [d], [d + 1], ..., [d + fuel - 1] divides [n]. *)
Fixpoint no_divisor (fuel : nat) (d n : Z) : bool :=
  match fuel with
  | O => true
  | S fuel' => negb (n mod d =? 0) && no_divisor fuel' (d + 1) n
  end.

Definition trial_division (n : Z) : bool :=
  (1 <? n) && no_divisor (Z.to_nat (Z.sqrt n)) 2 n.

Definition power_mod (n a e : Z) : Z := Zmod.to_Z (Zmod.pow (Zmod.of_Z n a) e).

(** A factorisation: primes with their exponents. *)
Definition factored (fs : list (Z * nat)) : Z :=
  foldr (λ '(q, e) F, q ^ Z.of_nat e * F) 1 fs.

Fixpoint pairwise_coprime (fs : list (Z * nat)) : bool :=
  match fs with
  | [] => true
  | (q, e) :: fs' => (Z.gcd (q ^ Z.of_nat e) (factored fs') =? 1) && pairwise_coprime fs'
  end.

Definition radical (fs : list (Z * nat)) : Z := foldr (λ '(q, _) Q, q * Q) 1 fs.

(** The powers are computed from [a^((n - 1) / Q)], [Q] the product of the
    primes. *)
Definition pocklington (n a : Z) (fs : list (Z * nat)) : bool :=
  let Q := radical fs in
  let b := power_mod n a ((n - 1) / Q) in
  (1 <? n) && (n <? factored fs * factored fs) && pairwise_coprime fs
  && (0 <? Q) && ((n - 1) mod Q =? 0) && (power_mod n b Q =? 1)
  && forallb (λ '(q, e), ((n - 1) mod q ^ Z.of_nat e =? 0) && (Q mod q =? 0)
       && (Z.gcd (power_mod n b (Q / q) - 1) n =? 1)) fs.

(** ** Divisors *)

Lemma prime_factor n : 1 < n → ∃ p, Z.prime p ∧ (p | n).
Proof.
  intros Hn. assert (H0 : 0 ≤ n) by lia. revert n H0 Hn.
  apply (Z_lt_induction (λ n, 1 < n → ∃ p, Z.prime p ∧ (p | n))). intros n IH Hn.
  destruct (prime_dec n) as [Hp|Hp].
  - exists n. split; [by apply prime_alt|apply Z.divide_refl].
  - destruct (not_prime_divide n Hn Hp) as (m & Hm & Hd).
    destruct (IH m ltac:(lia) ltac:(lia)) as (p & ? & ?).
    exists p. split; [done|by eapply Z.divide_trans].
Qed.

(** A number is prime when no prime up to its square root divides it. *)
Lemma prime_by_small_factors n :
  1 < n → (∀ p, Z.prime p → (p | n) → n < p * p) → Z.prime n.
Proof.
  intros Hn Hsmall. split; [done|]. intros d Hd [c Hc].
  assert (1 < c) by (destruct (Z.le_gt_cases c 1); [nia|lia]).
  destruct (Z.le_gt_cases d c).
  - destruct (prime_factor d ltac:(lia)) as (p & Hp & Hpd).
    assert (Hl : p ≤ _) by (apply (Z.divide_pos_le _ _); [|exact Hpd]; lia). assert (H2 := Z.prime_ge_2 _ Hp).
    assert (n < p * p) by (apply Hsmall; [done|]; rewrite Hc; by apply Z.divide_mul_r). nia.
  - destruct (prime_factor c ltac:(lia)) as (p & Hp & Hpd).
    assert (Hl : p ≤ _) by (apply (Z.divide_pos_le _ _); [|exact Hpd]; lia). assert (H2 := Z.prime_ge_2 _ Hp).
    assert (n < p * p) by (apply Hsmall; [done|]; rewrite Hc; by apply Z.divide_mul_l). nia.
Qed.

Lemma no_divisor_spec fuel d n :
  no_divisor fuel d n = true → ∀ m, d ≤ m < d + Z.of_nat fuel → 0 < m → ¬ (m | n).
Proof.
  revert d. induction fuel as [|fuel IH]; intros d; simpl; [lia|].
  rewrite andb_true_iff, negb_true_iff, Z.eqb_neq. intros [Hd Hr] m Hm Hpos Hdiv.
  destruct (decide (m = d)) as [->|].
  - by apply Hd, Z.mod0_divide.
  - apply (IH _ Hr m); [lia..|done].
Qed.

Lemma trial_division_prime n : trial_division n = true → Z.prime n.
Proof.
  unfold trial_division. rewrite andb_true_iff, Z.ltb_lt. intros [Hn Hd].
  apply prime_by_small_factors; [done|]. intros p Hp Hdiv.
  destruct (Z.lt_ge_cases n (p * p)) as [|Hle]; [done|exfalso].
  assert (H2 := Z.prime_ge_2 _ Hp).
  assert (Hs := Z.sqrt_le_square n p ltac:(lia) ltac:(lia)).
  apply (no_divisor_spec _ _ _ Hd p); [|lia|done]. rewrite Z2Nat.id; [|apply Z.sqrt_nonneg].
  split; [done|]. apply Hs in Hle. lia.
Qed.

(** ** Pocklington's criterion *)

(** A divisor of [q^(e+1) m] that does not divide [q^e m] is divisible by
    [q^(e+1)]. *)
Lemma full_power_divides q e m g :
  Z.prime q → 0 < g →
  (g | q ^ Z.of_nat (S e) * m) → ¬ (g | q ^ Z.of_nat e * m) → (q ^ Z.of_nat (S e) | g).
Proof.
  intros Hq. assert (H2 := Z.prime_ge_2 _ Hq).
  revert g. induction e as [|e IH]; intros g Hg Hd Hn.
  - destruct (Zdivide_dec q g) as [|Hqg]; [by rewrite Z.pow_1_r|]. exfalso. apply Hn.
    rewrite Z.pow_0_r, Z.mul_1_l. rewrite Z.pow_1_r in Hd.
    apply (Z.gauss g q m); [done|]. rewrite Z.gcd_comm. by apply Z.coprime_prime_l.
  - rewrite Nat2Z.inj_succ, Z.pow_succ_r, <- Z.mul_assoc in Hd by lia.
    destruct (Zdivide_dec q g) as [[g1 ->]|Hqg].
    + rewrite (Nat2Z.inj_succ (S e)), Z.pow_succ_r, Z.mul_comm by lia.
      apply Z.mul_divide_mono_r, IH; [nia| |].
      * rewrite (Z.mul_comm g1) in Hd. apply Z.mul_divide_cancel_l in Hd; [done|lia].
      * intros H'. apply Hn. rewrite Nat2Z.inj_succ, Z.pow_succ_r, <- Z.mul_assoc by lia.
        rewrite (Z.mul_comm g1). by apply Z.mul_divide_mono_l.
    + exfalso. apply Hn. apply (Z.gauss g q); [done|]. rewrite Z.gcd_comm.
      by apply Z.coprime_prime_l.
Qed.

(** The exponents at which a base is one are closed under gcd. *)
Lemma pow_one_gcd p (b : Zmod p) (x y : Z) :
  Z.gcd (Zmod.to_Z b) p = 1 → Zmod.pow b x = Zmod.one → Zmod.pow b y = Zmod.one →
  Zmod.pow b (Z.gcd x y) = Zmod.one.
Proof.
  intros Hb Hx Hy. destruct (Z.gcd_bezout x y _ eq_refl) as (u & v & <-).
  rewrite Zmod.pow_add_r_coprime, (Z.mul_comm u), (Z.mul_comm v), !Zmod.pow_mul_r_coprime by done.
  by rewrite Hx, Hy, !Zmod.pow_1_l, Zmod.mul_1_l.
Qed.

(** What the computed power says modulo a divisor. *)
Lemma power_mod_spec n a e : 0 ≤ e → power_mod n a e = a ^ e mod n.
Proof.
  intros He. unfold power_mod. by rewrite Zmod.to_Z_pow_nonneg_r, Zmod.to_Z_of_Z, Z.mod_pow_l.
Qed.

Lemma power_mod_mul n a d e :
  0 ≤ d → 0 ≤ e → power_mod n (power_mod n a d) e = power_mod n a (d * e).
Proof.
  intros Hd He. rewrite !power_mod_spec by nia. by rewrite Z.mod_pow_l, Z.pow_mul_r.
Qed.

(** The checks, with every power a power of [a]. *)
Lemma pocklington_checks n a fs :
  pocklington n a fs = true → Forall (λ '(q, _), Z.prime q) fs →
  1 < n ∧ n < factored fs * factored fs ∧ pairwise_coprime fs = true ∧
  power_mod n a (n - 1) = 1 ∧
  Forall (λ '(q, e), (q ^ Z.of_nat e | n - 1) ∧
    Z.gcd (power_mod n a ((n - 1) / q) - 1) n = 1) fs.
Proof.
  unfold pocklington. rewrite !andb_true_iff, !Z.ltb_lt, !Z.eqb_eq, forallb_forall.
  intros [[[[[[Hn Hlt] Hco] HQ] Hdiv] Hone] Hqs] Hprimes.
  apply Z.mod_divide in Hdiv as [c Hc]; [|lia].
  rewrite Hc, Z.div_mul in Hone by lia. rewrite power_mod_mul, <- Hc in Hone by nia.
  do 4 (split; [done|]). apply Forall_forall. intros [q e] Hin.
  pose proof (proj1 (Forall_forall _ _) Hprimes _ Hin) as Hq. simpl in Hq.
  assert (H2q := Z.prime_ge_2 _ Hq). apply list_elem_of_In, Hqs in Hin.
  rewrite !andb_true_iff, !Z.eqb_eq in Hin. destruct Hin as [[He HQq] Hg].
  apply Z.mod_divide in He; [|apply Z.pow_nonzero; lia]. split; [done|].
  apply Z.mod_divide in HQq as [k Hk]; [|lia].
  rewrite Hc, Z.div_mul, Hk, Z.div_mul, power_mod_mul in Hg by nia.
  by rewrite Hc, Hk, Z.mul_assoc, Z.div_mul by lia.
Qed.

Lemma power_one_mod_factor n p a e :
  1 < p → (p | n) → 0 ≤ e → 0 < n →
  Zmod.pow (Zmod.of_Z p a) e = Zmod.one ↔ (p | power_mod n a e - 1).
Proof.
  intros Hp Hd He Hn. rewrite power_mod_spec by done.
  rewrite <- Zmod.unsigned_inj_iff, Zmod.to_Z_pow_nonneg_r, Zmod.to_Z_of_Z, Z.mod_pow_l,
    Zmod.to_Z_1_pos by lia.
  rewrite <- Z.mod_divide by lia.
  rewrite Zminus_mod, <- (Zmod_div_mod p n), (Z.mod_small 1) by (try done; lia).
  assert (Hb := Z.mod_pos_bound (a ^ e) p ltac:(lia)). split; intros He'.
  - rewrite He'. by rewrite Z.sub_diag, Z.mod_0_l by lia.
  - apply Z.mod_divide in He' as [k Hk]; [|lia]. assert (k = 0) by nia. lia.
Qed.

Lemma factored_divides fs m :
  pairwise_coprime fs = true →
  Forall (λ '(q, e), (q ^ Z.of_nat e | m)) fs → (factored fs | m).
Proof.
  induction fs as [|[q e] fs IH]; simpl; intros Hc Hall; [apply Z.divide_1_l|].
  apply andb_true_iff in Hc as [Hg%Z.eqb_eq Hc]. apply Forall_cons in Hall as [[k ->] Hall].
  specialize (IH Hc Hall). rewrite (Z.mul_comm k). apply Z.mul_divide_mono_l.
  rewrite Z.mul_comm in IH. apply (Z.gauss _ _ _ IH). by rewrite Z.gcd_comm.
Qed.

Section criterion.
Context (n a : Z) (fs : list (Z * nat)).
Hypothesis Hpock : pocklington n a fs = true.
Hypothesis Hprimes : Forall (λ '(q, _), Z.prime q) fs.

(** Every prime factor [p] of [n] is one more than a multiple of the factored
    part. *)
Lemma factored_divides_pred p : Z.prime p → (p | n) → (factored fs | p - 1).
Proof.
  destruct (pocklington_checks n a fs Hpock Hprimes) as (Hn & Hlt & Hco & Hone & Hqs).
  intros Hp Hd. assert (H2 := Z.prime_ge_2 _ Hp).
  apply factored_divides; [done|]. apply Forall_forall. intros [q e] Hin.
  pose proof (proj1 (Forall_forall _ _) Hprimes _ Hin) as Hq. simpl in Hq.
  pose proof (proj1 (Forall_forall _ _) Hqs _ Hin) as [[m Hm] Hg].
  assert (H2q := Z.prime_ge_2 _ Hq). destruct e as [|e]; [apply Z.divide_1_l|].
  set (b := Zmod.of_Z p a).
  assert (Hb1 : Zmod.pow b (n - 1) = Zmod.one).
  { apply (power_one_mod_factor n); try done; try lia. rewrite Hone. apply Z.divide_0_r. }
  assert (Hb : b ≠ Zmod.zero).
  { intros Hz. rewrite Hz, Zmod.pow_0_l in Hb1 by lia. symmetry in Hb1.
    apply Zmod.one_eq_zero_iff in Hb1. lia. }
  assert (Hbp : Zmod.pow b (p - 1) = Zmod.one) by (rewrite Z.sub_1_r; by apply Zmod.fermat_nz).
  assert (Hcop : Z.gcd (Zmod.to_Z b) p = 1).
  { rewrite Z.gcd_comm. apply Z.coprime_prime_small; [done|].
    assert (Hr := Zmod.to_Z_range b). apply Zmod.to_Z_nz in Hb. lia. }
  assert (Hgcd := pow_one_gcd p b _ _ Hcop Hb1 Hbp).
  apply (Z.divide_trans _ (Z.gcd (n - 1) (p - 1))); [|apply Z.gcd_divide_r].
  apply (full_power_divides q e m); [done| | |].
  - assert (Hnn := Z.gcd_nonneg (n - 1) (p - 1)).
    destruct (decide (Z.gcd (n - 1) (p - 1) = 0)) as [H0|]; [|lia].
    apply Z.gcd_eq_0_l in H0. lia.
  - rewrite Z.mul_comm, <- Hm. apply Z.gcd_divide_l.
  - intros [k Hk].
    assert (Hnq : (n - 1) / q = q ^ Z.of_nat e * m).
    { rewrite Hm, Nat2Z.inj_succ, Z.pow_succ_r, Z.mul_comm, <- Z.mul_assoc, Z.mul_comm by lia.
      by rewrite Z.div_mul by lia. }
    assert (Hpm : (p | power_mod n a ((n - 1) / q) - 1)).
    { assert (0 ≤ (n - 1) / q) by (apply Z.div_pos; lia).
      apply (power_one_mod_factor n); try done; try lia.
      fold b. rewrite Hnq, Hk, Z.mul_comm, Zmod.pow_mul_r_coprime, Hgcd by done. apply Zmod.pow_1_l. }
    assert (Hp1 : (p | 1)) by (rewrite <- Hg; by apply Z.gcd_greatest).
    apply Z.divide_1_r_nonneg in Hp1; lia.
Qed.

Lemma pocklington_prime : Z.prime n.
Proof.
  destruct (pocklington_checks n a fs Hpock Hprimes) as (Hn & Hlt & _).
  apply prime_by_small_factors; [done|]. intros p Hp Hd.
  assert (H2 := Z.prime_ge_2 _ Hp).
  assert (Hf := Z.absle_divide _ _ (factored_divides_pred p Hp Hd) ltac:(lia)).
  rewrite <- (Z.abs_square (factored fs)) in Hlt. nia.
Qed.
End criterion.

(** ** The modulus *)

Lemma prime_639533339 : Z.prime 639533339.
Proof.
  apply (pocklington_prime _ 2 [(1637, 1%nat); (853, 1%nat)]); [vm_compute; reflexivity|].
  repeat constructor; apply trial_division_prime; vm_compute; reflexivity.
Qed.

Lemma prime_65865678001877903 : Z.prime 65865678001877903.
Proof.
  apply (pocklington_prime _ 5 [(639533339, 1%nat)]); [vm_compute; reflexivity|].
  repeat constructor. apply prime_639533339.
Qed.

Lemma prime_13818364434197438864469338081 : Z.prime 13818364434197438864469338081.
Proof.
  apply (pocklington_prime _ 3 [(65865678001877903, 1%nat)]); [vm_compute; reflexivity|].
  repeat constructor. apply prime_65865678001877903.
Qed.

(** The order of the BN254 scalar field is prime. *)
Lemma MODULUS_prime : Z.prime MODULUS.
Proof.
  apply (pocklington_prime _ 5
    [(2, 28%nat); (983, 1%nat); (13818364434197438864469338081, 1%nat)]).
  - vm_compute. reflexivity.
  - apply Forall_cons; split; [apply Z.prime_2|].
    apply Forall_cons; split; [apply trial_division_prime; vm_compute; reflexivity|].
    apply Forall_cons; split; [apply prime_13818364434197438864469338081|by apply Forall_nil].
Qed.
