(* ===== verification/Poseidon.v ===== *)
(** Poseidon: the permutation, the sponge and the fixed-length hash of
    pkg/minimal-poseidon/src/core_logic.rs.

    The scalar field is another crate (halo2curves): its operations are the
    class [PrimeField] and what they compute, on canonical representatives,
    is [PrimeFieldLaws].  A permutation of width [T] and rate [RATE] is
    described by the class [CachedSpec] (the traits [Spec] and [CachedSpec]
    of the source; a lazily computed constant may panic).  Arrays [[F; T]] are lists, their lengths [T] are the
    hypotheses of the theorems that need them. *)
From S2P Require Import Prelude Element Primality.
From Stdlib Require Import Znumtheory Zdivisibility Zmod.

(** ** The field *)

(** [from_u128] and [from_str_vartime] of a numeral are [fr_from];
    [from_raw] takes four little-endian limbs. *)
Class PrimeField := {
  Fr : Type;
  fr_zero : Fr;
  fr_add : Fr → Fr → Fr;
  fr_sub : Fr → Fr → Fr;
  fr_mul : Fr → Fr → Fr;
  fr_pow : Fr → Z → Fr;
  fr_invert : Fr → option Fr;
  fr_from : Z → Fr;
  fr_from_raw : Z * Z * Z * Z → Fr;
  fr_to_bytes : Fr → list Z
}.

Class PrimeFieldLaws `{PrimeField} := {
  fr_val : Fr → Z;
  fr_val_range x : 0 ≤ fr_val x < MODULUS;
  fr_val_inj x y : fr_val x = fr_val y → x = y;
  fr_val_zero : fr_val fr_zero = 0;
  fr_val_add x y : fr_val (fr_add x y) = (fr_val x + fr_val y) mod MODULUS;
  fr_val_sub x y : fr_val (fr_sub x y) = (fr_val x - fr_val y) mod MODULUS;
  fr_val_mul x y : fr_val (fr_mul x y) = (fr_val x * fr_val y) mod MODULUS;
  fr_val_pow x n : 0 ≤ n → fr_val (fr_pow x n) = fr_val x ^ n mod MODULUS;
  fr_val_invert x : x ≠ fr_zero →
    ∃ y, fr_invert x = Some y ∧ (fr_val x * fr_val y) mod MODULUS = 1;
  fr_val_from n : 0 ≤ n → fr_val (fr_from n) = n mod MODULUS;
  fr_val_from_raw a0 a1 a2 a3 :
    fr_val (fr_from_raw (a0, a1, a2, a3)) =
      (a0 + 2 ^ 64 * a1 + 2 ^ 128 * a2 + 2 ^ 192 * a3) mod MODULUS;
  fr_val_to_bytes x : fr_to_bytes x = Z_to_little_endian 32 8 (fr_val x)
}.

(** ** Specification of a permutation *)

Abbreviation Mds F := (list (list F)).

Class CachedSpec `{PrimeField} (T RATE : nat) := {
  full_rounds : nat;
  partial_rounds : nat;
  sbox : Fr → Fr;
  cached_round_constants : list (list Fr);
  cached_mds : Mds Fr;
  cached_mds_inv : outcome Empty_set (Mds Fr)
}.

Lemma take_cons_pos {A} n (x : A) l : (0 < n)%nat → take n (x :: l) = x :: take (n - 1) l.
Proof. destruct n; [lia|]. simpl. by rewrite Nat.sub_0_r. Qed.

(** [usize::div_ceil]. *)
Definition div_ceil (a b : nat) : nat := (a / b + if decide (a mod b = 0) then 0 else 1)%nat.

Lemma div_ceil_spec a b :
  (0 < b)%nat → (a ≤ div_ceil a b * b < a + b)%nat ∧ (div_ceil a b = 0 ↔ a = 0)%nat.
Proof.
  intros Hb. unfold div_ceil. assert (Hd := Nat.div_mod a b ltac:(lia)).
  assert (Hm := Nat.mod_upper_bound a b ltac:(lia)). case_decide; split; nia.
Qed.

Section permutation.
Context `{PrimeField} {T RATE : nat} `{!CachedSpec T RATE}.

Abbreviation State := (list Fr).

Definition apply_mds (mds : Mds Fr) (state : State) : State :=
  (λ row, foldl (λ acc '(m, s), fr_add acc (fr_mul m s)) fr_zero (zip row state)) <$> mds.

Definition full_round (mds : Mds Fr) (state : State) (rcs : list Fr) : State :=
  apply_mds mds (zip_with (λ word rc, sbox (fr_add word rc)) state rcs).

Definition part_round (mds : Mds Fr) (state : State) (rcs : list Fr) : State :=
  let state := zip_with fr_add state rcs in
  let state := alter sbox 0%nat state in
  apply_mds mds state.

Definition permute (state : State) (mds : Mds Fr) (round_constants : list (list Fr)) : State :=
  let r_f := (full_rounds / 2)%nat in
  let r_p := partial_rounds in
  let rounds := replicate r_f (full_round mds) ++ replicate r_p (part_round mds)
                  ++ replicate r_f (full_round mds) in
  foldl (λ state '(round, rcs), round state rcs) state (zip rounds round_constants).

(** ** The sponge *)

(** [SpongeRate], in its two modes. *)
Inductive Absorbing : Type := absorbing (a : list (option Fr)).
Inductive Squeezing : Type := squeezing (s : list (option Fr)).

Fixpoint add_input (state : State) (input : list (option Fr)) : outcome Empty_set State :=
  match state, input with
  | word :: state', value :: input' =>
      let? v := unwrap value "poseidon_sponge is called with a padded input" in
      let? rest := add_input state' input' in
      Ok (fr_add word v :: rest)
  | _, _ => Ok state
  end.

Definition poseidon_sponge_internal (state : State) (input : option (Absorbing * nat))
  : outcome Empty_set (State * Squeezing) :=
  let? state := match input with
    | Some (absorbing input_data, layout_offset) =>
        if decide (layout_offset ≤ T - RATE)%nat then
          let? added := add_input (drop layout_offset state) input_data in
          Ok (take layout_offset state ++ added)
        else Panic "assertion failed: layout_offset <= T - RATE"
    | None => Ok state
    end in
  let state := permute state cached_mds cached_round_constants in
  let output := (Some <$> take RATE state) ++ replicate (RATE - length state) None in
  Ok (state, squeezing output).

Definition init_with (val : Fr) : outcome Empty_set Absorbing :=
  let v := [Some val] ++ ((λ _, None) <$> seq 1 (RATE - 1)) in
  if decide (length v = RATE) then Ok (absorbing v) else Panic "called `Result::unwrap()` on an `Err` value".

Record Sponge (M : Type) := mk_sponge { sp_mode : M; sp_state : State; sp_layout : nat }.
#[global] Arguments mk_sponge {_} _ _ _.
#[global] Arguments sp_mode {_} _.
#[global] Arguments sp_state {_} _.
#[global] Arguments sp_layout {_} _.

Definition sponge_new (initial_capacity_element : Fr) (layout : nat) : Sponge Absorbing :=
  let mode := absorbing (replicate RATE None) in
  let state := <[((RATE + layout) mod T)%nat := initial_capacity_element]> (replicate T fr_zero) in
  mk_sponge mode state layout.

(** The first free entry takes the value. *)
Fixpoint fill_entry (entries : list (option Fr)) (value : Fr) : option (list (option Fr)) :=
  match entries with
  | [] => None
  | None :: rest => Some (Some value :: rest)
  | Some e :: rest => (Some e ::.) <$> fill_entry rest value
  end.

Definition absorb (self : Sponge Absorbing) (value : Fr) : outcome Empty_set (Sponge Absorbing) :=
  let 'absorbing entries := sp_mode self in
  match fill_entry entries value with
  | Some entries' => Ok (mk_sponge (absorbing entries') (sp_state self) (sp_layout self))
  | None =>
      let? r := poseidon_sponge_internal (sp_state self) (Some (sp_mode self, sp_layout self)) in
      let? mode := init_with value in
      Ok (mk_sponge mode r.1 (sp_layout self))
  end.

Definition finish_absorbing (self : Sponge Absorbing) : outcome Empty_set (Sponge Squeezing) :=
  let? r := poseidon_sponge_internal (sp_state self) (Some (sp_mode self, sp_layout self)) in
  Ok (mk_sponge r.2 r.1 (sp_layout self)).

(** The first filled entry is taken. *)
Fixpoint take_entry (entries : list (option Fr)) : option (Fr * list (option Fr)) :=
  match entries with
  | [] => None
  | Some e :: rest => Some (e, None :: rest)
  | None :: rest => (λ '(e, rest'), (e, None :: rest')) <$> take_entry rest
  end.

(** The loop of [squeeze]; it is left in its second turn at the latest when
    the rate and the width are positive ([squeeze_ends]). *)
Fixpoint squeeze_loop (turns : nat) (self : Sponge Squeezing)
  : outcome Empty_set (option (Fr * Sponge Squeezing)) :=
  match turns with
  | O => Ok None
  | S turns' =>
      let 'squeezing entries := sp_mode self in
      match take_entry entries with
      | Some (e, entries') => Ok (Some (e, mk_sponge (squeezing entries') (sp_state self) (sp_layout self)))
      | None =>
          let? r := poseidon_sponge_internal (sp_state self) None in
          squeeze_loop turns' (mk_sponge r.2 r.1 (sp_layout self))
      end
  end.
Definition squeeze (self : Sponge Squeezing) := squeeze_loop 2 self.

(** ** Fixed-length hashing: [Hash] over the domain [ConstantLength<L>] *)

Definition initial_capacity_element (L : nat) : Fr := fr_from (wrap 128 (Z.of_nat L ≪ 64)).

Definition padding (L input_len : nat) : outcome Empty_set (list Fr) :=
  if decide (input_len = L) then
    let k := div_ceil L RATE in Ok (replicate (k * RATE - L) fr_zero)
  else Panic "assertion `left == right` failed".

Definition hash_init (L : nat) : Sponge Absorbing := sponge_new (initial_capacity_element L) 0.

Fixpoint absorb_all (self : Sponge Absorbing) (values : list Fr)
  : outcome Empty_set (Sponge Absorbing) :=
  match values with
  | [] => Ok self
  | value :: rest => let? self := absorb self value in absorb_all self rest
  end.

Definition hash_message (self : Sponge Absorbing) (message : list Fr)
  : outcome Empty_set (option Fr) :=
  let? pad := padding (length message) (length message) in
  let? self := absorb_all self (message ++ pad) in
  let? self := finish_absorbing self in
  let? r := squeeze self in
  Ok (fst <$> r).

(** ** Reference: a sponge over whole blocks *)

(** Absorb one block of [RATE] elements and permute. *)
Definition duplex (state : State) (block : list Fr) : State :=
  permute (zip_with fr_add (take RATE state) block ++ drop RATE state)
    cached_mds cached_round_constants.

Fixpoint blocks (k : nat) (l : list Fr) : list (list Fr) :=
  match k with
  | O => []
  | S k' => take RATE l :: blocks k' (drop RATE l)
  end.

Definition initial_state (L : nat) : State :=
  replicate RATE fr_zero ++ initial_capacity_element L :: replicate (T - RATE - 1) fr_zero.

(** The message in blocks, the last one completed with zeros. *)
Definition padded_blocks (message : list Fr) : list (list Fr) :=
  let k := div_ceil (length message) RATE in
  blocks k (message ++ replicate (k * RATE - length message) fr_zero).

Definition sponge_hash (message : list Fr) : option Fr :=
  head (foldl duplex (initial_state (length message)) (padded_blocks message)).

(** ** The code is the reference *)

Context (Hrate : (0 < RATE)%nat) (Hwidth : (RATE < T)%nat) (Hmds : length cached_mds = T).

Lemma apply_mds_length mds state : length (apply_mds mds state) = length mds.
Proof. apply length_fmap. Qed.

Lemma permute_length (state : State) :
  length state = T → length (permute state cached_mds cached_round_constants) = T.
Proof.
  unfold permute. set (rounds := zip _ _).
  assert (Hr : Forall (λ x, ∀ st, length (x.1 st x.2) = T) rounds).
  { apply Forall_forall. intros [r rcs] Hin%elem_of_zip_l st. simpl.
    rewrite !elem_of_app in Hin.
    destruct Hin as [Hin|[Hin|Hin]]; apply elem_of_replicate in Hin as [-> _];
      [unfold full_round|unfold part_round|unfold full_round]; by rewrite apply_mds_length. }
  revert state. induction Hr as [|[r rcs] l Hx _ IH]; intros state Hst; simpl; [done|].
  apply IH, Hx.
Qed.

(** The mode after [xs] went in. *)
Definition pending (xs : list Fr) : list (option Fr) :=
  (Some <$> xs) ++ replicate (RATE - length xs) None.

Lemma fill_pending xs y :
  (length xs < RATE)%nat → fill_entry (pending xs) y = Some (pending (xs ++ [y])).
Proof.
  intros Hl. unfold pending. rewrite fmap_app, <- app_assoc, length_app. simpl.
  replace (RATE - length xs)%nat with (S (RATE - (length xs + 1))) by lia. clear Hl.
  generalize (RATE - (length xs + 1))%nat. intros m.
  induction xs as [|x xs IH]; [done|].
  rewrite !fmap_cons, <- !app_comm_cons. cbn [fill_entry]. by rewrite IH.
Qed.

Lemma fill_full xs y : length xs = RATE → fill_entry (pending xs) y = None.
Proof.
  intros Hl. unfold pending. rewrite Hl, Nat.sub_diag, app_nil_r. clear Hl.
  induction xs as [|x xs IH]; [done|]. rewrite fmap_cons. cbn [fill_entry]. by rewrite IH.
Qed.

Lemma init_with_pending y : init_with y = Ok (absorbing (pending [y])).
Proof.
  unfold init_with, pending. simpl. rewrite decide_True by (rewrite length_fmap, length_seq; lia).
  do 3 f_equal. generalize (RATE - 1)%nat. intros m. generalize 1%nat.
  induction m as [|m IH]; intros n; simpl; [done|]. by rewrite IH.
Qed.

Lemma add_input_full state xs :
  (length xs ≤ length state)%nat →
  add_input state (Some <$> xs) =
    Ok (zip_with fr_add (take (length xs) state) xs ++ drop (length xs) state).
Proof.
  revert state. induction xs as [|x xs IH]; intros [|w state] Hl; simpl in *; try done; try lia.
  by rewrite IH by lia.
Qed.

Lemma duplex_length state xs :
  length state = T → length xs = RATE → length (duplex state xs) = T.
Proof.
  intros Hst Hxs. apply permute_length.
  rewrite length_app, length_zip_with, length_take, length_drop. lia.
Qed.

Lemma internal_duplex state xs :
  length state = T → length xs = RATE →
  poseidon_sponge_internal state (Some (absorbing (pending xs), 0%nat)) =
    Ok (duplex state xs, squeezing (Some <$> take RATE (duplex state xs))).
Proof.
  intros Hst Hxs. unfold poseidon_sponge_internal. rewrite decide_True by lia.
  unfold pending. rewrite Hxs, Nat.sub_diag, app_nil_r, drop_0, add_input_full by lia. simpl.
  rewrite Hxs. fold (duplex state xs).
  rewrite duplex_length by done. by rewrite (proj2 (Nat.sub_0_le RATE T)), app_nil_r by lia.
Qed.

Lemma absorb_blocks ys xs state k :
  length state = T → (length xs ≤ RATE)%nat → (0 < k)%nat →
  length (xs ++ ys) = (k * RATE)%nat →
  let final := foldl duplex state (blocks k (xs ++ ys)) in
  length final = T ∧
  outcome_bind (absorb_all (mk_sponge (absorbing (pending xs)) state 0) ys) finish_absorbing =
    Ok (mk_sponge (squeezing (Some <$> take RATE final)) final 0).
Proof.
  revert xs state k. induction ys as [|y ys IH]; intros xs state k Hst Hxs Hk Hlen final.
  - subst final. rewrite app_nil_r in *. assert (k = 1%nat) as -> by nia.
    assert (length xs = RATE) by lia. simpl.
    rewrite (take_ge xs) by lia. split; [by apply duplex_length|].
    unfold finish_absorbing. simpl. by rewrite internal_duplex.
  - simpl. unfold absorb at 1. simpl. destruct (decide (length xs < RATE)%nat).
    + rewrite fill_pending by done. simpl. subst final.
      rewrite (cons_middle y xs ys), app_assoc in *.
      apply IH; [done| |done|done]. rewrite length_app. simpl. lia.
    + assert (length xs = RATE) by lia. rewrite fill_full by done.
      rewrite internal_duplex by done. simpl. rewrite init_with_pending. simpl.
      rewrite length_app in Hlen. simpl in Hlen.
      destruct k as [|k]; [lia|]. assert (0 < k)%nat by (destruct k; lia).
      subst final. simpl. rewrite take_app_length', drop_app_length' by done.
      apply (IH [y]); [by apply duplex_length|simpl; lia|done|simpl; lia].
Qed.

(** A squeezing sponge fresh from the permutation yields its first word. *)
Lemma squeeze_fresh state :
  length state = T →
  ∃ self, squeeze (mk_sponge (squeezing (Some <$> take RATE state)) state 0) =
    Ok ((λ e, (e, self)) <$> head state).
Proof.
  intros Hst. destruct state as [|w state]; [simpl in Hst; lia|].
  unfold squeeze. rewrite take_cons_pos by done. by eexists.
Qed.

(** The loop of [squeeze] ends: a second turn finds the permuted state. *)
Lemma squeeze_ends (self : Sponge Squeezing) :
  length (sp_state self) = T → ∃ r, squeeze self = Ok (Some r).
Proof.
  destruct self as [[entries] state layout]. intros Hst. unfold squeeze. cbn [squeeze_loop sp_mode].
  destruct (take_entry entries) as [[e rest]|]; [by eexists|].
  assert (Hl := permute_length state Hst). unfold poseidon_sponge_internal. simpl in *.
  destruct (permute state _ _) as [|w st]; [simpl in Hl; lia|].
  rewrite take_cons_pos by done. by eexists.
Qed.

Lemma hash_init_state L :
  hash_init L = mk_sponge (absorbing (pending [])) (initial_state L) 0.
Proof.
  unfold hash_init, sponge_new, pending, initial_state.
  rewrite Nat.add_0_r, Nat.mod_small, Nat.sub_0_r by lia. f_equal.
  replace T with (RATE + S (T - RATE - 1))%nat at 1 by lia.
  rewrite replicate_add, insert_app_r_alt by (by rewrite length_replicate).
  by rewrite length_replicate, Nat.sub_diag.
Qed.

Lemma initial_state_length L : length (initial_state L) = T.
Proof. unfold initial_state. rewrite length_app. simpl. rewrite !length_replicate. lia. Qed.

(** The sponge of a hashed message ends in the state of the reference. *)
Lemma hash_sponge_hash message :
  message ≠ [] →
  ∃ h, sponge_hash message = Some h ∧ hash_message (hash_init (length message)) message = Ok (Some h).
Proof.
  intros Hne. unfold hash_message, padding. rewrite decide_True by done. simpl. rewrite hash_init_state.
  destruct (div_ceil_spec (length message) RATE Hrate) as [Hc H0].
  assert (length message ≠ 0%nat) by (by destruct message).
  set (k := div_ceil _ _) in *.
  destruct (absorb_blocks (message ++ replicate (k * RATE - length message) fr_zero) []
    (initial_state (length message)) k) as [Hl Hf]; [apply initial_state_length|simpl; lia|lia| |].
  { simpl. rewrite length_app, length_replicate. lia. }
  destruct (absorb_all _ _) as [s| |] eqn:Ha; simpl in *; try done. rewrite Hf. simpl.
  destruct (squeeze_fresh _ Hl) as [self Hs]. rewrite Hs. simpl.
  unfold sponge_hash, padded_blocks. fold k. destruct (foldl _ _ _) as [|w st]; [simpl in Hl; lia|].
  by exists w.
Qed.

(** A message of no elements absorbs nothing, and the sponge refuses to finish. *)
Lemma hash_empty_panics :
  hash_message (hash_init 0) [] = Panic "poseidon_sponge is called with a padded input".
Proof.
  unfold hash_message. simpl. replace (div_ceil 0 RATE * RATE - 0)%nat with 0%nat.
  2: { destruct (div_ceil_spec 0 RATE Hrate) as [_ [_ ->]]; done. }
  simpl. rewrite hash_init_state. unfold finish_absorbing, poseidon_sponge_internal. simpl.
  unfold pending. simpl. rewrite drop_0.
  destruct (initial_state 0) as [|w st] eqn:E.
  { assert (Hl := initial_state_length 0). rewrite E in Hl. simpl in Hl. lia. }
  by replace (RATE - 0)%nat with (S (RATE - 1)) by lia.
Qed.
End permutation.

(** ** The permutation is a bijection *)

Section bijection.
Context {A : Type} (n : nat).

(** A bijection on the lists of length [n]. *)
Record bijection (f : list A → list A) : Prop := {
  bij_length x : length x = n → length (f x) = n;
  bij_inj x y : length x = n → length y = n → f x = f y → x = y;
  bij_surj y : length y = n → ∃ x, length x = n ∧ f x = y
}.

Lemma bijection_id : bijection (λ x, x).
Proof. split; [done..|eauto]. Qed.

Lemma bijection_compose f g : bijection f → bijection g → bijection (λ x, g (f x)).
Proof.
  intros Hf Hg. split.
  - intros x Hx. by apply (bij_length g Hg), (bij_length f Hf).
  - intros x y Hx Hy He. apply (bij_inj f Hf); [done..|].
    apply (bij_inj g Hg); [by apply (bij_length f Hf)..|done].
  - intros y Hy. destruct (bij_surj g Hg y Hy) as (z & Hz & <-).
    destruct (bij_surj f Hf z Hz) as (x & Hx & <-). eauto.
Qed.

Lemma bijection_fold {B} (step : list A → B → list A) (l : list B) :
  Forall (λ b, bijection (λ x, step x b)) l → bijection (λ x, foldl step x l).
Proof.
  induction 1 as [|b l Hb _ IH]; simpl; [apply bijection_id|].
  by apply (bijection_compose (λ x, step x b) (λ x, foldl step x l)).
Qed.

Lemma bijection_inverse f g :
  (∀ x, length x = n → length (f x) = n ∧ g (f x) = x) →
  (∀ y, length y = n → length (g y) = n ∧ f (g y) = y) → bijection f.
Proof.
  intros Hf Hg. split.
  - intros x Hx. by apply Hf.
  - intros x y Hx Hy He. rewrite <- (proj2 (Hf x Hx)), <- (proj2 (Hf y Hy)). by rewrite He.
  - intros y Hy. exists (g y). by apply Hg.
Qed.
End bijection.

(** ** Arithmetic of the field *)

Section field.
Context `{Hlaws : PrimeFieldLaws}.

Definition fr_one : Fr := fr_from 1.
Definition fr_opp (x : Fr) : Fr := fr_sub fr_zero x.

Lemma MODULUS_pos : 1 < MODULUS.
Proof. done. Qed.

Lemma fr_val_one : fr_val fr_one = 1.
Proof. unfold fr_one. by rewrite fr_val_from. Qed.

Lemma fr_val_small x : fr_val x mod MODULUS = fr_val x.
Proof. apply Z.mod_small, fr_val_range. Qed.

Ltac fr_norm :=
  intros; apply fr_val_inj; unfold fr_opp;
  rewrite ?fr_val_add, ?fr_val_sub, ?fr_val_mul, ?fr_val_zero, ?fr_val_one, ?fr_val_add, ?fr_val_mul;
  rewrite ?Zplus_mod_idemp_l, ?Zplus_mod_idemp_r, ?Zmult_mod_idemp_l, ?Zmult_mod_idemp_r,
    ?Zminus_mod_idemp_r.

Lemma fr_ring : ring_theory fr_zero fr_one fr_add fr_mul fr_sub fr_opp eq.
Proof.
  split; fr_norm.
  - by rewrite Z.add_0_l, fr_val_small.
  - by rewrite Z.add_comm.
  - by rewrite Z.add_assoc.
  - by rewrite Z.mul_1_l, fr_val_small.
  - by rewrite Z.mul_comm.
  - by rewrite Z.mul_assoc.
  - by rewrite Z.mul_add_distr_r.
  - f_equal; lia.
  - rewrite Z.sub_0_l, Z.add_opp_r, Z.sub_diag. done.
Qed.
End field.

Section round_bijections.
Context `{Hlaws : PrimeFieldLaws} {T RATE : nat} `{!CachedSpec T RATE}.
Add Ring fr_ring : fr_ring.

Context (unsbox : Fr → Fr).
Hypothesis unsbox_sbox : ∀ x, unsbox (sbox x) = x.
Hypothesis sbox_unsbox : ∀ x, sbox (unsbox x) = x.

Lemma zip_with_bijection (f g : Fr → Fr → Fr) rcs :
  length rcs = T → (∀ x c, g (f x c) c = x) → (∀ x c, f (g x c) c = x) →
  bijection T (λ st, zip_with f st rcs).
Proof.
  intros Hl Hgf Hfg. apply (bijection_inverse T _ (λ st, zip_with g st rcs)); intros x Hx.
  - split; [rewrite length_zip_with; lia|]. revert x Hx. rewrite <- Hl. clear Hl.
    induction rcs as [|c rcs IH]; intros [|w st] Hx; simpl in *; try done. rewrite Hgf, IH; auto with lia.
  - split; [rewrite length_zip_with; lia|]. revert x Hx. rewrite <- Hl. clear Hl.
    induction rcs as [|c rcs IH]; intros [|w st] Hx; simpl in *; try done. rewrite Hfg, IH; auto with lia.
Qed.

Lemma alter_bijection : bijection T (alter sbox 0%nat).
Proof.
  apply (bijection_inverse T _ (alter unsbox 0%nat)); intros x Hx;
    (split; [by rewrite length_alter|]); destruct x; simpl; congruence.
Qed.

Context (mds : Mds Fr).
Hypothesis mds_bijection : bijection T (apply_mds mds).

Lemma full_round_bijection rcs : length rcs = T → bijection T (λ st, full_round mds st rcs).
Proof.
  intros Hl. apply (bijection_compose T (λ st, zip_with _ st rcs) (apply_mds mds)); [|done].
  apply (zip_with_bijection _ (λ x c, fr_sub (unsbox x) c)); [done| |]; intros x c.
  - rewrite unsbox_sbox. ring.
  - rewrite <- (sbox_unsbox x) at 2. f_equal. ring.
Qed.

Lemma part_round_bijection rcs : length rcs = T → bijection T (λ st, part_round mds st rcs).
Proof.
  intros Hl. apply (bijection_compose T (λ st, alter sbox 0%nat (zip_with fr_add st rcs))
    (apply_mds mds)); [|done].
  apply (bijection_compose T (λ st, zip_with fr_add st rcs) (alter sbox 0%nat)); [|apply alter_bijection].
  apply (zip_with_bijection _ fr_sub); [done| |]; intros; ring.
Qed.

Lemma rounds_bijection round_constants :
  Forall (λ rcs, length rcs = T) round_constants →
  bijection T (λ st, permute st mds round_constants).
Proof.
  intros Hrc. apply bijection_fold. apply Forall_forall. intros [r rcs] Hin.
  assert (Hlen : length rcs = T).
  { apply elem_of_zip_r in Hin. by eapply Forall_forall in Hrc. }
  apply elem_of_zip_l in Hin. rewrite !elem_of_app in Hin.
  destruct Hin as [Hin|[Hin|Hin]]; apply elem_of_replicate in Hin as [-> _];
    [by apply full_round_bijection|by apply part_round_bijection|by apply full_round_bijection].
Qed.
End round_bijections.
