(* ===== verification/Poseidon2.v ===== *)
(** The Poseidon2 sponge of pkg/hash/src/poseidon.rs, over the permutation of
    another crate (bn254_blackbox_solver).  The file of the source is not
    declared as a module of the crate; it states what the [poseidon_hash] the
    crate calls computes. *)
From S2P Require Import Prelude Poseidon.

(** The field and the permutation: other crates. *)
Class Poseidon2Lib := {
  FieldElement : Type;
  fe_zero : FieldElement;
  fe_add : FieldElement → FieldElement → FieldElement;
  fe_mul : FieldElement → FieldElement → FieldElement;
  fe_from : Z → FieldElement;
  BlackBoxResolutionError : Type;
  failed : string → BlackBoxResolutionError;
  poseidon2_permutation :
    list FieldElement → outcome BlackBoxResolutionError (list FieldElement)
}.

(** The permutation accepts exactly four elements and returns four. *)
Class Poseidon2Laws `{Poseidon2Lib} : Prop := {
  permutation_total st : length st = 4%nat →
    ∃ st', poseidon2_permutation st = Ok st' ∧ length st' = 4%nat
}.

Section sponge.
Context `{Poseidon2Lib}.

Record Poseidon2Sponge := mk_sponge2 {
  rate : nat;
  squeezed : bool;
  cache : list FieldElement;
  state : list FieldElement
}.

Definition sponge2_new (iv : FieldElement) (rate : nat) : Poseidon2Sponge :=
  mk_sponge2 rate false [] (<[rate := iv]> (replicate (rate + 1) fe_zero)).

Definition perform_duplex (self : Poseidon2Sponge)
  : outcome BlackBoxResolutionError Poseidon2Sponge :=
  let cache' := cache self ++ replicate (rate self - length (cache self)) fe_zero in
  let added := zip_with fe_add (take (rate self) (state self)) cache' ++ drop (rate self) (state self) in
  let? state' := poseidon2_permutation added in
  Ok (mk_sponge2 (rate self) (squeezed self) cache' state').

Definition sponge2_absorb (self : Poseidon2Sponge) (input : FieldElement)
  : outcome BlackBoxResolutionError Poseidon2Sponge :=
  if squeezed self then Err (failed "cannot absorb after squeeze")
  else if decide (length (cache self) = rate self) then
    let? self := perform_duplex self in
    Ok (mk_sponge2 (rate self) (squeezed self) [input] (state self))
  else Ok (mk_sponge2 (rate self) (squeezed self) (cache self ++ [input]) (state self)).

Definition sponge2_squeeze (self : Poseidon2Sponge)
  : outcome BlackBoxResolutionError (FieldElement * Poseidon2Sponge) :=
  if squeezed self then Err (failed "cannot squeeze twice")
  else
    let? self := perform_duplex self in
    let self := mk_sponge2 (rate self) true (cache self) (state self) in
    let? first := unwrap (state self !! 0%nat) "index out of bounds" in
    Ok (first, self).

Fixpoint sponge2_absorb_all (self : Poseidon2Sponge) (inputs : list FieldElement)
  : outcome BlackBoxResolutionError Poseidon2Sponge :=
  match inputs with
  | [] => Ok self
  | input :: rest => let? self := sponge2_absorb self input in sponge2_absorb_all self rest
  end.

Definition poseidon2_hash (inputs : list FieldElement)
  : outcome BlackBoxResolutionError FieldElement :=
  let two_pow_64 := fe_from 18446744073709551616 in
  let iv := fe_mul (fe_from (Z.of_nat (length inputs))) two_pow_64 in
  let sponge := sponge2_new iv 3 in
  let? sponge := sponge2_absorb_all sponge inputs in
  let? r := sponge2_squeeze sponge in
  Ok r.1.

(** ** Reference: blocks of three, the last completed with zeros *)

Definition zero_padded (block : list FieldElement) : list FieldElement :=
  block ++ replicate (3 - length block) fe_zero.

Definition duplex2 (st block : list FieldElement)
  : outcome BlackBoxResolutionError (list FieldElement) :=
  poseidon2_permutation (zip_with fe_add (take 3 st) (zero_padded block) ++ drop 3 st).

(** At least one block, also of no input. *)
Fixpoint duplex_blocks (more : nat) (st inputs : list FieldElement)
  : outcome BlackBoxResolutionError (list FieldElement) :=
  match more with
  | O => duplex2 st inputs
  | S more' => let? st := duplex2 st (take 3 inputs) in duplex_blocks more' st (drop 3 inputs)
  end.

Definition reference_hash (inputs : list FieldElement)
  : outcome BlackBoxResolutionError FieldElement :=
  let iv := fe_mul (fe_from (Z.of_nat (length inputs))) (fe_from (2 ^ 64)) in
  let? st := duplex_blocks (div_ceil (length inputs) 3 - 1) [fe_zero; fe_zero; fe_zero; iv] inputs in
  unwrap (st !! 0%nat) "index out of bounds".

(** ** The sponge is the reference *)

Context `{Hlaws : !Poseidon2Laws}.

Lemma duplex2_total st block :
  length st = 4%nat → (length block ≤ 3)%nat →
  ∃ st', duplex2 st block = Ok st' ∧ length st' = 4%nat ∧
    ∀ sq, perform_duplex (mk_sponge2 3 sq block st) = Ok (mk_sponge2 3 sq (zero_padded block) st').
Proof.
  intros Hst Hb. unfold duplex2, perform_duplex. simpl.
  destruct (permutation_total (zip_with fe_add (take 3 st) (zero_padded block) ++ drop 3 st))
    as (st' & He & Hl).
  { unfold zero_padded. rewrite length_app, length_zip_with, length_take, length_drop, length_app,
      length_replicate. lia. }
  exists st'. split; [done|]. split; [done|]. intros sq. unfold zero_padded in *. by rewrite He.
Qed.

(** [more] blocks are complete and followed by at least one element, or there
    is a single block. *)
Lemma absorb_squeeze_blocks ys xs st more :
  length st = 4%nat → (length xs ≤ 3)%nat →
  (more * 3 < length (xs ++ ys) ≤ (more + 1) * 3 ∨ more = 0 ∧ xs = [] ∧ ys = [])%nat →
  ∃ st' c, duplex_blocks more st (xs ++ ys) = Ok st' ∧ length st' = 4%nat ∧
    outcome_bind (sponge2_absorb_all (mk_sponge2 3 false xs st) ys) sponge2_squeeze =
      (let? first := unwrap (st' !! 0%nat) "index out of bounds" in
       Ok (first, mk_sponge2 3 true c st')).
Proof.
  revert xs st more. induction ys as [|y ys IH]; intros xs st more Hst Hxs Hmore.
  - rewrite app_nil_r in *. assert (more = 0%nat) as -> by (destruct Hmore as [?|[? _]]; lia).
    destruct (duplex2_total st xs Hst Hxs) as (st' & Hd & Hl & Hp).
    exists st', (zero_padded xs). split; [done|]. split; [done|].
    simpl. unfold sponge2_squeeze. simpl. by rewrite Hp.
  - destruct Hmore as [Hmore|(_ & _ & ?)]; [|done]. cbn [sponge2_absorb_all]. unfold sponge2_absorb.
    cbn [squeezed cache rate state]. case_decide as Hfull.
    + destruct (duplex2_total st xs Hst Hxs) as (st' & Hd & Hl & Hp).
      rewrite length_app in Hmore. cbn [length] in Hmore. destruct more as [|more]; [lia|].
      rewrite Hp. cbn [outcome_bind rate squeezed state]. cbn [duplex_blocks].
      rewrite take_app_length', drop_app_length', Hd by done. cbn [outcome_bind].
      apply (IH [y]); [done|simpl; lia|]. left. simpl. lia.
    + cbn [outcome_bind]. rewrite (cons_middle y xs ys), app_assoc in *.
      apply IH; [done| |by left]. rewrite length_app. simpl. lia.
Qed.

(** The sponge of the source never fails and computes the reference: the
    permutation folded over the inputs in blocks of three, the last block
    completed with zeros, from a state that holds the number of inputs. *)
Theorem poseidon2_hash_is_reference inputs :
  ∃ h, reference_hash inputs = Ok h ∧ poseidon2_hash inputs = Ok h.
Proof.
  set (iv := fe_mul (fe_from (Z.of_nat (length inputs))) (fe_from (2 ^ 64))).
  destruct (div_ceil_spec (length inputs) 3 ltac:(lia)) as [Hc H0].
  destruct (absorb_squeeze_blocks inputs [] [fe_zero; fe_zero; fe_zero; iv]
    (div_ceil (length inputs) 3 - 1)) as (st & c & Hb & Hl & Hs); [done|simpl; lia| |].
  { destruct inputs as [|x inputs]; [by right|]. left. simpl (length ([] ++ _)). simpl in *. lia. }
  destruct st as [|h st]; [done|]. exists h. simpl app in Hb. unfold reference_hash.
  fold iv. rewrite Hb. split; [done|].
  unfold poseidon2_hash. change (fe_from 18446744073709551616) with (fe_from (2 ^ 64)). fold iv.
  change (sponge2_new iv 3) with (mk_sponge2 3 false [] [fe_zero; fe_zero; fe_zero; iv]).
  destruct (sponge2_absorb_all _ _) as [s| |]; simpl in *; try done. by rewrite Hs.
Qed.

(** A sponge that was squeezed accepts no input and yields nothing more. *)
Theorem squeezed_sponge_is_closed self first self' :
  sponge2_squeeze self = Ok (first, self') →
  (∀ x, sponge2_absorb self' x = Err (failed "cannot absorb after squeeze")) ∧
  sponge2_squeeze self' = Err (failed "cannot squeeze twice").
Proof.
  unfold sponge2_squeeze at 1. destruct (squeezed self); [done|].
  destruct (perform_duplex self) as [s| |]; simpl; try done.
  destruct (state s) as [|w st]; simpl; [done|]. by intros [= <- <-].
Qed.
End sponge.

(** A library that satisfies the law. *)
#[local] Instance rotation_lib : Poseidon2Lib := {|
  FieldElement := Z;
  fe_zero := 0;
  fe_add := Z.add;
  fe_mul := Z.mul;
  fe_from n := n;
  BlackBoxResolutionError := string;
  failed msg := msg;
  poseidon2_permutation st :=
    if decide (length st = 4%nat) then Ok (drop 1 st ++ take 1 st) else Err "Failed"
|}.

#[local] Instance rotation_laws : Poseidon2Laws.
Proof.
  split. intros st Hst. exists (drop 1 st ++ take 1 st). cbn [poseidon2_permutation rotation_lib].
  rewrite decide_True by done. split; [done|]. rewrite length_app, length_drop, length_take. lia.
Qed.

(** Four inputs take two blocks; their number is the initial capacity. *)
Example poseidon2_hash_example :
  poseidon2_hash [1; 2; 3; 4] = Ok (3 : Z) ∧ reference_hash [1; 2; 3; 4] = Ok (3 : Z) ∧
  poseidon2_hash [] = Ok (0 : Z).
Proof. vm_compute. done. Qed.
