(* ===== verification/PoseidonNoir.v ===== *)
(** The Poseidon hash of the circuits (noir/poseidon_alt/src: poseidon.nr,
    constants.nr), written a second time in Noir, and its agreement with the
    Rust hash of pkg/hash-poseidon: the circuits and the program compute the
    same addresses. *)
From S2P Require Import Prelude Element Poseidon PoseidonBn256.

(** ** Constants *)

Definition NOIR_FULL_ROUNDS : nat := 8.
Definition NOIR_PARTIAL_ROUNDS : nat := 57.
Definition NOIR_RATE : nat := 2.

Definition noir_round_constants : list (list Z) := [
  [6745197990210204598374042828761989596302876299545964402857411729872131034734;
   426281677759936592021316809065178817848084678679510574715894138690250139748;
   4014188762916583598888942667424965430287497824629657219807941460227372577781];
  [21328925083209914769191926116470334003273872494252651254811226518870906634704;
   19525217621804205041825319248827370085205895195618474548469181956339322154226;
   1402547928439424661186498190603111095981986484908825517071607587179649375482];
  [18320863691943690091503704046057443633081959680694199244583676572077409194605;
   17709820605501892134371743295301255810542620360751268064484461849423726103416;
   15970119011175710804034336110979394557344217932580634635707518729185096681010];
  [9818625905832534778628436765635714771300533913823445439412501514317783880744;
   6235167673500273618358172865171408902079591030551453531218774338170981503478;
   12575685815457815780909564540589853169226710664203625668068862277336357031324];
  [7381963244739421891665696965695211188125933529845348367882277882370864309593;
   14214782117460029685087903971105962785460806586237411939435376993762368956406;
   13382692957873425730537487257409819532582973556007555550953772737680185788165];
  [2203881792421502412097043743980777162333765109810562102330023625047867378813;
   2916799379096386059941979057020673941967403377243798575982519638429287573544;
   4341714036313630002881786446132415875360643644216758539961571543427269293497];
  [2340590164268886572738332390117165591168622939528604352383836760095320678310;
   5222233506067684445011741833180208249846813936652202885155168684515636170204;
   7963328565263035669460582454204125526132426321764384712313576357234706922961];
  [1394121618978136816716817287892553782094854454366447781505650417569234586889;
   20251767894547536128245030306810919879363877532719496013176573522769484883301;
   141695147295366035069589946372747683366709960920818122842195372849143476473];
  [15919677773886738212551540894030218900525794162097204800782557234189587084981;
   2616624285043480955310772600732442182691089413248613225596630696960447611520;
   4740655602437503003625476760295930165628853341577914460831224100471301981787];
  [19201590924623513311141753466125212569043677014481753075022686585593991810752;
   12116486795864712158501385780203500958268173542001460756053597574143933465696;
   8481222075475748672358154589993007112877289817336436741649507712124418867136];
  [5181207870440376967537721398591028675236553829547043817076573656878024336014;
   1576305643467537308202593927724028147293702201461402534316403041563704263752;
   2555752030748925341265856133642532487884589978209403118872788051695546807407];
  [18840924862590752659304250828416640310422888056457367520753407434927494649454;
   14593453114436356872569019099482380600010961031449147888385564231161572479535;
   20826991704411880672028799007667199259549645488279985687894219600551387252871];
  [9159011389589751902277217485643457078922343616356921337993871236707687166408;
   5605846325255071220412087261490782205304876403716989785167758520729893194481;
   1148784255964739709393622058074925404369763692117037208398835319441214134867];
  [20945896491956417459309978192328611958993484165135279604807006821513499894540;
   229312996389666104692157009189660162223783309871515463857687414818018508814;
   21184391300727296923488439338697060571987191396173649012875080956309403646776];
  [21853424399738097885762888601689700621597911601971608617330124755808946442758;
   12776298811140222029408960445729157525018582422120161448937390282915768616621;
   7556638921712565671493830639474905252516049452878366640087648712509680826732];
  [19042212131548710076857572964084011858520620377048961573689299061399932349935;
   12871359356889933725034558434803294882039795794349132643274844130484166679697;
   3313271555224009399457959221795880655466141771467177849716499564904543504032];
  [15080780006046305940429266707255063673138269243146576829483541808378091931472;
   21300668809180077730195066774916591829321297484129506780637389508430384679582;
   20480395468049323836126447690964858840772494303543046543729776750771407319822];
  [10034492246236387932307199011778078115444704411143703430822959320969550003883;
   19584962776865783763416938001503258436032522042569001300175637333222729790225;
   20155726818439649091211122042505326538030503429443841583127932647435472711802];
  [13313554736139368941495919643765094930693458639277286513236143495391474916777;
   14606609055603079181113315307204024259649959674048912770003912154260692161833;
   5563317320536360357019805881367133322562055054443943486481491020841431450882];
  [10535419877021741166931390532371024954143141727751832596925779759801808223060;
   12025323200952647772051708095132262602424463606315130667435888188024371598063;
   2906495834492762782415522961458044920178260121151056598901462871824771097354];
  [19131970618309428864375891649512521128588657129006772405220584460225143887876;
   8896386073442729425831367074375892129571226824899294414632856215758860965449;
   7748212315898910829925509969895667732958278025359537472413515465768989125274];
  [422974903473869924285294686399247660575841594104291551918957116218939002865;
   6398251826151191010634405259351528880538837895394722626439957170031528482771;
   18978082967849498068717608127246258727629855559346799025101476822814831852169];
  [19150742296744826773994641927898928595714611370355487304294875666791554590142;
   12896891575271590393203506752066427004153880610948642373943666975402674068209;
   9546270356416926575977159110423162512143435321217584886616658624852959369669];
  [2159256158967802519099187112783460402410585039950369442740637803310736339200;
   8911064487437952102278704807713767893452045491852457406400757953039127292263;
   745203718271072817124702263707270113474103371777640557877379939715613501668];
  [19313999467876585876087962875809436559985619524211587308123441305315685710594;
   13254105126478921521101199309550428567648131468564858698707378705299481802310;
   1842081783060652110083740461228060164332599013503094142244413855982571335453];
  [9630707582521938235113899367442877106957117302212260601089037887382200262598;
   5066637850921463603001689152130702510691309665971848984551789224031532240292;
   4222575506342961001052323857466868245596202202118237252286417317084494678062];
  [2919565560395273474653456663643621058897649501626354982855207508310069954086;
   6828792324689892364977311977277548750189770865063718432946006481461319858171;
   2245543836264212411244499299744964607957732316191654500700776604707526766099];
  [19602444885919216544870739287153239096493385668743835386720501338355679311704;
   8239538512351936341605373169291864076963368674911219628966947078336484944367;
   15053013456316196458870481299866861595818749671771356646798978105863499965417];
  [7173615418515925804810790963571435428017065786053377450925733428353831789901;
   8239211677777829016346247446855147819062679124993100113886842075069166957042;
   15330855478780269194281285878526984092296288422420009233557393252489043181621];
  [10014883178425964324400942419088813432808659204697623248101862794157084619079;
   14014440630268834826103915635277409547403899966106389064645466381170788813506;
   3580284508947993352601712737893796312152276667249521401778537893620670305946];
  [2559754020964039399020874042785294258009596917335212876725104742182177996988;
   14898657953331064524657146359621913343900897440154577299309964768812788279359;
   2094037260225570753385567402013028115218264157081728958845544426054943497065];
  [18051086536715129874440142649831636862614413764019212222493256578581754875930;
   21680659279808524976004872421382255670910633119979692059689680820959727969489;
   13950668739013333802529221454188102772764935019081479852094403697438884885176];
  [9703845704528288130475698300068368924202959408694460208903346143576482802458;
   12064310080154762977097567536495874701200266107682637369509532768346427148165;
   16970760937630487134309762150133050221647250855182482010338640862111040175223];
  [9790997389841527686594908620011261506072956332346095631818178387333642218087;
   16314772317774781682315680698375079500119933343877658265473913556101283387175;
   82044870826814863425230825851780076663078706675282523830353041968943811739];
  [21696416499108261787701615667919260888528264686979598953977501999747075085778;
   327771579314982889069767086599893095509690747425186236545716715062234528958;
   4606746338794869835346679399457321301521448510419912225455957310754258695442];
  [64499140292086295251085369317820027058256893294990556166497635237544139149;
   10455028514626281809317431738697215395754892241565963900707779591201786416553;
   10421411526406559029881814534127830959833724368842872558146891658647152404488];
  [18848084335930758908929996602136129516563864917028006334090900573158639401697;
   13844582069112758573505569452838731733665881813247931940917033313637916625267;
   13488838454403536473492810836925746129625931018303120152441617863324950564617];
  [15742141787658576773362201234656079648895020623294182888893044264221895077688;
   6756884846734501741323584200608866954194124526254904154220230538416015199997;
   7860026400080412708388991924996537435137213401947704476935669541906823414404];
  [7871040688194276447149361970364037034145427598711982334898258974993423182255;
   20758972836260983284101736686981180669442461217558708348216227791678564394086;
   21723241881201839361054939276225528403036494340235482225557493179929400043949];
  [19428469330241922173653014973246050805326196062205770999171646238586440011910;
   7969200143746252148180468265998213908636952110398450526104077406933642389443;
   10950417916542216146808986264475443189195561844878185034086477052349738113024];
  [18149233917533571579549129116652755182249709970669448788972210488823719849654;
   3729796741814967444466779622727009306670204996071028061336690366291718751463;
   5172504399789702452458550583224415301790558941194337190035441508103183388987];
  [6686473297578275808822003704722284278892335730899287687997898239052863590235;
   19426913098142877404613120616123695099909113097119499573837343516470853338513;
   5120337081764243150760446206763109494847464512045895114970710519826059751800];
  [5055737465570446530938379301905385631528718027725177854815404507095601126720;
   14235578612970484492268974539959119923625505766550088220840324058885914976980;
   653592517890187950103239281291172267359747551606210609563961204572842639923];
  [5507360526092411682502736946959369987101940689834541471605074817375175870579;
   7864202866011437199771472205361912625244234597659755013419363091895334445453;
   21294659996736305811805196472076519801392453844037698272479731199885739891648];
  [13767183507040326119772335839274719411331242166231012705169069242737428254651;
   810181532076738148308457416289197585577119693706380535394811298325092337781;
   14232321930654703053193240133923161848171310212544136614525040874814292190478];
  [16796904728299128263054838299534612533844352058851230375569421467352578781209;
   16256310366973209550759123431979563367001604350120872788217761535379268327259;
   19791658638819031543640174069980007021961272701723090073894685478509001321817];
  [7046232469803978873754056165670086532908888046886780200907660308846356865119;
   16001732848952745747636754668380555263330934909183814105655567108556497219752;
   9737276123084413897604802930591512772593843242069849260396983774140735981896];
  [11410895086919039954381533622971292904413121053792570364694836768885182251535;
   19098362474249267294548762387533474746422711206129028436248281690105483603471;
   11013788190750472643548844759298623898218957233582881400726340624764440203586];
  [2206958256327295151076063922661677909471794458896944583339625762978736821035;
   7171889270225471948987523104033632910444398328090760036609063776968837717795;
   2510237900514902891152324520472140114359583819338640775472608119384714834368];
  [8825275525296082671615660088137472022727508654813239986303576303490504107418;
   1481125575303576470988538039195271612778457110700618040436600537924912146613;
   16268684562967416784133317570130804847322980788316762518215429249893668424280];
  [4681491452239189664806745521067158092729838954919425311759965958272644506354;
   3131438137839074317765338377823608627360421824842227925080193892542578675835;
   7930402370812046914611776451748034256998580373012248216998696754202474945793];
  [8973151117361309058790078507956716669068786070949641445408234962176963060145;
   10223139291409280771165469989652431067575076252562753663259473331031932716923;
   2232089286698717316374057160056566551249777684520809735680538268209217819725];
  [16930089744400890347392540468934821520000065594669279286854302439710657571308;
   21739597952486540111798430281275997558482064077591840966152905690279247146674;
   7508315029150148468008716674010060103310093296969466203204862163743615534994];
  [11418894863682894988747041469969889669847284797234703818032750410328384432224;
   10895338268862022698088163806301557188640023613155321294365781481663489837917;
   18644184384117747990653304688839904082421784959872380449968500304556054962449];
  [7414443845282852488299349772251184564170443662081877445177167932875038836497;
   5391299369598751507276083947272874512197023231529277107201098701900193273851;
   10329906873896253554985208009869159014028187242848161393978194008068001342262];
  [4711719500416619550464783480084256452493890461073147512131129596065578741786;
   11943219201565014805519989716407790139241726526989183705078747065985453201504;
   4298705349772984837150885571712355513879480272326239023123910904259614053334];
  [9999044003322463509208400801275356671266978396985433172455084837770460579627;
   4908416131442887573991189028182614782884545304889259793974797565686968097291;
   11963412684806827200577486696316210731159599844307091475104710684559519773777];
  [20129916000261129180023520480843084814481184380399868943565043864970719708502;
   12884788430473747619080473633364244616344003003135883061507342348586143092592;
   20286808211545908191036106582330883564479538831989852602050135926112143921015];
  [16282045180030846845043407450751207026423331632332114205316676731302016331498;
   4332932669439410887701725251009073017227450696965904037736403407953448682093;
   11105712698773407689561953778861118250080830258196150686012791790342360778288];
  [21853934471586954540926699232107176721894655187276984175226220218852955976831;
   9807888223112768841912392164376763820266226276821186661925633831143729724792;
   13411808896854134882869416756427789378942943805153730705795307450368858622668];
  [17906847067500673080192335286161014930416613104209700445088168479205894040011;
   14554387648466176616800733804942239711702169161888492380425023505790070369632;
   4264116751358967409634966292436919795665643055548061693088119780787376143967];
  [2401104597023440271473786738539405349187326308074330930748109868990675625380;
   12251645483867233248963286274239998200789646392205783056343767189806123148785;
   15331181254680049984374210433775713530849624954688899814297733641575188164316];
  [13108834590369183125338853868477110922788848506677889928217413952560148766472;
   6843160824078397950058285123048455551935389277899379615286104657075620692224;
   10151103286206275742153883485231683504642432930275602063393479013696349676320];
  [7074320081443088514060123546121507442501369977071685257650287261047855962224;
   11413928794424774638606755585641504971720734248726394295158115188173278890938;
   7312756097842145322667451519888915975561412209738441762091369106604423801080];
  [7181677521425162567568557182629489303281861794357882492140051324529826589361;
   15123155547166304758320442783720138372005699143801247333941013553002921430306;
   13409242754315411433193860530743374419854094495153957441316635981078068351329]
].

Definition noir_mds : list (list Z) := [
  [7511745149465107256748700652201246547602992235352608707588321460060273774987;
   10370080108974718697676803824769673834027675643658433702224577712625900127200;
   19705173408229649878903981084052839426532978878058043055305024233888854471533];
  [18732019378264290557468133440468564866454307626475683536618613112504878618481;
   20870176810702568768751421378473869562658540583882454726129544628203806653987;
   7266061498423634438633389053804536045105766754026813321943009179476902321146];
  [9131299761947733513298312097611845208338517739621853568979632113419485819303;
   10595341252162738537912664445405114076324478519622938027420701542910180337937;
   11597556804922396090267472882856054602429588299176362916247939723151043581408]
].

(** ** The permutation *)

Section noir.
Context `{PrimeField}.

Definition NOIR_ROUND_CONSTANTS : list (list Fr) := (λ row : list Z, fr_from <$> row) <$> noir_round_constants.
Definition NOIR_MDS : list (list Fr) := (λ row : list Z, fr_from <$> row) <$> noir_mds.

Definition noir_sbox (x : Fr) : Fr :=
  let x2 := fr_mul x x in
  let x4 := fr_mul x2 x2 in
  fr_mul x4 x.

Definition noir_entry (l : list Fr) (i : nat) : Fr := default fr_zero (l !! i).

Definition noir_apply_mds (state : list Fr) : list Fr :=
  (λ i, foldl (λ acc j, fr_add acc (fr_mul (noir_entry (default [] (NOIR_MDS !! i)) j) (noir_entry state j)))
          fr_zero (seq 0 3)) <$> seq 0 3.

Definition noir_full_round (state round_constants : list Fr) : list Fr :=
  noir_apply_mds
    ((λ i, noir_sbox (fr_add (noir_entry state i) (noir_entry round_constants i))) <$> seq 0 3).

Definition noir_partial_round (state round_constants : list Fr) : list Fr :=
  let state := (λ i, fr_add (noir_entry state i) (noir_entry round_constants i)) <$> seq 0 3 in
  let state := <[0%nat := noir_sbox (noir_entry state 0)]> state in
  noir_apply_mds state.

(** One of the three loops over the rounds. *)
Fixpoint noir_rounds (round : list Fr → list Fr → list Fr) (n : nat) (state : list Fr) (round_idx : nat)
  : list Fr * nat :=
  match n with
  | O => (state, round_idx)
  | S n' =>
      let state := round state (default [] (NOIR_ROUND_CONSTANTS !! round_idx)) in
      noir_rounds round n' state (round_idx + 1)
  end.

Definition noir_permute (state : list Fr) : list Fr :=
  let r_f := (NOIR_FULL_ROUNDS / 2)%nat in
  let r_p := NOIR_PARTIAL_ROUNDS in
  let '(state, round_idx) := noir_rounds noir_full_round r_f state 0 in
  let '(state, round_idx) := noir_rounds noir_partial_round r_p state round_idx in
  (noir_rounds noir_full_round r_f state round_idx).1.

(** ** The sponge *)

Record PoseidonSponge := mk_noir_sponge {
  ns_state : list Fr;
  ns_cache : list Fr;
  ns_cache_size : nat
}.

Definition noir_new (initial_capacity : Fr) : PoseidonSponge :=
  mk_noir_sponge (<[2%nat := initial_capacity]> (replicate 3 fr_zero)) (replicate 2 fr_zero) 0.

Definition noir_perform_duplex (self : PoseidonSponge) : PoseidonSponge :=
  let state := foldl (λ st i, if decide (i < ns_cache_size self)%nat
                              then <[i := fr_add (noir_entry st i) (noir_entry (ns_cache self) i)]> st
                              else st) (ns_state self) (seq 0 NOIR_RATE) in
  mk_noir_sponge (noir_permute state) (ns_cache self) 0.

Definition noir_absorb (self : PoseidonSponge) (input : Fr) : PoseidonSponge :=
  if decide (ns_cache_size self = NOIR_RATE) then
    let self := noir_perform_duplex self in
    mk_noir_sponge (ns_state self) (<[0%nat := input]> (ns_cache self)) 1
  else mk_noir_sponge (ns_state self) (<[ns_cache_size self := input]> (ns_cache self))
         (ns_cache_size self + 1).

Definition noir_squeeze (self : PoseidonSponge) : Fr :=
  noir_entry (ns_state (noir_perform_duplex self)) 0.

Definition noir_hash (inputs : list Fr) : Fr :=
  let N := length inputs in
  let initial_capacity := fr_mul (fr_from (Z.of_nat N)) (fr_from 0x10000000000000000) in
  let sponge := foldl noir_absorb (noir_new initial_capacity) inputs in
  let k := ((N + NOIR_RATE - 1) / NOIR_RATE)%nat in
  let padding_count := (k * NOIR_RATE - N)%nat in
  let sponge := foldl noir_absorb sponge (replicate padding_count fr_zero) in
  noir_squeeze sponge.
End noir.

(** ** Agreement of the permutations *)

Section agreement.
Context `{Hlaws : PrimeFieldLaws}.
Add Ring fr_ring : fr_ring.

Lemma noir_constants_agree : NOIR_ROUND_CONSTANTS = ROUND_CONSTANTS ∧ NOIR_MDS = MDS.
Proof. split; reflexivity. Qed.

Lemma noir_sbox_agrees x : noir_sbox x = fr_pow x 5.
Proof.
  apply fr_val_inj. unfold noir_sbox. rewrite fr_val_pow, !fr_val_mul by lia.
  generalize (fr_val x). intros v. set (m := v * v). rewrite Zmult_mod_idemp_l, <- Z.mul_assoc.
  rewrite Zmult_mod_idemp_l, Z.mul_assoc, (Z.mul_comm m), <- Z.mul_assoc, Zmult_mod_idemp_l.
  f_equal. subst m. ring.
Qed.

Lemma state_shape (st : list Fr) : length st = 3%nat → ∃ a b c, st = [a; b; c].
Proof. destruct st as [|a [|b [|c [|]]]]; try done. eauto. Qed.

Lemma noir_apply_mds_agrees st : length st = 3%nat → noir_apply_mds st = apply_mds MDS st.
Proof. intros (a & b & c & ->)%state_shape. reflexivity. Qed.

Lemma noir_full_agrees st rcs :
  length st = 3%nat → length rcs = 3%nat →
  noir_full_round st rcs = full_round (T := 3) (RATE := 2) MDS st rcs.
Proof.
  intros (a & b & c & ->)%state_shape (x & y & z & ->)%state_shape.
  unfold noir_full_round. rewrite noir_apply_mds_agrees by done.
  unfold full_round. f_equal. cbn. by rewrite !noir_sbox_agrees.
Qed.

Lemma noir_partial_agrees st rcs :
  length st = 3%nat → length rcs = 3%nat →
  noir_partial_round st rcs = part_round (T := 3) (RATE := 2) MDS st rcs.
Proof.
  intros (a & b & c & ->)%state_shape (x & y & z & ->)%state_shape.
  unfold noir_partial_round. rewrite noir_apply_mds_agrees by done.
  unfold part_round. f_equal. cbn. by rewrite noir_sbox_agrees.
Qed.

(** A loop over rounds that agree runs through the constants from its index. *)
Lemma noir_rounds_agree round round' n st idx :
  (∀ st rcs, length st = 3%nat → length rcs = 3%nat →
     round st rcs = round' st rcs ∧ length (round' st rcs) = 3%nat) →
  length st = 3%nat → (idx + n ≤ 65)%nat →
  let st' := foldl round' st (take n (drop idx ROUND_CONSTANTS)) in
  noir_rounds round n st idx = (st', (idx + n)%nat) ∧ length st' = 3%nat.
Proof.
  intros Hr. revert st idx. induction n as [|n IH]; intros st idx Hst Hidx.
  - by rewrite Nat.add_0_r.
  - cbn [noir_rounds]. rewrite (proj1 noir_constants_agree).
    destruct (lookup_lt_is_Some_2 ROUND_CONSTANTS idx) as [rcs Hrcs].
    { change (length ROUND_CONSTANTS) with 65%nat. lia. }
    assert (Hl : length rcs = 3%nat) by (by eapply Forall_lookup_1 in Hrcs; [|apply ROUND_CONSTANTS_width]).
    rewrite Hrcs, (drop_S _ _ _ Hrcs). change (default [] (Some rcs)) with rcs. cbn [take foldl].
    destruct (Hr st rcs Hst Hl) as [-> Hlen].
    replace (idx + S n)%nat with (idx + 1 + n)%nat by lia. rewrite <- (Nat.add_1_r idx).
    apply IH; [done|lia].
Qed.

Lemma fold_zip_replicate {A B} (f : A → B → A) n rest (l : list B) st :
  (n ≤ length l)%nat →
  foldl (λ s '(g, x), g s x) st (zip (replicate n f ++ rest) l) =
  foldl (λ s '(g, x), g s x) (foldl f st (take n l)) (zip rest (drop n l)).
Proof.
  revert l st. induction n as [|n IH]; intros [|x l] st Hn; simpl in *; try done; try lia.
  apply IH. lia.
Qed.

(** The permutation of the circuits is the permutation of the program. *)
Lemma noir_permute_agrees st :
  length st = 3%nat →
  noir_permute st = permute st (@cached_mds _ 3 2 _) cached_round_constants.
Proof.
  intros Hst.
  set (full := full_round (T := 3) (RATE := 2) MDS). set (part := part_round (T := 3) (RATE := 2) MDS).
  assert (Hf : ∀ st rcs, length st = 3%nat → length rcs = 3%nat →
    noir_full_round st rcs = full st rcs ∧ length (full st rcs) = 3%nat)
    by (intros; split; [by apply noir_full_agrees|done]).
  assert (Hp : ∀ st rcs, length st = 3%nat → length rcs = 3%nat →
    noir_partial_round st rcs = part st rcs ∧ length (part st rcs) = 3%nat)
    by (intros; split; [by apply noir_partial_agrees|done]).
  unfold noir_permute. change (NOIR_FULL_ROUNDS / 2)%nat with 4%nat.
  change NOIR_PARTIAL_ROUNDS with 57%nat.
  destruct (noir_rounds_agree _ _ 4 st 0 Hf Hst ltac:(lia)) as [-> Hl1].
  destruct (noir_rounds_agree _ _ 57 _ (0 + 4) Hp Hl1 ltac:(lia)) as [-> Hl2].
  destruct (noir_rounds_agree _ _ 4 _ (0 + 4 + 57) Hf Hl2 ltac:(lia)) as [-> _].
  unfold permute. change (@full_rounds _ 3 2 _ / 2)%nat with 4%nat.
  change (@partial_rounds _ 3 2 _) with 57%nat.
  change (@cached_mds _ 3 2 _) with MDS. change (@cached_round_constants _ 3 2 _) with ROUND_CONSTANTS.
  fold full part.
  assert (Hrc : length ROUND_CONSTANTS = 65%nat) by done.
  rewrite !fold_zip_replicate, drop_drop by (rewrite ?length_drop, ?Hrc; lia).
  rewrite <- (app_nil_r (replicate 4 full)), fold_zip_replicate by (rewrite length_drop, Hrc; lia).
  done.
Qed.

(** ** Agreement of the sponges *)

Lemma noir_duplex_full st cache :
  length st = 3%nat → length cache = 2%nat →
  noir_perform_duplex (mk_noir_sponge st cache 2) =
    mk_noir_sponge (duplex (T := 3) (RATE := 2) st cache) cache 0.
Proof.
  intros (a & b & c & ->)%state_shape Hc. destruct cache as [|x [|y [|]]]; try done.
  unfold noir_perform_duplex. f_equal. unfold duplex. by rewrite <- noir_permute_agrees.
Qed.

Lemma noir_absorb_blocks ys xs st cache k :
  length st = 3%nat → length cache = 2%nat → take (length xs) cache = xs → (length xs ≤ 2)%nat →
  (0 < k)%nat → length (xs ++ ys) = (k * 2)%nat →
  noir_squeeze (foldl noir_absorb (mk_noir_sponge st cache (length xs)) ys) =
    default fr_zero (head (foldl (duplex (T := 3) (RATE := 2)) st (blocks (RATE := 2) k (xs ++ ys)))).
Proof.
  revert xs st cache k. induction ys as [|y ys IH]; intros xs st cache k Hst Hc Htk Hxs Hk Hlen.
  - rewrite app_nil_r in *. assert (k = 1%nat) as -> by lia.
    assert (Hx : length xs = 2%nat) by lia. rewrite Hx in *.
    rewrite take_ge in Htk by lia. subst cache. cbn [foldl blocks]. rewrite (take_ge xs) by lia.
    unfold noir_squeeze. rewrite noir_duplex_full by done. cbn [ns_state].
    unfold noir_entry. by destruct (duplex _ _).
  - cbn [foldl]. unfold noir_absorb at 2. cbn [ns_cache_size]. case_decide as Hfull.
    + change NOIR_RATE with 2%nat in Hfull. rewrite Hfull in *.
      rewrite take_ge in Htk by lia. subst cache. rewrite noir_duplex_full by done.
      cbn [ns_state ns_cache]. rewrite length_app in Hlen. cbn [length] in Hlen.
      destruct k as [|k]; [lia|]. assert (0 < k)%nat by (destruct k; lia).
      cbn [blocks foldl]. rewrite take_app_length', drop_app_length' by done.
      apply (IH [y]); [apply duplex_length; try done; lia|by rewrite length_insert| |simpl; lia|done|simpl; lia].
      destruct xs as [|x0 xs]; [done|]. done.
    + change NOIR_RATE with 2%nat in Hfull. cbn [ns_state ns_cache].
      rewrite (cons_middle y xs ys), app_assoc in *.
      replace (length xs + 1)%nat with (length (xs ++ [y])) by (rewrite length_app; simpl; lia).
      apply IH; [done|by rewrite length_insert| |rewrite length_app; simpl; lia|done|done].
      destruct cache as [|c0 [|c1 [|]]]; try done.
      destruct xs as [|x0 [|]]; simpl in *; [done| |lia]. by injection Htk as ->.
Qed.

(** The hash of the circuits and the hash of the program agree on every list of
    one to [2^32 - 1] elements. *)
Theorem noir_hash_agrees elements :
  elements ≠ [] → Z.of_nat (length elements) < 2 ^ 32 → Forall wf_element elements →
  merge_poseidon elements = Ok (Some (fr_val (noir_hash (fr_from <$> elements)))).
Proof.
  intros Hne Hlen Hwf. destruct (merge_poseidon_spec elements Hne Hwf) as (h & Hs & ->).
  do 2 f_equal. unfold noir_hash. rewrite <- foldl_app, length_fmap.
  set (N := length elements) in *. set (k := ((N + NOIR_RATE - 1) / NOIR_RATE)%nat).
  assert (HN : N ≠ 0%nat) by (unfold N; by destruct elements).
  assert (Hk : k = div_ceil N 2).
  { unfold k, div_ceil. change NOIR_RATE with 2%nat. assert (Hd := Nat.div_mod N 2 ltac:(lia)).
    assert (Hm := Nat.mod_upper_bound N 2 ltac:(lia)). case_decide as H0.
    - rewrite Nat.add_0_r. symmetry. apply (Nat.div_unique _ _ _ 1); lia.
    - symmetry. apply (Nat.div_unique _ _ _ 0); lia. }
  assert (Hcap : fr_mul (fr_from (Z.of_nat N)) (fr_from 0x10000000000000000) =
    initial_capacity_element N).
  { apply fr_val_inj. unfold initial_capacity_element, wrap.
    rewrite Z.shiftl_mul_pow2, (Z.mod_small _ (2 ^ 128)) by lia.
    rewrite fr_val_mul, !fr_val_from, <- Z.mul_mod by first [lia|done]. done. }
  rewrite Hcap. destruct (div_ceil_spec N 2 ltac:(lia)) as [Hc H0].
  unfold sponge_hash, padded_blocks in Hs. rewrite length_fmap in Hs. fold N in Hs.
  rewrite <- Hk in Hs, Hc, H0. change NOIR_RATE with 2%nat.
  change (noir_new (initial_capacity_element N)) with
    (mk_noir_sponge (initial_state (T := 3) (RATE := 2) N) (replicate 2 fr_zero) (length (@nil Fr))).
  rewrite (noir_absorb_blocks _ [] _ _ k); [by simpl app; rewrite Hs|done..|simpl; lia|lia|].
  simpl app. rewrite length_app, length_fmap, length_replicate. fold N. lia.
Qed.
End agreement.
