(* ===== verification/HashCache.v ===== *)
(** Hash caches (pkg/smirk/src/hash_cache): the interface [HashCache] the tree
    is generic over, its laws, and the two implementations of the crate.

    The Rust trait takes [&self] and caches behind a [DashMap] and atomics; the
    model threads the cache, so [cache_hash c l r] is the cache after the call
    and the hash returned. *)
From S2P Require Import Prelude Element MerkleHash.

(** * The interface *)

Class HashCache `{FieldLib} (C : Type) := {
  cache_hash : C → Element → Element → C * Element;
  cache_default : C;
}.

(** What a cache promises to a tree: on caches that satisfy [cache_inv] the
    result is always the one of [hash_merge]. *)
Class HashCacheLaws `{FieldLib} (C : Type) `{!HashCache C} := {
  cache_inv : C → Prop;
  cache_inv_default : cache_inv cache_default;
  cache_inv_hash c l r : cache_inv c → cache_inv (cache_hash c l r).1;
  cache_hash_correct c l r : cache_inv c → (cache_hash c l r).2 = hash_merge [l; r];
}.

(** * NoopHashCache *)

Inductive NoopHashCache := Noop.

Section noop.
Context `{FieldLib}.

(** The default method of the trait. *)
Definition noop_hash (self : NoopHashCache) (left right : Element)
  : NoopHashCache * Element := (self, hash_merge [left; right]).

#[export] Instance noop_cache : HashCache NoopHashCache :=
  {| cache_hash := noop_hash; cache_default := Noop |}.

#[export] Instance noop_laws : HashCacheLaws NoopHashCache.
Proof. refine {| cache_inv _ := True |}; done. Defined.
End noop.

(** * SimpleHashCache *)

Record KnownHash := mk_known { kh_left : Element; kh_right : Element; kh_result : Element }.

#[export] Instance known_hash_eq_dec : EqDecision KnownHash.
Proof. solve_decision. Defined.
#[export] Instance known_hash_countable : Countable KnownHash.
Proof.
  apply (inj_countable' (λ h, (kh_left h, kh_right h, kh_result h))
           (λ t, mk_known t.1.1 t.1.2 t.2)).
  by intros [].
Defined.

(** The counters are [AtomicUsize]s; [fetch_add] wraps. *)
Record CacheMetrics := mk_metrics { hashes : Z; cache_hits : Z; cache_misses : Z }.
Definition metrics_default : CacheMetrics := mk_metrics 0 0 0.
Definition incr_hashes (m : CacheMetrics) : CacheMetrics :=
  mk_metrics (wrap 64 (hashes m + 1)) (cache_hits m) (cache_misses m).
Definition incr_cache_hits (m : CacheMetrics) : CacheMetrics :=
  mk_metrics (hashes m) (wrap 64 (cache_hits m + 1)) (cache_misses m).
Definition incr_cache_misses (m : CacheMetrics) : CacheMetrics :=
  mk_metrics (hashes m) (cache_hits m) (wrap 64 (cache_misses m + 1)).

Record SimpleHashCache := mk_simple {
  inner : gmap (Element * Element) Element;
  initial : list KnownHash;
  metrics : CacheMetrics;
}.

Definition simple_new : SimpleHashCache := mk_simple ∅ [] metrics_default.
Definition simple_len (self : SimpleHashCache) : nat := size (inner self).
Definition simple_is_empty (self : SimpleHashCache) : bool := bool_decide (simple_len self = 0%nat).

(** The order on keys [(left, right)], lexicographic as for Rust tuples. *)
Definition key_le (a b : KnownHash) : Prop :=
  kh_left a < kh_left b ∨ (kh_left a = kh_left b ∧ kh_right a ≤ kh_right b).
#[export] Instance key_le_dec a b : Decision (key_le a b).
Proof. unfold key_le. apply _. Defined.

(** [binary_search_by_key] on the vector [initial], which is sorted by that
    key: it finds an entry when there is one.  Which of several entries with
    one key it finds is not specified; here it is the first. *)
Definition search_initial (l : list KnownHash) (left right : Element) : option KnownHash :=
  List.find (λ h, bool_decide ((kh_left h, kh_right h) = (left, right))) l.

Section simple.
Context `{FieldLib}.

Definition simple_hash (self : SimpleHashCache) (left right : Element)
  : SimpleHashCache * Element :=
  let m := incr_hashes (metrics self) in
  match search_initial (initial self) left right with
  | Some h => (mk_simple (inner self) (initial self) (incr_cache_hits m), kh_result h)
  | None =>
      match inner self !! (left, right) with
      | Some r => (mk_simple (inner self) (initial self) (incr_cache_hits m), r)
      | None =>
          let r := hash_merge [left; right] in
          (mk_simple (<[(left, right) := r]> (inner self)) (initial self)
             (incr_cache_misses m), r)
      end
  end.

Definition provide_known_hashes (self : SimpleHashCache) (hs : list KnownHash)
  : outcome Empty_set SimpleHashCache :=
  let sorted := merge_sort key_le hs in
  if decide (initial self = [])
  then Ok (mk_simple (inner self) sorted (metrics self))
  else Panic "provide_known_hashes should only be called once".

Definition evict (self : SimpleHashCache) (left right : Element) : SimpleHashCache :=
  mk_simple (delete (left, right) (inner self)) (initial self) (metrics self).
Definition evict_all (self : SimpleHashCache) : SimpleHashCache :=
  mk_simple ∅ (initial self) (metrics self).

#[export] Instance simple_cache : HashCache SimpleHashCache :=
  {| cache_hash := simple_hash; cache_default := simple_new |}.

Definition known_ok (h : KnownHash) : Prop :=
  kh_result h = hash_merge [kh_left h; kh_right h].

(** Every stored result is a true hash. *)
Definition simple_inv (c : SimpleHashCache) : Prop :=
  Forall known_ok (initial c) ∧
  map_Forall (λ k v, v = hash_merge [k.1; k.2]) (inner c).

Lemma search_initial_ok l x y h :
  Forall known_ok l → search_initial l x y = Some h → kh_result h = hash_merge [x; y].
Proof.
  intros Hall [Hin Heq]%find_elem_of. rewrite Forall_forall in Hall.
  apply bool_decide_eq_true in Heq. injection Heq as <- <-. by apply Hall.
Qed.

Lemma simple_hash_correct c l r :
  simple_inv c → (simple_hash c l r).2 = hash_merge [l; r] ∧ simple_inv (simple_hash c l r).1.
Proof.
  intros [Hini Hinn]. unfold simple_hash.
  destruct (search_initial _ l r) as [h|] eqn:E1; simpl.
  { split; [by eapply search_initial_ok|by split]. }
  destruct (inner c !! (l, r)) as [v|] eqn:E2; simpl.
  { split; [by apply (Hinn (l, r))|by split]. }
  split; [done|]. split; [done|].
  intros k v. cbn [inner]. rewrite lookup_insert. case_decide as Hk; [|apply Hinn].
  intros [= <-]. by subst k.
Qed.

#[export] Instance simple_laws : HashCacheLaws SimpleHashCache.
Proof.
  refine {| cache_inv := simple_inv |}.
  - split; [constructor|apply map_Forall_empty].
  - intros c l r Hc. exact (proj2 (simple_hash_correct c l r Hc)).
  - intros c l r Hc. exact (proj1 (simple_hash_correct c l r Hc)).
Defined.

Lemma evict_inv c l r : simple_inv c → simple_inv (evict c l r).
Proof. intros [Hini Hinn]. split; [done|]. by apply map_Forall_delete. Qed.

Lemma evict_all_inv c : simple_inv c → simple_inv (evict_all c).
Proof. intros [Hini _]. split; [done|]. apply map_Forall_empty. Qed.

Lemma provide_known_hashes_inv c hs c' :
  simple_inv c → Forall known_ok hs → provide_known_hashes c hs = Ok c' → simple_inv c'.
Proof.
  intros [_ Hinn] Hhs. unfold provide_known_hashes.
  case_decide; intros; inv_ok. split; [|done]. simpl. by rewrite merge_sort_Permutation.
Qed.

Lemma metrics_hash c l r :
  0 ≤ cache_hits (metrics c) → 0 ≤ cache_misses (metrics c) →
  hashes (metrics c) = cache_hits (metrics c) + cache_misses (metrics c) →
  hashes (metrics c) < u64_max →
  let m := metrics (simple_hash c l r).1 in
  hashes m = cache_hits m + cache_misses m ∧ hashes m = hashes (metrics c) + 1.
Proof.
  unfold u64_max, simple_hash, incr_cache_hits, incr_cache_misses, incr_hashes, wrap.
  intros ? ? ? ?. destr_match; simpl; rewrite !Z.mod_small by lia; lia.
Qed.
End simple.

(** * Traces of cache operations *)

Inductive CacheOp :=
| OpHash (l r : Element)
| OpEvict (l r : Element)
| OpEvictAll.

Section traces.
Context `{FieldLib}.

(** The cache after the operations and the results of the [hash] calls. *)
Fixpoint run_cache (c : SimpleHashCache) (ops : list CacheOp) : SimpleHashCache * list Element :=
  match ops with
  | [] => (c, [])
  | OpHash l r :: ops' =>
      let '(c1, h) := simple_hash c l r in
      let '(c2, hs) := run_cache c1 ops' in (c2, h :: hs)
  | OpEvict l r :: ops' => run_cache (evict c l r) ops'
  | OpEvictAll :: ops' => run_cache (evict_all c) ops'
  end.

Definition expected_hashes (ops : list CacheOp) : list Element :=
  omap (λ op, match op with OpHash l r => Some (hash_merge [l; r]) | _ => None end) ops.

(** Whatever sequence of hash and evict calls a cache seeded with true
    hashes serves, each hash call returns the value of [hash_merge]. *)
Theorem simple_cache_transparent known c0 ops :
  Forall known_ok known → provide_known_hashes simple_new known = Ok c0 →
  (run_cache c0 ops).2 = expected_hashes ops ∧ simple_inv (run_cache c0 ops).1.
Proof.
  intros Hknown Hc0.
  assert (simple_inv c0) as Hinv.
  { eapply provide_known_hashes_inv; [|done|done]. exact cache_inv_default. }
  clear Hc0. revert c0 Hinv. induction ops as [|[l r|l r|] ops IH]; intros c Hc; csimpl.
  - done.
  - destruct (simple_hash_correct c l r Hc) as [Hh Hi].
    destruct (simple_hash c l r) as [c1 h]. simpl in Hh, Hi. subst h.
    specialize (IH c1 Hi). destruct (run_cache c1 ops) as [c2 hs]. simpl in *.
    destruct IH as [-> ?]. done.
  - apply IH. by apply evict_inv.
  - apply IH. by apply evict_all_inv.
Qed.

(** A hash computed once and not evicted is served from the cache the next
    time: the second call of the same pair returns the same value, leaves the
    stored hashes alone and counts one hit and no miss. *)
Theorem simple_cache_second_call_hits c l r :
  let '(c1, h1) := simple_hash c l r in
  let '(c2, h2) := simple_hash c1 l r in
  h2 = h1 ∧ inner c2 = inner c1 ∧
  cache_misses (metrics c2) = cache_misses (metrics c1) ∧
  cache_hits (metrics c2) = wrap 64 (cache_hits (metrics c1) + 1).
Proof.
  unfold simple_hash. destruct (search_initial (initial c) l r) as [h|] eqn:E1; simpl.
  { by rewrite E1. }
  destruct (inner c !! (l, r)) as [v|] eqn:E2; simpl; rewrite E1.
  - by rewrite E2.
  - by rewrite lookup_insert_eq.
Qed.
End traces.

Lemma simple_cache_transparent_witness :
  (run_cache (mk_simple ∅ [mk_known 1 2 (hash_merge [1; 2])] metrics_default)
     [OpHash 1 2; OpHash 3 4; OpEvict 3 4; OpHash 3 4]).2 =
  [hash_merge [1; 2]; hash_merge [3; 4]; hash_merge [3; 4]].
Proof.
  apply (simple_cache_transparent [mk_known 1 2 (hash_merge [1; 2])]
    (mk_simple ∅ [mk_known 1 2 (hash_merge [1; 2])] metrics_default)
    [OpHash 1 2; OpHash 3 4; OpEvict 3 4; OpHash 3 4]).
  - repeat constructor.
  - reflexivity.
Defined.
