(* ===== verification/SmirkBatch.v ===== *)
(** Batches of changes to a sparse Merkle tree (pkg/smirk/src/batch) and the
    collision errors of pkg/smirk/src/tree/error.rs.

    [DEPTH] is the const generic of the Rust types; the slot of an element is
    given by its [DEPTH - 1] least significant bits.  The [HashSet] of taken
    slots is a finite set. *)
From S2P Require Import Prelude Element.

Inductive StructName := InBatch | InTree.

Record Collision := mk_collision {
  in_tree : Element;
  inserted : Element;
  coll_depth : nat;
  struct_name : StructName;
}.

(** [CollisionError] is a vector of collisions. *)
Definition CollisionError : Type := list Collision.

#[export] Instance struct_name_eq_dec : EqDecision StructName.
Proof. solve_decision. Defined.
#[export] Instance collision_eq_dec : EqDecision Collision.
Proof. solve_decision. Defined.

Record Batch (V : Type) := mk_batch {
  entries : list (Element * V);
  remove_entries : list Element;
  lsbs : gset (list bool);
}.
Arguments mk_batch {V} _ _ _.
Arguments entries {V} _.
Arguments remove_entries {V} _.
Arguments lsbs {V} _.

Section batch.
Context (DEPTH : nat) {V : Type}.
Implicit Types (b : Batch V) (e : Element) (v : V).

Definition slot (e : Element) : list bool := lsb_bits e (DEPTH - 1).

Definition batch_new : Batch V := mk_batch [] [] ∅.
Definition batch_is_empty b : bool :=
  bool_decide (length (entries b) = 0%nat) && bool_decide (length (remove_entries b) = 0%nat).

Definition insert_elements b : list Element := (entries b).*1.
Definition remove_elements b : list Element := remove_entries b.

Definition find_element_with_lsb b (lsb : list bool) : option Element :=
  List.find (λ e, bool_decide (slot e = lsb)) (insert_elements b ++ remove_elements b).

(** The collision both [insert] and [remove] report. *)
Definition batch_collision b e : outcome CollisionError (Batch V) :=
  let? found := unwrap (find_element_with_lsb b (slot e)) "unwrap on None" in
  Err [mk_collision found e DEPTH InBatch].

Definition batch_insert b e v : outcome CollisionError (Batch V) :=
  if decide (slot e ∈ lsbs b) then batch_collision b e
  else Ok (mk_batch (entries b ++ [(e, v)]) (remove_entries b) ({[slot e]} ∪ lsbs b)).

Definition batch_remove b e : outcome CollisionError (Batch V) :=
  if decide (slot e ∈ lsbs b) then batch_collision b e
  else Ok (mk_batch (entries b) (remove_entries b ++ [e]) ({[slot e]} ∪ lsbs b)).

Fixpoint insert_all b (l : list (Element * V)) : outcome CollisionError (Batch V) :=
  match l with
  | [] => Ok b
  | (e, v) :: l' => let? b' := batch_insert b e v in insert_all b' l'
  end.
Fixpoint remove_all b (l : list Element) : outcome CollisionError (Batch V) :=
  match l with
  | [] => Ok b
  | e :: l' => let? b' := batch_remove b e in remove_all b' l'
  end.

Definition from_entries (l : list (Element * V)) (rs : list Element)
  : outcome CollisionError (Batch V) :=
  let? b := insert_all batch_new l in remove_all b rs.

Fixpoint merge_collisions b (other : Batch V) (ls : list (list bool))
  : outcome CollisionError (list Collision) :=
  match ls with
  | [] => Ok []
  | l :: ls' =>
      let? x := unwrap (find_element_with_lsb b l) "unwrap on None" in
      let? y := unwrap (find_element_with_lsb other l) "unwrap on None" in
      let? rest := merge_collisions b other ls' in
      Ok (mk_collision x y DEPTH InBatch :: rest)
  end.

Definition batch_merge b (other : Batch V) : outcome CollisionError (Batch V) :=
  let colliding_lsbs := filter (λ l, l ∈ lsbs other) (base.elements (lsbs b)) in
  if decide (length colliding_lsbs ≠ 0%nat)
  then let? collisions := merge_collisions b other colliding_lsbs in Err collisions
  else Ok (mk_batch (entries b ++ entries other) (remove_entries b) (lsbs b ∪ lsbs other)).

(** ** Invariant *)

Definition batch_elements b : list Element := insert_elements b ++ remove_elements b.

(** The set of taken slots is the set of slots of the elements, and no two
    elements share a slot. *)
Record wf_batch b : Prop := {
  wf_batch_lsbs : lsbs b = list_to_set (slot <$> batch_elements b);
  wf_batch_nodup : NoDup (slot <$> batch_elements b);
}.

Lemma batch_new_wf : wf_batch batch_new.
Proof. split; [done|constructor]. Qed.

Lemma wf_batch_in b : wf_batch b → ∀ l, l ∈ lsbs b ↔ ∃ e, e ∈ batch_elements b ∧ slot e = l.
Proof.
  intros [H _] l. rewrite H, elem_of_list_to_set, list_elem_of_fmap. naive_solver.
Qed.

Lemma find_element_with_lsb_some b l :
  wf_batch b → l ∈ lsbs b →
  ∃ e, find_element_with_lsb b l = Some e ∧ e ∈ batch_elements b ∧ slot e = l.
Proof.
  intros Hwf (e & He & Hl)%(wf_batch_in b Hwf).
  unfold find_element_with_lsb. fold (batch_elements b).
  destruct (List.find _ _) as [x|] eqn:E.
  - exists x. apply find_elem_of in E as [??%bool_decide_eq_true]. done.
  - rewrite find_none_iff in E. specialize (E e He). by rewrite bool_decide_eq_false in E.
Qed.

Lemma batch_elements_insert b e v l :
  batch_elements (mk_batch (entries b ++ [(e, v)]) (remove_entries b) l)
    ≡ₚ e :: batch_elements b.
Proof.
  unfold batch_elements, insert_elements, remove_elements. simpl.
  rewrite fmap_app. csimpl. rewrite <-app_assoc. symmetry. apply Permutation_middle.
Qed.

Lemma batch_elements_remove b e l :
  batch_elements (mk_batch (entries b) (remove_entries b ++ [e]) l) ≡ₚ e :: batch_elements b.
Proof.
  unfold batch_elements, insert_elements, remove_elements. simpl.
  rewrite app_assoc. symmetry. apply Permutation_cons_append.
Qed.

Lemma wf_batch_extend b b' e :
  wf_batch b → slot e ∉ lsbs b → batch_elements b' ≡ₚ e :: batch_elements b →
  lsbs b' = {[slot e]} ∪ lsbs b → wf_batch b'.
Proof.
  intros [Hl Hn] He Hperm Hl'. split.
  - rewrite Hl', Hl. apply set_eq. intros x.
    rewrite elem_of_union, elem_of_singleton, !elem_of_list_to_set, Hperm. csimpl.
    by rewrite elem_of_cons.
  - rewrite Hperm. csimpl. constructor; [|done].
    by rewrite Hl, elem_of_list_to_set in He.
Qed.

Lemma batch_insert_ok b e v :
  wf_batch b → slot e ∉ lsbs b →
  ∃ b', batch_insert b e v = Ok b' ∧ wf_batch b' ∧
        entries b' = entries b ++ [(e, v)] ∧ remove_entries b' = remove_entries b.
Proof.
  intros Hwf He. unfold batch_insert. rewrite decide_False by done.
  eexists. split; [done|]. split; [|done].
  eapply wf_batch_extend; [done|done|apply batch_elements_insert|done].
Qed.

Lemma batch_remove_ok b e :
  wf_batch b → slot e ∉ lsbs b →
  ∃ b', batch_remove b e = Ok b' ∧ wf_batch b' ∧
        entries b' = entries b ∧ remove_entries b' = remove_entries b ++ [e].
Proof.
  intros Hwf He. unfold batch_remove. rewrite decide_False by done.
  eexists. split; [done|]. split; [|done].
  eapply wf_batch_extend; [done|done|apply batch_elements_remove|done].
Qed.

Lemma batch_collision_err b e :
  wf_batch b → slot e ∈ lsbs b →
  ∃ x, batch_collision b e = Err [mk_collision x e DEPTH InBatch] ∧
       x ∈ batch_elements b ∧ slot x = slot e.
Proof.
  intros Hwf He. unfold batch_collision.
  destruct (find_element_with_lsb_some b _ Hwf He) as (x & -> & ? & ?). by exists x.
Qed.

Lemma insert_all_wf b l b' : wf_batch b → insert_all b l = Ok b' → wf_batch b'.
Proof.
  revert b. induction l as [|[e v] l IH]; intros b Hwf; simpl; [by intros [= <-]|].
  intros (b1 & H1 & H2)%outcome_bind_ok.
  destruct (decide (slot e ∈ lsbs b)) as [Hin|Hin].
  - destruct (batch_collision_err b e Hwf Hin) as (x & Hx & _).
    unfold batch_insert in H1. by rewrite decide_True, Hx in H1.
  - destruct (batch_insert_ok b e v Hwf Hin) as (b2 & Hb2 & Hwf2 & _).
    rewrite Hb2 in H1. inv_ok. by eapply IH.
Qed.

Lemma remove_all_wf b l b' : wf_batch b → remove_all b l = Ok b' → wf_batch b'.
Proof.
  revert b. induction l as [|e l IH]; intros b Hwf; simpl; [by intros [= <-]|].
  intros (b1 & H1 & H2)%outcome_bind_ok.
  destruct (decide (slot e ∈ lsbs b)) as [Hin|Hin].
  - destruct (batch_collision_err b e Hwf Hin) as (x & Hx & _).
    unfold batch_remove in H1. by rewrite decide_True, Hx in H1.
  - destruct (batch_remove_ok b e Hwf Hin) as (b2 & Hb2 & Hwf2 & _).
    rewrite Hb2 in H1. inv_ok. by eapply IH.
Qed.

Lemma from_entries_wf l rs b : from_entries l rs = Ok b → wf_batch b.
Proof.
  intros (b1 & H1 & H2)%outcome_bind_ok.
  eapply remove_all_wf; [|done]. eapply insert_all_wf; [|done]. apply batch_new_wf.
Qed.
End batch.

(** * Building and merging batches *)

Section batch_theorems.
Context (DEPTH : nat) {V : Type}.
Implicit Types (b other : Batch V).

Lemma slot_taken_iff b e :
  wf_batch DEPTH b → slot DEPTH e ∈ lsbs b ↔ slot DEPTH e ∈ slot DEPTH <$> batch_elements b.
Proof. intros Hwf. by rewrite (wf_batch_lsbs _ _ Hwf), elem_of_list_to_set. Qed.

Lemma insert_all_spec b l :
  wf_batch DEPTH b →
  match insert_all DEPTH b l with
  | Ok b' => NoDup (slot DEPTH <$> (l.*1 ++ batch_elements b)) ∧ wf_batch DEPTH b' ∧
             entries b' = entries b ++ l ∧ remove_entries b' = remove_entries b
  | Err cs => ¬ NoDup (slot DEPTH <$> (l.*1 ++ batch_elements b)) ∧
              ∃ x e, cs = [mk_collision x e DEPTH InBatch] ∧ slot DEPTH x = slot DEPTH e
  | Panic _ => False
  end.
Proof.
  revert b. induction l as [|[e v] l IH]; intros b Hwf; csimpl.
  { split_and!; [apply (wf_batch_nodup _ _ Hwf)|done|by rewrite app_nil_r|done]. }
  destruct (decide (slot DEPTH e ∈ lsbs b)) as [Hin|Hin].
  - unfold batch_insert. rewrite decide_True by done.
    destruct (batch_collision_err DEPTH b e Hwf Hin) as (x & -> & Hx & Hs). simpl.
    split; [|by eauto]. rewrite NoDup_cons. intros [Hn _]. apply Hn.
    rewrite fmap_app, elem_of_app. right. by apply slot_taken_iff.
  - destruct (batch_insert_ok DEPTH b e v Hwf Hin) as (b1 & Hb1 & Hwf1 & He1 & Hr1).
    rewrite Hb1. simpl. specialize (IH b1 Hwf1).
    assert (batch_elements b1 ≡ₚ e :: batch_elements b) as Hperm.
    { unfold batch_insert in Hb1. rewrite decide_False in Hb1 by done. injection Hb1 as <-.
      apply batch_elements_insert. }
    assert (∀ x, x :: (slot DEPTH <$> (l.*1 ++ batch_elements b)) ≡ₚ
                 (slot DEPTH <$> l.*1) ++ x :: (slot DEPTH <$> batch_elements b)) as Hshift.
    { intros x. rewrite fmap_app. apply Permutation_middle. }
    assert (NoDup (slot DEPTH <$> (l.*1 ++ batch_elements b1)) ↔
            NoDup (slot DEPTH e :: (slot DEPTH <$> (l.*1 ++ batch_elements b)))) as Hnd.
    { rewrite Hshift, fmap_app, Hperm. done. }
    destruct (insert_all DEPTH b1 l) as [b2|cs|m]; [|by rewrite <-Hnd|done].
    destruct IH as (H1 & H2 & H3 & H4). split_and!; [by apply Hnd|done| |by rewrite H4, Hr1].
    by rewrite H3, He1, <-app_assoc.
Qed.

Lemma remove_all_spec b l :
  wf_batch DEPTH b →
  match remove_all DEPTH b l with
  | Ok b' => NoDup (slot DEPTH <$> (l ++ batch_elements b)) ∧ wf_batch DEPTH b' ∧
             entries b' = entries b ∧ remove_entries b' = remove_entries b ++ l
  | Err cs => ¬ NoDup (slot DEPTH <$> (l ++ batch_elements b)) ∧
              ∃ x e, cs = [mk_collision x e DEPTH InBatch] ∧ slot DEPTH x = slot DEPTH e
  | Panic _ => False
  end.
Proof.
  revert b. induction l as [|e l IH]; intros b Hwf; csimpl.
  { split_and!; [apply (wf_batch_nodup _ _ Hwf)|done|done|by rewrite app_nil_r]. }
  destruct (decide (slot DEPTH e ∈ lsbs b)) as [Hin|Hin].
  - unfold batch_remove. rewrite decide_True by done.
    destruct (batch_collision_err DEPTH b e Hwf Hin) as (x & -> & Hx & Hs). simpl.
    split; [|by eauto]. rewrite NoDup_cons. intros [Hn _]. apply Hn.
    rewrite fmap_app, elem_of_app. right. by apply slot_taken_iff.
  - destruct (batch_remove_ok DEPTH b e Hwf Hin) as (b1 & Hb1 & Hwf1 & He1 & Hr1).
    rewrite Hb1. simpl. specialize (IH b1 Hwf1).
    assert (batch_elements b1 ≡ₚ e :: batch_elements b) as Hperm.
    { unfold batch_remove in Hb1. rewrite decide_False in Hb1 by done. injection Hb1 as <-.
      apply batch_elements_remove. }
    assert (∀ x, x :: (slot DEPTH <$> (l ++ batch_elements b)) ≡ₚ
                 (slot DEPTH <$> l) ++ x :: (slot DEPTH <$> batch_elements b)) as Hshift.
    { intros x. rewrite fmap_app. apply Permutation_middle. }
    assert (NoDup (slot DEPTH <$> (l ++ batch_elements b1)) ↔
            NoDup (slot DEPTH e :: (slot DEPTH <$> (l ++ batch_elements b)))) as Hnd.
    { rewrite Hshift, fmap_app, Hperm. done. }
    destruct (remove_all DEPTH b1 l) as [b2|cs|m]; [|by rewrite <-Hnd|done].
    destruct IH as (H1 & H2 & H3 & H4). split_and!; [by apply Hnd|done|by rewrite H3, He1|].
    by rewrite H4, Hr1, <-app_assoc.
Qed.

Lemma from_entries_cases l rs :
  match from_entries DEPTH (V := V) l rs with
  | Ok b => NoDup (slot DEPTH <$> (l.*1 ++ rs)) ∧ wf_batch DEPTH b ∧
            entries b = l ∧ remove_entries b = rs
  | Err cs => ¬ NoDup (slot DEPTH <$> (l.*1 ++ rs)) ∧
              ∃ x e, cs = [mk_collision x e DEPTH InBatch] ∧ slot DEPTH x = slot DEPTH e
  | Panic _ => False
  end.
Proof.
  unfold from_entries. pose proof (insert_all_spec batch_new l (batch_new_wf DEPTH)) as H1.
  change (batch_elements batch_new) with (@nil Element) in H1. rewrite app_nil_r in H1.
  destruct (insert_all DEPTH batch_new l) as [b|cs|m]; simpl; [|split; [|tauto]|done].
  - destruct H1 as (Hn1 & Hwf1 & He1 & Hr1).
    pose proof (remove_all_spec b rs Hwf1) as H2.
    assert (slot DEPTH <$> (rs ++ batch_elements b) ≡ₚ slot DEPTH <$> (l.*1 ++ rs)) as Hp.
    { unfold batch_elements, insert_elements, remove_elements. rewrite He1, Hr1. simpl.
      rewrite app_nil_r. apply fmap_Permutation, Permutation_app_comm. }
    destruct (remove_all DEPTH b rs) as [b2|cs|m]; [| |done].
    + destruct H2 as (? & ? & -> & ->). rewrite <-Hp, He1, Hr1. done.
    + by rewrite <-Hp.
  - destruct H1 as [H1 _]. intros Hn. apply H1. rewrite fmap_app in Hn.
    by apply NoDup_app in Hn as [? _].
Qed.

Lemma from_entries_ok l rs :
  NoDup (slot DEPTH <$> (l.*1 ++ rs)) →
  ∃ b, from_entries DEPTH (V := V) l rs = Ok b ∧ wf_batch DEPTH b ∧
       entries b = l ∧ remove_entries b = rs.
Proof.
  intros Hn. pose proof (from_entries_cases l rs) as Hc.
  destruct (from_entries DEPTH l rs) as [b|cs|m]; [|tauto|done].
  exists b. tauto.
Qed.

(** [from_entries] never panics.  It succeeds exactly when no two of the
    inserted and removed elements share a slot, and then holds exactly them;
    otherwise it returns the one collision it found, between two elements of
    the same slot. *)
Theorem from_entries_spec l rs :
  match from_entries DEPTH (V := V) l rs with
  | Ok b => NoDup (slot DEPTH <$> (l.*1 ++ rs)) ∧ wf_batch DEPTH b ∧
            entries b = l ∧ remove_entries b = rs
  | Err cs => ¬ NoDup (slot DEPTH <$> (l.*1 ++ rs)) ∧
              ∃ x e, cs = [mk_collision x e DEPTH InBatch] ∧ slot DEPTH x = slot DEPTH e
  | Panic _ => False
  end.
Proof. exact (from_entries_cases l rs). Qed.

(** Merging two batches with disjoint slots concatenates their insertions
    but keeps only the removals of the first: a removal of the second batch is
    lost while its slot stays taken, so the merged batch no longer satisfies
    the batch invariant. *)
Theorem batch_merge_drops_removals b other :
  wf_batch DEPTH b → wf_batch DEPTH other → lsbs b ## lsbs other →
  ∃ m, batch_merge DEPTH b other = Ok m ∧
    entries m = entries b ++ entries other ∧
    remove_entries m = remove_entries b ∧ lsbs m = lsbs b ∪ lsbs other ∧
    (remove_entries other ≠ [] → ¬ wf_batch DEPTH m).
Proof.
  intros Hwf Hwfo Hd. unfold batch_merge. rewrite decide_False; cycle 1.
  { intros Hl. apply Hl. apply length_zero_iff_nil.
    destruct (filter _ _) as [|l ls] eqn:Ef; [done|].
    assert (l ∈ filter (λ l, l ∈ lsbs other) (base.elements (lsbs b))) as Hin
      by (rewrite Ef; by left).
    apply list_elem_of_filter in Hin as [? Hin%elem_of_elements]. set_solver. }
  eexists. split; [done|]. split_and!; try done. simpl.
  destruct (remove_entries other) as [|r rs] eqn:Er; [done|]. intros _ [Hl Hn]. simpl in Hl.
  assert (r ∈ batch_elements other) as Hr.
  { unfold batch_elements, remove_elements. rewrite Er, elem_of_app. right. by left. }
  assert (slot DEPTH r ∈ lsbs other) as Hro.
  { apply slot_taken_iff; [done|]. by apply list_elem_of_fmap_2. }
  assert (slot DEPTH r ∈ lsbs b ∪ lsbs other) as Hin by set_solver.
  rewrite Hl, elem_of_list_to_set in Hin. apply list_elem_of_fmap in Hin as (x & Hx & Hin).
  unfold batch_elements, insert_elements, remove_elements in Hin. simpl in Hin.
  rewrite fmap_app, !elem_of_app in Hin.
  assert (x ∈ batch_elements b → False) as Hb.
  { intros Hxb. apply (Hd (slot DEPTH r)); [|done]. rewrite Hx.
    apply slot_taken_iff; [done|]. by apply list_elem_of_fmap_2. }
  destruct Hin as [[Hi|Hi]|Hi].
  - apply Hb. apply elem_of_app. by left.
  - pose proof (wf_batch_nodup _ _ Hwfo) as Hno. unfold batch_elements in Hno.
    rewrite fmap_app in Hno. apply NoDup_app in Hno as (_ & Hno & _).
    apply (Hno (slot DEPTH x)); [by apply list_elem_of_fmap_2|].
    rewrite <-Hx. apply list_elem_of_fmap_2. unfold remove_elements. rewrite Er. by left.
  - apply Hb. apply elem_of_app. by right.
Qed.
End batch_theorems.

Definition ex_left : Batch Z := mk_batch [(1, 10)] [] {[slot 4 1]}.
Definition ex_right : Batch Z := mk_batch [] [2] {[slot 4 2]}.

Lemma batch_merge_drops_removals_witness :
  ∃ m : Batch Z,
    batch_merge 4 ex_left ex_right = Ok m ∧
    entries m = entries ex_left ++ entries ex_right ∧
    remove_entries m = remove_entries ex_left ∧ lsbs m = lsbs ex_left ∪ lsbs ex_right ∧
    (remove_entries ex_right ≠ [] → ¬ wf_batch 4 m).
Proof.
  apply (batch_merge_drops_removals 4 ex_left ex_right).
  - split; [by vm_compute|]. apply (bool_decide_unpack _). by vm_compute.
  - split; [by vm_compute|]. apply (bool_decide_unpack _). by vm_compute.
  - apply disjoint_singleton_l. simpl. rewrite elem_of_singleton.
    apply (bool_decide_unpack _). by vm_compute.
Defined.
