(* ===== verification/SmirkNode.v ===== *)
(** The tree representation of the sparse Merkle tree
    (pkg/smirk/src/tree/tree_repr.rs and known_hashes.rs): nodes with cached
    hashes, insertion without hashing, recalculation of dirty hashes, and the
    simulated root hash.  The [debug_assert_eq!] of [hash_with_inner] (absent
    from release builds) is not modelled.

    [&mut self] is state passing.  A function that recurses over a node and the
    expansion of [Empty] nodes takes its recursion depth as [fuel]; the depth of
    the tree is enough ([insert_without_hashing_spec]). *)
From S2P Require Import Prelude Element MerkleHash HashCache SmirkBatch.

Inductive Node :=
| Leaf (e : Element)
| Empty (depth : nat)
| Parent (left right : Node) (hash : Element) (hash_dirty : bool).

Inductive Change := Insert | Remove.
#[export] Instance change_eq_dec : EqDecision Change.
Proof. solve_decision. Defined.

(** [bits.iter().position(|b| b[path_depth]).unwrap_or(bits.len())]; [None] is
    the panic of an index out of range. *)
Fixpoint first_right (bits : list (list bool)) (path_depth : nat) : option nat :=
  match bits with
  | [] => Some 0%nat
  | b :: bits' =>
      match b !! path_depth with
      | None => None
      | Some true => Some 0%nat
      | Some false => S <$> first_right bits' path_depth
      end
  end.

Definition is_ok_true {E} (r : outcome E bool) : bool :=
  match r with Ok b => b | _ => false end.

(** [matches!(right, Ok(true)) || matches!(left, Ok(true))], then [right?; left?]. *)
Definition both {E} (left right : outcome E bool) : outcome E bool :=
  let dirty := is_ok_true right || is_ok_true left in
  let? _ := right in
  let? _ := left in
  Ok dirty.

Definition nil_b {A} (l : list A) : bool := match l with [] => true | _ => false end.

Section node.
Context `{FieldLib}.

Definition node_hash (self : Node) : Element :=
  match self with
  | Leaf hash | Parent _ _ hash _ => hash
  | Empty depth => empty_hash depth
  end.

(** ** insert_without_hashing *)

Section insertion.
Context (N : nat).

Definition insert_leaf (e : Element) (elements : list (Change * Element))
    (bits : list (list bool)) : Node * outcome Collision bool :=
  match List.find (λ c, bool_decide (e = c.2)) elements with
  | Some (Insert, _) => (Leaf e, Ok false)
  | Some (Remove, _) => (Empty 1, Ok true)
  | None =>
      if List.existsb (λ b, bool_decide (b = lsb_bits e (N - 1))) bits
      then match List.find (λ c, bool_decide (lsb_bits e (N - 1) = lsb_bits c.2 (N - 1)))
                   elements with
           | Some (_, ee) => (Leaf e, Err (mk_collision e ee N InTree))
           | None => (Leaf e, Panic "unwrap on None")
           end
      else (Leaf e, Panic "internal error: entered unreachable code")
  end.

Definition insert_empty_leaf (elements : list (Change * Element))
  : Node * outcome Collision bool :=
  match elements with
  | [(Insert, e)] => (Leaf e, Ok true)
  | [(Remove, _)] => (Empty 1, Ok false)
  | _ => (Empty 1, Panic "assertion failed: elements.len() == 1")
  end.

(** The [Parent] arm; [rec] is the recursive call on a child. *)
Definition insert_parent
    (rec : Node → list (Change * Element) → list (list bool) → nat →
           Node * outcome Collision bool)
    (left right : Node) (hash : Element) (hash_dirty : bool)
    (elements : list (Change * Element)) (bits : list (list bool)) (path_depth : nat)
  : Node * outcome Collision bool :=
  match first_right bits path_depth with
  | None => (Parent left right hash hash_dirty, Panic "index out of range")
  | Some rights_start =>
      let lefts := take rights_start bits in
      let rights := drop rights_start bits in
      let lefts_elements := take rights_start elements in
      let rights_elements := drop rights_start elements in
      let finish l r res_left res_right :=
        (Parent l r hash (is_ok_true res_right || is_ok_true res_left),
         both res_left res_right) in
      match nil_b lefts, nil_b rights with
      | true, true => (Parent left right hash hash_dirty, Ok false)
      | false, true =>
          let '(l, res) := rec left lefts_elements lefts (S path_depth) in
          finish l right res (Ok false)
      | true, false =>
          let '(r, res) := rec right rights_elements rights (S path_depth) in
          finish left r (Ok false) res
      | false, false =>
          let '(r, res1) := rec right rights_elements rights (S path_depth) in
          let '(l, res2) := rec left lefts_elements lefts (S path_depth) in
          finish l r res1 res2
      end
  end.

Fixpoint insert_without_hashing (fuel : nat) (self : Node)
    (elements : list (Change * Element)) (bits : list (list bool)) (path_depth : nat)
  : Node * outcome Collision bool :=
  match fuel with
  | O => (self, Panic "out of fuel")
  | S fuel' =>
      match self with
      | Leaf e => insert_leaf e elements bits
      | Parent lft rgt hash hash_dirty =>
          insert_parent (insert_without_hashing fuel') lft rgt hash hash_dirty
            elements bits path_depth
      | Empty 1 => insert_empty_leaf elements
      | Empty depth =>
          (* split an empty tree into two empty subtrees, then try again *)
          insert_parent (insert_without_hashing fuel')
            (Empty (depth - 1)) (Empty (depth - 1)) (empty_hash depth) false
            elements bits path_depth
      end
  end.
End insertion.

(** ** recalculate_hashes *)

(** The calls of the two callbacks.  The children are recalculated by
    [rayon::join]; the model takes the left one first. *)
Inductive HashEvent :=
| HashRemove (left right : Element)
| HashSet (left right result : Element).

Fixpoint recalculate_hashes {C : Type} `{!HashCache C} (self : Node) (cache : C)
  : Node * C * list HashEvent :=
  match self with
  | Leaf _ | Empty _ => (self, cache, [])
  | Parent lft rgt hash hash_dirty =>
      if negb hash_dirty then (self, cache, [])
      else
        let left_hash_before := node_hash lft in
        let right_hash_before := node_hash rgt in
        let '(left', cache1, ev1) := recalculate_hashes lft cache in
        let '(right', cache2, ev2) := recalculate_hashes rgt cache1 in
        let left_hash := node_hash left' in
        let right_hash := node_hash right' in
        let '(cache3, hash') := cache_hash cache2 left_hash right_hash in
        (Parent left' right' hash' false, cache3,
         HashRemove left_hash_before right_hash_before
           :: ev1 ++ ev2 ++ [HashSet left_hash right_hash hash'])
  end.

(** ** hash_with *)

Section simulation.
Context {C : Type} `{!HashCache C}.

Definition too_many : string := "Logic error: Multiple changes target the same path".

(** The recursion of both the [Parent] and the intermediate [Empty] arm. *)
Definition hash_with_parent
    (rec : Node → C → list (Change * Element) → list (list bool) → nat →
           C * outcome Empty_set Element)
    (left right : Node) (cache : C)
    (changes : list (Change * Element)) (bits : list (list bool)) (path_depth : nat)
  : C * outcome Empty_set Element :=
  match first_right bits path_depth with
  | None => (cache, Panic "index out of range")
  | Some right_start =>
      let '(c1, left_hash) :=
        rec left cache (take right_start changes) (take right_start bits) (S path_depth) in
      match left_hash with
      | Ok lh =>
          let '(c2, right_hash) :=
            rec right c1 (drop right_start changes) (drop right_start bits) (S path_depth) in
          match right_hash with
          | Ok rh => let '(c3, h) := cache_hash c2 lh rh in (c3, Ok h)
          | other => (c2, other)
          end
      | other => (c1, other)
      end
  end.

Fixpoint hash_with_inner (fuel : nat) (self : Node) (cache : C)
    (changes : list (Change * Element)) (bits : list (list bool)) (path_depth : nat)
  : C * outcome Empty_set Element :=
  match fuel with
  | O => (cache, Panic "out of fuel")
  | S fuel' =>
      match self with
      | Leaf current_element =>
          (cache,
           match changes with
           | [] => Ok current_element
           | [(Insert, new_element)] => Ok new_element
           | [(Remove, removed_element)] =>
               if decide (current_element = removed_element) then Ok (empty_hash 1)
               else Ok current_element
           | _ => Panic too_many
           end)
      | Parent lft rgt _ _ =>
          hash_with_parent (hash_with_inner fuel') lft rgt cache changes bits path_depth
      | Empty 1 =>
          (cache,
           match changes with
           | [(Insert, element)] => Ok element
           | [] | [(Remove, _)] => Ok (empty_hash 1)
           | _ => Panic too_many
           end)
      | Empty depth =>
          match changes with
          | [] => (cache, Ok (empty_hash depth))
          | _ => hash_with_parent (hash_with_inner fuel')
                   (Empty (depth - 1)) (Empty (depth - 1)) cache changes bits path_depth
          end
      end
  end.
End simulation.

(** ** known_hashes *)

Fixpoint known_hashes_inner (self : Node) : outcome Empty_set (list KnownHash) :=
  match self with
  | Leaf _ | Empty _ => Ok []
  | Parent lft rgt hash hash_dirty =>
      if hash_dirty then Panic "hash should never be dirty in normal use"
      else
        let? l := known_hashes_inner lft in
        let? r := known_hashes_inner rgt in
        Ok (mk_known (node_hash lft) (node_hash rgt) hash :: l ++ r)
  end.
End node.
