(* ===== verification/SmirkNodeSpec.v ===== *)
(** Correctness of the node operations: a node is abstracted to the content of
    its slots ([slots]), and each operation of SmirkNode is shown to act on it
    as the corresponding update, with the cached hashes those of the complete
    tree ([ref_hash]). *)
From S2P Require Import Prelude Element MerkleHash HashCache SmirkBatch SmirkNode.

(** * Order on bit strings *)

Fixpoint bits_leb (a b : list bool) : bool :=
  match a, b with
  | [], _ => true
  | _ :: _, [] => false
  | x :: a', y :: b' => if Bool.eqb x y then bits_leb a' b' else negb x
  end.
(** [BitSlice]'s [Ord]: lexicographic, false before true. *)
Definition bits_le (a b : list bool) : Prop := bits_leb a b = true.
#[export] Instance bits_le_dec a b : Decision (bits_le a b).
Proof. unfold bits_le. apply _. Defined.

#[export] Instance bits_le_trans : Transitive bits_le.
Proof.
  unfold bits_le. intros a. induction a as [|x a IH]; intros [|y b] [|z c]; simpl; try done.
  destruct x, y, z; simpl; try done; apply IH.
Qed.
#[export] Instance bits_le_total : Total bits_le.
Proof.
  unfold bits_le. intros a. induction a as [|x a IH]; intros [|y b]; simpl; auto.
  destruct x, y; simpl; auto.
Qed.

(** Below a common prefix, no string that goes right precedes one that goes
    left. *)
Lemma bits_le_split p x q y r :
  bits_le (p ++ x :: q) (p ++ y :: r) → x = true → y = true.
Proof.
  unfold bits_le. induction p as [|z p IH]; simpl; [by destruct x, y|].
  by rewrite Bool.eqb_reflx.
Qed.

(** * Slots, shape and hash invariants of a node *)

Fixpoint slots (n : Node) (q : list bool) : Element :=
  match n, q with
  | Leaf e, [] => e
  | Parent l r _ _, b :: q' => if b : bool then slots r q' else slots l q'
  | _, _ => NULL_HASH
  end.

Section spec.
Context `{FieldLib} (N : nat).

Definition cslot (c : Change * Element) : list bool := lsb_bits c.2 (N - 1).

(** [node_wf d p n]: [n] is a subtree of depth [d] at the path [p]; a leaf
    holds a non-null element that belongs at its path. *)
Fixpoint node_wf (d : nat) (p : list bool) (n : Node) {struct n} : Prop :=
  match n with
  | Leaf e => d = 1%nat ∧ e ≠ NULL_HASH ∧ lsb_bits e (N - 1) = p
  | Empty k => k = d ∧ (1 ≤ d)%nat
  | Parent l r _ _ =>
      match d with
      | S (S _ as d') => node_wf d' (p ++ [false]) l ∧ node_wf d' (p ++ [true]) r
      | _ => False
      end
  end.

Fixpoint clean (n : Node) : Prop :=
  match n with
  | Parent l r _ dirty => dirty = false ∧ clean l ∧ clean r
  | _ => True
  end.

(** A hash that is not marked dirty is up to date, and nothing below it is
    dirty. *)
Fixpoint hash_inv (n : Node) : Prop :=
  match n with
  | Parent l r h dirty =>
      hash_inv l ∧ hash_inv r ∧
      (dirty = false → clean l ∧ clean r ∧ h = hash_merge [node_hash l; node_hash r])
  | _ => True
  end.

(** ** Lists of changes *)

(** The change [c] applies to the slots [s] of the subtree at [p]. *)
Definition applicable (p : list bool) (n : nat) (s : list bool → Element)
    (c : Change * Element) : Prop :=
  ∃ q, cslot c = p ++ q ∧ length q = n ∧ c.2 ≠ NULL_HASH ∧
       s q = match c.1 with Insert => NULL_HASH | Remove => c.2 end.

Record changes_ok (p : list bool) (n : nat) (s : list bool → Element)
    (cs : list (Change * Element)) : Prop := {
  co_sorted : StronglySorted (λ a b, bits_le (cslot a) (cslot b)) cs;
  co_nodup : NoDup (cslot <$> cs);
  co_app : ∀ c, c ∈ cs → applicable p n s c;
}.

(** The slots after the changes. *)
Definition upd (p : list bool) (cs : list (Change * Element)) (s : list bool → Element)
    (q : list bool) : Element :=
  match List.find (λ c, bool_decide (cslot c = p ++ q)) cs with
  | Some (Insert, e) => e
  | Some (Remove, _) => NULL_HASH
  | None => s q
  end.

Lemma upd_nil p s q : upd p [] s q = s q.
Proof. done. Qed.

Definition cbit (k : nat) (c : Change * Element) : bool := List.nth k (cslot c) false.

Lemma applicable_bit p n s c :
  applicable p (S n) s c →
  ∃ q, cslot c = p ++ cbit (length p) c :: q ∧
       applicable (p ++ [cbit (length p) c]) n (λ r, s (cbit (length p) c :: r)) c.
Proof.
  intros (q & Hq & Hl & He & Hs). destruct q as [|b q]; [done|]. simplify_eq/=.
  assert (cbit (length p) c = b) as ->.
  { unfold cbit. rewrite Hq, app_nth2, Nat.sub_diag by lia. done. }
  exists q. split; [done|]. exists q. rewrite <-app_assoc. done.
Qed.

Lemma first_right_spec p n s cs :
  (∀ c, c ∈ cs → applicable p (S n) s c) →
  first_right (cslot <$> cs) (length p) = Some (position_or_len (cbit (length p)) cs).
Proof.
  induction cs as [|c cs IH]; intros Happ; csimpl; [done|].
  destruct (applicable_bit p n s c) as (q & Hq & _); [apply Happ; by left|].
  rewrite Hq at 1. rewrite list_lookup_middle by done.
  rewrite IH by (intros; apply Happ; by right).
  by destruct (cbit (length p) c).
Qed.

(** The split of the parallel slices at the first change that goes right. *)
Lemma changes_split p n s cs b :
  changes_ok p (S n) s cs →
  changes_ok (p ++ [b]) n (λ r, s (b :: r))
    (List.filter (λ c, Bool.eqb (cbit (length p) c) b) cs).
Proof.
  intros [Hs Hn Ha]. split.
  - by apply sorted_filterb.
  - clear -Hn. induction cs as [|c cs IH]; csimpl; [constructor|].
    inversion_clear Hn as [|?? Hnin Hn']. destruct (Bool.eqb _ _); csimpl; [|by apply IH].
    constructor; [|by apply IH]. intros (c' & Heq & Hin)%list_elem_of_fmap.
    apply Hnin. apply list_elem_of_fmap. exists c'. split; [done|].
    by apply elem_of_list_filterb in Hin as [? _].
  - intros c [Hin Hb%Bool.eqb_prop]%elem_of_list_filterb.
    destruct (applicable_bit p n s c (Ha c Hin)) as (q & _ & Hc). by rewrite Hb in Hc.
Qed.

Lemma changes_take_drop p n s cs k :
  changes_ok p (S n) s cs →
  first_right (cslot <$> cs) (length p) = Some k →
  take k cs = List.filter (λ c, Bool.eqb (cbit (length p) c) false) cs ∧
  drop k cs = List.filter (λ c, Bool.eqb (cbit (length p) c) true) cs.
Proof.
  intros [Hs Hn Ha] Hk. rewrite (first_right_spec p n s cs Ha) in Hk. simplify_eq.
  destruct (split_position_filter (λ a b, bits_le (cslot a) (cslot b))
              (cbit (length p)) cs Hs) as [-> ->].
  - intros x y Hx Hy Hle.
    destruct (applicable_bit p n s x (Ha x Hx)) as (qx & Hqx & _).
    destruct (applicable_bit p n s y (Ha y Hy)) as (qy & Hqy & _).
    rewrite Hqx, Hqy in Hle. intros Hbx%Is_true_true.
    apply Is_true_true. by eapply bits_le_split.
  - split; apply List.filter_ext; intros c; by destruct (cbit _ c).
Qed.

(** Updating the whole subtree is updating the half the slot lies in. *)
Lemma upd_split p n s cs b q :
  (∀ c, c ∈ cs → applicable p (S n) s c) →
  upd p cs s (b :: q) =
  upd (p ++ [b]) (List.filter (λ c, Bool.eqb (cbit (length p) c) b) cs) (λ r, s (b :: r)) q.
Proof.
  intros Ha. unfold upd. rewrite find_filterb.
  replace (List.find (λ c, bool_decide (cslot c = p ++ b :: q)) cs) with
    (List.find (λ x, Bool.eqb (cbit (length p) x) b &&
                     bool_decide (cslot x = (p ++ [b]) ++ q)) cs); [done|].
  apply find_ext. intros c. rewrite <-app_assoc. simpl.
  destruct (decide (cslot c = p ++ b :: q)) as [E|E].
  - rewrite bool_decide_eq_true_2 by done. rewrite andb_true_r.
    unfold cbit. rewrite E, app_nth2, Nat.sub_diag by lia. simpl. apply Bool.eqb_reflx.
  - rewrite bool_decide_eq_false_2 by done. apply andb_false_r.
Qed.

(** A change list that reaches a single slot is at most one change. *)
Lemma changes_single p s cs :
  changes_ok p 0 s cs → cs = [] ∨ ∃ c, cs = [c] ∧ cslot c = p.
Proof.
  intros [_ Hn Ha]. destruct cs as [|c cs]; [by left|]. right. exists c.
  assert (∀ c', c' ∈ c :: cs → cslot c' = p) as Hp.
  { intros c' (q & Hq & Hl & _)%Ha. destruct q; [|done]. by rewrite app_nil_r in Hq. }
  split; [|apply Hp; by left]. destruct cs as [|c' cs]; [done|]. exfalso.
  csimpl in Hn. apply NoDup_cons in Hn as [Hnin _]. apply Hnin.
  rewrite (Hp c) by (by left). rewrite (Hp c') by (by right; left). by left.
Qed.

Lemma filter_nonempty (p : list bool) cs :
  cs ≠ [] →
  List.filter (λ c, Bool.eqb (cbit (length p) c) false) cs ≠ [] ∨
  List.filter (λ c, Bool.eqb (cbit (length p) c) true) cs ≠ [].
Proof.
  destruct cs as [|c cs]; [done|]. intros _. simpl.
  destruct (cbit _ c); simpl; [by right|by left].
Qed.

Lemma nil_b_fmap (cs : list (Change * Element)) : nil_b (cslot <$> cs) = nil_b cs.
Proof. by destruct cs. Qed.

(** ** insert_without_hashing *)

Definition insert_post (d : nat) (p : list bool) (s : list bool → Element)
    (cs : list (Change * Element)) (res : Node * outcome Collision bool) : Prop :=
  res.2 = Ok true ∧ node_wf d p res.1 ∧ hash_inv res.1 ∧
  ∀ q, length q = (d - 1)%nat → slots res.1 q = upd p cs s q.

Lemma upd_ext p cs s s' q : (∀ q, s q = s' q) → upd p cs s q = upd p cs s' q.
Proof. intros Hs. unfold upd. by rewrite Hs. Qed.

Lemma changes_ok_ext p n s s' cs :
  (∀ q, s q = s' q) → changes_ok p n s cs → changes_ok p n s' cs.
Proof.
  intros Hs [H1 H2 H3]. split; [done|done|]. intros c Hc.
  destruct (H3 c Hc) as (q & ? & ? & ? & Hq). exists q. by rewrite <-Hs.
Qed.

Lemma insert_post_ext d p s s' cs res :
  (∀ q, s q = s' q) → insert_post d p s cs res → insert_post d p s' cs res.
Proof.
  intros Hs (H1 & H2 & H3 & H4). split_and!; try done.
  intros q Hq. rewrite H4 by done. by apply upd_ext.
Qed.

(** An empty node and its expansion have the same slots. *)
Lemma slots_empty_parent d h q :
  slots (Parent (Empty d) (Empty d) h false) q = slots (Empty (S d)) q.
Proof. by destruct q as [|[] q]. Qed.

Lemma insert_empty_leaf_spec p cs :
  cs ≠ [] → changes_ok p 0 (slots (Empty 1)) cs →
  insert_post 1 p (slots (Empty 1)) cs (insert_empty_leaf cs).
Proof.
  intros Hne Hcs. destruct (changes_single _ _ _ Hcs) as [|([ch e] & -> & Hp)]; [done|].
  destruct (co_app _ _ _ _ Hcs (ch, e)) as (q & Hq & Hl & He & Hs); [by left|].
  destruct ch; simpl in *; [|by destruct He].
  split_and!; try done. intros [|] Hq'; [|done].
  unfold upd. simpl. by rewrite bool_decide_eq_true_2 by (by rewrite app_nil_r).
Qed.

Lemma insert_leaf_spec p e cs :
  cs ≠ [] → node_wf 1 p (Leaf e) → changes_ok p 0 (slots (Leaf e)) cs →
  insert_post 1 p (slots (Leaf e)) cs (insert_leaf N e cs (cslot <$> cs)).
Proof.
  intros Hne (_ & He & Hp) Hcs.
  destruct (changes_single _ _ _ Hcs) as [|([ch e'] & -> & Hp')]; [done|].
  destruct (co_app _ _ _ _ Hcs (ch, e')) as (q & Hq & Hl & He' & Hs); [by left|].
  destruct q; [|done]. destruct ch; simpl in Hs; [done|]. subst e'.
  unfold insert_leaf. simpl. rewrite bool_decide_eq_true_2 by done.
  split_and!; try done. intros [|] Hq'; [|done].
  unfold upd. simpl. by rewrite bool_decide_eq_true_2 by (by rewrite app_nil_r).
Qed.

Lemma insert_parent_spec rec d p l r h dirty cs :
  (1 ≤ d)%nat →
  (∀ (b : bool) cs', cs' ≠ [] → changes_ok (p ++ [b]) (d - 1) (slots (if b then r else l)) cs' →
     insert_post d (p ++ [b]) (slots (if b then r else l)) cs'
       (rec (if b then r else l) cs' (cslot <$> cs') (S (length p)))) →
  cs ≠ [] → node_wf (S d) p (Parent l r h dirty) → hash_inv l → hash_inv r →
  changes_ok p d (slots (Parent l r h dirty)) cs →
  insert_post (S d) p (slots (Parent l r h dirty)) cs
    (insert_parent rec l r h dirty cs (cslot <$> cs) (length p)).
Proof.
  intros Hd Hrec Hne Hwf Hil Hir Hcs. destruct d as [|d]; [lia|].
  destruct Hwf as [Hwl Hwr]. unfold insert_parent.
  rewrite (first_right_spec p d _ cs (co_app _ _ _ _ Hcs)).
  destruct (changes_take_drop p d _ cs _ Hcs (first_right_spec p d _ cs (co_app _ _ _ _ Hcs)))
    as [Ht Hr].
  rewrite <-!fmap_take, <-!fmap_drop, Ht, Hr, !nil_b_fmap. clear Ht Hr.
  pose proof (changes_split p d _ cs false Hcs) as Hcl.
  pose proof (changes_split p d _ cs true Hcs) as Hcr.
  pose proof (filter_nonempty p cs Hne) as Hsome.
  pose proof (λ q, upd_split p d _ cs false q (co_app _ _ _ _ Hcs)) as Hupl.
  pose proof (λ q, upd_split p d _ cs true q (co_app _ _ _ _ Hcs)) as Hupr.
  set (lc := List.filter (λ c, Bool.eqb (cbit (length p) c) false) cs) in *.
  set (rc := List.filter (λ c, Bool.eqb (cbit (length p) c) true) cs) in *.
  assert (Hpost : ∀ (b : bool) cs', cs' ≠ [] →
    changes_ok (p ++ [b]) d (λ q, slots (Parent l r h dirty) (b :: q)) cs' → ∃ n',
    rec (if b then r else l) cs' (cslot <$> cs') (S (length p)) = (n', Ok true) ∧
    node_wf (S d) (p ++ [b]) n' ∧ hash_inv n' ∧
    ∀ q, length q = d →
      slots n' q = upd (p ++ [b]) cs' (λ q, slots (Parent l r h dirty) (b :: q)) q).
  { intros b cs' Hne' Hok'. specialize (Hrec b cs' Hne').
    rewrite Nat.sub_succ, Nat.sub_0_r in Hrec.
    destruct (rec _ _ _ _) as [n' o]. destruct Hrec as (E1 & E2 & E3 & E4).
    - destruct b; exact Hok'.
    - exists n'. simpl in E1. subst o. split_and!; [done..|].
      intros q Hq. cbn [fst] in E4. rewrite E4 by lia. by destruct b. }
  destruct lc as [|cl lc'] eqn:El, rc as [|cr rc'] eqn:Er; cbn [nil_b].
  - by destruct Hsome.
  - destruct (Hpost true (cr :: rc') ltac:(done) Hcr) as (n' & -> & Hw & Hi & Hsl).
    split_and!; try done. intros [|b q] Hq; simpl in Hq; [lia|].
    destruct b; [rewrite Hupr; apply Hsl; lia|by rewrite Hupl].
  - destruct (Hpost false (cl :: lc') ltac:(done) Hcl) as (n' & -> & Hw & Hi & Hsl).
    split_and!; try done. intros [|b q] Hq; simpl in Hq; [lia|].
    destruct b; [by rewrite Hupr|rewrite Hupl; apply Hsl; lia].
  - destruct (Hpost true (cr :: rc') ltac:(done) Hcr) as (n' & -> & Hw & Hi & Hsl).
    destruct (Hpost false (cl :: lc') ltac:(done) Hcl) as (n2 & -> & Hw2 & Hi2 & Hsl2).
    split_and!; try done. intros [|b q] Hq; simpl in Hq; [lia|].
    destruct b; [rewrite Hupr; apply Hsl; lia|rewrite Hupl; apply Hsl2; lia].
Qed.

(** Applicable changes are always carried out, and the depth of the node is
    enough fuel. *)
Lemma insert_without_hashing_spec fuel d p n cs :
  (d ≤ fuel)%nat → cs ≠ [] → node_wf d p n → hash_inv n →
  changes_ok p (d - 1) (slots n) cs →
  insert_post d p (slots n) cs
    (insert_without_hashing N fuel n cs (cslot <$> cs) (length p)).
Proof.
  revert d p n cs. induction fuel as [|fuel IH]; intros d p n cs Hf Hne Hwf Hi Hcs.
  { destruct d as [|d]; [|lia]. destruct n; simpl in Hwf; [by destruct Hwf|lia|done]. }
  destruct n as [e|k|l r h dirty]; cbn [insert_without_hashing].
  - pose proof Hwf as Hwf'. simpl in Hwf'. destruct Hwf' as [-> _]. by apply insert_leaf_spec.
  - simpl in Hwf. destruct Hwf as [-> Hd]. destruct d as [|[|d]]; [lia|by apply insert_empty_leaf_spec|].
    replace (S (S d) - 1)%nat with (S d) in * by lia.
    eapply insert_post_ext; [apply slots_empty_parent|].
    apply (insert_parent_spec _ (S d)); [lia| |done|simpl; split; split; done || lia|done|done|].
    + intros b cs' Hne' Hcs'. replace (S (length p)) with (length (p ++ [b])) by
        (rewrite length_app; simpl; lia).
      destruct b; apply IH; try done; try lia; simpl; lia.
    + eapply changes_ok_ext; [|exact Hcs]. intros q. symmetry. apply slots_empty_parent.
  - destruct d as [|[|d]]; [done|done|]. destruct Hi as (Hil & Hir & _).
    apply (insert_parent_spec _ (S d)); [lia| |done|done|done|done|].
    + destruct Hwf as [Hwl Hwr]. intros b cs' Hne' Hcs'.
      replace (S (length p)) with (length (p ++ [b])) by (rewrite length_app; simpl; lia).
      destruct b; apply IH; try done; lia.
    + done.
Qed.
End spec.

(** * Hashes *)

Section hashes.
Context `{FieldLib} {C : Type} `{!HashCache C, !HashCacheLaws C} (N : nat).

(** In a node without dirty hashes the cached hash is the root of the
    complete tree over its slots. *)
Lemma clean_hash d p n :
  node_wf N d p n → clean n → hash_inv n → node_hash n = ref_hash (d - 1) (slots n).
Proof.
  revert d p. induction n as [e|k|l IHl r IHr h dirty]; intros d p; simpl.
  - by intros (-> & _).
  - intros (-> & Hd) _ _. rewrite empty_hash_spec by done. by apply ref_hash_ext.
  - destruct d as [|[|d]]; [done|done|].
    intros (Hwl & Hwr) (-> & Hcl & Hcr) (Hil & Hir & Hh).
    destruct (Hh eq_refl) as (_ & _ & ->). simpl.
    rewrite (IHl _ _ Hwl Hcl Hil), (IHr _ _ Hwr Hcr Hir). simpl. by rewrite Nat.sub_0_r.
Qed.

Definition event_ok (ev : HashEvent) : Prop :=
  match ev with
  | HashRemove _ _ => True
  | HashSet l r h => h = hash_merge [l; r]
  end.

(** Recalculation leaves the slots alone, cleans every node and reports only
    true hashes. *)
Lemma recalculate_hashes_spec d p n (c : C) :
  node_wf N d p n → hash_inv n → cache_inv c →
  let '(n', c', evs) := recalculate_hashes n c in
  node_wf N d p n' ∧ clean n' ∧ hash_inv n' ∧ cache_inv c' ∧ Forall event_ok evs ∧
  (∀ q, slots n' q = slots n q).
Proof.
  revert d p c. induction n as [e|k|l IHl r IHr h dirty]; intros d p c; simpl; [naive_solver..|].
  destruct d as [|[|d]]; [done|done|]. intros (Hwl & Hwr) (Hil & Hir & Hh) Hc.
  destruct dirty; simpl; [|naive_solver].
  specialize (IHl _ _ c Hwl Hil Hc). destruct (recalculate_hashes l c) as [[l' c1] ev1].
  destruct IHl as (Wl & Cl & Il & Hc1 & E1 & Sl).
  specialize (IHr _ _ c1 Hwr Hir Hc1). destruct (recalculate_hashes r c1) as [[r' c2] ev2].
  destruct IHr as (Wr & Cr & Ir & Hc2 & E2 & Sr).
  pose proof (cache_hash_correct c2 (node_hash l') (node_hash r') Hc2) as Hcorrect.
  pose proof (cache_inv_hash c2 (node_hash l') (node_hash r') Hc2) as Hc3.
  destruct (cache_hash c2 (node_hash l') (node_hash r')) as [c3 h']. simpl in Hcorrect, Hc3.
  subst h'. split_and!; simpl; try done.
  - apply Forall_cons. split; [done|]. rewrite !Forall_app. split_and!; try done.
    constructor; [reflexivity|constructor].
  - intros [|[] q]; [done|apply Sr|apply Sl].
Qed.

Lemma known_hashes_ok d p n :
  node_wf N d p n → clean n → hash_inv n →
  ∃ ks, known_hashes_inner n = Ok ks ∧ Forall known_ok ks.
Proof.
  revert d p. induction n as [e|k|l IHl r IHr h dirty]; intros d p; simpl; [by eauto..|].
  destruct d as [|[|d]]; [done|done|]. intros (Hwl & Hwr) (-> & Hcl & Hcr) (Hil & Hir & Hh).
  destruct (IHl _ _ Hwl Hcl Hil) as (ks1 & -> & K1).
  destruct (IHr _ _ Hwr Hcr Hir) as (ks2 & -> & K2).
  eexists. split; [done|]. apply Forall_cons. rewrite Forall_app.
  split; [|done]. by destruct (Hh eq_refl) as (_ & _ & ->).
Qed.

(** ** hash_with *)

Definition sim_post (n : nat) (s : list bool → Element)
    (res : C * outcome Empty_set Element) : Prop :=
  res.2 = Ok (ref_hash n s) ∧ cache_inv res.1.

Lemma hash_with_leaf_spec p nd (c : C) cs :
  node_wf N 1 p nd → cache_inv c → changes_ok N p 0 (slots nd) cs →
  sim_post 0 (upd N p cs (slots nd)) (hash_with_inner 1 nd c cs (cslot N <$> cs) (length p)).
Proof.
  intros Hwf Hc Hcs.
  destruct (changes_single _ _ _ _ Hcs) as [->|([ch e] & -> & Hp)].
  - destruct nd as [e'|k|]; [done|destruct Hwf as [-> _]|done].
    split; [|done]. simpl. by rewrite empty_hash_1.
  - destruct (co_app _ _ _ _ _ Hcs (ch, e)) as (q & Hq & Hl & He & Hs); [by left|].
    destruct q; [|done]. unfold sim_post, upd. simpl ref_hash. simpl List.find.
    rewrite bool_decide_eq_true_2 by (by rewrite app_nil_r).
    destruct nd as [e'|k|]; [|destruct Hwf as [-> _]|done]; destruct ch; simpl in *; try done.
    rewrite decide_True, empty_hash_1 by done. done.
Qed.

Lemma hash_with_parent_spec rec d p l r h dirty (c : C) cs :
  (∀ (b : bool) c' cs', cache_inv c' →
     changes_ok N (p ++ [b]) d (slots (if b then r else l)) cs' →
     sim_post d (upd N (p ++ [b]) cs' (slots (if b then r else l)))
       (rec (if b then r else l) c' cs' (cslot N <$> cs') (S (length p)))) →
  cache_inv c →
  changes_ok N p (S d) (slots (Parent l r h dirty)) cs →
  sim_post (S d) (upd N p cs (slots (Parent l r h dirty)))
    (hash_with_parent rec l r c cs (cslot N <$> cs) (length p)).
Proof.
  intros Hrec Hc Hcs. unfold hash_with_parent.
  rewrite (first_right_spec N p d _ cs (co_app _ _ _ _ _ Hcs)).
  destruct (changes_take_drop N p d _ cs _ Hcs
              (first_right_spec N p d _ cs (co_app _ _ _ _ _ Hcs))) as [Ht Hr].
  rewrite <-!fmap_take, <-!fmap_drop, Ht, Hr. clear Ht Hr.
  destruct (Hrec false c _ Hc (changes_split N p d _ cs false Hcs)) as [E1 I1].
  destruct (rec l c _ _ _) as [c1 o1]. simpl in E1, I1. subst o1. simpl.
  destruct (Hrec true c1 _ I1 (changes_split N p d _ cs true Hcs)) as [E2 I2].
  destruct (rec r c1 _ _ _) as [c2 o2]. simpl in E2, I2. subst o2. simpl.
  pose proof (λ x y, cache_hash_correct c2 x y I2) as Hcorrect.
  pose proof (λ x y, cache_inv_hash c2 x y I2) as Hi.
  specialize (Hcorrect
    (ref_hash d (upd N (p ++ [false])
       (List.filter (λ c, Bool.eqb (cbit N (length p) c) false) cs) (slots l)))
    (ref_hash d (upd N (p ++ [true])
       (List.filter (λ c, Bool.eqb (cbit N (length p) c) true) cs) (slots r)))).
  specialize (Hi
    (ref_hash d (upd N (p ++ [false])
       (List.filter (λ c, Bool.eqb (cbit N (length p) c) false) cs) (slots l)))
    (ref_hash d (upd N (p ++ [true])
       (List.filter (λ c, Bool.eqb (cbit N (length p) c) true) cs) (slots r)))).
  destruct (cache_hash c2 _ _) as [c3 hh]. simpl in Hcorrect, Hi. subst hh.
  split; [|done]. cbn [snd ref_hash]. do 2 f_equal.
  pose proof (λ b q, upd_split N p d (slots (Parent l r h dirty)) cs b q
                       (co_app _ _ _ _ _ Hcs)) as Hupd.
  f_equal; [|f_equal]; apply ref_hash_ext; intros q _; by rewrite Hupd.
Qed.

Lemma sim_post_ext n s s' (res : C * outcome Empty_set Element) :
  (∀ q, s q = s' q) → sim_post n s res → sim_post n s' res.
Proof.
  intros Hs [E HI]. split; [|done]. rewrite E. f_equal. by apply ref_hash_ext.
Qed.

Lemma hash_with_inner_spec fuel d p nd (c : C) cs :
  (d ≤ fuel)%nat → node_wf N d p nd → cache_inv c →
  changes_ok N p (d - 1) (slots nd) cs →
  sim_post (d - 1) (upd N p cs (slots nd))
    (hash_with_inner fuel nd c cs (cslot N <$> cs) (length p)).
Proof.
  revert d p nd c cs. induction fuel as [|fuel IH]; intros d p nd c cs Hf Hwf Hc Hcs.
  { destruct d as [|d]; [|lia]. destruct nd; simpl in Hwf; [by destruct Hwf|lia|done]. }
  destruct nd as [e|k|l r h dirty].
  - assert (d = 1%nat) as -> by (by destruct Hwf).
    exact (hash_with_leaf_spec p (Leaf e) c cs Hwf Hc Hcs).
  - simpl in Hwf. destruct Hwf as [-> Hd]. destruct d as [|[|d]]; [lia| |].
    { exact (hash_with_leaf_spec p (Empty 1) c cs ltac:(split; [done|lia]) Hc Hcs). }
    replace (S (S d) - 1)%nat with (S d) in * by lia.
    cbn [hash_with_inner]. replace (S (S d) - 1)%nat with (S d) in * by lia.
    destruct cs as [|c0 cs0] eqn:Ecs.
    { split; [|done]. simpl. rewrite empty_hash_spec by lia.
      replace (S (S d) - 1)%nat with (S d) by lia. by rewrite (ref_hash_ext (S d) _ (upd N p [] (slots (Empty (S (S d)))))). }
    rewrite <-Ecs in *. clear Ecs.
    eapply sim_post_ext;
      [intros q; apply upd_ext; apply (slots_empty_parent (S d) NULL_HASH)|].
    apply hash_with_parent_spec; [|done|].
    + intros b c' cs' Hc' Hcs'.
      replace (S (length p)) with (length (p ++ [b])) by (rewrite length_app; simpl; lia).
      specialize (IH (S d) (p ++ [b]) (Empty (S d)) c' cs').
      replace (S d - 1)%nat with d in IH by lia.
      destruct b; apply IH; try done; try lia; simpl; lia.
    + eapply changes_ok_ext; [|exact Hcs]. intros q. symmetry. apply slots_empty_parent.
  - destruct d as [|[|d]]; [done|done|]. cbn [hash_with_inner].
    destruct Hwf as [Hwl Hwr].
    apply hash_with_parent_spec; [|done|done].
    intros b c' cs' Hc' Hcs'.
    replace (S (length p)) with (length (p ++ [b])) by (rewrite length_app; simpl; lia).
    specialize (IH (S d) (p ++ [b])). rewrite Nat.sub_succ, Nat.sub_0_r in IH.
    destruct b; apply IH; try done; lia.
Qed.
End hashes.
