(* ===== verification/SmirkTree.v ===== *)
(** The sparse Merkle tree (pkg/smirk/src/tree: mod.rs, batch.rs, raw_api.rs,
    insert.rs, remove.rs): the tree of nodes beside the ordered map of entries,
    batched and single changes, root hashes, and their correctness against the
    reference root of the set of elements.

    [DEPTH] is the const generic; the code is only meaningful for
    [1 <= DEPTH <= 257] ([DEPTH - 1] bits of a 256-bit element).  [temp_noir] is
    the compile-time switch [option_env!("TEMP_NOIR") == Some("1")]. *)
From S2P Require Import Prelude Element MerkleHash HashCache SmirkBatch SmirkNode SmirkNodeSpec.

Record Tree (V C : Type) := mk_tree {
  tree : Node;
  tree_entries : gmap Element V;
  cache : C;
}.
Arguments mk_tree {V C} _ _ _.
Arguments tree {V C} _.
Arguments tree_entries {V C} _.
Arguments cache {V C} _.

(** [BTreeMap::keys]: ascending. *)
Definition btree_keys {V} (m : gmap Element V) : list Element :=
  merge_sort Z.le (base.elements (dom m)).

(** [sort_unstable_by] on the bit strings.  The order of two changes with the
    same bits is not specified by the library; no batch has such changes. *)
Definition change_le (x y : (Change * Element) * list bool) : Prop := bits_le x.2 y.2.
#[export] Instance change_le_dec x y : Decision (change_le x y).
Proof. unfold change_le. apply _. Defined.
#[export] Instance change_le_trans : Transitive change_le.
Proof. intros x y z. unfold change_le. apply transitivity. Qed.
#[export] Instance change_le_total : Total change_le.
Proof. intros x y. unfold change_le. apply (total bits_le). Qed.

Section tree.
Context `{FieldLib} (DEPTH : nat) (temp_noir : bool).
Context {V C : Type} `{!HashCache C}.
Implicit Types (t : Tree V C) (b : Batch V) (e : Element).

Definition new_with_cache (c : C) : Tree V C := mk_tree (Empty DEPTH) ∅ c.
Definition tree_new : Tree V C := new_with_cache cache_default.
Definition tree_len t : nat := size (tree_entries t).
Definition tree_is_empty t : bool := bool_decide (tree_len t = 0%nat).
Definition contains_element t e : bool := bool_decide (is_Some (tree_entries t !! e)).
Definition get t e : option V := tree_entries t !! e.
Definition root_hash t : Element := node_hash (tree t).

(** [PartialEq for Tree]. *)
Definition tree_eqb t (other : Tree V C) : bool := bool_decide (root_hash t = root_hash other).

(** ** check_collisions *)

Definition insert_collisions t b : outcome CollisionError (list Collision) :=
  let batch_insert_lsbs : gset (list bool) :=
    list_to_set (slot DEPTH <$> insert_elements b) in
  foldr (λ tree_element acc,
           let tree_lsb := slot DEPTH tree_element in
           if decide (tree_lsb ∈ batch_insert_lsbs) then
             let? batch_element :=
               unwrap (List.find (λ x, bool_decide (slot DEPTH x = tree_lsb))
                         (insert_elements b ++ remove_elements b)) "unwrap on None" in
             let? rest := acc in
             Ok (mk_collision tree_element batch_element DEPTH InTree :: rest)
           else acc)
        (Ok []) (btree_keys (tree_entries t)).

Definition remove_collisions t b : outcome CollisionError (list Collision) :=
  let tree_lsbs := slot DEPTH <$> btree_keys (tree_entries t) in
  foldr (λ removed acc,
           if List.existsb (λ l, bool_decide (slot DEPTH removed = l)) tree_lsbs then acc
           else if temp_noir then
             let? rest := acc in
             Ok (mk_collision ZERO removed DEPTH InTree :: rest)
           else Panic "not yet implemented")
        (Ok []) (remove_dups (remove_elements b)).

Definition check_collisions t b : outcome CollisionError unit :=
  let? error1 := insert_collisions t b in
  let? error2 := remove_collisions t b in
  match error1 ++ error2 with
  | [] => Ok tt
  | error => Err error
  end.

(** ** Tree::insert_without_hashing (raw_api.rs) *)

(** The change list both [Tree::insert_without_hashing] and [Node::hash_with]
    build: insertions, then removals, sorted by slot. *)
Definition sorted_changes (inserts removes : list Element)
  : list ((Change * Element) * list bool) :=
  merge_sort change_le
    ((λ ce : Change * Element, (ce, slot DEPTH ce.2)) <$>
      (((λ e, (Insert, e)) <$> inserts) ++ ((λ e, (Remove, e)) <$> removes))).

Definition apply_entries (m : gmap Element V) (ins : list (Element * V)) (rem : list Element)
  : gmap Element V :=
  foldl (λ m e, delete e m) (foldl (λ m '(e, v), <[e := v]> m) m ins) rem.

Definition tree_insert_without_hashing t (insert_entries : list (Element * V))
    (rem : list Element) : Tree V C * outcome Collision unit :=
  let ins := insert_entries.*1 in
  if nil_b ins && nil_b rem then (t, Ok tt)
  else if List.existsb (λ e, bool_decide (e = NULL_HASH)) (ins ++ rem)
  then (t, Err (mk_collision NULL_HASH NULL_HASH DEPTH InTree))
  else match List.find (λ e, contains_element t e) ins with
  | Some e => (t, Err (mk_collision e e DEPTH InTree))
  | None =>
  match List.find (λ e, negb (contains_element t e)) rem with
  | Some _ => (t, Panic "not yet implemented")
  | None =>
      let sorted := sorted_changes ins rem in
      let '(n, result) :=
        insert_without_hashing DEPTH DEPTH (tree t) sorted.*1 sorted.*2 0 in
      match result with
      | Ok true => (mk_tree n (apply_entries (tree_entries t) insert_entries rem) (cache t), Ok tt)
      | Ok false => (mk_tree n (tree_entries t) (cache t),
                     Panic "internal error: entered unreachable code")
      | Err c => (mk_tree n (tree_entries t) (cache t), Err c)
      | Panic m => (mk_tree n (tree_entries t) (cache t), Panic m)
      end
  end end.

(** ** insert_batch and its callers *)

Definition insert_batch t b : Tree V C * list HashEvent * outcome CollisionError unit :=
  match check_collisions t b with
  | Ok _ =>
      let '(t1, r) := tree_insert_without_hashing t (entries b) (remove_entries b) in
      match r with
      | Ok _ =>
          let '(n, c, evs) := recalculate_hashes (tree t1) (cache t1) in
          (mk_tree n (tree_entries t1) c, evs, Ok tt)
      | Err _ => (t1, [], Panic "called Result::unwrap() on an Err value")
      | Panic m => (t1, [], Panic m)
      end
  | Err e => (t, [], Err e)
  | Panic m => (t, [], Panic m)
  end.

(** [batch! { element => value }] unwraps the insertion into a fresh batch. *)
Definition singleton_batch e (v : V) : outcome CollisionError (Batch V) :=
  unwrap_ok (batch_insert DEPTH batch_new e v) "called Result::unwrap() on an Err value".

Definition tree_insert t e (v : V) : Tree V C * outcome CollisionError unit :=
  match singleton_batch e v with
  | Ok b => let '(t', _, r) := insert_batch t b in (t', r)
  | Err x => (t, Err x)
  | Panic m => (t, Panic m)
  end.

Definition tree_remove t e : Tree V C * outcome CollisionError unit :=
  match batch_remove DEPTH batch_new e with
  | Ok b => let '(t', _, r) := insert_batch t b in (t', r)
  | Err x => (t, Err x)
  | Panic m => (t, Panic m)
  end.

(** ** root_hash_with *)

Definition root_hash_with t (inserts removes : list Element)
  : C * outcome Empty_set Element :=
  let sorted := sorted_changes inserts removes in
  hash_with_inner DEPTH (tree t) (cache t) sorted.*1 sorted.*2 0.

Definition tree_known_hashes t : outcome Empty_set (list KnownHash) :=
  known_hashes_inner (tree t).

(** ** Specification

    A set of elements determines the content of every slot, hence the root. *)
Definition content (S : gset Element) (q : list bool) : Element :=
  default NULL_HASH (List.find (λ e, bool_decide (slot DEPTH e = q)) (base.elements S)).
Definition spec_root (S : gset Element) : Element := ref_hash (DEPTH - 1) (content S).
End tree.

(** * Invariant and correctness *)

Section correctness.
Context `{FieldLib} (DEPTH : nat) (temp_noir : bool).
Context {V C : Type} `{!HashCache C, !HashCacheLaws C}.
Implicit Types (t : Tree V C) (b : Batch V) (e : Element).

Record wf_tree t : Prop := {
  wf_depth : (1 ≤ DEPTH ≤ 257)%nat;
  wf_node : node_wf DEPTH DEPTH [] (tree t);
  wf_clean : clean (tree t);
  wf_hashes : hash_inv (tree t);
  wf_cache : cache_inv (cache t);
  wf_entries : ∀ e, is_Some (tree_entries t !! e) ↔
                    e ≠ NULL_HASH ∧ slots (tree t) (slot DEPTH e) = e;
}.

(** A batch that can be carried out on [t]. *)
Record valid_batch t b : Prop := {
  vb_wf : wf_batch DEPTH b;
  vb_null : ∀ e, e ∈ batch_elements b → e ≠ NULL_HASH;
  vb_insert : ∀ e x, e ∈ insert_elements b → is_Some (tree_entries t !! x) →
                     slot DEPTH x ≠ slot DEPTH e;
  vb_remove : ∀ e, e ∈ remove_elements b → is_Some (tree_entries t !! e);
}.

Lemma slots_in_place d p n q :
  node_wf DEPTH d p n → slots n q ≠ NULL_HASH →
  slot DEPTH (slots n q) = p ++ q ∧ length q = (d - 1)%nat.
Proof.
  revert d p q. induction n as [e|k|l IHl r IHr h dirty]; intros d p q; simpl.
  - intros (-> & He & Hp). destruct q; [|done]. by rewrite app_nil_r.
  - done.
  - destruct d as [|[|d]]; [done|done|]. intros (Hl & Hr). destruct q as [|[] q]; [done| |].
    + intros Hne. destruct (IHr _ _ q Hr Hne) as [E1 E2]. rewrite E1, <-app_assoc. simpl in *. split; [done|lia].
    + intros Hne. destruct (IHl _ _ q Hl Hne) as [E1 E2]. rewrite E1, <-app_assoc. simpl in *. split; [done|lia].
Qed.

Lemma slot_length e : (1 ≤ DEPTH ≤ 257)%nat → length (slot DEPTH e) = (DEPTH - 1)%nat.
Proof. intros. apply lsb_bits_length. lia. Qed.

Lemma wf_entry_slot t e :
  wf_tree t → is_Some (tree_entries t !! e) → slots (tree t) (slot DEPTH e) = e.
Proof. intros Hwf He. by apply (wf_entries t Hwf) in He as [_ ?]. Qed.

(** The slots of a well-formed tree are the content of its set of elements. *)
Lemma slots_content t q :
  wf_tree t → length q = (DEPTH - 1)%nat →
  slots (tree t) q = content DEPTH (dom (tree_entries t)) q.
Proof.
  intros Hwf Hq. unfold content.
  destruct (List.find _ _) as [e|] eqn:E; simpl.
  - apply find_elem_of in E as [He Hs%bool_decide_eq_true].
    rewrite elem_of_elements, elem_of_dom in He.
    rewrite <-Hs. by apply wf_entry_slot.
  - destruct (decide (slots (tree t) q = NULL_HASH)) as [|Hne]; [done|].
    destruct (slots_in_place DEPTH [] (tree t) q (wf_node t Hwf) Hne) as [Hs _].
    assert (is_Some (tree_entries t !! slots (tree t) q)) as Hin.
    { apply (wf_entries t Hwf). split; [done|]. by rewrite Hs. }
    rewrite find_none_iff in E. specialize (E (slots (tree t) q)).
    rewrite elem_of_elements, elem_of_dom, bool_decide_eq_false in E.
    by destruct (E Hin).
Qed.

Lemma root_hash_slots t :
  wf_tree t → root_hash t = ref_hash (DEPTH - 1) (slots (tree t)).
Proof.
  intros Hwf. eapply clean_hash; [apply (wf_node t Hwf)|apply (wf_clean t Hwf)|apply (wf_hashes t Hwf)].
Qed.

Lemma root_hash_spec t :
  wf_tree t → root_hash t = spec_root DEPTH (dom (tree_entries t)).
Proof.
  intros Hwf. rewrite root_hash_slots by done. apply ref_hash_ext.
  intros q Hq. by apply slots_content.
Qed.

Lemma new_with_cache_wf c :
  (1 ≤ DEPTH ≤ 257)%nat → cache_inv c → wf_tree (new_with_cache DEPTH c).
Proof.
  intros Hd Hc. split; simpl; try done.
  - by split; [|lia].
  - intros e. rewrite lookup_empty. split; [by intros []|].
    intros [Hne He]. by destruct Hne.
Qed.

(** ** Change lists *)

Definition raw_changes (ins rem : list Element) : list (Change * Element) :=
  ((λ e, (Insert, e)) <$> ins) ++ ((λ e, (Remove, e)) <$> rem).

Lemma sorted_changes_spec ins rem :
  let cs := (sorted_changes DEPTH ins rem).*1 in
  (sorted_changes DEPTH ins rem).*2 = cslot DEPTH <$> cs ∧
  cs ≡ₚ raw_changes ins rem ∧
  StronglySorted (λ x y, bits_le (cslot DEPTH x) (cslot DEPTH y)) cs.
Proof.
  simpl. unfold sorted_changes. fold (raw_changes ins rem).
  set (l := (λ ce : Change * Element, (ce, slot DEPTH ce.2)) <$> raw_changes ins rem).
  pose proof (merge_sort_Permutation change_le l) as Hperm.
  pose proof (StronglySorted_merge_sort change_le l) as Hsort.
  assert (∀ x, x ∈ merge_sort change_le l → x.2 = cslot DEPTH x.1) as Hkey.
  { intros x. rewrite Hperm. by intros (ce & -> & _)%list_elem_of_fmap. }
  split_and!.
  - rewrite <-list_fmap_compose. apply list_fmap_ext. intros i x Hx.
    apply list_elem_of_lookup_2 in Hx. by apply Hkey.
  - rewrite Hperm. unfold l. rewrite <-list_fmap_compose. by rewrite list_fmap_id.
  - revert Hkey Hsort. generalize (merge_sort change_le l) as k. clear.
    intros k Hkey. induction 1 as [|x k Hs IH Hall]; csimpl; [constructor|].
    constructor; [apply IH; intros; apply Hkey; by right|].
    rewrite Forall_forall in Hall. apply Forall_forall.
    intros c (y & -> & Hy)%list_elem_of_fmap.
    specialize (Hall y Hy). unfold change_le in Hall.
    rewrite <-!Hkey; [done|by right|by left].
Qed.

Lemma raw_changes_slots ins rem :
  cslot DEPTH <$> raw_changes ins rem = slot DEPTH <$> (ins ++ rem).
Proof.
  unfold raw_changes. rewrite !fmap_app. f_equal; by rewrite <-list_fmap_compose.
Qed.

Lemma elem_raw_changes ins rem c e :
  (c, e) ∈ raw_changes ins rem ↔ match c with Insert => e ∈ ins | Remove => e ∈ rem end.
Proof.
  unfold raw_changes. rewrite elem_of_app, !list_elem_of_fmap. destruct c; naive_solver.
Qed.

(** The changes of a valid batch apply to the tree. *)
Lemma valid_changes t b :
  wf_tree t → valid_batch t b →
  let cs := (sorted_changes DEPTH (insert_elements b) (remove_elements b)).*1 in
  changes_ok DEPTH [] (DEPTH - 1) (slots (tree t)) cs.
Proof.
  intros Hwf Hvb. destruct (sorted_changes_spec (insert_elements b) (remove_elements b))
    as (_ & Hperm & Hsort). simpl in *. split; [done| |].
  - rewrite Hperm, raw_changes_slots. apply (wf_batch_nodup _ _ (vb_wf _ _ Hvb)).
  - intros [c e]. rewrite Hperm, elem_raw_changes. intros Hin.
    exists (slot DEPTH e). rewrite slot_length by apply (wf_depth t Hwf).
    assert (e ≠ NULL_HASH) as Hne.
    { apply (vb_null _ _ Hvb). unfold batch_elements. rewrite elem_of_app.
      destruct c; auto. }
    split_and!; [done|done|done|]. destruct c; simpl.
    + destruct (decide (slots (tree t) (slot DEPTH e) = NULL_HASH)) as [|Hne']; [done|].
      destruct (slots_in_place DEPTH [] (tree t) _ (wf_node t Hwf) Hne') as [Hs _].
      exfalso. apply (vb_insert _ _ Hvb e (slots (tree t) (slot DEPTH e)) Hin); [|done].
      apply (wf_entries t Hwf). by rewrite Hs.
    + apply wf_entry_slot; [done|]. by apply (vb_remove _ _ Hvb).
Qed.

Lemma apply_entries_lookup (m : gmap Element V) ins rem e :
  is_Some (apply_entries m ins rem !! e) ↔ (e ∈ ins.*1 ∨ is_Some (m !! e)) ∧ e ∉ rem.
Proof.
  unfold apply_entries. revert m. induction rem as [|x rem IH] using rev_ind; intros m.
  - simpl. split; [|intros [Hor _]].
    + intros Hs. split; [|by apply not_elem_of_nil]. revert m Hs.
      induction ins as [|[y v] ins IH]; intros m; csimpl; [by right|].
      intros [Hin|Hm]%IH; [left; by right|]. rewrite lookup_insert in Hm.
      case_decide as Hd; [subst; left; by left|by right].
    + revert m Hor. induction ins as [|[y v] ins IH]; intros m; csimpl.
      * intros [Hin%elem_of_nil|]; done.
      * rewrite elem_of_cons. intros [[->|Hin]|Hm]; apply IH.
        -- right. by rewrite lookup_insert_eq.
        -- by left.
        -- right. rewrite lookup_insert. by case_decide.
  - rewrite foldl_app. simpl. rewrite lookup_delete, elem_of_app, list_elem_of_singleton.
    case_decide as Hd.
    + subst. split; [by intros []|]. naive_solver.
    + rewrite IH. naive_solver.
Qed.

(** An entry after a batch was there before or is one of the batch. *)
Lemma apply_entries_source (m : gmap Element V) ins rem e v :
  apply_entries m ins rem !! e = Some v → m !! e = Some v ∨ (e, v) ∈ ins.
Proof.
  unfold apply_entries. induction rem as [|x rem IH] using rev_ind.
  - cbn [foldl]. revert m. induction ins as [|[y w] ins IH]; intros m; cbn [foldl]; [by left|].
    intros [Hm|Hin]%IH; [|right; by right]. rewrite lookup_insert in Hm.
    case_decide as Hd; [|by left]. injection Hm as <-. subst. right. by left.
  - rewrite foldl_app. cbn [foldl]. rewrite lookup_delete. case_decide; [done|]. exact IH.
Qed.

(** The slots after a valid batch hold exactly the new set of entries. *)
Lemma upd_entries t b e :
  wf_tree t → valid_batch t b →
  let cs := (sorted_changes DEPTH (insert_elements b) (remove_elements b)).*1 in
  is_Some (apply_entries (tree_entries t) (entries b) (remove_entries b) !! e) ↔
  e ≠ NULL_HASH ∧ upd DEPTH [] cs (slots (tree t)) (slot DEPTH e) = e.
Proof.
  intros Hwf Hvb cs.
  destruct (sorted_changes_spec (insert_elements b) (remove_elements b)) as (_ & Hperm & _).
  fold cs in Hperm. rewrite apply_entries_lookup. fold (insert_elements b).
  assert (∀ x y, x ∈ batch_elements b → y ∈ batch_elements b →
            slot DEPTH x = slot DEPTH y → x = y) as Hinj.
  { intros x y Hx Hy Hxy. pose proof (wf_batch_nodup _ _ (vb_wf _ _ Hvb)) as Hn.
    apply list_elem_of_lookup in Hx as [i Hi], Hy as [j Hj].
    assert (i = j) as ->; [|congruence].
    apply (NoDup_lookup _ i j (slot DEPTH x) Hn); rewrite list_lookup_fmap.
    - by rewrite Hi.
    - rewrite Hj. simpl. by rewrite Hxy. }
  assert (∀ x, x ∈ insert_elements b → x ∈ remove_elements b → False) as Hdisj.
  { intros x Hx Hy. pose proof (wf_batch_nodup _ _ (vb_wf _ _ Hvb)) as Hn.
    unfold batch_elements in Hn. rewrite fmap_app in Hn.
    apply NoDup_app in Hn as (_ & Hd & _). apply (Hd (slot DEPTH x));
      by apply list_elem_of_fmap_2. }
  unfold upd. destruct (List.find _ cs) as [[c x]|] eqn:E.
  - apply find_elem_of in E as [Hin Hs%bool_decide_eq_true]. simpl in Hs.
    rewrite Hperm, elem_raw_changes in Hin.
    assert (x ∈ batch_elements b) as Hxb.
    { unfold batch_elements. rewrite elem_of_app. destruct c; auto. }
    destruct c.
    + split; [|by intros [_ ->]; split; [left|intros ?; eapply Hdisj]].
      intros [[Hi|Hm] Hr].
      * assert (x = e) as -> by (apply Hinj; [done|by apply elem_of_app; left|done]).
        split; [by apply (vb_null _ _ Hvb)|done].
      * exfalso. by apply (vb_insert _ _ Hvb x e Hin Hm).
    + split; [|by intros [? <-]]. intros [[Hi|Hm] Hr]; exfalso.
      * assert (x = e) as -> by (apply Hinj; [done|by apply elem_of_app; left|done]). eauto.
      * assert (x = e) as ->; [|done].
        rewrite <-(wf_entry_slot t x), <-(wf_entry_slot t e) by
          (done || by apply (vb_remove _ _ Hvb)). by rewrite <-Hs.
  - rewrite find_none_iff in E.
    assert (∀ c, (c, e) ∉ cs) as Hnot.
    { intros c Hc. apply E in Hc. by rewrite bool_decide_eq_false in Hc. }
    rewrite <-(wf_entries t Hwf). split; [|].
    + intros [[Hi|Hm] Hr]; [|done]. exfalso. apply (Hnot Insert).
      by rewrite Hperm, elem_raw_changes.
    + intros Hm. split; [by right|]. intros Hr. apply (Hnot Remove).
      by rewrite Hperm, elem_raw_changes.
Qed.

(** ** check_collisions *)

Lemma elem_btree_keys (m : gmap Element V) e : e ∈ btree_keys m ↔ is_Some (m !! e).
Proof.
  unfold btree_keys. by rewrite merge_sort_Permutation, elem_of_elements, elem_of_dom.
Qed.

Lemma insert_collisions_spec t b :
  ∃ l, insert_collisions DEPTH t b = Ok l ∧
    (∀ x e, is_Some (tree_entries t !! x) → e ∈ insert_elements b →
       slot DEPTH x = slot DEPTH e →
       ∃ y, mk_collision x y DEPTH InTree ∈ l ∧ y ∈ batch_elements b ∧
            slot DEPTH y = slot DEPTH x) ∧
    ((∀ x e, is_Some (tree_entries t !! x) → e ∈ insert_elements b →
        slot DEPTH x ≠ slot DEPTH e) → l = []).
Proof.
  unfold insert_collisions. setoid_rewrite <-elem_btree_keys.
  generalize (btree_keys (tree_entries t)) as ks. intros ks.
  induction ks as [|k ks (l & Hl & IH1 & IH2)]; simpl.
  { exists []. split_and!; [done|by intros ? ? ?%elem_of_nil|done]. }
  rewrite Hl. destruct (decide _) as [Hin|Hnin].
  - rewrite elem_of_list_to_set in Hin. apply list_elem_of_fmap in Hin as (e & He & Hin).
    destruct (List.find _ _) as [y|] eqn:E; simpl.
    + apply find_elem_of in E as [Hy Hs%bool_decide_eq_true].
      eexists. split; [done|]. split.
      * intros x e' Hx He' Heq. apply elem_of_cons in Hx as [->|Hx].
        -- exists y. split_and!; [by left|done|done].
        -- destruct (IH1 x e' Hx He' Heq) as (z & ? & ? & ?). exists z.
           split_and!; [by right|done|done].
      * intros Hno. exfalso. apply (Hno k e); [by left|done|done].
    + rewrite find_none_iff in E. specialize (E e). rewrite bool_decide_eq_false in E.
      exfalso. apply E; [apply elem_of_app; by left|done].
  - exists l. split; [done|]. split.
    + intros x e Hx He Heq. apply elem_of_cons in Hx as [->|Hx]; [|by eapply IH1].
      exfalso. apply Hnin. rewrite elem_of_list_to_set, Heq. by apply list_elem_of_fmap_2.
    + intros Hno. apply IH2. intros x e Hx. apply Hno. by right.
Qed.

Lemma remove_collisions_nil t b :
  (∀ e, e ∈ remove_elements b →
     ∃ x, is_Some (tree_entries t !! x) ∧ slot DEPTH x = slot DEPTH e) →
  remove_collisions DEPTH temp_noir t b = Ok [].
Proof.
  intros Hrem. unfold remove_collisions.
  assert (∀ e, e ∈ remove_dups (remove_elements b) → e ∈ remove_elements b) as Hsub.
  { intros e. by rewrite elem_of_remove_dups. }
  revert Hsub. generalize (remove_dups (remove_elements b)) as l. intros l Hsub.
  induction l as [|e l IH]; simpl; [done|].
  rewrite IH by (intros; apply Hsub; by right).
  destruct (Hrem e) as (x & Hx & Hs); [apply Hsub; by left|].
  replace (List.existsb _ _) with true; [done|]. symmetry. apply existsb_elem_of.
  exists (slot DEPTH x). rewrite bool_decide_eq_true. split; [|done].
  by apply list_elem_of_fmap_2, elem_btree_keys.
Qed.

Lemma check_collisions_ok t b :
  valid_batch t b → check_collisions DEPTH temp_noir t b = Ok tt.
Proof.
  intros Hvb. unfold check_collisions.
  destruct (insert_collisions_spec t b) as (l & -> & _ & Hnil). simpl.
  rewrite remove_collisions_nil by (intros e He; exists e; split; [by apply (vb_remove _ _ Hvb)|done]).
  simpl. rewrite Hnil; [done|]. intros x e Hx He. by apply (vb_insert _ _ Hvb).
Qed.

(** ** insert_batch *)

Lemma tree_insert_without_hashing_ok t b :
  wf_tree t → valid_batch t b → batch_elements b ≠ [] →
  ∃ n, tree_insert_without_hashing DEPTH t (entries b) (remove_entries b) =
       (mk_tree n (apply_entries (tree_entries t) (entries b) (remove_entries b)) (cache t), Ok tt)
    ∧ node_wf DEPTH DEPTH [] n ∧ hash_inv n
    ∧ ∀ q, length q = (DEPTH - 1)%nat →
        slots n q = upd DEPTH [] (sorted_changes DEPTH (insert_elements b) (remove_elements b)).*1
                      (slots (tree t)) q.
Proof.
  intros Hwf Hvb Hne. unfold tree_insert_without_hashing.
  fold (insert_elements b). fold (remove_elements b). fold (batch_elements b).
  replace (nil_b (insert_elements b) && nil_b (remove_elements b)) with false; cycle 1.
  { unfold batch_elements in Hne. destruct (insert_elements b), (remove_elements b); done. }
  replace (List.existsb _ (batch_elements b)) with false; cycle 1.
  { symmetry. apply existsb_false. intros e He. rewrite bool_decide_eq_false.
    by apply (vb_null _ _ Hvb). }
  replace (List.find _ (insert_elements b)) with (@None Element); cycle 1.
  { symmetry. apply find_none_iff. intros e He. unfold contains_element.
    rewrite bool_decide_eq_false. intros Hin. by apply (vb_insert _ _ Hvb e e He Hin). }
  replace (List.find _ (remove_elements b)) with (@None Element); cycle 1.
  { symmetry. apply find_none_iff. intros e He. unfold contains_element.
    rewrite negb_false_iff, bool_decide_eq_true. by apply (vb_remove _ _ Hvb). }
  destruct (sorted_changes_spec (insert_elements b) (remove_elements b)) as (-> & Hperm & _).
  pose proof (insert_without_hashing_spec DEPTH DEPTH DEPTH [] (tree t)
    (sorted_changes DEPTH (insert_elements b) (remove_elements b)).*1) as Hspec.
  destruct (insert_without_hashing _ _ _ _ _ _) as [n o].
  destruct Hspec as (Ho & Hw & Hi & Hs); [lia| |apply (wf_node t Hwf)|apply (wf_hashes t Hwf)| |].
  - intros Hnil. rewrite Hnil in Hperm. apply Permutation_nil_l in Hperm.
    unfold raw_changes in Hperm. unfold batch_elements in Hne.
    by destruct (insert_elements b), (remove_elements b).
  - by apply valid_changes.
  - simpl in *. subst o. exists n. done.
Qed.

(** Every valid batch is carried out: the entries change as the map does, and
    the tree stays well formed. *)
Lemma insert_batch_ok t b :
  wf_tree t → valid_batch t b →
  ∃ t' evs, insert_batch DEPTH temp_noir t b = (t', evs, Ok tt) ∧ wf_tree t' ∧
    tree_entries t' = apply_entries (tree_entries t) (entries b) (remove_entries b) ∧
    Forall event_ok evs.
Proof.
  intros Hwf Hvb. unfold insert_batch. rewrite check_collisions_ok by done.
  destruct (decide (batch_elements b = [])) as [Hnil|Hne].
  - unfold batch_elements in Hnil. apply app_eq_nil in Hnil as [Hi Hr].
    unfold insert_elements, remove_elements in *. apply fmap_nil_inv in Hi.
    rewrite Hi, Hr. simpl.
    pose proof (recalculate_hashes_spec DEPTH DEPTH [] (tree t) (cache t)
      (wf_node t Hwf) (wf_hashes t Hwf) (wf_cache t Hwf)) as Hrec.
    destruct (recalculate_hashes _ _) as [[n c] evs].
    destruct Hrec as (Hw & Hcl & Hh & Hc & Hev & Hsl).
    eexists _, _. split; [done|]. split_and!; try done.
    split; try done; [apply (wf_depth t Hwf)|]. simpl. intros e. rewrite Hsl.
    apply (wf_entries t Hwf).
  - destruct (tree_insert_without_hashing_ok t b Hwf Hvb Hne) as (n1 & -> & Hw1 & Hi1 & Hs1).
    simpl.
    pose proof (recalculate_hashes_spec DEPTH DEPTH [] n1 (cache t) Hw1 Hi1 (wf_cache t Hwf)) as Hrec.
    destruct (recalculate_hashes _ _) as [[n c] evs].
    destruct Hrec as (Hw & Hcl & Hh & Hc & Hev & Hsl).
    eexists _, _. split; [done|]. split_and!; try done.
    split; try done; [apply (wf_depth t Hwf)|]. simpl. intros e. rewrite Hsl, Hs1.
    + by apply upd_entries.
    + apply slot_length, (wf_depth t Hwf).
Qed.

(** ** Single changes *)

Lemma singleton_valid t e (v : V) :
  wf_tree t → e ≠ NULL_HASH →
  (∀ x, is_Some (tree_entries t !! x) → slot DEPTH x ≠ slot DEPTH e) →
  ∃ b, singleton_batch DEPTH e v = Ok b ∧ valid_batch t b ∧
       entries b = [(e, v)] ∧ remove_entries b = [].
Proof.
  intros Hwf Hne Hfree. unfold singleton_batch.
  destruct (batch_insert_ok DEPTH batch_new e v) as (b & -> & Hb & He & Hr).
  { apply batch_new_wf. }
  { set_solver. }
  exists b. simpl in *. split; [done|]. split; [|done].
  assert (insert_elements b = [e]) as Hi by (unfold insert_elements; by rewrite He).
  split; [done| | |].
  - unfold batch_elements, remove_elements. rewrite Hi, Hr. by intros x ->%list_elem_of_singleton.
  - rewrite Hi. intros x y ->%list_elem_of_singleton. auto.
  - unfold remove_elements. rewrite Hr. by intros x ?%elem_of_nil.
Qed.

Lemma tree_insert_ok t e (v : V) :
  wf_tree t → e ≠ NULL_HASH →
  (∀ x, is_Some (tree_entries t !! x) → slot DEPTH x ≠ slot DEPTH e) →
  ∃ t', tree_insert DEPTH temp_noir t e v = (t', Ok tt) ∧ wf_tree t' ∧
        tree_entries t' = <[e := v]> (tree_entries t).
Proof.
  intros Hwf Hne Hfree. destruct (singleton_valid t e v Hwf Hne Hfree) as (b & Hb & Hvb & Hi & Hr).
  destruct (insert_batch_ok t b Hwf Hvb) as (t' & evs & Ht & Hwf' & Hent & _).
  exists t'. unfold tree_insert. rewrite Hb, Ht. split_and!; [done|done|].
  by rewrite Hent, Hi, Hr.
Qed.

Lemma removal_valid t e :
  wf_tree t → is_Some (tree_entries t !! e) →
  ∃ b : Batch V, batch_remove DEPTH batch_new e = Ok b ∧ valid_batch t b ∧
       entries b = [] ∧ remove_entries b = [e].
Proof.
  intros Hwf Hin. destruct (batch_remove_ok DEPTH (V := V) batch_new e) as (b & Heq & Hb & He & Hr).
  { apply batch_new_wf. }
  { set_solver. }
  exists b. simpl in *. split; [done|]. split; [|done].
  assert (insert_elements b = []) as Hi by (unfold insert_elements; by rewrite He).
  split; [done| | |].
  - unfold batch_elements, remove_elements. rewrite Hi, Hr. intros x ->%list_elem_of_singleton.
    by apply (wf_entries t Hwf) in Hin as [? _].
  - rewrite Hi. by intros x y ?%elem_of_nil.
  - unfold remove_elements. rewrite Hr. by intros x ->%list_elem_of_singleton.
Qed.

Lemma tree_remove_ok t e :
  wf_tree t → is_Some (tree_entries t !! e) →
  ∃ t', tree_remove DEPTH temp_noir t e = (t', Ok tt) ∧ wf_tree t' ∧
        tree_entries t' = delete e (tree_entries t).
Proof.
  intros Hwf Hin. destruct (removal_valid t e Hwf Hin) as (b & Hb & Hvb & Hi & Hr).
  destruct (insert_batch_ok t b Hwf Hvb) as (t' & evs & Ht & Hwf' & Hent & _).
  exists t'. unfold tree_remove. rewrite Hb, Ht. split_and!; [done|done|].
  by rewrite Hent, Hi, Hr.
Qed.

(** ** Collisions *)

Lemma check_collisions_err t b x e :
  is_Some (tree_entries t !! x) → e ∈ insert_elements b → slot DEPTH x = slot DEPTH e →
  (∀ r, r ∈ remove_elements b → is_Some (tree_entries t !! r)) →
  ∃ errs y, check_collisions DEPTH temp_noir t b = Err errs ∧
    mk_collision x y DEPTH InTree ∈ errs ∧ y ∈ batch_elements b ∧ slot DEPTH y = slot DEPTH x.
Proof.
  intros Hx He Hs Hrem. unfold check_collisions.
  destruct (insert_collisions_spec t b) as (l & -> & Hl & _). simpl.
  rewrite remove_collisions_nil by (intros r Hr; exists r; split; [by apply Hrem|done]). simpl.
  destruct (Hl x e Hx He Hs) as (y & Hy & ? & ?). rewrite app_nil_r.
  destruct l as [|c l]; [by apply elem_of_nil in Hy|]. eauto 10.
Qed.

(** ** Trees with the same elements in a slot *)

Lemma slots_agree t (s : list bool → Element) q :
  wf_tree t → length q = (DEPTH - 1)%nat →
  (∀ e, slot DEPTH e = q → e ≠ NULL_HASH → is_Some (tree_entries t !! e) ↔ s q = e) →
  (s q ≠ NULL_HASH → slot DEPTH (s q) = q) →
  slots (tree t) q = s q.
Proof.
  intros Hwf Hq Hs Hin. destruct (decide (slots (tree t) q = NULL_HASH)) as [E|Hne].
  - destruct (decide (s q = NULL_HASH)) as [E'|Hne']; [congruence|].
    exfalso. specialize (Hs (s q) (Hin Hne') Hne'). destruct Hs as [_ Hs].
    destruct (Hs eq_refl) as [v Hv].
    assert (is_Some (tree_entries t !! s q)) as [_ Hx]%(wf_entries t Hwf) by eauto.
    rewrite (Hin Hne') in Hx. congruence.
  - destruct (slots_in_place DEPTH [] (tree t) q (wf_node t Hwf) Hne) as [Hsl _].
    symmetry. apply Hs; [done|done|]. apply (wf_entries t Hwf). by rewrite Hsl.
Qed.

(** The slots of a tree that holds the entries a valid batch leads to. *)
Lemma upd_slots_after t b t' q :
  wf_tree t → valid_batch t b → wf_tree t' →
  tree_entries t' = apply_entries (tree_entries t) (entries b) (remove_entries b) →
  length q = (DEPTH - 1)%nat →
  upd DEPTH [] (sorted_changes DEPTH (insert_elements b) (remove_elements b)).*1
    (slots (tree t)) q = slots (tree t') q.
Proof.
  intros Hwf Hvb Hwf' He Hq. symmetry. apply slots_agree; [done|done| |].
  - intros e Hs Hne. rewrite He, (upd_entries t b e Hwf Hvb), Hs. naive_solver.
  - destruct (sorted_changes_spec (insert_elements b) (remove_elements b)) as (_ & Hperm & _).
    unfold upd. destruct (List.find _ _) as [[[] x]|] eqn:E; [|done|].
    + apply find_elem_of in E as [_ Hx%bool_decide_eq_true]. done.
    + intros Hne. by destruct (slots_in_place DEPTH [] (tree t) q (wf_node t Hwf) Hne).
Qed.

(** ** The root after a batch, without carrying it out *)

Lemma dom_apply_entries (m : gmap Element V) ins rem :
  dom (apply_entries m ins rem) = (list_to_set ins.*1 ∪ dom m) ∖ list_to_set rem.
Proof.
  apply set_eq. intros e.
  rewrite elem_of_dom, apply_entries_lookup, elem_of_difference, elem_of_union.
  by rewrite !elem_of_list_to_set, elem_of_dom.
Qed.

Lemma root_hash_with_ok t b :
  wf_tree t → valid_batch t b →
  ∃ c, root_hash_with DEPTH t (insert_elements b) (remove_elements b) =
         (c, Ok (spec_root DEPTH
           ((list_to_set (insert_elements b) ∪ dom (tree_entries t)) ∖
            list_to_set (remove_elements b)))) ∧ cache_inv c.
Proof.
  intros Hwf Hvb.
  destruct (insert_batch_ok t b Hwf Hvb) as (t' & evs & _ & Hwf' & He & _).
  pose proof (valid_changes t b Hwf Hvb) as Hcs. unfold root_hash_with.
  destruct (sorted_changes_spec (insert_elements b) (remove_elements b)) as (-> & _ & _).
  destruct (hash_with_inner_spec DEPTH DEPTH DEPTH [] (tree t) (cache t) _ ltac:(lia)
              (wf_node t Hwf) (wf_cache t Hwf) Hcs) as [Hok Hc].
  simpl length in Hok, Hc. destruct (hash_with_inner _ _ _ _ _ _) as [c o].
  simpl in Hok, Hc. subst o. exists c. split; [|done]. do 2 f_equal.
  unfold insert_elements at 2, remove_elements at 2. rewrite <-dom_apply_entries, <-He.
  rewrite <-(root_hash_spec t' Hwf'), (root_hash_slots t' Hwf').
  apply ref_hash_ext. intros q Hq. by apply upd_slots_after.
Qed.
End correctness.
