(* ===== verification/SmirkPath.v ===== *)
(** Merkle paths of the sparse tree (pkg/smirk/src/tree/path.rs) and insertion
    with paths (insert.rs): generation, verification, and the link between the
    path of a slot and the root of the tree. *)
From S2P Require Import Prelude Element MerkleHash HashCache SmirkBatch SmirkNode SmirkNodeSpec.
From S2P Require Import SmirkTree.

Record Path := mk_path {
  siblings : list Element;
  path_element : Element;
  path_root_hash : Element;
}.

Section paths.
Context `{FieldLib}.

Definition siblings_deepest_first (self : Path) : list Element := siblings self.
Definition path_lsb (self : Path) : list bool :=
  lsb_bits (path_element self) (length (siblings self)).
Definition actual_root_hash (self : Path) : Element := path_root_hash self.
Definition compute_root_hash (self : Path) (element : Element) : Element :=
  compute_merkle_root element (path_element self) (siblings_deepest_first self).
Definition proves (self : Path) (element : Element) : bool :=
  bool_decide (compute_root_hash self element = actual_root_hash self).

(** The inner loop of the [Empty] arm:
    [for (i, depth) in (1..depth).rev().enumerate()]. *)
Definition fill_empty (index depth : nat) (sibs : list Element) : list Element :=
  foldl (λ acc '(i, d), <[(index + i)%nat := empty_hash d]> acc) sibs
    (zip (seq 0 (depth - 1)) (reverse (seq 1 (depth - 1)))).

(** The walk down the tree, one bit at a time; [None] is the panic of the
    [Leaf] arm. *)
Fixpoint path_loop (bits : list bool) (index : nat) (n : Node) (sibs : list Element)
  : option (list Element) :=
  match bits with
  | [] => Some sibs
  | bit :: bits' =>
      match n with
      | Parent l r _ _ =>
          match bit with
          | false => path_loop bits' (S index) l (<[index := node_hash r]> sibs)
          | true => path_loop bits' (S index) r (<[index := node_hash l]> sibs)
          end
      | Empty depth => Some (fill_empty index depth sibs)
      | Leaf _ => None
      end
  end.

Definition path_for (DEPTH : nat) {V C} (t : Tree V C) (element : Element)
  : outcome Empty_set Path :=
  let bits := lsb_bits element (DEPTH - 1) in
  let sibs := replicate (DEPTH - 1) NULL_HASH in
  let? sibs' := unwrap (path_loop bits 0 (tree t) sibs) "uh oh" in
  Ok (mk_path (reverse sibs') element (root_hash t)).

(** [insert_with_paths]: on a collision the earlier insertions stay. *)
Fixpoint insert_with_paths (DEPTH : nat) (temp_noir : bool) {V C} `{!HashCache C}
    (t : Tree V C) (l : list (Element * V)) : Tree V C * outcome CollisionError (list Path) :=
  match l with
  | [] => (t, Ok [])
  | (e, v) :: l' =>
      let '(t1, r) := tree_insert DEPTH temp_noir t e v in
      match r with
      | Ok _ =>
          match path_for DEPTH t1 e with
          | Ok p =>
              let '(t2, r2) := insert_with_paths DEPTH temp_noir t1 l' in
              (t2, outcome_map (cons p) r2)
          | Err x => match x with end
          | Panic m => (t1, Panic m)
          end
      | Err x => (t1, Err x)
      | Panic m => (t1, Panic m)
      end
  end.

(** ** The siblings of a slot, from the root down *)

Fixpoint node_siblings (n : Node) (q : list bool) : list Element :=
  match n, q with
  | Parent l r _ _, b :: q' =>
      (if b : bool then node_hash l else node_hash r)
        :: node_siblings (if b : bool then r else l) q'
  | Empty d, _ => empty_hash <$> reverse (seq 1 (d - 1))
  | _, _ => []
  end.

Lemma insert_at_end (pre post : list Element) x y i :
  i = length pre → <[i := y]> (pre ++ x :: post) = (pre ++ [y]) ++ post.
Proof.
  intros ->. rewrite <-(Nat.add_0_r (length pre)), insert_app_r. simpl. by rewrite <-app_assoc.
Qed.

Lemma fill_loop index j ds pre post :
  length pre = (index + j)%nat → length post = length ds →
  foldl (λ acc '(i, d), <[(index + i)%nat := empty_hash d]> acc) (pre ++ post)
    (zip (seq j (length ds)) ds) = pre ++ (empty_hash <$> ds).
Proof.
  revert j pre post. induction ds as [|d ds IH]; intros j pre [|x post] Hp Hl; simplify_eq/=; [done|].
  rewrite insert_at_end by done. rewrite IH; [|rewrite length_app; simpl; lia|lia].
  by rewrite <-app_assoc.
Qed.

Lemma fill_empty_spec index d pre post :
  length pre = index → length post = (d - 1)%nat →
  fill_empty index d (pre ++ post) = pre ++ (empty_hash <$> reverse (seq 1 (d - 1))).
Proof.
  intros Hp Hl. unfold fill_empty.
  assert (length (reverse (seq 1 (d - 1))) = (d - 1)%nat) as Hd
    by (by rewrite length_reverse, length_seq).
  rewrite <-(fill_loop index 0 (reverse (seq 1 (d - 1))) pre post) by lia.
  by rewrite Hd.
Qed.

Lemma path_loop_spec N d p n bits pre post :
  node_wf N d p n → length bits = (d - 1)%nat → length post = length bits →
  path_loop bits (length pre) n (pre ++ post) = Some (pre ++ node_siblings n bits).
Proof.
  revert d p bits pre post. induction n as [e|k|l IHl r IHr h dirty];
    intros d p bits pre post Hwf Hb Hl; simpl in Hwf.
  - destruct Hwf as (-> & _). destruct bits; [|done]. by destruct post.
  - destruct Hwf as [-> Hd]. destruct bits as [|b bits]; simpl in *.
    + destruct post; [|done]. rewrite <-Hb. done.
    + f_equal. apply fill_empty_spec; simpl; lia.
  - destruct d as [|[|d]]; [done|done|]. destruct Hwf as [Hwl Hwr].
    destruct bits as [|b bits]; [done|]. destruct post as [|x post]; [done|].
    simplify_eq/=. destruct b; rewrite insert_at_end by done.
    + replace (S (length pre)) with (length (pre ++ [node_hash l])) by (rewrite length_app; simpl; lia).
      erewrite IHr by (done || simpl; lia). by rewrite <-app_assoc.
    + replace (S (length pre)) with (length (pre ++ [node_hash r])) by (rewrite length_app; simpl; lia).
      erewrite IHl by (done || simpl; lia). by rewrite <-app_assoc.
Qed.

Lemma empty_siblings q :
  empty_hash <$> reverse (seq 1 (length q)) = ref_siblings (λ _, NULL_HASH) q.
Proof.
  induction q as [|b q IH]; [done|].
  change (length (b :: q)) with (S (length q)).
  rewrite seq_S, reverse_snoc. csimpl. rewrite IH. f_equal.
  rewrite empty_hash_spec by lia. f_equal. lia.
Qed.

Lemma node_siblings_ref N d p n q :
  node_wf N d p n → clean n → hash_inv n → length q = (d - 1)%nat →
  node_siblings n q = ref_siblings (slots n) q.
Proof.
  revert d p q. induction n as [e|k|l IHl r IHr h dirty]; intros d p q Hwf Hc Hi Hq; simpl in Hwf.
  - destruct Hwf as (-> & _). by destruct q.
  - destruct Hwf as [-> Hd]. simpl. rewrite <-Hq, empty_siblings. by destruct q.
  - destruct d as [|[|d]]; [done|done|]. destruct Hwf as [Hwl Hwr].
    destruct Hc as (_ & Hcl & Hcr), Hi as (Hil & Hir & _).
    destruct q as [|b q]; [done|]. simpl in Hq. destruct b; simpl.
    + rewrite (IHr (S d) (p ++ [true]) q) by (done || simpl; lia).
      f_equal. rewrite (clean_hash N (S d) (p ++ [false]) l) by done. simpl. f_equal. lia.
    + rewrite (IHl (S d) (p ++ [false]) q) by (done || simpl; lia).
      f_equal. rewrite (clean_hash N (S d) (p ++ [true]) r) by done. simpl. f_equal. lia.
Qed.
End paths.

Section path_correctness.
Context `{FieldLib} (DEPTH : nat) {V C : Type} `{!HashCache C, !HashCacheLaws C}.
Implicit Types (t : Tree V C) (e : Element).

(** What occupies the slot of [e] in [t]. *)
Definition occupant t e : Element := slots (tree t) (slot DEPTH e).

Lemma path_for_ok t e :
  wf_tree DEPTH t →
  path_for DEPTH t e =
  Ok (mk_path (reverse (ref_siblings (slots (tree t)) (slot DEPTH e))) e (root_hash t)).
Proof.
  intros Hwf. pose proof (wf_depth _ t Hwf) as Hd. unfold path_for.
  pose proof (path_loop_spec DEPTH DEPTH [] (tree t) (slot DEPTH e) []
    (replicate (DEPTH - 1) NULL_HASH) (wf_node _ t Hwf)) as Hloop.
  simpl in Hloop. unfold slot in Hloop. rewrite Hloop; simpl.
  - do 3 f_equal. eapply node_siblings_ref; [apply (wf_node _ t Hwf)|apply (wf_clean _ t Hwf)
      |apply (wf_hashes _ t Hwf)|by apply slot_length].
  - by apply slot_length.
  - rewrite length_replicate. symmetry. by apply slot_length.
Qed.

(** Verification with the occupant of the slot recomputes the root. *)
Lemma compute_root_hash_ref t e x :
  wf_tree DEPTH t →
  compute_root_hash (mk_path (reverse (ref_siblings (slots (tree t)) (slot DEPTH e))) e (root_hash t)) x
  = path_root x (slot DEPTH e) (ref_siblings (slots (tree t)) (slot DEPTH e)).
Proof.
  intros Hwf. unfold compute_root_hash, compute_merkle_root, least_significant_bits. simpl.
  rewrite length_reverse, ref_siblings_length.
  assert (lsb_bits e (length (slot DEPTH e)) = slot DEPTH e) as ->.
  { rewrite slot_length by apply (wf_depth _ t Hwf). done. }
  apply from_iter_reverse. by rewrite ref_siblings_length.
Qed.

Lemma compute_root_occupant t e :
  wf_tree DEPTH t →
  compute_root_hash (mk_path (reverse (ref_siblings (slots (tree t)) (slot DEPTH e))) e (root_hash t))
    (occupant t e) = root_hash t.
Proof.
  intros Hwf. rewrite compute_root_hash_ref by done. unfold occupant.
  rewrite path_root_ref, slot_length by apply (wf_depth _ t Hwf). symmetry.
  by eapply root_hash_slots.
Qed.

Lemma occupant_present t e :
  wf_tree DEPTH t → is_Some (tree_entries t !! e) → occupant t e = e.
Proof. intros. by eapply wf_entry_slot. Qed.

Lemma occupant_free t e :
  wf_tree DEPTH t → (∀ x, is_Some (tree_entries t !! x) → slot DEPTH x ≠ slot DEPTH e) →
  occupant t e = NULL_HASH.
Proof.
  intros Hwf Hfree. unfold occupant.
  destruct (decide (slots (tree t) (slot DEPTH e) = NULL_HASH)) as [|Hne]; [done|].
  destruct (slots_in_place DEPTH DEPTH [] (tree t) _ (wf_node _ t Hwf) Hne) as [Hs _].
  exfalso. eapply Hfree; [|exact Hs]. apply (wf_entries _ t Hwf). by rewrite Hs.
Qed.

Lemma ref_siblings_ext (s s' : list bool → Element) q :
  (∀ r, length r = length q → r ≠ q → s r = s' r) → ref_siblings s q = ref_siblings s' q.
Proof.
  revert s s'. induction q as [|b q IH]; intros s s' Hs; simpl; [done|]. f_equal.
  - apply ref_hash_ext. intros r Hr. apply Hs; [simpl; lia|]. intros [= Hb _].
    by destruct b.
  - apply IH. intros r Hr Hne. apply Hs; [simpl; lia|]. congruence.
Qed.

(** Inserting at one slot leaves the siblings of that slot alone. *)
Lemma insert_siblings t t' e (v : V) :
  wf_tree DEPTH t → wf_tree DEPTH t' → tree_entries t' = <[e := v]> (tree_entries t) →
  ref_siblings (slots (tree t')) (slot DEPTH e) = ref_siblings (slots (tree t)) (slot DEPTH e).
Proof.
  intros Hwf Hwf' He. apply ref_siblings_ext. intros r Hr Hne.
  rewrite slot_length in Hr by apply (wf_depth _ t Hwf).
  eapply slots_agree; [exact Hwf'|done| |].
  - intros x Hx Hx0. rewrite He, lookup_insert_ne by congruence.
    rewrite (wf_entries _ t Hwf), Hx. naive_solver.
  - intros Hnz. by destruct (slots_in_place DEPTH DEPTH [] (tree t) r (wf_node _ t Hwf) Hnz).
Qed.
End path_correctness.
