(* ===== verification/SmirkProps.v ===== *)
(** The theorems about the sparse Merkle tree: batched changes refine changes of
    a finite map, the root hash is a function of the set of elements and binds
    it, Merkle paths are complete and sound, and what the error paths do. *)
From S2P Require Import Prelude Element MerkleHash HashCache SmirkBatch SmirkNode SmirkNodeSpec.
From S2P Require Import SmirkTree SmirkPath.

(** * A concrete tree, used to run the theorems *)

Definition ex_new : Tree Z NoopHashCache := tree_new 4.
Definition ex_one : Tree Z NoopHashCache := (tree_insert 4 false ex_new 1 10).1.
Definition ex_tree : Tree Z NoopHashCache := (tree_insert 4 false ex_one 2 20).1.

Lemma ex_new_wf : wf_tree 4 ex_new.
Proof. apply new_with_cache_wf; [lia|done]. Qed.

Lemma ex_one_wf : wf_tree 4 ex_one ∧ tree_entries ex_one = {[1 := 10]}.
Proof.
  destruct (tree_insert_ok 4 false ex_new 1 10 ex_new_wf) as (t & Ht & Hwf & He); [done| |].
  { intros x. change (tree_entries ex_new) with (∅ : gmap Element Z). rewrite lookup_empty. by intros []. }
  unfold ex_one. rewrite Ht. done.
Qed.

Lemma ex_tree_wf : wf_tree 4 ex_tree ∧ tree_entries ex_tree = {[2 := 20; 1 := 10]}.
Proof.
  destruct ex_one_wf as [Hwf1 He1].
  destruct (tree_insert_ok 4 false ex_one 2 20 Hwf1) as (t & Ht & Hwf & He); [done| |].
  { rewrite He1. intros x Hx. apply elem_of_dom in Hx. rewrite dom_singleton_L in Hx.
    apply elem_of_singleton in Hx as ->. by vm_compute. }
  unfold ex_tree. rewrite Ht. simpl. by rewrite He, He1.
Qed.

(** A batch that inserts 3 and removes 1. *)
Definition ex_batch : Batch Z :=
  mk_batch [(3, 30)] [1] (list_to_set [slot 4 3; slot 4 1]).

Lemma ex_batch_valid : valid_batch 4 ex_tree ex_batch.
Proof.
  destruct ex_tree_wf as [_ He]. split.
  - split; [by vm_compute|]. by apply (bool_decide_unpack _).
  - intros e He'. unfold ex_batch, batch_elements, insert_elements, remove_elements in He'.
    simpl in He'. set_solver.
  - rewrite He. intros e x Hin Hx. apply list_elem_of_singleton in Hin as ->.
    apply elem_of_dom in Hx. rewrite dom_insert_L, dom_singleton_L in Hx.
    apply elem_of_union in Hx as [->%elem_of_singleton| ->%elem_of_singleton]; by vm_compute.
  - rewrite He. intros e ->%list_elem_of_singleton. by eexists.
Qed.

(** * Batches refine map updates *)

Section refinement.
Context `{FieldLib} (DEPTH : nat) (temp_noir : bool).
Context {V C : Type} `{!HashCache C, !HashCacheLaws C}.
Implicit Types (t : Tree V C) (b : Batch V) (e : Element).

(** C17: A batch whose insertions hit free slots and whose removals are present
    is carried out: the call returns Ok, the entries become the map with the
    insertions added and the removals deleted, the invariant of the tree is
    preserved, the new root hash is the root of the complete binary tree over
    the new set of elements, and every hash reported to the callbacks is a
    true hash. *)
Theorem insert_batch_refines_map t b :
  wf_tree DEPTH t → valid_batch DEPTH t b →
  ∃ t' evs, insert_batch DEPTH temp_noir t b = (t', evs, Ok tt) ∧ wf_tree DEPTH t' ∧
    tree_entries t' = apply_entries (tree_entries t) (entries b) (remove_entries b) ∧
    root_hash t' = spec_root DEPTH (dom (tree_entries t')) ∧
    Forall event_ok evs.
Proof.
  intros Hwf Hvb.
  destruct (insert_batch_ok DEPTH temp_noir t b Hwf Hvb) as (t' & evs & -> & Hwf' & He & Hev).
  exists t', evs. split_and!; try done. by eapply root_hash_spec.
Qed.

(** C18: [root_hash_with], which does not touch the tree, computes exactly the
    root hash the tree has after [insert_batch] of the same changes. *)
Theorem root_hash_with_predicts_insert_batch t b :
  wf_tree DEPTH t → valid_batch DEPTH t b →
  ∃ c t' evs,
    root_hash_with DEPTH t (insert_elements b) (remove_elements b) = (c, Ok (root_hash t')) ∧
    insert_batch DEPTH temp_noir t b = (t', evs, Ok tt).
Proof.
  intros Hwf Hvb.
  destruct (insert_batch_ok DEPTH temp_noir t b Hwf Hvb) as (t' & evs & Ht & Hwf' & He & _).
  destruct (root_hash_with_ok DEPTH temp_noir t b Hwf Hvb) as (c & Hc & _).
  exists c, t', evs. split; [|done]. rewrite Hc. do 2 f_equal.
  by rewrite (root_hash_spec DEPTH t' Hwf'), He, dom_apply_entries.
Qed.

(** A batch that inserts an element into an occupied slot is rejected with
    an error that reports the occupant and the offending element, and the tree
    is unchanged. *)
Theorem colliding_batch_rejected t b x e :
  is_Some (tree_entries t !! x) → e ∈ insert_elements b → slot DEPTH x = slot DEPTH e →
  (∀ r, r ∈ remove_elements b → is_Some (tree_entries t !! r)) →
  ∃ errs y, insert_batch DEPTH temp_noir t b = (t, [], Err errs) ∧
    mk_collision x y DEPTH InTree ∈ errs ∧ y ∈ batch_elements b ∧ slot DEPTH y = slot DEPTH x.
Proof.
  intros Hx He Hs Hrem.
  destruct (check_collisions_err DEPTH temp_noir t b x e Hx He Hs Hrem)
    as (errs & y & Hc & Hin).
  exists errs, y. unfold insert_batch. by rewrite Hc.
Qed.

(** Inserting a new element and removing it again gives back the entries
    and the root hash of the original tree. *)
Theorem insert_then_remove t e (v : V) :
  wf_tree DEPTH t → e ≠ NULL_HASH →
  (∀ x, is_Some (tree_entries t !! x) → slot DEPTH x ≠ slot DEPTH e) →
  ∃ t1 t2, tree_insert DEPTH temp_noir t e v = (t1, Ok tt) ∧
    tree_remove DEPTH temp_noir t1 e = (t2, Ok tt) ∧
    tree_entries t2 = tree_entries t ∧ root_hash t2 = root_hash t.
Proof.
  intros Hwf Hne Hfree.
  destruct (tree_insert_ok DEPTH temp_noir t e v Hwf Hne Hfree) as (t1 & H1 & Hwf1 & He1).
  destruct (tree_remove_ok DEPTH temp_noir t1 e Hwf1) as (t2 & H2 & Hwf2 & He2).
  { rewrite He1, lookup_insert_eq. by eexists. }
  assert (tree_entries t2 = tree_entries t) as Hent.
  { rewrite He2, He1. apply delete_insert_id. apply eq_None_not_Some.
    intros Hin. by apply (Hfree e Hin). }
  exists t1, t2. split_and!; try done.
  rewrite (root_hash_spec DEPTH t2 Hwf2), (root_hash_spec DEPTH t Hwf). by rewrite Hent.
Qed.

(** The documentation of [Tree::insert] promises an error for
    [NULL_HASH]; the code panics instead, because [insert_batch] unwraps the
    error of the raw insertion. *)
Theorem insert_null_panics t (v : V) :
  (∀ x, is_Some (tree_entries t !! x) → slot DEPTH x ≠ slot DEPTH NULL_HASH) →
  (tree_insert DEPTH temp_noir t NULL_HASH v).2 =
  Panic "called Result::unwrap() on an Err value".
Proof.
  intros Hfree. unfold tree_insert, singleton_batch.
  destruct (batch_insert_ok DEPTH batch_new NULL_HASH v) as (b & -> & Hb & He & Hr).
  { apply batch_new_wf. }
  { set_solver. }
  simpl. unfold insert_batch, check_collisions.
  destruct (insert_collisions_spec DEPTH t b) as (l & -> & _ & Hnil). simpl in *.
  rewrite remove_collisions_nil; cycle 1.
  { unfold remove_elements. rewrite Hr. by intros x ?%elem_of_nil. }
  simpl. rewrite Hnil; cycle 1.
  { unfold insert_elements. rewrite He. intros x y Hx ->%list_elem_of_singleton. by apply Hfree. }
  simpl. rewrite He, Hr. done.
Qed.
End refinement.

Lemma insert_batch_refines_map_witness :
  ∃ t' evs, insert_batch 4 false ex_tree ex_batch = (t', evs, Ok tt) ∧ wf_tree 4 t' ∧
    tree_entries t' = apply_entries (tree_entries ex_tree) [(3, 30)] [1] ∧
    root_hash t' = spec_root 4 (dom (tree_entries t')) ∧ Forall event_ok evs.
Proof. exact (insert_batch_refines_map 4 false ex_tree ex_batch (proj1 ex_tree_wf) ex_batch_valid). Defined.

Lemma root_hash_with_predicts_witness :
  ∃ c t' evs,
    root_hash_with 4 ex_tree [3] [1] = (c, Ok (root_hash t')) ∧
    insert_batch 4 false ex_tree ex_batch = (t', evs, Ok tt).
Proof.
  exact (root_hash_with_predicts_insert_batch 4 false ex_tree ex_batch
           (proj1 ex_tree_wf) ex_batch_valid).
Defined.

(** 9 and 1 share the three low bits. *)
Lemma colliding_batch_rejected_witness :
  ∃ errs y, insert_batch 4 false ex_tree (mk_batch [(9, 90)] [] {[slot 4 9]})
            = (ex_tree, [], Err errs) ∧
    mk_collision 1 y 4 InTree ∈ errs ∧ y ∈ [9] ∧ slot 4 y = slot 4 1.
Proof.
  apply (colliding_batch_rejected 4 false ex_tree (mk_batch [(9, 90)] [] {[slot 4 9]}) 1 9).
  - rewrite (proj2 ex_tree_wf). by eexists.
  - by left.
  - by vm_compute.
  - intros r Hr. by apply elem_of_nil in Hr.
Defined.

Lemma ex_new_empty x : is_Some (tree_entries ex_new !! x) → False.
Proof. change (tree_entries ex_new) with (∅ : gmap Element Z). rewrite lookup_empty. by intros []. Qed.

Lemma insert_then_remove_witness :
  ∃ t1 t2, tree_insert 4 false ex_new 5 50 = (t1, Ok tt) ∧ tree_remove 4 false t1 5 = (t2, Ok tt) ∧
    tree_entries t2 = tree_entries ex_new ∧ root_hash t2 = root_hash ex_new.
Proof.
  apply (insert_then_remove 4 false ex_new 5 50 ex_new_wf).
  - done.
  - intros x Hx. by destruct (ex_new_empty x).
Defined.

Lemma insert_null_panics_witness :
  (tree_insert 4 false ex_new NULL_HASH 50).2 = Panic "called Result::unwrap() on an Err value".
Proof.
  apply (insert_null_panics 4 false ex_new 50). intros x Hx. by destruct (ex_new_empty x).
Defined.

(** * The root hash and the set of elements *)

Section roots.
Context `{FieldLib} (DEPTH : nat).

(** The root hash depends on the set of elements alone: two trees that
    hold the same elements, whatever their history, values and caches, have
    the same root hash. *)
Theorem root_hash_of_elements
    {V C V' C'} `{!HashCache C, !HashCacheLaws C, !HashCache C', !HashCacheLaws C'}
    (t : Tree V C) (t' : Tree V' C') :
  wf_tree DEPTH t → wf_tree DEPTH t' →
  dom (tree_entries t) = dom (tree_entries t') → root_hash t = root_hash t'.
Proof.
  intros Hwf Hwf' Hdom.
  by rewrite (root_hash_spec DEPTH t Hwf), (root_hash_spec DEPTH t' Hwf'), Hdom.
Qed.

(** C19: Two trees with the same root hash hold the same elements, or the hash
    function has a collision at a node of the two trees: the trees' own hash
    inputs at that node differ and hash to one value. *)
Theorem root_hash_binds_elements
    {V C V' C'} `{!HashCache C, !HashCacheLaws C, !HashCache C', !HashCacheLaws C'}
    (t : Tree V C) (t' : Tree V' C') :
  wf_tree DEPTH t → wf_tree DEPTH t' → root_hash t = root_hash t' →
  dom (tree_entries t) = dom (tree_entries t') ∨
  ref_collision (DEPTH - 1) (slots (tree t)) (slots (tree t')).
Proof.
  intros Hwf Hwf'. rewrite (root_hash_slots DEPTH t Hwf), (root_hash_slots DEPTH t' Hwf').
  intros [Hs|Hc]%ref_hash_binding; [left|by right].
  apply set_eq. intros e.
  rewrite !elem_of_dom, (wf_entries DEPTH t Hwf), (wf_entries DEPTH t' Hwf').
  rewrite Hs; [done|]. apply slot_length, (wf_depth DEPTH t Hwf).
Qed.
End roots.

Lemma root_hash_of_elements_witness :
  root_hash ex_tree = root_hash (tree_insert 4 false (tree_insert 4 false ex_new 2 7).1 1 8).1.
Proof.
  destruct (tree_insert_ok 4 false ex_new 2 7 ex_new_wf) as (t1 & H1 & Hwf1 & He1);
    [done|intros x Hx; by destruct (ex_new_empty x)|].
  destruct (tree_insert_ok 4 false t1 1 8 Hwf1) as (t2 & H2 & Hwf2 & He2); [done| |].
  { rewrite He1. intros x Hx. apply elem_of_dom in Hx.
    rewrite dom_insert_L in Hx. change (tree_entries ex_new) with (∅ : gmap Element Z) in Hx.
    rewrite dom_empty_L, union_empty_r_L in Hx. apply elem_of_singleton in Hx as ->. by vm_compute. }
  rewrite H1. simpl. rewrite H2. simpl.
  apply (root_hash_of_elements 4 ex_tree t2 (proj1 ex_tree_wf) Hwf2).
  rewrite (proj2 ex_tree_wf), He2, He1. by vm_compute.
Defined.

Lemma root_hash_binds_elements_witness :
  dom (tree_entries ex_tree) = dom (tree_entries ex_tree) ∨
  ref_collision 3 (slots (tree ex_tree)) (slots (tree ex_tree)).
Proof.
  exact (root_hash_binds_elements 4 ex_tree ex_tree (proj1 ex_tree_wf) (proj1 ex_tree_wf) eq_refl).
Defined.

(** * Merkle paths *)

Section path_theorems.
Context `{FieldLib} (DEPTH : nat) (temp_noir : bool).
Context {V C : Type} `{!HashCache C, !HashCacheLaws C}.
Implicit Types (t : Tree V C) (e : Element).

(** [path_for] never panics on a well-formed tree and returns a path with
    [DEPTH - 1] siblings that proves the element when it is in the tree, and
    proves [NULL_HASH] when the slot of the element is free. *)
Theorem path_for_complete t e :
  wf_tree DEPTH t →
  ∃ p, path_for DEPTH t e = Ok p ∧ length (siblings p) = (DEPTH - 1)%nat ∧
    actual_root_hash p = root_hash t ∧
    (is_Some (tree_entries t !! e) → proves p e = true) ∧
    ((∀ x, is_Some (tree_entries t !! x) → slot DEPTH x ≠ slot DEPTH e) →
     proves p NULL_HASH = true).
Proof.
  intros Hwf. rewrite (path_for_ok DEPTH t e Hwf). eexists. split; [done|]. simpl.
  pose proof (compute_root_occupant DEPTH t e Hwf) as Hroot. split_and!.
  - rewrite length_reverse, ref_siblings_length. apply slot_length, (wf_depth DEPTH t Hwf).
  - done.
  - intros Hin. apply bool_decide_eq_true. by rewrite (occupant_present DEPTH t e Hwf Hin) in Hroot.
  - intros Hfree. apply bool_decide_eq_true. by rewrite (occupant_free DEPTH t e Hwf Hfree) in Hroot.
Qed.

(** A path proves nothing but the occupant of its slot: if [proves]
    accepts an element other than the one in the slot, then the two root
    computations along the path feed different pairs with the same hash to
    [hash_merge] at some level. *)
Theorem path_for_sound t e p x :
  wf_tree DEPTH t → path_for DEPTH t e = Ok p → proves p x = true →
  x = occupant DEPTH t e ∨
  ∃ i a b,
    merkle_inputs x (zip (siblings p) (least_significant_bits e (length (siblings p)))) !! i = Some a ∧
    merkle_inputs (occupant DEPTH t e)
      (zip (siblings p) (least_significant_bits e (length (siblings p)))) !! i = Some b ∧
    a ≠ b ∧ hash_merge a = hash_merge b.
Proof.
  intros Hwf Hp Hx. rewrite (path_for_ok DEPTH t e Hwf) in Hp. injection Hp as <-.
  apply bool_decide_eq_true in Hx. unfold actual_root_hash in Hx. cbn [path_root_hash] in Hx.
  exact (root_collision _ _ _ (eq_trans Hx (eq_sym (compute_root_occupant DEPTH t e Hwf)))).
Qed.

(** The chain of root hashes of [insert_with_paths]: each path recomputes the
    root before its insertion from [NULL_HASH], and proves its element against
    the root after it. *)
Fixpoint linked (r : Element) (l : list (Element * V)) (ps : list Path) (r' : Element) : Prop :=
  match l, ps with
  | [], [] => r = r'
  | (e, _) :: l', p :: ps' =>
      compute_root_hash p NULL_HASH = r ∧ proves p e = true ∧
      linked (actual_root_hash p) l' ps' r'
  | _, _ => False
  end.

(** [insert_with_paths] on elements with distinct, free slots inserts them
    all and returns one path per element, linking the old root hash to the new
    one step by step. *)
Theorem insert_with_paths_linked t (l : list (Element * V)) :
  wf_tree DEPTH t → Forall (λ x, x.1 ≠ NULL_HASH) l → NoDup (slot DEPTH <$> l.*1) →
  (∀ x e, is_Some (tree_entries t !! x) → e ∈ l.*1 → slot DEPTH x ≠ slot DEPTH e) →
  ∃ t' ps, insert_with_paths DEPTH temp_noir t l = (t', Ok ps) ∧ wf_tree DEPTH t' ∧
    linked (root_hash t) l ps (root_hash t').
Proof.
  revert t. induction l as [|[e v] l IH]; intros t Hwf Hnz Hnd Hfree; csimpl in *.
  { exists t, []. done. }
  apply Forall_cons in Hnz as [Hne Hnz]. apply NoDup_cons in Hnd as [Hnin Hnd].
  assert (∀ x, is_Some (tree_entries t !! x) → slot DEPTH x ≠ slot DEPTH e) as Hfe.
  { intros x Hx. apply Hfree; [done|by left]. }
  destruct (tree_insert_ok DEPTH temp_noir t e v Hwf Hne Hfe) as (t1 & -> & Hwf1 & He1).
  rewrite (path_for_ok DEPTH t1 e Hwf1).
  destruct (IH t1 Hwf1 Hnz Hnd) as (t2 & ps & -> & Hwf2 & Hlink).
  { intros x e' Hx He'. rewrite He1, lookup_insert in Hx. case_decide as Hd.
    - subst x. intros Heq. apply Hnin. rewrite Heq. by apply list_elem_of_fmap_2.
    - apply Hfree; [done|by right]. }
  eexists t2, (_ :: ps). split; [done|]. split; [done|]. split_and!; [| |exact Hlink].
  - rewrite (compute_root_hash_ref DEPTH t1 e NULL_HASH Hwf1).
    rewrite (insert_siblings DEPTH t t1 e v Hwf Hwf1 He1).
    rewrite <-(compute_root_hash_ref DEPTH t e NULL_HASH Hwf).
    rewrite <-(occupant_free DEPTH t e Hwf Hfe). exact (compute_root_occupant DEPTH t e Hwf).
  - apply bool_decide_eq_true. unfold actual_root_hash. cbn [path_root_hash].
    pose proof (compute_root_occupant DEPTH t1 e Hwf1) as Ho.
    rewrite (occupant_present DEPTH t1 e Hwf1) in Ho; [done|].
    rewrite He1, lookup_insert_eq. by eexists.
Qed.
End path_theorems.

Lemma path_for_complete_witness :
  ∃ p, path_for 4 ex_tree 2 = Ok p ∧ length (siblings p) = 3%nat ∧
    actual_root_hash p = root_hash ex_tree ∧
    (is_Some (tree_entries ex_tree !! 2) → proves p 2 = true) ∧
    ((∀ x, is_Some (tree_entries ex_tree !! x) → slot 4 x ≠ slot 4 2) → proves p NULL_HASH = true).
Proof. exact (path_for_complete 4 ex_tree 2 (proj1 ex_tree_wf)). Defined.

Lemma path_for_sound_witness :
  ∃ p, path_for 4 ex_tree 2 = Ok p ∧ proves p 2 = true ∧
  (2 = occupant 4 ex_tree 2 ∨
   ∃ i a b,
     merkle_inputs 2 (zip (siblings p) (least_significant_bits 2 (length (siblings p)))) !! i = Some a ∧
     merkle_inputs (occupant 4 ex_tree 2)
       (zip (siblings p) (least_significant_bits 2 (length (siblings p)))) !! i = Some b ∧
     a ≠ b ∧ hash_merge a = hash_merge b).
Proof.
  pose proof (path_for_ok 4 ex_tree 2 (proj1 ex_tree_wf)) as Hp.
  assert (proves (mk_path (reverse (ref_siblings (slots (tree ex_tree)) (slot 4 2))) 2 (root_hash ex_tree)) 2
          = true) as Hx.
  { apply bool_decide_eq_true. pose proof (compute_root_occupant 4 ex_tree 2 (proj1 ex_tree_wf)) as Ho.
    rewrite (occupant_present 4 ex_tree 2 (proj1 ex_tree_wf)) in Ho; [exact Ho|].
    rewrite (proj2 ex_tree_wf). by eexists. }
  eexists. split; [exact Hp|]. split; [exact Hx|].
  exact (path_for_sound 4 ex_tree 2 _ 2 (proj1 ex_tree_wf) Hp Hx).
Defined.

Lemma insert_with_paths_linked_witness :
  ∃ t' ps, insert_with_paths 4 false ex_new [(1, 10); (6, 60)] = (t', Ok ps) ∧ wf_tree 4 t' ∧
    linked (root_hash ex_new) [(1, 10); (6, 60)] ps (root_hash t').
Proof.
  apply (insert_with_paths_linked 4 false ex_new [(1, 10); (6, 60)] ex_new_wf).
  - repeat constructor; done.
  - apply (bool_decide_unpack _). by vm_compute.
  - intros x e Hx. by destruct (ex_new_empty x).
Defined.
