(* ===== verification/SmirkStorage.v ===== *)
(** The persistent tree (pkg/smirk/src/storage: mod.rs, format.rs, batch.rs,
    load.rs, store.rs): a tree beside a rocksdb database that holds its entries
    and some of its hashes.

    The database is a finite map from decoded keys to decoded values (the wire
    encoding of a key determines the key), a [WriteBatch] is the list of its
    operations, applied atomically and in order.  Iteration over the database
    and over a [HashMap] takes the order of [map_to_list]; the statements do not
    depend on it.  Errors of rocksdb itself are not modelled. *)
From S2P Require Import Prelude Element MerkleHash HashCache SmirkBatch SmirkNode SmirkNodeSpec.
From S2P Require Import SmirkTree.

(** * Format *)

Inductive KeyV2 :=
| KElement (e : Element)
| KKnownHash (left right : Element).

Inductive KeyFormat :=
| KV1 (e : Element)
| KV2 (k : KeyV2).

Inductive ValueV2 (V : Type) :=
| Metadata (v : V)
| VKnownHash (result : Element).
Arguments Metadata {V} _.
Arguments VKnownHash {V} _.

Inductive ValueFormat (V : Type) :=
| VV1 (v : V)
| VV2 (x : ValueV2 V).
Arguments VV1 {V} _.
Arguments VV2 {V} _.

#[export] Instance key_format_eq_dec : EqDecision KeyFormat.
Proof. intros x y. unfold Decision. repeat decide equality. Defined.
#[export] Instance key_format_countable : Countable KeyFormat.
Proof.
  apply (inj_countable'
    (λ k, match k with
          | KV1 e => inl e
          | KV2 (KElement e) => inr (inl e)
          | KV2 (KKnownHash l r) => inr (inr (l, r))
          end : Z + (Z + Z * Z))
    (λ x, match x with
          | inl e => KV1 e
          | inr (inl e) => KV2 (KElement e)
          | inr (inr (l, r)) => KV2 (KKnownHash l r)
          end)).
  by intros [e|[e|l r]].
Defined.

(** [WireMessage] for the two formats. *)
Definition key_version (k : KeyFormat) : Z := match k with KV1 _ => 1 | KV2 _ => 2 end.
Definition key_upgrade_once (k : KeyFormat) : option KeyFormat :=
  match k with KV1 e => Some (KV2 (KElement e)) | KV2 _ => None end.
Definition value_version {V} (x : ValueFormat V) : Z := match x with VV1 _ => 1 | VV2 _ => 2 end.
Definition value_upgrade_once {V} (x : ValueFormat V) : option (ValueFormat V) :=
  match x with VV1 v => Some (VV2 (Metadata v)) | VV2 _ => None end.

(** * The database *)

Notation DB V := (gmap KeyFormat (ValueFormat V)).

Inductive DbOp (V : Type) :=
| Put (k : KeyFormat) (x : ValueFormat V)
| Delete (k : KeyFormat).
Arguments Put {V} _ _.
Arguments Delete {V} _.

Definition db_op {V} (db : DB V) (op : DbOp V) : DB V :=
  match op with Put k x => <[k := x]> db | Delete k => delete k db end.
Definition db_write {V} (db : DB V) (ops : list (DbOp V)) : DB V := foldl db_op db ops.

Inductive StorageError :=
| SCollision (e : CollisionError)
| DatabaseConsistency.

Inductive RocksdbEntry (V : Type) :=
| EntryKnownHash (h : KnownHash)
| EntrySmirkKV (key : Element) (value : V).
Arguments EntryKnownHash {V} _.
Arguments EntrySmirkKV {V} _ _.

Section storage.
Context `{FieldLib} (DEPTH : nat) (temp_noir : bool) {V : Type}.

Record Persistent := mk_persistent {
  p_tree : Tree V SimpleHashCache;
  p_db : DB V;
}.

Definition persistent_new : Persistent := mk_persistent (tree_new DEPTH) ∅.

(** ** insert_batch *)

(** The map the two callbacks fill. *)
Definition hash_changes (evs : list HashEvent) : gmap (Element * Element) (option Element) :=
  foldl (λ m ev, match ev with
                 | HashRemove l r => <[(l, r) := None]> m
                 | HashSet l r x => <[(l, r) := Some x]> m
                 end) ∅ evs.

Definition insert_ops (kv : Element * V) : list (DbOp V) :=
  [Put (KV2 (KElement kv.1)) (VV2 (Metadata kv.2)); Delete (KV1 kv.1)].
Definition remove_ops (e : Element) : list (DbOp V) :=
  [Delete (KV2 (KElement e)); Delete (KV1 e)].
Definition hash_remove_ops (kr : (Element * Element) * option Element) : list (DbOp V) :=
  match kr.2 with
  | None => [Delete (KV2 (KKnownHash kr.1.1 kr.1.2))]
  | Some _ => []
  end.
Definition hash_insert_ops (kr : (Element * Element) * option Element) : list (DbOp V) :=
  match kr.2 with
  | Some r => [Put (KV2 (KKnownHash kr.1.1 kr.1.2)) (VV2 (VKnownHash r))]
  | None => []
  end.

Definition write_batch_of (b : Batch V) (evs : list HashEvent) : list (DbOp V) :=
  let new_kv_pairs : gmap Element V := foldl (λ m '(e, v), <[e := v]> m) ∅ (entries b) in
  let changes := map_to_list (hash_changes evs) in
  (map_to_list new_kv_pairs ≫= insert_ops) ++ (remove_elements b ≫= remove_ops) ++
  (changes ≫= hash_remove_ops) ++ (changes ≫= hash_insert_ops).

Definition persistent_insert_batch (p : Persistent) (b : Batch V)
  : Persistent * outcome StorageError unit :=
  if batch_is_empty b then (p, Ok tt)
  else
    let '(t, evs, r) := insert_batch DEPTH temp_noir (p_tree p) b in
    match r with
    | Ok _ => (mk_persistent t (db_write (p_db p) (write_batch_of b evs)), Ok tt)
    | Err e => (mk_persistent t (p_db p), Err (SCollision e))
    | Panic m => (mk_persistent t (p_db p), Panic m)
    end.

Definition persistent_insert (p : Persistent) (e : Element) (v : V)
  : Persistent * outcome StorageError unit :=
  match singleton_batch DEPTH e v with
  | Ok b => persistent_insert_batch p b
  | Err x => (p, Err (SCollision x))
  | Panic m => (p, Panic m)
  end.

(** ** load *)

Definition db_entry (kx : KeyFormat * ValueFormat V) : outcome StorageError (RocksdbEntry V) :=
  match kx with
  | (KV1 e, VV1 v) | (KV1 e, VV2 (Metadata v))
  | (KV2 (KElement e), VV1 v) | (KV2 (KElement e), VV2 (Metadata v)) => Ok (EntrySmirkKV e v)
  | (KV2 (KKnownHash l r), VV2 (VKnownHash x)) => Ok (EntryKnownHash (mk_known l r x))
  | _ => Err DatabaseConsistency
  end.

(** The first loop of [load_tree]: the two vectors it fills. *)
Fixpoint collect_entries (l : list (KeyFormat * ValueFormat V))
  : outcome StorageError (list KnownHash * list (Element * V)) :=
  match l with
  | [] => Ok ([], [])
  | kx :: l' =>
      let? entry := db_entry kx in
      let? rest := collect_entries l' in
      Ok (match entry with
          | EntryKnownHash h => (h :: rest.1, rest.2)
          | EntrySmirkKV e v => (rest.1, (e, v) :: rest.2)
          end)
  end.

Definition load_tree (db : DB V) : outcome StorageError (Tree V SimpleHashCache) :=
  let? found := collect_entries (map_to_list db) in
  match provide_known_hashes simple_new found.1 with
  | Ok cache =>
      let smirk := new_with_cache DEPTH cache in
      let? batch := map_err SCollision (insert_all DEPTH batch_new found.2) in
      let '(t, _, r) := insert_batch DEPTH temp_noir smirk batch in
      let? _ := map_err SCollision r in Ok t
  | Err e => match e with end
  | Panic m => Panic m
  end.

Definition persistent_load (db : DB V) : outcome StorageError Persistent :=
  let? t := load_tree db in Ok (mk_persistent t db).

(** ** persist_hashes *)

Definition in_db_hashes (db : DB V) : list KnownHash :=
  omap (λ kx, match kx with
              | (KV2 (KKnownHash l r), VV2 (VKnownHash x)) => Some (mk_known l r x)
              | _ => None
              end) (map_to_list db).

Definition synchronize_hashes (db : DB V) (t : Tree V SimpleHashCache)
  : outcome Empty_set (DB V) :=
  let? in_memory_hashes := tree_known_hashes t in
  let hashes_to_insert :=
    filter (λ h, h ∉ in_db_hashes db) in_memory_hashes in
  Ok (db_write db ((λ h, Put (KV2 (KKnownHash (kh_left h) (kh_right h)))
                             (VV2 (VKnownHash (kh_result h)))) <$> hashes_to_insert)).

Definition persist_hashes (p : Persistent) : outcome Empty_set Persistent :=
  let? db := synchronize_hashes (p_db p) (p_tree p) in Ok (mk_persistent (p_tree p) db).
End storage.
Arguments Persistent {V}.
Arguments mk_persistent {V}.
Arguments p_tree {V}.
Arguments p_db {V}.

(** * What the database holds *)

Definition meta {V} (x : ValueFormat V) : option V :=
  match x with
  | VV1 v | VV2 (Metadata v) => Some v
  | VV2 (VKnownHash _) => None
  end.

Section storage_inv.
Context `{FieldLib} {V : Type}.
Implicit Types (m : gmap Element V) (db : DB V).

(** The entries of the database are those of [m], each under one key, and
    every stored hash is a true one. *)
Record db_inv m db : Prop := {
  di_key : ∀ e, db !! KV1 e = None ∨ db !! KV2 (KElement e) = None;
  di_v1 : ∀ e x, db !! KV1 e = Some x → is_Some (meta x) ∧ m !! e = meta x;
  di_v2 : ∀ e x, db !! KV2 (KElement e) = Some x → is_Some (meta x) ∧ m !! e = meta x;
  di_dom : ∀ e, db !! KV1 e = None → db !! KV2 (KElement e) = None → m !! e = None;
  di_known : ∀ l r x, db !! KV2 (KKnownHash l r) = Some x →
                      x = VV2 (VKnownHash (hash_merge [l; r]));
}.

Lemma db_inv_empty : db_inv ∅ ∅.
Proof. split; intros; try done; by left. Qed.

Lemma db_write_app db l1 l2 : db_write db (l1 ++ l2) = db_write (db_write db l1) l2.
Proof. apply foldl_app. Qed.

Lemma db_inv_insert m db kv :
  db_inv m db → db_inv (<[kv.1 := kv.2]> m) (db_write db (insert_ops kv)).
Proof.
  intros [Hk H1 H2 Hd Hh]. destruct kv as [e v]. cbn.
  split; intros *; rewrite ?lookup_delete, ?lookup_insert;
    repeat case_decide; simplify_eq/=; rewrite ?lookup_insert_ne by done; eauto.
  - done.
  - intros [= <-]. eauto.
  - done.
Qed.

Lemma db_inv_remove m db e :
  db_inv m db → db_inv (delete e m) (db_write db (remove_ops e)).
Proof.
  intros [Hk H1 H2 Hd Hh]. cbn.
  split; intros *; rewrite ?lookup_delete; repeat case_decide; simplify_eq/=; eauto; done.
Qed.

Lemma db_inv_hash_delete m db l r :
  db_inv m db → db_inv m (delete (KV2 (KKnownHash l r)) db).
Proof.
  intros [Hk H1 H2 Hd Hh].
  split; intros *; rewrite ?lookup_delete; repeat case_decide; simplify_eq/=; eauto; done.
Qed.

Lemma db_inv_hash_put m db l r :
  db_inv m db →
  db_inv m (<[KV2 (KKnownHash l r) := VV2 (VKnownHash (hash_merge [l; r]))]> db).
Proof.
  intros [Hk H1 H2 Hd Hh].
  split; intros *; rewrite ?lookup_insert; repeat case_decide; simplify_eq/=; eauto.
  congruence.
Qed.

(** ** The writes of a batch *)

Lemma db_inv_inserts m db l :
  db_inv m db →
  db_inv (foldl (λ m '(e, v), <[e := v]> m) m l) (db_write db (l ≫= insert_ops)).
Proof.
  revert m db. induction l as [|[e v] l IH]; intros m db Hi; [done|].
  rewrite bind_cons, db_write_app. apply IH. by apply (db_inv_insert m db (e, v)).
Qed.

Lemma db_inv_removes m db l :
  db_inv m db → db_inv (foldl (λ m e, delete e m) m l) (db_write db (l ≫= remove_ops)).
Proof.
  revert m db. induction l as [|e l IH]; intros m db Hi; [done|].
  rewrite bind_cons, db_write_app. apply IH. by apply db_inv_remove.
Qed.

Lemma db_inv_hash_removes m db l :
  db_inv m db → db_inv m (db_write db (l ≫= hash_remove_ops)).
Proof.
  revert db. induction l as [|[[x y] [r|]] l IH]; intros db Hi; [done|..];
    rewrite bind_cons, db_write_app; apply IH; [done|]. by apply db_inv_hash_delete.
Qed.

Definition change_ok (kr : (Element * Element) * option Element) : Prop :=
  from_option (λ r, r = hash_merge [kr.1.1; kr.1.2]) True kr.2.

Lemma db_inv_hash_inserts m db l :
  Forall change_ok l → db_inv m db → db_inv m (db_write db (l ≫= hash_insert_ops)).
Proof.
  intros Hl. revert db.
  induction Hl as [|[[x y] [r|]] l Hx Hl IH]; intros db Hi; [done|..];
    rewrite bind_cons, db_write_app; apply IH; [|done].
  unfold change_ok in Hx. simpl in Hx. subst r. by apply db_inv_hash_put.
Qed.

Lemma hash_changes_ok evs :
  Forall event_ok evs → Forall change_ok (map_to_list (hash_changes evs)).
Proof.
  intros Hev.
  cut (map_Forall (λ k r, change_ok (k, r)) (hash_changes evs)).
  { intros Hm. apply Forall_forall. intros [k r] Hkr%elem_of_map_to_list. by apply Hm. }
  unfold hash_changes.
  assert (map_Forall (λ k r, change_ok (k, r)) (∅ : gmap (Element * Element) (option Element)))
    as H0 by apply map_Forall_empty.
  revert H0. generalize (∅ : gmap (Element * Element) (option Element)).
  induction Hev as [|ev evs Hx Hev IH]; intros g Hg; [done|]. simpl. apply IH.
  destruct ev as [x y|x y r]; apply map_Forall_insert_2; done.
Qed.

Lemma foldl_insert_union m (l : list (Element * V)) :
  foldl (λ m '(e, v), <[e := v]> m) m l =
  foldl (λ m '(e, v), <[e := v]> m) ∅ l ∪ m.
Proof.
  induction l as [|[e v] l IH] using rev_ind; simpl; [by rewrite (left_id_L ∅ (∪))|].
  rewrite !foldl_app. simpl. by rewrite IH, insert_union_l.
Qed.

Lemma foldl_insert_lookup (l : list (Element * V)) e v :
  NoDup l.*1 → foldl (λ m '(e, v), <[e := v]> m) (∅ : gmap Element V) l !! e = Some v ↔ (e, v) ∈ l.
Proof.
  induction l as [|[e' v'] l IH] using rev_ind; [rewrite elem_of_nil; done|].
  rewrite fmap_app, NoDup_app, foldl_app. simpl. intros (Hn & Hd & _).
  rewrite elem_of_app, list_elem_of_singleton, lookup_insert. case_decide as He.
  - subst e'. split; [intros [= ->]; by right|]. intros [Hl|[= ->]]; [|done].
    exfalso. apply (Hd e); [by apply (list_elem_of_fmap_2 fst _ (e, v))|by left].
  - rewrite IH by done. naive_solver.
Qed.

Lemma foldl_insert_map_to_list m (M : gmap Element V) :
  foldl (λ m '(e, v), <[e := v]> m) m (map_to_list M) = M ∪ m.
Proof.
  rewrite foldl_insert_union. f_equal. apply map_eq. intros e. apply option_eq. intros v.
  rewrite foldl_insert_lookup by apply NoDup_fst_map_to_list. apply elem_of_map_to_list.
Qed.

Lemma db_inv_batch m db (b : Batch V) evs :
  db_inv m db → Forall event_ok evs →
  db_inv (apply_entries m (entries b) (remove_entries b)) (db_write db (write_batch_of b evs)).
Proof.
  intros Hi Hev. unfold write_batch_of, apply_entries. rewrite !db_write_app.
  apply db_inv_hash_inserts; [by apply hash_changes_ok|]. apply db_inv_hash_removes.
  apply (db_inv_removes _ _ (remove_entries b)).
  rewrite foldl_insert_union, <-foldl_insert_map_to_list. by apply db_inv_inserts.
Qed.
End storage_inv.

(** * Round trip *)

Section round_trip.
Context `{FieldLib} (DEPTH : nat) (temp_noir : bool) {V : Type}.
Implicit Types (p : @Persistent V) (b : Batch V) (db : DB V) (m : gmap Element V).

(** The state of a persistent tree between operations. *)
Record wf_persistent p : Prop := {
  wp_tree : wf_tree DEPTH (p_tree p);
  wp_db : db_inv (tree_entries (p_tree p)) (p_db p);
}.

(** Two entries of a tree never share a slot. *)
Lemma entries_slots_nodup (t : Tree V SimpleHashCache) (l : list Element) :
  wf_tree DEPTH t → NoDup l → (∀ e, e ∈ l → is_Some (tree_entries t !! e)) →
  NoDup (slot DEPTH <$> l).
Proof.
  intros Hwf Hnd Hl. apply NoDup_fmap_2_strong; [|done].
  intros x y Hx%Hl%(wf_entry_slot DEPTH t x Hwf) Hy%Hl%(wf_entry_slot DEPTH t y Hwf) Hs.
  by rewrite <-Hx, <-Hy, Hs.
Qed.

Lemma collect_entries_ok (l : list (KeyFormat * ValueFormat V)) m db :
  db_inv m db → (∀ k x, (k, x) ∈ l → db !! k = Some x) → NoDup l.*1 →
  ∃ known kvs, collect_entries l = Ok (known, kvs) ∧ Forall known_ok known ∧
    NoDup kvs.*1 ∧
    (∀ e v, (e, v) ∈ kvs ↔ m !! e = Some v ∧ (KV1 e ∈ l.*1 ∨ KV2 (KElement e) ∈ l.*1)).
Proof.
  intros Hi. induction l as [|[k x] l IH]; intros Hl Hnd.
  { exists [], []. split_and!; [done|constructor|constructor|]. set_solver. }
  csimpl in Hnd. apply NoDup_cons in Hnd as [Hk Hnd].
  destruct IH as (known & kvs & Hc & Hkn & Hn & Hkvs); [set_solver|done|].
  assert (db !! k = Some x) as Hx by (apply Hl; by left).
  assert (∀ e v, k = KV1 e ∨ k = KV2 (KElement e) → meta x = Some v →
    ∃ kvs', collect_entries ((k, x) :: l) = Ok (known, kvs') ∧ NoDup kvs'.*1 ∧
      ∀ e0 v0, (e0, v0) ∈ kvs' ↔ m !! e0 = Some v0 ∧
        (KV1 e0 ∈ ((k, x) :: l).*1 ∨ KV2 (KElement e0) ∈ ((k, x) :: l).*1)) as Helem.
  { intros e v Hke Hv. exists ((e, v) :: kvs).
    assert (m !! e = Some v) as Hm.
    { destruct Hke as [-> | ->]; [apply (di_v1 _ _ Hi) in Hx|apply (di_v2 _ _ Hi) in Hx];
        destruct Hx as [_ ->]; done. }
    split; [|split].
    - simpl. rewrite Hc. destruct Hke as [-> | ->], x as [|[|]]; simplify_eq/=; done.
    - csimpl. apply NoDup_cons. split; [|done].
      intros ([e' v'] & ? & [_ Hin]%Hkvs)%list_elem_of_fmap. simplify_eq/=.
      assert (∀ k', k' ∈ l.*1 → is_Some (db !! k')) as Hdb.
      { intros k' ([? y] & -> & Hy)%list_elem_of_fmap. exists y. apply Hl. by right. }
      destruct (di_key _ _ Hi e') as [Hnone|Hnone];
        destruct Hke as [-> | ->]; try congruence; destruct Hin as [Hin|Hin]; try done;
        apply Hdb in Hin; rewrite Hnone in Hin; by destruct Hin.
    - intros e0 v0. csimpl. rewrite !elem_of_cons, Hkvs. split.
      + intros [[= -> ->]|[? ?]]; [|tauto]. split; [done|]. naive_solver.
      + intros [Hm0 Hor]. destruct (decide (e0 = e)) as [->|Hne].
        * left. congruence.
        * right. split; [done|]. naive_solver. }
  destruct k as [e|[e|y z]].
  - destruct (di_v1 _ _ Hi e x Hx) as [[v Hv] _].
    destruct (Helem e v (or_introl eq_refl) Hv) as (kvs' & ? & ? & ?). eauto 10.
  - destruct (di_v2 _ _ Hi e x Hx) as [[v Hv] _].
    destruct (Helem e v (or_intror eq_refl) Hv) as (kvs' & ? & ? & ?). eauto 10.
  - apply (di_known _ _ Hi) in Hx as ->. simpl. rewrite Hc. simpl.
    eexists _, kvs. split; [done|]. split_and!; [by constructor|done|].
    intros e v. csimpl. rewrite !elem_of_cons, Hkvs. naive_solver.
Qed.

Lemma load_tree_ok (t0 : Tree V SimpleHashCache) db :
  wf_tree DEPTH t0 → db_inv (tree_entries t0) db →
  ∃ t, load_tree DEPTH temp_noir db = Ok t ∧ wf_tree DEPTH t ∧
       tree_entries t = tree_entries t0 ∧ root_hash t = root_hash t0.
Proof.
  intros Hwf Hi.
  destruct (collect_entries_ok (map_to_list db) _ db Hi) as (known & kvs & Hc & Hkn & Hnd & Hkvs).
  { intros k x. by rewrite elem_of_map_to_list. }
  { apply NoDup_fst_map_to_list. }
  assert (∀ e v, (e, v) ∈ kvs ↔ tree_entries t0 !! e = Some v) as Hkvs'.
  { intros e v. rewrite Hkvs. split; [tauto|]. intros Hm. split; [done|].
    assert (∀ k, is_Some (db !! k) → k ∈ (map_to_list db).*1) as Hin.
    { intros k [x Hx%elem_of_map_to_list]. by apply (list_elem_of_fmap_2 fst _ (k, x)). }
    destruct (db !! KV1 e) as [x|] eqn:E1; [left; apply Hin; by rewrite E1|].
    destruct (db !! KV2 (KElement e)) as [x|] eqn:E2; [right; apply Hin; by rewrite E2|].
    by rewrite (di_dom _ _ Hi) in Hm. }
  assert (∀ e, e ∈ kvs.*1 → is_Some (tree_entries t0 !! e)) as Hdom.
  { intros e ([e' v] & -> & He%Hkvs')%list_elem_of_fmap. eauto. }
  unfold load_tree. rewrite Hc. simpl. unfold provide_known_hashes. simpl.
  set (c := mk_simple ∅ (merge_sort key_le known) metrics_default).
  assert (cache_inv c) as Hcache.
  { split; [simpl; by rewrite merge_sort_Permutation|apply map_Forall_empty]. }
  pose proof (insert_all_spec DEPTH batch_new kvs (batch_new_wf DEPTH)) as Hb.
  change (batch_elements batch_new) with (@nil Element) in Hb. rewrite app_nil_r in Hb.
  pose proof (entries_slots_nodup t0 kvs.*1 Hwf Hnd Hdom) as Hslots.
  destruct (insert_all DEPTH batch_new kvs) as [b|cs|]; [|tauto|done].
  destruct Hb as (_ & Hwb & Hent & Hrem). simpl in Hent, Hrem |- *.
  assert (wf_tree DEPTH (new_with_cache (V := V) DEPTH c)) as Hnew
    by (apply new_with_cache_wf; [apply (wf_depth _ _ Hwf)|done]).
  destruct (insert_batch_ok DEPTH temp_noir (new_with_cache DEPTH c) b Hnew)
    as (t & evs & -> & Hwf' & He & _).
  { split; [done| | |].
    - intros e. unfold batch_elements, insert_elements, remove_elements.
      rewrite Hent, Hrem, app_nil_r. intros [v Hv]%Hdom.
      apply mk_is_Some, (wf_entries _ _ Hwf) in Hv. tauto.
    - intros e x _. simpl. rewrite lookup_empty. by intros [].
    - unfold remove_elements. rewrite Hrem. set_solver. }
  exists t. simpl. split; [done|]. split; [done|].
  assert (tree_entries t = tree_entries t0) as Hteq.
  { rewrite He, Hent, Hrem. unfold apply_entries. cbn [foldl new_with_cache tree_entries].
    apply map_eq. intros e. apply option_eq. intros v.
    by rewrite foldl_insert_lookup, Hkvs'. }
  split; [done|]. rewrite (root_hash_spec DEPTH t Hwf'), (root_hash_spec DEPTH t0 Hwf).
  by rewrite Hteq.
Qed.

Lemma persistent_new_wf : (1 ≤ DEPTH ≤ 257)%nat → wf_persistent (persistent_new DEPTH).
Proof.
  intros Hd. split; [apply new_with_cache_wf; [done|exact cache_inv_default]|apply db_inv_empty].
Qed.

Lemma batch_is_empty_elements b : batch_is_empty b = true → entries b = [] ∧ remove_entries b = [].
Proof. unfold batch_is_empty. destruct (entries b), (remove_entries b); done. Qed.

Lemma persistent_insert_batch_ok p b :
  wf_persistent p → valid_batch DEPTH (p_tree p) b →
  ∃ p', persistent_insert_batch DEPTH temp_noir p b = (p', Ok tt) ∧ wf_persistent p' ∧
    tree_entries (p_tree p') =
      apply_entries (tree_entries (p_tree p)) (entries b) (remove_entries b).
Proof.
  intros [Hwf Hdb] Hvb. unfold persistent_insert_batch.
  destruct (batch_is_empty b) eqn:Hb.
  { apply batch_is_empty_elements in Hb as [-> ->]. by exists p. }
  destruct (insert_batch_ok DEPTH temp_noir (p_tree p) b Hwf Hvb)
    as (t & evs & -> & Hwf' & He & Hev).
  eexists. split; [done|]. split; [|done]. split; [done|]. simpl. rewrite He.
  by apply db_inv_batch.
Qed.

(** C31: Inserting a valid batch into a persistent tree succeeds, and the
    database written with it is complete: loading that database gives a
    well-formed tree with the same entries and the same root hash as the tree
    in memory, namely the old entries with the batch applied. *)
Theorem insert_batch_durable p b :
  wf_persistent p → valid_batch DEPTH (p_tree p) b →
  ∃ p' p'', persistent_insert_batch DEPTH temp_noir p b = (p', Ok tt) ∧ wf_persistent p' ∧
    persistent_load DEPTH temp_noir (p_db p') = Ok p'' ∧ wf_persistent p'' ∧
    tree_entries (p_tree p'') =
      apply_entries (tree_entries (p_tree p)) (entries b) (remove_entries b) ∧
    tree_entries (p_tree p') = tree_entries (p_tree p'') ∧
    root_hash (p_tree p') = root_hash (p_tree p'').
Proof.
  intros Hwf Hvb.
  destruct (persistent_insert_batch_ok p b Hwf Hvb) as (p' & Hp & Hwf' & He).
  destruct (load_tree_ok (p_tree p') (p_db p') (wp_tree _ Hwf') (wp_db _ Hwf'))
    as (t & Ht & Hwt & Het & Hr).
  exists p', (mk_persistent t (p_db p')). unfold persistent_load. rewrite Ht. simpl.
  split_and!; try done; [|by rewrite Het]. split; [done|]. simpl. rewrite Het.
  apply (wp_db _ Hwf').
Qed.

Lemma db_inv_known_puts m db (hs : list KnownHash) :
  Forall known_ok hs → db_inv m db →
  db_inv m (db_write db ((λ h, Put (KV2 (KKnownHash (kh_left h) (kh_right h)))
                                   (VV2 (VKnownHash (kh_result h)))) <$> hs)).
Proof.
  intros Hhs. revert db. induction Hhs as [|h hs Hh Hhs IH]; intros db Hi; [done|].
  csimpl. apply IH. rewrite Hh. by apply db_inv_hash_put.
Qed.

(** [persist_hashes] never panics on a tree between operations, changes no
    entry of the database, and leaves a database that still loads to the same
    entries and root hash. *)
Theorem persist_hashes_safe p :
  wf_persistent p →
  ∃ p' p'', persist_hashes p = Ok p' ∧ wf_persistent p' ∧ p_tree p' = p_tree p ∧
    (∀ e, p_db p' !! KV2 (KElement e) = p_db p !! KV2 (KElement e) ∧
          p_db p' !! KV1 e = p_db p !! KV1 e) ∧
    persistent_load DEPTH temp_noir (p_db p') = Ok p'' ∧
    tree_entries (p_tree p'') = tree_entries (p_tree p) ∧
    root_hash (p_tree p'') = root_hash (p_tree p).
Proof.
  intros [Hwf Hdb]. unfold persist_hashes, synchronize_hashes, tree_known_hashes.
  destruct (known_hashes_ok DEPTH DEPTH [] (tree (p_tree p)) (wf_node _ _ Hwf)
              (wf_clean _ _ Hwf) (wf_hashes _ _ Hwf)) as (ks & -> & Hks). simpl.
  set (hs := filter _ ks). set (puts := _ <$> hs).
  assert (db_inv (tree_entries (p_tree p)) (db_write (p_db p) puts)) as Hdb'.
  { apply db_inv_known_puts; [|done]. rewrite Forall_forall in Hks |- *.
    intros h [_ Hh]%list_elem_of_filter. by apply Hks. }
  destruct (load_tree_ok (p_tree p) _ Hwf Hdb') as (t & Ht & Hwt & Het & Hr).
  eexists _, _. split; [done|]. unfold persistent_load. simpl. rewrite Ht. simpl.
  split_and!; try done. clear. unfold puts. generalize hs (p_db p). intros l.
  induction l as [|h l IH]; intros db e; csimpl; [done|].
  destruct (IH (<[KV2 (KKnownHash (kh_left h) (kh_right h)) := VV2 (VKnownHash (kh_result h))]> db) e)
    as [IH1 IH2]. split; etrans; [apply IH1| |apply IH2|]; by rewrite lookup_insert_ne.
Qed.
End round_trip.

(** * Witnesses *)

Definition exp_new : @Persistent Z := persistent_new 4.
Definition exp_batch : Batch Z := mk_batch [(1, 10); (2, 20)] [] (list_to_set [slot 4 1; slot 4 2]).

Lemma exp_new_wf : wf_persistent 4 exp_new.
Proof. apply persistent_new_wf. lia. Qed.

Lemma exp_batch_valid : valid_batch 4 (p_tree exp_new) exp_batch.
Proof.
  split.
  - split; [by vm_compute|]. by apply (bool_decide_unpack _).
  - intros e. rewrite list_elem_of_In. simpl. intros [<-|[<-|[]]]; done.
  - intros e x _ [? ?]. done.
  - intros e. unfold remove_elements. simpl. by rewrite elem_of_nil.
Qed.

Lemma insert_batch_durable_witness :
  ∃ p' p'', persistent_insert_batch 4 false exp_new exp_batch = (p', Ok tt) ∧ wf_persistent 4 p' ∧
    persistent_load 4 false (p_db p') = Ok p'' ∧ wf_persistent 4 p'' ∧
    tree_entries (p_tree p'') = apply_entries ∅ [(1, 10); (2, 20)] [] ∧
    tree_entries (p_tree p') = tree_entries (p_tree p'') ∧
    root_hash (p_tree p') = root_hash (p_tree p'').
Proof. exact (insert_batch_durable 4 false exp_new exp_batch exp_new_wf exp_batch_valid). Defined.

Definition exp_two : @Persistent Z := (persistent_insert_batch 4 false exp_new exp_batch).1.

Lemma exp_two_wf : wf_persistent 4 exp_two.
Proof.
  destruct (persistent_insert_batch_ok 4 false exp_new exp_batch exp_new_wf exp_batch_valid)
    as (p' & Hp & Hwf & _).
  unfold exp_two. by rewrite Hp.
Qed.

Lemma persist_hashes_safe_witness :
  ∃ p' p'', persist_hashes exp_two = Ok p' ∧ wf_persistent 4 p' ∧ p_tree p' = p_tree exp_two ∧
    (∀ e, p_db p' !! KV2 (KElement e) = p_db exp_two !! KV2 (KElement e) ∧
          p_db p' !! KV1 e = p_db exp_two !! KV1 e) ∧
    persistent_load 4 false (p_db p') = Ok p'' ∧
    tree_entries (p_tree p'') = tree_entries (p_tree exp_two) ∧
    root_hash (p_tree p'') = root_hash (p_tree exp_two).
Proof. exact (persist_hashes_safe 4 false exp_two exp_two_wf). Defined.
