(* ===== verification/Utxo.v ===== *)
(** Notes and UTXO transactions (pkg/zk-primitives/src: note.rs, input_note.rs,
    utxo.rs, address.rs, util.rs): commitments, the messages of each kind of
    transaction and their decoding by the node.

    Arithmetic on elements is that of a release build: [+] and [-] wrap at 256
    bits.  [Note::new] draws [psi] at random; the model takes it as an argument
    ([new_with_psi]). *)
From S2P Require Import Prelude Element SignedElement MerkleHash.

(** * Notes *)

Record Note := mk_note {
  note_kind : Element;
  contract : Element;
  address : Element;
  psi : Element;
  value : Element;
}.

Record InputNote := mk_input_note { note : Note; secret_key : Element }.

(** [generate_note_kind_bridge_evm]; [address] is the 20 bytes of an [H160]. *)
Definition generate_note_kind_bridge_evm (chain : Z) (address : list Z) : Element :=
  from_be_bytes (be_bytes 2 2 ++ be_bytes 8 chain ++ address ++ [0; 0]).

Definition polygon_usdc_address : list Z :=
  [0x3c; 0x49; 0x9c; 0x54; 0x2c; 0xef; 0x5e; 0x38; 0x11; 0xe1;
   0x19; 0x2c; 0xe7; 0x0d; 0x8c; 0xc0; 0x3d; 0x5c; 0x33; 0x59].
Definition bridged_polygon_usdc_note_kind : Element :=
  generate_note_kind_bridge_evm 137 polygon_usdc_address.

Definition new_with_psi (address value psi : Element) : Note :=
  mk_note 2 bridged_polygon_usdc_note_kind address psi value.

Definition padding_note : Note := mk_note 2 ZERO ZERO ZERO ZERO.
Definition input_padding_note : InputNote := mk_input_note padding_note ZERO.

Definition is_padding_note (n : Note) : bool :=
  bool_decide (contract n = ZERO) && bool_decide (value n = ZERO).

(** [bytes_to_elements]: asserts whole 32-byte chunks. *)
Definition bytes_to_elements (bytes : list Z) : outcome Empty_set (list Element) :=
  if decide (Z.of_nat (length bytes) mod 32 = 0)
  then Ok (from_be_bytes <$> chunks 32 bytes)
  else Panic "Input bytes length must be a multiple of 32".

(** * Transactions *)

Inductive UtxoKind := KindNull | KindSend | KindMint | KindBurn | KindNoSub.
#[export] Instance utxo_kind_eq_dec : EqDecision UtxoKind.
Proof. solve_decision. Defined.

Definition kind_of_u8 (v : Z) : UtxoKind :=
  match v with
  | 1 => KindSend
  | 2 => KindMint
  | 3 => KindBurn
  | 4 => KindNoSub
  | _ => KindNull
  end.
Definition u8_of_kind (k : UtxoKind) : Z :=
  match k with
  | KindSend => 1
  | KindMint => 2
  | KindBurn => 3
  | KindNoSub => 4
  | KindNull => 0
  end.

Record Utxo := mk_utxo {
  kind : UtxoKind;
  input_notes : InputNote * InputNote;
  output_notes : Note * Note;
  burn_address : option Element;
}.

Definition utxo_new_send (ins : InputNote * InputNote) (outs : Note * Note) : Utxo :=
  mk_utxo KindSend ins outs None.
Definition utxo_new_burn (ins : InputNote * InputNote) (evm_address : Element) : Utxo :=
  mk_utxo KindBurn ins (padding_note, padding_note) (Some evm_address).
Definition utxo_new_burn_no_sub (ins : InputNote * InputNote) (evm_address : Element) : Utxo :=
  mk_utxo KindNoSub ins (padding_note, padding_note) (Some evm_address).
Definition utxo_new_mint (outs : Note * Note) : Utxo :=
  mk_utxo KindMint (input_padding_note, input_padding_note) outs None.
Definition utxo_new_padding : Utxo :=
  mk_utxo KindNull (input_padding_note, input_padding_note) (padding_note, padding_note) None.

(** [UtxoPublicInput]: the arrays of two commitments as pairs. *)
Record UtxoPublicInput := mk_public_input {
  input_commitments : Element * Element;
  output_commitments : Element * Element;
  messages : list Element;
}.

Record UtxoProof := mk_utxo_proof {
  proof : list Z;
  public_inputs : UtxoPublicInput;
}.

Inductive UtxoKindMessages :=
| MsgNone
| MsgBurn (utxo_kind note_kind value burn_hash burn_address : Element)
| MsgMint (note_kind value mint_hash : Element).

Section utxo.
Context `{FieldLib}.

Definition get_address_for_private_key (private_key : Element) : Element :=
  hash_merge [private_key; ZERO].

Definition commitment (n : Note) : Element :=
  if decide (value n = ZERO) then ZERO
  else hash_merge [note_kind n; contract n; value n; address n; psi n; ZERO; ZERO].

Definition leaf_elements (u : Utxo) : list Element :=
  [commitment (note (input_notes u).1); commitment (note (input_notes u).2);
   commitment (output_notes u).1; commitment (output_notes u).2].

Definition utxo_mint_hash (u : Utxo) : Element :=
  hash_merge [psi (output_notes u).1; psi (output_notes u).2].
Definition utxo_burn_hash (u : Utxo) : Element := commitment (note (input_notes u).1).
Definition input_value (u : Utxo) : Element :=
  element_add (value (note (input_notes u).1)) (value (note (input_notes u).2)).
Definition output_value (u : Utxo) : Element :=
  element_add (value (output_notes u).1) (value (output_notes u).2).

Definition utxo_messages (u : Utxo) : outcome Empty_set (list Element) :=
  match kind u with
  | KindSend => Ok [1; ZERO; ZERO; ZERO; ZERO]
  | KindMint =>
      Ok [2; contract (output_notes u).1; element_sub (output_value u) (input_value u);
          utxo_mint_hash u; ZERO]
  | KindBurn =>
      let? burn := unwrap (burn_address u) "unwrap on None" in
      Ok [3; contract (note (input_notes u).1); element_sub (input_value u) (output_value u);
          utxo_burn_hash u; burn]
  | KindNoSub =>
      let? burn := unwrap (burn_address u) "unwrap on None" in
      Ok [4; contract (note (input_notes u).1); element_sub (input_value u) (output_value u);
          utxo_burn_hash u; burn]
  | KindNull => Ok [ZERO; ZERO; ZERO; ZERO; ZERO]
  end.

Definition utxo_public_inputs (u : Utxo) : outcome Empty_set UtxoPublicInput :=
  let? msgs := utxo_messages u in
  Ok (mk_public_input
        (commitment (note (input_notes u).1), commitment (note (input_notes u).2))
        (commitment (output_notes u).1, commitment (output_notes u).2) msgs).

(** ** UtxoPublicInput *)

Definition fields (p : UtxoPublicInput) : list Element :=
  [(input_commitments p).1; (input_commitments p).2;
   (output_commitments p).1; (output_commitments p).2] ++ messages p.
Definition public_input_bytes (p : UtxoPublicInput) : list Z := fields p ≫= to_be_bytes.
Definition commitments (p : UtxoPublicInput) : list Element :=
  [(input_commitments p).1; (input_commitments p).2;
   (output_commitments p).1; (output_commitments p).2].
Definition commit_hash (p : UtxoPublicInput) : Element := hash_merge (commitments p).
Definition public_input_hash (p : UtxoPublicInput) : Element := hash_merge (fields p).

Definition message (p : UtxoPublicInput) (i : nat) : Element := default ZERO (messages p !! i).

(** The last of the 32 big-endian bytes of the first message. *)
Definition public_input_kind (p : UtxoPublicInput) : UtxoKind :=
  kind_of_u8 (default 0 (to_be_bytes (message p 0) !! 31%nat)).

Definition kind_messages (p : UtxoPublicInput) : UtxoKindMessages :=
  match public_input_kind p with
  | KindNull | KindSend => MsgNone
  | KindMint => MsgMint (message p 1) (message p 2) (message p 3)
  | KindBurn | KindNoSub =>
      MsgBurn (message p 0) (message p 1) (message p 2) (message p 3) (message p 4)
  end.

Definition mint_burn_hash (p : UtxoPublicInput) : option Element :=
  match kind_messages p with
  | MsgMint _ _ h => Some h
  | MsgBurn _ _ _ h _ => Some h
  | MsgNone => None
  end.

Definition txn_hash (t : UtxoProof) : Element := public_input_hash (public_inputs t).
Definition txn_mint_hash (t : UtxoProof) : option Element :=
  match kind_messages (public_inputs t) with
  | MsgMint _ _ h => Some h
  | MsgBurn _ _ _ _ _ | MsgNone => None
  end.
Definition is_padding (t : UtxoProof) : bool :=
  bool_decide (public_input_kind (public_inputs t) = KindNull).

(** The arrays as lists, in array order. *)
Definition inputs (t : UtxoProof) : list Element :=
  [(input_commitments (public_inputs t)).1; (input_commitments (public_inputs t)).2].
Definition outputs (t : UtxoProof) : list Element :=
  [(output_commitments (public_inputs t)).1; (output_commitments (public_inputs t)).2].
End utxo.

(** * Properties *)

Section utxo_properties.
Context `{FieldLib}.

(** The messages a transaction of kind [k] carries, as the node decodes them. *)
Definition expected_messages (u : Utxo) : UtxoKindMessages :=
  match kind u with
  | KindNull | KindSend => MsgNone
  | KindMint =>
      MsgMint (contract (output_notes u).1)
        (element_sub (output_value u) (input_value u)) (utxo_mint_hash u)
  | KindBurn | KindNoSub =>
      MsgBurn (u8_of_kind (kind u)) (contract (note (input_notes u).1))
        (element_sub (input_value u) (output_value u)) (utxo_burn_hash u)
        (default ZERO (burn_address u))
  end.

(** The node decodes from the public inputs of a transaction exactly the
    kind the wallet built it with and, for mints and burns, the token, the
    amount (outputs less inputs, inputs less outputs), the hash and the burn
    address.  Building them fails only for a burn without a burn address. *)
Theorem kind_messages_roundtrip u :
  match utxo_public_inputs u with
  | Ok p => public_input_kind p = kind u ∧ kind_messages p = expected_messages u ∧
            commitments p = leaf_elements u ∧
            ((kind u = KindBurn ∨ kind u = KindNoSub) → is_Some (burn_address u))
  | Err _ => False
  | Panic _ => (kind u = KindBurn ∨ kind u = KindNoSub) ∧ burn_address u = None
  end.
Proof.
  unfold utxo_public_inputs, utxo_messages, expected_messages.
  destruct (kind u) eqn:Ek; simpl.
  3-5: destruct (burn_address u) as [burn|] eqn:Eb; simpl.
  all: try (split_and!; try done; naive_solver).
Qed.

Lemma chunks_fuel_concat (n fuel : nat) (ls : list (list Z)) :
  (0 < n)%nat → Forall (λ c, length c = n) ls → (length ls ≤ fuel)%nat →
  chunks_fuel fuel n (mjoin ls) = ls.
Proof.
  intros Hn Hls. revert fuel. induction Hls as [|c ls Hc Hls IH]; intros fuel Hf.
  { by destruct fuel. }
  destruct fuel as [|fuel]; simpl in *; [lia|].
  destruct c as [|x c]; [simpl in Hc; lia|]. cbn [app].
  change (x :: c ++ mjoin ls) with ((x :: c) ++ mjoin ls).
  rewrite take_app_length', drop_app_length' by done. f_equal. apply IH. lia.
Qed.

Lemma length_concat_chunks (n : nat) (ls : list (list Z)) :
  Forall (λ c, length c = n) ls → length (mjoin ls) = (n * length ls)%nat.
Proof. induction 1; csimpl; [lia|]. rewrite length_app. lia. Qed.

Lemma bytes_of_elements (es : list Element) :
  Forall wf_element es → bytes_to_elements (es ≫= to_be_bytes) = Ok es.
Proof.
  intros Hes. unfold bytes_to_elements.
  assert (es ≫= to_be_bytes = mjoin (to_be_bytes <$> es)) as ->.
  { clear. induction es as [|e es IH]; [done|]. by rewrite bind_cons, IH. }
  assert (Forall (λ c, length c = 32%nat) (to_be_bytes <$> es)) as Hlen.
  { apply Forall_fmap, Forall_true. intros e. apply to_be_bytes_length. }
  pose proof (length_concat_chunks 32 _ Hlen) as Hl. rewrite length_fmap in Hl.
  rewrite decide_True by (rewrite Hl; replace (Z.of_nat (32 * length es)) with
    (Z.of_nat (length es) * 32) by lia; by apply Z_mod_mult).
  f_equal. unfold chunks. rewrite chunks_fuel_concat; [|lia|done|rewrite Hl, length_fmap; lia].
  rewrite <-list_fmap_compose. clear Hlen Hl.
  induction Hes as [|e es He Hes IH]; csimpl; [done|].
  rewrite IH. f_equal. by apply from_to_be_bytes.
Qed.

(** The byte encoding of the public inputs that is handed to the proving
    backend decodes, 32 bytes at a time, to the nine fields that are hashed
    into the transaction's identifier. *)
Theorem public_input_bytes_roundtrip p :
  Forall wf_element (fields p) → bytes_to_elements (public_input_bytes p) = Ok (fields p).
Proof. apply bytes_of_elements. Qed.
End utxo_properties.

Lemma public_input_bytes_roundtrip_witness :
  let p := mk_public_input (1, 2) (3, MODULUS) [2; 4; 5; 6; 0] in
  bytes_to_elements (public_input_bytes p) = Ok (fields p).
Proof.
  apply (public_input_bytes_roundtrip (mk_public_input (1, 2) (3, MODULUS) [2; 4; 5; 6; 0])).
  repeat (apply Forall_cons; split; [by apply (bool_decide_unpack (in_width 256 _))|]).
  constructor.
Defined.
