(* ===== verification/BlockStore.v ===== *)
(** The block store (pkg/block-store/src: lib.rs, keys.rs, list.rs, values.rs,
    migration.rs): the key space of the rocksdb database, writing and reading
    blocks, and range listing with cursors.

    The database maps key bytes to decoded values, each tagged with the Rust
    type it is the encoding of; reading a value of another type is the
    [WireMessage] error a failed decoding gives.  Errors of rocksdb itself are
    not modelled.  rocksdb iterates in the lexicographic order of the bytes. *)
From S2P Require Import Prelude Pagination Element MerkleHash Utxo.

(** * Interfaces (traits [Block] and [Transaction]) *)

Class Transaction (T : Type) := {
  st_txn_hash : T → list Z;
  input_elements : T → list Element;
  output_elements : T → list Element;
  st_mint_hash : T → option Element;
}.

Class StoreBlock (B T : Type) := {
  block_height : B → Z;
  block_hash : B → list Z;
  txns : B → list T;
}.
Arguments txns {B T _} _.
#[global] Hint Mode StoreBlock ! - : typeclass_instances.

(** * Keys *)

Inductive ElementHistoryKind := HistInput | HistOutput.

Inductive Key :=
| KBlock (h : Z)
| KMaxHeight
| KBlockHashToHeight (block_hash : list Z)
| KPendingBlock
| KTxnByHash (txn_hash : list Z)
| KStoreVersion
| KNonEmptyBlock (h : Z)
| KLockedElement (locked : list Z)
| KElementHistory (e : Element) (kind : ElementHistoryKind)
| KMintHash (mint_hash : Element).

Inductive StoreError :=
| InvalidKey
| InvalidVersion (v : Z)
| WireMessageError.

Definition history_byte (k : ElementHistoryKind) : Z :=
  match k with HistInput => 0 | HistOutput => 1 end.
Definition history_of_byte (b : Z) : option ElementHistoryKind :=
  match b with 0 => Some HistInput | 1 => Some HistOutput | _ => None end.

Definition key_kind (k : Key) : Z :=
  match k with
  | KBlock _ => 0
  | KMaxHeight => 1
  | KBlockHashToHeight _ => 2
  | KPendingBlock => 3
  | KTxnByHash _ => 4
  | KStoreVersion => 5
  | KNonEmptyBlock _ => 6
  | KLockedElement _ => 7
  | KElementHistory _ _ => 8
  | KMintHash _ => 9
  end.

Definition key_serialize (k : Key) : list Z :=
  key_kind k ::
  match k with
  | KBlock h | KNonEmptyBlock h => be_bytes 8 h
  | KMaxHeight | KPendingBlock | KStoreVersion => []
  | KBlockHashToHeight x | KTxnByHash x | KLockedElement x => x
  | KElementHistory e kind => to_be_bytes e ++ [history_byte kind]
  | KMintHash m => to_be_bytes m
  end.

Definition serialize_immediate_successor (k : Key) : list Z := key_serialize k ++ [0].

(** [bytes[0..n]]: a slice out of range panics. *)
Definition slice_to (n : nat) (bytes : list Z) : outcome StoreError (list Z) :=
  if decide (n ≤ length bytes)%nat then Ok (take n bytes) else Panic "range end out of range".

Definition u64_from_be (bytes : list Z) : Z := little_endian_to_Z 8 (reverse bytes).

Definition key_deserialize (bytes : list Z) : outcome StoreError Key :=
  match bytes with
  | [] => Err InvalidKey
  | kind :: rest =>
      match kind with
      | 0 => let? b := slice_to 8 rest in Ok (KBlock (u64_from_be b))
      | 1 => Ok KMaxHeight
      | 2 => let? b := slice_to 32 rest in Ok (KBlockHashToHeight b)
      | 3 => Ok KPendingBlock
      | 4 => let? b := slice_to 32 rest in Ok (KTxnByHash b)
      | 5 => Ok KStoreVersion
      | 6 => let? b := slice_to 8 rest in Ok (KNonEmptyBlock (u64_from_be b))
      | 7 => let? b := slice_to 32 rest in Ok (KLockedElement b)
      | 8 => let? b := slice_to 32 rest in
             let? k := unwrap (rest !! 32%nat) "index out of bounds" in
             let? kind := unwrap (history_of_byte k) "unwrap on None" in
             Ok (KElementHistory (from_be_bytes b) kind)
      | 9 => let? b := slice_to 32 rest in Ok (KMintHash (from_be_bytes b))
      | _ => Err InvalidKey
      end
  end.

(** * The store *)

Record HistoryData := mk_history { hist_block_hash : list Z; hist_block_height : Z }.

Inductive DbValue (B T : Type) :=
| VBlock (b : B)
| VHeight (h : Z)
| VTxn (t : T)
| VHistory (d : HistoryData)
| VMint (d : HistoryData)
| VVersion (v : Z).
Arguments VBlock {B T} _.
Arguments VHeight {B T} _.
Arguments VTxn {B T} _.
Arguments VHistory {B T} _.
Arguments VMint {B T} _.
Arguments VVersion {B T} _.

Notation StoreDB B T := (gmap (list Z) (DbValue B T)).

Inductive BlockListOrder := LowestToHighest | HighestToLowest.
Definition is_indexed_order (o : BlockListOrder) : bool :=
  match o with LowestToHighest => true | HighestToLowest => false end.
Definition reverse_order (o : BlockListOrder) : BlockListOrder :=
  match o with LowestToHighest => HighestToLowest | HighestToLowest => LowestToHighest end.

(** Byte-wise lexicographic order. *)
Fixpoint lex_leb (a b : list Z) : bool :=
  match a, b with
  | [], _ => true
  | _ :: _, [] => false
  | x :: a', y :: b' => (x <? y) || ((x =? y) && lex_leb a' b')
  end.
Definition lex_le (a b : list Z) : Prop := lex_leb a b = true.
#[export] Instance lex_le_dec a b : Decision (lex_le a b).
Proof. unfold lex_le. apply _. Defined.
Definition lex_lt (a b : list Z) : Prop := ¬ lex_le b a.

Section store.
Context {B T : Type} `{!StoreBlock B T, !Transaction T}.
Implicit Types (db : StoreDB B T) (b : B) (t : T).

Definition store_put (db : StoreDB B T) (kx : list Z * DbValue B T) : StoreDB B T :=
  <[kx.1 := kx.2]> db.
Definition store_write db (l : list (list Z * DbValue B T)) : StoreDB B T :=
  foldl store_put db l.

(** ** Reads *)

Definition get_max_height db : outcome StoreError (option Z) :=
  match db !! key_serialize KMaxHeight with
  | None => Ok None
  | Some (VHeight h) => Ok (Some h)
  | Some _ => Panic "called Result::unwrap() on an Err value"
  end.

Definition store_get db (block_number : Z) : outcome StoreError (option B) :=
  match db !! key_serialize (KBlock block_number) with
  | None => Ok None
  | Some (VBlock b) => Ok (Some b)
  | Some _ => Err WireMessageError
  end.

Definition get_block_height_by_hash db (hash : list Z) : outcome StoreError (option Z) :=
  match db !! key_serialize (KBlockHashToHeight hash) with
  | None => Ok None
  | Some (VHeight h) => Ok (Some h)
  | Some _ => Panic "called Result::unwrap() on an Err value"
  end.

Definition get_pending_block db : outcome StoreError (option B) :=
  match db !! key_serialize KPendingBlock with
  | None => Ok None
  | Some (VBlock b) => Ok (Some b)
  | Some _ => Err WireMessageError
  end.

Definition get_txn_by_hash db (hash : list Z) : outcome StoreError (option T) :=
  match db !! key_serialize (KTxnByHash hash) with
  | None => Ok None
  | Some (VTxn t) => Ok (Some t)
  | Some _ => Err WireMessageError
  end.

Definition store_version db : outcome StoreError Z :=
  match db !! key_serialize KStoreVersion with
  | None => Ok 0
  | Some (VVersion v) => Ok v
  | Some _ => Panic "called Result::unwrap() on an Err value"
  end.

Definition set_store_version db (v : Z) : StoreDB B T :=
  <[key_serialize KStoreVersion := VVersion v]> db.

Definition get_element_history_with_kind db (e : Element) (kind : ElementHistoryKind)
  : outcome StoreError (option HistoryData) :=
  match db !! key_serialize (KElementHistory e kind) with
  | None => Ok None
  | Some (VHistory d) => Ok (Some d)
  | Some _ => Err WireMessageError
  end.

(** (Input History, Output History) *)
Definition get_element_history db (e : Element)
  : outcome StoreError (option HistoryData * option HistoryData) :=
  let? i := get_element_history_with_kind db e HistInput in
  let? o := get_element_history_with_kind db e HistOutput in
  Ok (i, o).

Definition get_mint_hash db (m : Element) : outcome StoreError (option HistoryData) :=
  match db !! key_serialize (KMintHash m) with
  | None => Ok None
  | Some (VMint d) => Ok (Some d)
  | Some _ => Err WireMessageError
  end.

(** ** Writes *)

Definition latest_version : Z := 1.
Definition store_create : StoreDB B T := set_store_version ∅ latest_version.

Definition txn_entries b : list (list Z * DbValue B T) :=
  (λ t, (key_serialize (KTxnByHash (st_txn_hash t)), VTxn t)) <$> txns b.

Definition non_empty_entries b : list (list Z * DbValue B T) :=
  match txns b with
  | [] => []
  | _ => [(key_serialize (KNonEmptyBlock (block_height b)), VBlock b)]
  end.

Definition history_entries b t : list (list Z * DbValue B T) :=
  let data := mk_history (block_hash b) (block_height b) in
  ((λ ek : Element * ElementHistoryKind,
      (key_serialize (KElementHistory ek.1 ek.2), VHistory data)) <$>
    (((λ e, (e, HistInput)) <$> input_elements t) ++
     ((λ e, (e, HistOutput)) <$> output_elements t))) ++
  match st_mint_hash t with
  | Some m => [(key_serialize (KMintHash m), VMint data)]
  | None => []
  end.

Definition store_set db b : outcome StoreError (StoreDB B T) :=
  let height := block_height b in
  let? max_height := get_max_height db in
  Ok (store_write db
    ([(key_serialize (KBlock height), VBlock b)] ++
     (if match max_height with None => true | Some m => m <? height end
      then [(key_serialize KMaxHeight, VHeight height)] else []) ++
     [(key_serialize (KBlockHashToHeight (block_hash b)), VHeight height)] ++
     txn_entries b ++ non_empty_entries b ++ (txns b ≫= history_entries b))).

(** ** Listing *)

Definition entry_le (x y : list Z * DbValue B T) : Prop := lex_le x.1 y.1.
#[export] Instance entry_le_dec x y : Decision (entry_le x y).
Proof. unfold entry_le. apply _. Defined.

(** The rocksdb iterator between an inclusive lower and an exclusive upper bound. *)
Definition db_range db (lower upper : list Z) : list (list Z * DbValue B T) :=
  merge_sort entry_le
    (filter (λ kx, lex_le lower kx.1 ∧ ¬ lex_le upper kx.1) (map_to_list db)).

Definition min_height : Z := 0.
Definition max_height : Z := u64_max.

Definition list_item (kx : list Z * DbValue B T) : outcome StoreError (Key * B) :=
  let? key := match key_deserialize kx.1 with Err _ => Err InvalidKey | o => o end in
  match kx.2 with
  | VBlock b => Ok (key, b)
  | _ => Err WireMessageError
  end.

(** [ListableKey::list] and [List::into_iterator]; [mk] is [to_key] of
    [KeyBlock] or of [KeyNonEmptyBlock]. *)
Definition key_list (mk : Z → Key) db (start end_ : Bound Z) (order : BlockListOrder)
  : list (outcome StoreError (Key * B)) :=
  let lower_bound := match start with
                     | Included h => key_serialize (mk h)
                     | Excluded h => serialize_immediate_successor (mk h)
                     | Unbounded => key_serialize (mk min_height)
                     end in
  let upper_bound := match end_ with
                     | Included h => serialize_immediate_successor (mk h)
                     | Excluded h => key_serialize (mk h)
                     | Unbounded => serialize_immediate_successor (mk max_height)
                     end in
  let iter := db_range db lower_bound upper_bound in
  list_item <$> (if is_indexed_order order then iter else reverse iter).

(** [collect::<Result<Vec<_>>>]. *)
Fixpoint collect_results {A} (l : list (outcome StoreError A)) : outcome StoreError (list A) :=
  match l with
  | [] => Ok []
  | x :: l' => let? a := x in let? rest := collect_results l' in Ok (a :: rest)
  end.

Definition key_list_paginated (mk : Z → Key) db (cursor : option (CursorChoice Z))
    (order : BlockListOrder) (limit : nat) : outcome StoreError (list (Key * B)) :=
  let '(start, end_) :=
    match cursor with
    | None => (Unbounded, Unbounded)
    | Some (CursorBefore before) => (Unbounded, before_to_bound before)
    | Some (CursorAfter after) => (after_to_bound after, Unbounded)
    end in
  let '(start, end_) := if is_indexed_order order then (start, end_) else (end_, start) in
  let '(reverse_results, order) :=
    match cursor with
    | None | Some (CursorAfter _) => (false, order)
    | Some (CursorBefore _) => (true, reverse_order order)
    end in
  let? results := collect_results (take limit (key_list mk db start end_ order)) in
  Ok (if (reverse_results : bool) then reverse results else results).

Definition block_item (kb : Key * B) : outcome StoreError (Z * B) :=
  match kb.1 with KBlock h => Ok (h, kb.2) | _ => Err InvalidKey end.
Definition non_empty_item (kb : Key * B) : outcome StoreError (Z * B) :=
  match kb.1 with KNonEmptyBlock h => Ok (h, kb.2) | _ => Err InvalidKey end.

Definition store_list db (start end_ : Bound Z) (order : BlockListOrder)
  : list (outcome StoreError (Z * B)) :=
  (λ r, let? kb := r in block_item kb) <$> key_list KBlock db start end_ order.
Definition store_list_non_empty db (start end_ : Bound Z) (order : BlockListOrder)
  : list (outcome StoreError (Z * B)) :=
  (λ r, let? kb := r in non_empty_item kb) <$> key_list KNonEmptyBlock db start end_ order.
Definition store_list_paginated db cursor order limit
  : outcome StoreError (list (outcome StoreError (Z * B))) :=
  let? l := key_list_paginated KBlock db cursor order limit in Ok (block_item <$> l).
Definition store_list_non_empty_paginated db cursor order limit
  : outcome StoreError (list (outcome StoreError (Z * B))) :=
  let? l := key_list_paginated KNonEmptyBlock db cursor order limit in Ok (non_empty_item <$> l).

(** ** Migration *)

Fixpoint migrate_blocks db (l : list (outcome StoreError (Z * B)))
  : outcome StoreError (StoreDB B T) :=
  match l with
  | [] => Ok db
  | r :: l' =>
      let? kb := r in
      migrate_blocks (store_write db (txn_entries kb.2 ++ non_empty_entries kb.2)) l'
  end.
Definition migrate_to_v1 db : outcome StoreError (StoreDB B T) :=
  let? db' := migrate_blocks db (store_list db Unbounded Unbounded LowestToHighest) in
  Ok (set_store_version db' 1).

(** The [loop]: version 0 is migrated to version 1, version 1 is current. *)
Definition migrate db : outcome StoreError (StoreDB B T) :=
  let? version := store_version db in
  match version with
  | 0 =>
      let? db' := migrate_to_v1 db in
      let? version' := store_version db' in
      match version' with
      | 1 => Ok db'
      | other => Err (InvalidVersion other)
      end
  | 1 => Ok db
  | other => Err (InvalidVersion other)
  end.
End store.

(** * Key encoding *)

Definition bytes32 (l : list Z) : Prop := length l = 32%nat ∧ Forall is_byte l.
#[export] Instance bytes32_dec l : Decision (bytes32 l).
Proof. unfold bytes32, is_byte. apply _. Defined.

Definition wf_key (k : Key) : Prop :=
  match k with
  | KBlock h | KNonEmptyBlock h => in_width 64 h
  | KMaxHeight | KPendingBlock | KStoreVersion => True
  | KBlockHashToHeight x | KTxnByHash x | KLockedElement x => bytes32 x
  | KElementHistory e _ | KMintHash e => wf_element e
  end.

Lemma be_bytes_length n x : 0 ≤ n → length (be_bytes n x) = Z.to_nat n.
Proof.
  intros. unfold be_bytes. rewrite length_reverse. apply Nat2Z.inj.
  rewrite length_Z_to_little_endian by lia. lia.
Qed.

Lemma u64_be_roundtrip h : in_width 64 h → u64_from_be (be_bytes 8 h) = h.
Proof.
  intros Hh. unfold u64_from_be, be_bytes. rewrite reverse_involutive.
  rewrite little_endian_to_Z_to_little_endian by lia. by apply Z.mod_small.
Qed.

Lemma slice_to_all n l : length l = n → slice_to n l = Ok l.
Proof. intros <-. unfold slice_to. rewrite decide_True by lia. by rewrite firstn_all. Qed.

Lemma slice_to_app n l k : length l = n → slice_to n (l ++ k) = Ok l.
Proof.
  intros <-. unfold slice_to. rewrite decide_True by (rewrite length_app; lia).
  by rewrite take_app_length.
Qed.

Lemma key_roundtrip_ok k : wf_key k → key_deserialize (key_serialize k) = Ok k.
Proof.
  unfold key_serialize, key_deserialize.
  destruct k as [h| |x| |x| |h|x|e kd|e]; cbn [key_kind wf_key]; intros Hk; try done.
  - rewrite slice_to_all by (by rewrite be_bytes_length). simpl. by rewrite u64_be_roundtrip.
  - by rewrite slice_to_all by apply Hk.
  - by rewrite slice_to_all by apply Hk.
  - rewrite slice_to_all by (by rewrite be_bytes_length). simpl. by rewrite u64_be_roundtrip.
  - by rewrite slice_to_all by apply Hk.
  - rewrite slice_to_app by apply to_be_bytes_length. cbn.
    rewrite lookup_app_r by (rewrite to_be_bytes_length; lia).
    rewrite to_be_bytes_length. destruct kd; simpl; by rewrite from_to_be_bytes.
  - rewrite slice_to_all by apply to_be_bytes_length. simpl. by rewrite from_to_be_bytes.
Qed.

Lemma key_serialize_inj k1 k2 :
  wf_key k1 → wf_key k2 → key_serialize k1 = key_serialize k2 → k1 = k2.
Proof.
  intros H1%key_roundtrip_ok H2%key_roundtrip_ok Heq. rewrite Heq, H2 in H1. by injection H1.
Qed.

(** The lexicographic order of big-endian numbers of one length is the order of
    the numbers. *)

Lemma be_cons x l :
  u64_from_be (x :: l) = Z.lor (u64_from_be l) (x ≪ (8 * Z.of_nat (length l))).
Proof.
  unfold u64_from_be. rewrite reverse_cons, le_to_Z_app by lia. simpl.
  rewrite length_reverse, Z.shiftl_0_l, Z.lor_0_r. do 2 f_equal; lia.
Qed.

Lemma be_bound l : Forall is_byte l → 0 ≤ u64_from_be l < 2 ^ (8 * Z.of_nat (length l)).
Proof.
  intros Hl. unfold u64_from_be.
  pose proof (little_endian_to_Z_bound 8 (reverse l) ltac:(lia)) as Hb.
  rewrite length_reverse in Hb. rewrite Z.mul_comm. apply Hb. by rewrite Forall_reverse.
Qed.

Lemma be_cons_add x l :
  Forall is_byte l → u64_from_be (x :: l) = x * 2 ^ (8 * Z.of_nat (length l)) + u64_from_be l.
Proof.
  intros Hl. rewrite be_cons, Z.lor_comm. pose proof (be_bound l Hl) as Hb.
  rewrite <-Z.shiftl_mul_pow2 by lia. symmetry.
  apply Z.add_nocarry_lor. apply Z.bits_inj'. intros n Hn. rewrite Z.land_spec, Z.bits_0.
  destruct (Z.ltb_spec n (8 * Z.of_nat (length l))).
  - by rewrite Z.shiftl_spec_low by done.
  - assert (Z.testbit (u64_from_be l) n = false) as ->; [|by rewrite andb_false_r].
    apply Z.testbit_false; [done|]. rewrite Z.div_small; [done|]. split; [lia|].
    eapply Z.lt_le_trans; [apply Hb|]. apply Z.pow_le_mono_r; lia.
Qed.

Lemma lex_be a b :
  length a = length b → Forall is_byte a → Forall is_byte b →
  lex_le a b ↔ u64_from_be a ≤ u64_from_be b.
Proof.
  unfold lex_le. intros Hlen Ha. revert b Hlen.
  induction Ha as [|x a Hx Ha IH]; intros [|y b] Hlen Hb; simplify_eq/=; [done|].
  apply Forall_cons in Hb as [Hy Hb]. rewrite !be_cons_add by done.
  specialize (IH b Hlen Hb). rewrite <-Hlen.
  pose proof (be_bound a Ha). pose proof (be_bound b Hb). rewrite <-Hlen in *.
  rewrite orb_true_iff, andb_true_iff, Z.ltb_lt, Z.eqb_eq, IH.
  split; [intros [?|[-> ?]]; nia|]. intros.
  destruct (Z.lt_total x y) as [?|[->|?]]; [by left|right; split; [done|lia]|nia].
Qed.

(** ** Keys of the two listable kinds *)

Definition listable (mk : Z → Key) : Prop := mk = KBlock ∨ mk = KNonEmptyBlock.

Lemma listable_serialize mk h :
  listable mk → key_serialize (mk h) = key_kind (mk 0) :: be_bytes 8 h.
Proof. by intros [-> | ->]. Qed.

Lemma listable_kind mk k :
  listable mk → key_kind k = key_kind (mk 0) → ∃ h, k = mk h.
Proof. intros [-> | ->]; destruct k; simpl; intros; try done; by eauto. Qed.

Lemma listable_wf mk h : listable mk → wf_key (mk h) ↔ in_width 64 h.
Proof. by intros [-> | ->]. Qed.

Lemma listable_inj mk h1 h2 : listable mk → mk h1 = mk h2 → h1 = h2.
Proof. intros [-> | ->]; congruence. Qed.

Lemma key_serialize_head k : ∃ rest, key_serialize k = key_kind k :: rest.
Proof. by eexists. Qed.

Lemma be_bytes_range n x : 0 ≤ n → Forall is_byte (be_bytes n x).
Proof.
  intros. unfold be_bytes. rewrite Forall_reverse. by apply Z_to_little_endian_bound.
Qed.

Lemma lex_cons x a y b : lex_le (x :: a) (y :: b) ↔ x < y ∨ (x = y ∧ lex_le a b).
Proof. unfold lex_le. simpl. rewrite orb_true_iff, andb_true_iff, Z.ltb_lt, Z.eqb_eq. done. Qed.

Lemma lex_be_bytes h1 h2 :
  in_width 64 h1 → in_width 64 h2 → lex_le (be_bytes 8 h1) (be_bytes 8 h2) ↔ h1 ≤ h2.
Proof.
  intros. rewrite lex_be; [|by rewrite !be_bytes_length|by apply be_bytes_range..].
  by rewrite !u64_be_roundtrip.
Qed.

(** The immediate successor of a key is above it and below every other key of
    the same length. *)
Lemma lex_succ a b : length a = length b → lex_le (a ++ [0]) b ↔ ¬ lex_le b a.
Proof.
  revert b. induction a as [|x a IH]; intros [|y b] Hlen; simplify_eq/=.
  - unfold lex_le. simpl. naive_solver.
  - rewrite !lex_cons, (IH b Hlen). destruct (Z.lt_total x y) as [?|[->|?]]; [|naive_solver lia|].
    + split; [|by left]. intros _ [?|[? _]]; lia.
    + split; [intros [?|[? _]]; lia|]. intros Hn. destruct Hn. by left.
Qed.

Lemma lex_succ_be h1 h2 :
  in_width 64 h1 → in_width 64 h2 → lex_le (be_bytes 8 h1 ++ [0]) (be_bytes 8 h2) ↔ h1 < h2.
Proof.
  intros. rewrite lex_succ by (by rewrite !be_bytes_length). rewrite lex_be_bytes by done. lia.
Qed.

Lemma lex_between x a b l :
  lex_le (x :: a) l → ¬ lex_le (x :: b) l → ∃ c, l = x :: c.
Proof.
  destruct l as [|y c]; [done|]. rewrite !lex_cons. intros [?|[-> ?]] Hn; [|by eauto].
  destruct Hn. by left.
Qed.

#[export] Instance lex_le_total : Total lex_le.
Proof.
  intros a. induction a as [|x a IH]; intros [|y b]; [by left|by left|by right|].
  rewrite !lex_cons. destruct (Z.lt_total x y) as [?|[->|?]]; [by left; left| |by right; left].
  destruct (IH b); [left|right]; by right.
Qed.

#[export] Instance lex_le_trans : Transitive lex_le.
Proof.
  intros a. induction a as [|x a IH]; intros [|y b] [|z c]; try done.
  rewrite !lex_cons. intros [?|[-> ?]] [?|[-> ?]]; [left; lia|by left|by left|right].
  split; [done|by eapply IH].
Qed.

#[global] Opaque key_serialize.

(** * Writing and reading blocks *)

Section store_set.
Context {B T : Type} `{!StoreBlock B T, !Transaction T}.
Implicit Types (db : StoreDB B T) (b : B) (t : T) (k : Key).

Record wf_txn t : Prop := {
  wt_hash : bytes32 (st_txn_hash t);
  wt_in : Forall wf_element (input_elements t);
  wt_out : Forall wf_element (output_elements t);
  wt_mint : ∀ m, st_mint_hash t = Some m → wf_element m;
}.
Record wf_store_block b : Prop := {
  wb_height : in_width 64 (block_height b);
  wb_hash : bytes32 (block_hash b);
  wb_txns : Forall wf_txn (txns b);
}.

(** The value under a key has the type the readers of that key expect. *)
Definition value_ok k (x : DbValue B T) : Prop :=
  match k, x with
  | KBlock h, VBlock b | KNonEmptyBlock h, VBlock b => block_height b = h
  | KPendingBlock, VBlock _ | KMaxHeight, VHeight _ | KBlockHashToHeight _, VHeight _
  | KTxnByHash _, VTxn _ | KElementHistory _ _, VHistory _ | KMintHash _, VMint _
  | KStoreVersion, VVersion _ => True
  | _, _ => False
  end.

Definition wf_store db : Prop :=
  ∀ bytes x, db !! bytes = Some x → ∃ k, bytes = key_serialize k ∧ wf_key k ∧ value_ok k x.

Lemma wf_store_lookup db k x :
  wf_store db → wf_key k → db !! key_serialize k = Some x → value_ok k x.
Proof.
  intros Hdb Hk (k' & Heq & Hk' & Hx)%Hdb. by apply key_serialize_inj in Heq as ->.
Qed.

Definition ser (kx : Key * DbValue B T) : list Z * DbValue B T := (key_serialize kx.1, kx.2).

Lemma ser_eq kx bytes x : (bytes, x) = ser kx → bytes = key_serialize kx.1 ∧ x = kx.2.
Proof. unfold ser. intros Heq. split; [exact (f_equal fst Heq)|exact (f_equal snd Heq)]. Qed.

Lemma store_write_lookup db (l : list (list Z * DbValue B T)) bytes :
  (∃ x, (bytes, x) ∈ l ∧ store_write db l !! bytes = Some x) ∨
  (bytes ∉ l.*1 ∧ store_write db l !! bytes = db !! bytes).
Proof.
  unfold store_write. induction l as [|[k x] l IH] using rev_ind; simpl.
  { right. split; [apply not_elem_of_nil|done]. }
  rewrite foldl_app. simpl. destruct (decide (k = bytes)) as [->|Hne].
  - left. exists x. unfold store_put. simpl. rewrite lookup_insert_eq.
    split; [|done]. rewrite elem_of_app. right. by left.
  - unfold store_put at 1 3. simpl. rewrite lookup_insert_ne by done.
    destruct IH as [(y & Hy & ?)|[Hn ?]]; [left; exists y; split; [|done]|right; split; [|done]].
    + rewrite elem_of_app. by left.
    + rewrite fmap_app, elem_of_app. simpl. rewrite list_elem_of_singleton. naive_solver.
Qed.

(** Lookup after a batch of writes under well-formed keys. *)
Lemma store_write_key db (l : list (Key * DbValue B T)) k :
  wf_key k → Forall (λ kx, wf_key kx.1) l →
  (∃ x, (k, x) ∈ l ∧ store_write db (ser <$> l) !! key_serialize k = Some x) ∨
  (k ∉ l.*1 ∧ store_write db (ser <$> l) !! key_serialize k = db !! key_serialize k).
Proof.
  intros Hk Hl. rewrite Forall_forall in Hl.
  destruct (store_write_lookup db (ser <$> l) (key_serialize k)) as [(x & Hx & Hs)|[Hn Hs]].
  - left. exists x. split; [|done]. apply list_elem_of_fmap in Hx as ([k' x'] & Heq & Hin).
    apply ser_eq in Heq as [Heq ->]. apply key_serialize_inj in Heq as ->; [done|done|].
    apply (Hl _ Hin).
  - right. split; [|done]. intros ([k' x] & -> & Hin)%list_elem_of_fmap. apply Hn.
    rewrite <-list_fmap_compose. by apply (list_elem_of_fmap_2 (fst ∘ ser) _ (k', x)).
Qed.

Lemma store_write_wf db (l : list (Key * DbValue B T)) :
  wf_store db → Forall (λ kx, wf_key kx.1 ∧ value_ok kx.1 kx.2) l →
  wf_store (store_write db (ser <$> l)).
Proof.
  intros Hdb Hl bytes x Hx.
  destruct (store_write_lookup db (ser <$> l) bytes) as [(y & Hy & Hs)|[_ Hs]].
  - rewrite Hs in Hx. injection Hx as ->.
    apply list_elem_of_fmap in Hy as ([k z] & Heq & Hin). apply ser_eq in Heq as [-> ->].
    rewrite Forall_forall in Hl. destruct (Hl _ Hin). eauto.
  - rewrite Hs in Hx. by apply Hdb.
Qed.

(** ** The entries of [set] *)

Definition history_of b : HistoryData := mk_history (block_hash b) (block_height b).

Definition history_keys b t : list (Key * DbValue B T) :=
  ((λ e, (KElementHistory e HistInput, VHistory (history_of b))) <$> input_elements t) ++
  ((λ e, (KElementHistory e HistOutput, VHistory (history_of b))) <$> output_elements t) ++
  ((λ m, (KMintHash m, VMint (history_of b))) <$> option_list (st_mint_hash t)).

Definition set_keys b (new_max : bool) : list (Key * DbValue B T) :=
  [(KBlock (block_height b), VBlock b)] ++
  (if new_max then [(KMaxHeight, VHeight (block_height b))] else []) ++
  [(KBlockHashToHeight (block_hash b), VHeight (block_height b))] ++
  ((λ t, (KTxnByHash (st_txn_hash t), VTxn t)) <$> txns b) ++
  (match txns b with [] => [] | _ => [(KNonEmptyBlock (block_height b), VBlock b)] end) ++
  (txns b ≫= history_keys b).

Definition exceeds (m : option Z) (h : Z) : bool :=
  match m with None => true | Some m => m <? h end.

Lemma store_set_keys db b m :
  get_max_height db = Ok m →
  store_set db b = Ok (store_write db (ser <$> set_keys b (exceeds m (block_height b)))).
Proof.
  intros Hm. unfold store_set. rewrite Hm. cbn [outcome_bind].
  fold (exceeds m (block_height b)). do 2 f_equal.
  unfold set_keys. rewrite !fmap_app. f_equal. f_equal; [by destruct (exceeds _ _)|].
  f_equal. f_equal; [unfold txn_entries; by rewrite <-list_fmap_compose|].
  f_equal; [unfold non_empty_entries; by destruct (txns b)|].
  generalize (txns b). intros l. induction l as [|t l IH]; [done|].
  rewrite !bind_cons, fmap_app, IH. f_equal. unfold history_entries, history_keys.
  rewrite !fmap_app, <-!list_fmap_compose, <-app_assoc. do 2 f_equal. by destruct (st_mint_hash t).
Qed.

Lemma set_keys_ok b nm :
  wf_store_block b → Forall (λ kx, wf_key kx.1 ∧ value_ok kx.1 kx.2) (set_keys b nm).
Proof.
  intros [Hh Hb Ht]. unfold set_keys. rewrite !Forall_app. split_and!.
  - by apply Forall_singleton.
  - destruct nm; [by apply Forall_singleton|constructor].
  - by apply Forall_singleton.
  - apply Forall_fmap. eapply Forall_impl; [exact Ht|]. intros t Hwt. split; [apply (wt_hash t Hwt)|done].
  - destruct (txns b); [constructor|by apply Forall_singleton].
  - apply Forall_bind. eapply Forall_impl; [exact Ht|]. intros t Hwt. unfold compose, history_keys.
    rewrite !Forall_app. split_and!; apply Forall_fmap.
    + eapply Forall_impl; [apply (wt_in t Hwt)|]. by intros.
    + eapply Forall_impl; [apply (wt_out t Hwt)|]. by intros.
    + apply Forall_forall. intros m Hm%elem_of_option_list. split; [by apply (wt_mint t Hwt)|done].
Qed.

Lemma set_keys_wf b nm : wf_store_block b → Forall (λ kx, wf_key kx.1) (set_keys b nm).
Proof. intros Hb. eapply Forall_impl; [by apply set_keys_ok|]. by intros ? []. Qed.

(** ** What [set] changes, key by key *)

Lemma elem_set_keys b nm k x :
  (k, x) ∈ set_keys b nm ↔
  match k with
  | KBlock h => h = block_height b ∧ x = VBlock b
  | KMaxHeight => nm = true ∧ x = VHeight (block_height b)
  | KBlockHashToHeight y => y = block_hash b ∧ x = VHeight (block_height b)
  | KTxnByHash y => ∃ t, t ∈ txns b ∧ y = st_txn_hash t ∧ x = VTxn t
  | KNonEmptyBlock h => txns b ≠ [] ∧ h = block_height b ∧ x = VBlock b
  | KElementHistory e HistInput =>
      (∃ t, t ∈ txns b ∧ e ∈ input_elements t) ∧ x = VHistory (history_of b)
  | KElementHistory e HistOutput =>
      (∃ t, t ∈ txns b ∧ e ∈ output_elements t) ∧ x = VHistory (history_of b)
  | KMintHash m => (∃ t, t ∈ txns b ∧ st_mint_hash t = Some m) ∧ x = VMint (history_of b)
  | KPendingBlock | KStoreVersion | KLockedElement _ => False
  end.
Proof.
  unfold set_keys. rewrite !elem_of_app, list_elem_of_bind. unfold history_keys.
  setoid_rewrite elem_of_app. setoid_rewrite elem_of_app. setoid_rewrite list_elem_of_fmap.
  rewrite !list_elem_of_singleton. setoid_rewrite elem_of_option_list.
  destruct nm; destruct (txns b) as [|t0 ts] eqn:Et; destruct k as [h| |y| |y| |h|y|e []|m];
    rewrite ?list_elem_of_singleton, ?elem_of_nil; naive_solver.
Qed.

Lemma get_max_height_total db :
  wf_store db → ∃ m, get_max_height db = Ok m.
Proof.
  intros Hdb. unfold get_max_height. destruct (db !! _) as [x|] eqn:E; [|by eauto].
  apply wf_store_lookup in E; [|done|done]. destruct x; try done. by eauto.
Qed.

Lemma history_total db e kd :
  wf_store db → wf_element e → ∃ d, get_element_history_with_kind db e kd = Ok d.
Proof.
  intros Hdb He. unfold get_element_history_with_kind. destruct (db !! _) as [x|] eqn:E; [|by eauto].
  apply wf_store_lookup in E; [|done|done]. destruct x; try done. by eauto.
Qed.
Lemma mint_total db m : wf_store db → wf_element m → ∃ d, get_mint_hash db m = Ok d.
Proof.
  intros Hdb Hm. unfold get_mint_hash. destruct (db !! _) as [x|] eqn:E; [|by eauto].
  apply wf_store_lookup in E; [|done|done]. destruct x; try done. by eauto.
Qed.

(** The elements and mints of a block. *)
Definition block_inputs b : list Element := txns b ≫= input_elements.
Definition block_outputs b : list Element := txns b ≫= output_elements.
Definition block_mints b : list Element := txns b ≫= (λ t, option_list (st_mint_hash t)).
Definition block_history b (kind : ElementHistoryKind) : list Element :=
  match kind with HistInput => block_inputs b | HistOutput => block_outputs b end.

Lemma elem_block_mints b m : m ∈ block_mints b ↔ ∃ t, t ∈ txns b ∧ st_mint_hash t = Some m.
Proof.
  unfold block_mints. rewrite list_elem_of_bind. setoid_rewrite elem_of_option_list. naive_solver.
Qed.

Lemma elem_block_history b kd e :
  e ∈ block_history b kd ↔
  ∃ t, t ∈ txns b ∧ e ∈ (match kd with HistInput => input_elements t | HistOutput => output_elements t end).
Proof.
  destruct kd; unfold block_history, block_inputs, block_outputs;
    rewrite list_elem_of_bind; naive_solver.
Qed.

(** What the reads return after [set], by key. *)
Record set_post db b db' : Prop := {
  sp_wf : wf_store db';
  sp_get : ∀ h, in_width 64 h →
    store_get db' h = if decide (h = block_height b) then Ok (Some b) else store_get db h;
  sp_max : get_max_height db' =
    let? m := get_max_height db in
    Ok (Some (match m with None => block_height b | Some m => Z.max m (block_height b) end));
  sp_hash : get_block_height_by_hash db' (block_hash b) = Ok (Some (block_height b));
  sp_hash_other : ∀ x, bytes32 x → x ≠ block_hash b →
    get_block_height_by_hash db' x = get_block_height_by_hash db x;
  sp_history : ∀ e kd, wf_element e →
    get_element_history_with_kind db' e kd =
    if decide (e ∈ block_history b kd) then Ok (Some (history_of b))
    else get_element_history_with_kind db e kd;
  sp_mint : ∀ m, wf_element m →
    get_mint_hash db' m =
    if decide (m ∈ block_mints b) then Ok (Some (history_of b)) else get_mint_hash db m;
  sp_txn : ∀ x, bytes32 x →
    (x ∉ st_txn_hash <$> txns b ∧ get_txn_by_hash db' x = get_txn_by_hash db x) ∨
    ∃ t, t ∈ txns b ∧ st_txn_hash t = x ∧ get_txn_by_hash db' x = Ok (Some t);
  sp_version : store_version db' = store_version db;
  sp_nonempty : ∀ h, in_width 64 h →
    db' !! key_serialize (KNonEmptyBlock h) =
    if decide (h = block_height b ∧ length (txns b) ≠ 0%nat) then Some (VBlock b)
    else db !! key_serialize (KNonEmptyBlock h);
}.

Lemma set_lookup db b nm k :
  wf_store_block b → wf_key k →
  (∃ x, (k, x) ∈ set_keys b nm ∧
        store_write db (ser <$> set_keys b nm) !! key_serialize k = Some x) ∨
  ((∀ x, (k, x) ∉ set_keys b nm) ∧
   store_write db (ser <$> set_keys b nm) !! key_serialize k = db !! key_serialize k).
Proof.
  intros Hb Hk. destruct (store_write_key db (set_keys b nm) k Hk (set_keys_wf b nm Hb))
    as [?|[Hn Hs]]; [by left|right]. split; [|done].
  intros x Hx. apply Hn. by apply (list_elem_of_fmap_2 fst _ (k, x)).
Qed.

Lemma store_set_ok db b :
  wf_store db → wf_store_block b → ∃ db', store_set db b = Ok db' ∧ set_post db b db'.
Proof.
  intros Hdb Hb. destruct (get_max_height_total db Hdb) as [m Hm].
  rewrite (store_set_keys db b m Hm). eexists. split; [done|].
  set (nm := exceeds m (block_height b)). set (db' := store_write _ _).
  split.
  - apply store_write_wf; [done|]. by apply set_keys_ok.
  - intros h Hh. unfold store_get, db'.
    destruct (set_lookup db b nm (KBlock h) Hb Hh) as [(x & Hx & ->)|[Hn ->]].
    + apply elem_set_keys in Hx as [-> ->]. by rewrite decide_True.
    + rewrite decide_False; [done|]. intros ->. apply (Hn (VBlock b)). by apply elem_set_keys.
  - rewrite Hm. simpl. unfold get_max_height, db'.
    destruct (set_lookup db b nm KMaxHeight Hb I) as [(x & Hx & ->)|[Hn Heq]].
    + apply elem_set_keys in Hx as [Hnm ->]. do 2 f_equal. destruct m as [m|]; [|done].
      apply Z.ltb_lt in Hnm. lia.
    + destruct m as [m|].
      * unfold get_max_height in Hm. rewrite Heq.
        destruct (db !! key_serialize KMaxHeight) as [[]|]; simplify_eq/=. do 2 f_equal.
        assert (nm = false) as Hnm.
        { destruct nm eqn:E; [|done]. exfalso. eapply Hn. by apply elem_set_keys. }
        apply Z.ltb_ge in Hnm. lia.
      * exfalso. eapply Hn. by apply elem_set_keys.
  - unfold get_block_height_by_hash, db'.
    destruct (set_lookup db b nm (KBlockHashToHeight (block_hash b)) Hb (wb_hash b Hb))
      as [(x & Hx & ->)|[Hn _]].
    + by apply elem_set_keys in Hx as [_ ->].
    + exfalso. eapply Hn. by apply elem_set_keys.
  - intros y Hy Hne. unfold get_block_height_by_hash, db'.
    destruct (set_lookup db b nm (KBlockHashToHeight y) Hb Hy) as [(x & Hx & _)|[_ ->]]; [|done].
    by apply elem_set_keys in Hx as [-> _].
  - intros e kd He. unfold get_element_history_with_kind, db'.
    destruct (set_lookup db b nm (KElementHistory e kd) Hb He) as [(x & Hx & ->)|[Hn ->]].
    + apply elem_set_keys in Hx. rewrite decide_True.
      * by destruct kd, Hx as [_ ->].
      * apply elem_block_history. by destruct kd, Hx as [? _].
    + rewrite decide_False; [done|]. intros Hin%elem_block_history.
      apply (Hn (VHistory (history_of b))). apply elem_set_keys. by destruct kd.
  - intros y Hy. unfold get_mint_hash, db'.
    destruct (set_lookup db b nm (KMintHash y) Hb Hy) as [(x & Hx & ->)|[Hn ->]].
    + apply elem_set_keys in Hx as [Hx ->]. rewrite decide_True; [done|].
      by apply elem_block_mints.
    + rewrite decide_False; [done|]. intros Hin%elem_block_mints.
      apply (Hn (VMint (history_of b))). by apply elem_set_keys.
  - intros y Hy. unfold get_txn_by_hash, db'.
    destruct (set_lookup db b nm (KTxnByHash y) Hb Hy) as [(x & Hx & ->)|[Hn ->]].
    + right. apply elem_set_keys in Hx as (t & Ht & -> & ->). by exists t.
    + left. split; [|done]. intros (t & -> & Ht)%list_elem_of_fmap.
      apply (Hn (VTxn t)). apply elem_set_keys. eauto.
  - unfold store_version, db'.
    destruct (set_lookup db b nm KStoreVersion Hb I) as [(x & Hx & _)|[_ ->]]; [|done].
    by apply elem_set_keys in Hx.
  - intros h Hh. unfold db'.
    destruct (set_lookup db b nm (KNonEmptyBlock h) Hb Hh) as [(x & Hx & ->)|[Hn ->]].
    + apply elem_set_keys in Hx as (Hne & -> & ->). rewrite decide_True; [done|]. split; [done|].
      by rewrite length_zero_iff_nil.
    + rewrite decide_False; [done|]. intros [-> Hne]. apply (Hn (VBlock b)), elem_set_keys.
      split_and!; [|done..]. by rewrite <-length_zero_iff_nil.
Qed.

Lemma store_create_lookup k :
  wf_key k → k ≠ KStoreVersion → (store_create : StoreDB B T) !! key_serialize k = None.
Proof.
  intros Hk Hne. unfold store_create, set_store_version. rewrite lookup_insert_ne; [done|].
  intros Heq%key_serialize_inj; [|done|done]. by apply Hne.
Qed.
Lemma store_create_history e kd :
  wf_element e → get_element_history_with_kind (store_create : StoreDB B T) e kd = Ok None.
Proof. intros He. unfold get_element_history_with_kind. by rewrite store_create_lookup. Qed.
Lemma store_create_mint m : wf_element m → get_mint_hash (store_create : StoreDB B T) m = Ok None.
Proof. intros He. unfold get_mint_hash. by rewrite store_create_lookup. Qed.
Lemma store_create_get h : in_width 64 h → store_get (store_create : StoreDB B T) h = Ok None.
Proof. intros Hh. unfold store_get. by rewrite store_create_lookup. Qed.
Lemma store_create_txn x : bytes32 x → get_txn_by_hash (store_create : StoreDB B T) x = Ok None.
Proof. intros Hx. unfold get_txn_by_hash. by rewrite store_create_lookup. Qed.
Lemma store_create_max : get_max_height (store_create : StoreDB B T) = Ok None.
Proof. unfold get_max_height. by rewrite store_create_lookup. Qed.
Lemma store_create_version : store_version (store_create : StoreDB B T) = Ok latest_version.
Proof. unfold store_version, store_create, set_store_version. by rewrite lookup_insert_eq. Qed.

Lemma store_create_wf : wf_store (store_create : StoreDB B T).
Proof.
  intros bytes x. unfold store_create, set_store_version.
  rewrite lookup_insert. case_decide; [|done]. intros [= <-]. by exists KStoreVersion.
Qed.
End store_set.

(** * Listing *)

Definition above_bound (start : Bound Z) (h : Z) : Prop :=
  match start with Included x => x ≤ h | Excluded x => x < h | Unbounded => True end.
Definition below_bound (end_ : Bound Z) (h : Z) : Prop :=
  match end_ with Included x => h ≤ x | Excluded x => h < x | Unbounded => True end.
Definition wf_bound (b : Bound Z) : Prop :=
  match b with Included x | Excluded x => in_width 64 x | Unbounded => True end.

Lemma list_preimage {A B} (f : A → B) (P : A → Prop) (l : list B) :
  (∀ y, y ∈ l → ∃ x, y = f x ∧ P x) → ∃ l', l = f <$> l' ∧ Forall P l'.
Proof.
  induction l as [|y l IH]; intros Hl.
  { exists []. split; [done|constructor]. }
  destruct (Hl y) as (x & -> & Hx); [by left|].
  destruct IH as (l' & -> & Hl'); [intros z Hz; apply Hl; by right|].
  exists (x :: l'). split; [done|by constructor].
Qed.

Section listing.
Context {B T : Type} `{!StoreBlock B T, !Transaction T}.
Implicit Types (db : StoreDB B T) (b : B) (h : Z).

Definition stored mk db h b : Prop :=
  in_width 64 h ∧ db !! key_serialize (mk h) = Some (VBlock b).

Definition entry_of (mk : Z → Key) (hb : Z * B) : list Z * DbValue B T :=
  (key_serialize (mk hb.1), VBlock hb.2).

Definition bound_bytes mk (start end_ : Bound Z) : list Z * list Z :=
  (match start with
   | Included h => key_serialize (mk h)
   | Excluded h => serialize_immediate_successor (mk h)
   | Unbounded => key_serialize (mk min_height)
   end,
   match end_ with
   | Included h => serialize_immediate_successor (mk h)
   | Excluded h => key_serialize (mk h)
   | Unbounded => serialize_immediate_successor (mk max_height)
   end).

Lemma bound_bytes_spec mk start end_ h :
  listable mk → wf_bound start → wf_bound end_ → in_width 64 h →
  lex_le (bound_bytes mk start end_).1 (key_serialize (mk h)) ∧
  ¬ lex_le (bound_bytes mk start end_).2 (key_serialize (mk h)) ↔
  above_bound start h ∧ below_bound end_ h.
Proof.
  intros Hmk Hs He Hh. unfold bound_bytes, serialize_immediate_successor, above_bound, below_bound.
  assert (in_width 64 min_height) as Hmin by (split; by vm_compute).
  assert (in_width 64 max_height) as Hmax by (split; by vm_compute).
  assert (∀ x, in_width 64 x → lex_le (key_serialize (mk x)) (key_serialize (mk h)) ↔ x ≤ h) as Hle.
  { intros x Hx. rewrite !(listable_serialize mk) by done. rewrite lex_cons, lex_be_bytes by done.
    naive_solver lia. }
  assert (∀ x, in_width 64 x →
    lex_le (key_serialize (mk x) ++ [0]) (key_serialize (mk h)) ↔ x < h) as Hlt.
  { intros x Hx. rewrite !(listable_serialize mk) by done. cbn [app].
    rewrite lex_cons, lex_succ_be by done. naive_solver lia. }
  f_equiv; [destruct start|destruct end_]; cbn [fst snd];
    rewrite ?Hle, ?Hlt by done; unfold min_height, max_height, u64_max, in_width in *; lia.
Qed.

Lemma db_range_elem db lower upper bytes x :
  (bytes, x) ∈ db_range db lower upper ↔
  db !! bytes = Some x ∧ lex_le lower bytes ∧ ¬ lex_le upper bytes.
Proof.
  unfold db_range. rewrite merge_sort_Permutation, list_elem_of_filter, elem_of_map_to_list.
  simpl. tauto.
Qed.

(** The entries between two bounds are exactly the stored blocks of the kind
    whose height is within the bounds. *)
Lemma db_range_blocks mk db start end_ :
  listable mk → wf_store db → wf_bound start → wf_bound end_ →
  ∃ l, db_range db (bound_bytes mk start end_).1 (bound_bytes mk start end_).2
         = entry_of mk <$> l ∧
    ∀ h b, (h, b) ∈ l ↔ stored mk db h b ∧ above_bound start h ∧ below_bound end_ h.
Proof.
  intros Hmk Hdb Hs He.
  destruct (list_preimage (entry_of mk) (λ hb, stored mk db hb.1 hb.2)
    (db_range db (bound_bytes mk start end_).1 (bound_bytes mk start end_).2))
    as (l & Hl & Hall).
  - intros [bytes x] (Hx & Hlo & Hup)%db_range_elem.
    assert (∃ c, bytes = key_kind (mk 0) :: c) as [c Hc].
    { destruct start, end_; unfold bound_bytes, serialize_immediate_successor in *;
        cbn [fst snd] in *; rewrite !(listable_serialize mk) in * by done; cbn [app] in *;
        by eapply lex_between. }
    destruct (Hdb _ _ Hx) as (k & Hk & Hwk & Hv).
    destruct (key_serialize_head k) as [rest Hr].
    assert (key_kind k = key_kind (mk 0)) as Hkind by congruence.
    destruct (listable_kind mk k Hmk Hkind) as [h ->].
    assert (∃ b, x = VBlock b) as [b ->].
    { destruct Hmk as [-> | ->]; destruct x; try done; by eauto. }
    exists (h, b). unfold entry_of, stored. simpl. rewrite <-Hk. split; [done|].
    split; [by apply (listable_wf mk)|done].
  - exists l. split; [done|]. intros h b. split.
    + intros Hin. rewrite Forall_forall in Hall. pose proof (Hall _ Hin) as [Hh Hst].
      simpl in Hh, Hst. split; [by split|].
      apply (bound_bytes_spec mk start end_ h Hmk Hs He Hh).
      apply (db_range_elem db _ _ _ (VBlock b)). rewrite Hl.
      by apply (list_elem_of_fmap_2 (entry_of mk) _ (h, b)).
    + intros [[Hh Hst] Hb]. apply (bound_bytes_spec mk start end_ h Hmk Hs He Hh) in Hb.
      assert ((key_serialize (mk h), VBlock b) ∈ entry_of mk <$> l) as Hin.
      { rewrite <-Hl. by apply db_range_elem. }
      apply list_elem_of_fmap in Hin as ([h' b'] & Heq & Hin).
      pose proof (f_equal fst Heq) as Hk. pose proof (f_equal snd Heq) as Hv.
      clear Heq. unfold entry_of in Hk, Hv. cbn [fst snd] in Hk, Hv. injection Hv as <-.
      rewrite Forall_forall in Hall. pose proof (Hall _ Hin) as [Hh' _].
      apply key_serialize_inj in Hk; [|by apply (listable_wf mk)..].
      by apply (listable_inj mk) in Hk as ->.
Qed.

#[local] Instance entry_le_total : Total (entry_le (B := B) (T := T)).
Proof. intros x y. unfold entry_le. apply (total lex_le). Qed.
#[local] Instance entry_le_trans : Transitive (entry_le (B := B) (T := T)).
Proof. intros x y z. unfold entry_le. apply transitivity. Qed.

Lemma db_range_sorted mk db lower upper l :
  listable mk → db_range db lower upper = entry_of mk <$> l →
  Forall (λ hb, in_width 64 hb.1) l → StronglySorted Z.lt l.*1.
Proof.
  intros Hmk Hl Hw.
  assert (StronglySorted entry_le (entry_of mk <$> l)) as Hsort
    by (rewrite <-Hl; apply StronglySorted_merge_sort; apply _).
  assert (NoDup (fst <$> (entry_of mk <$> l))) as Hnd.
  { rewrite <-Hl. unfold db_range. rewrite merge_sort_Permutation.
    pose proof (NoDup_fst_map_to_list db) as Hn. revert Hn.
    generalize (map_to_list db). intros k. induction k as [|kx k IH]; [done|].
    rewrite fmap_cons, NoDup_cons. intros [Hn Hk].
    rewrite filter_cons. case_decide; [|by apply IH].
    rewrite fmap_cons, NoDup_cons. split; [|by apply IH].
    intros (y & Hy & [_ Hin]%list_elem_of_filter)%list_elem_of_fmap. apply Hn.
    rewrite Hy. by apply list_elem_of_fmap_2. }
  clear Hl. induction l as [|[h b] l IH]; [constructor|].
  rewrite !fmap_cons in Hsort, Hnd. rewrite fmap_cons.
  apply StronglySorted_inv in Hsort as [Hsort Hall]. apply NoDup_cons in Hnd as [Hn Hnd].
  apply Forall_cons in Hw as [Hh Hw]. constructor; [by apply IH|].
  rewrite Forall_forall in Hall. rewrite Forall_forall in Hw. apply Forall_forall.
  intros h' ([z b'] & -> & Hin)%list_elem_of_fmap.
  pose proof (list_elem_of_fmap_2 (entry_of mk) _ _ Hin) as Hin'. specialize (Hall _ Hin').
  specialize (Hw _ Hin). unfold entry_le, entry_of in Hall. cbn [fst] in *.
  rewrite !(listable_serialize mk), lex_cons, lex_be_bytes in Hall by done.
  assert (h ≠ z); [|lia]. intros ->. apply Hn.
  apply (list_elem_of_fmap_2 fst) in Hin'. exact Hin'.
Qed.

Definition block_of_key (mk : Z → Key) (hb : Z * B) : Key * B := (mk hb.1, hb.2).

Lemma list_item_entry mk hb :
  listable mk → in_width 64 hb.1 → list_item (entry_of mk hb) = Ok (block_of_key mk hb).
Proof.
  intros Hmk Hh. unfold list_item, entry_of. cbn [fst snd].
  rewrite key_roundtrip_ok by (by apply (listable_wf mk)). done.
Qed.

(** The result of listing, ascending or descending. *)
Definition order_list {A} (order : BlockListOrder) (l : list A) : list A :=
  if is_indexed_order order then l else reverse l.

Lemma key_list_ok mk db start end_ order :
  listable mk → wf_store db → wf_bound start → wf_bound end_ →
  ∃ l, key_list mk db start end_ order = (Ok ∘ block_of_key mk) <$> order_list order l ∧
    StronglySorted Z.lt l.*1 ∧
    ∀ h b, (h, b) ∈ l ↔ stored mk db h b ∧ above_bound start h ∧ below_bound end_ h.
Proof.
  intros Hmk Hdb Hs He. destruct (db_range_blocks mk db start end_ Hmk Hdb Hs He) as (l & Hl & Hspec).
  assert (Forall (λ hb, in_width 64 hb.1) l) as Hw.
  { apply Forall_forall. intros [h b] [[? _] _]%Hspec. done. }
  exists l. split; [|split; [by eapply db_range_sorted|done]].
  unfold key_list. fold (bound_bytes mk start end_).1. cbn zeta.
  change (list_item <$> order_list order
    (db_range db (bound_bytes mk start end_).1 (bound_bytes mk start end_).2) =
    Ok ∘ block_of_key mk <$> order_list order l).
  rewrite Hl. unfold order_list. destruct order; cbn [is_indexed_order];
    rewrite <-?fmap_reverse, <-list_fmap_compose; apply list_fmap_ext; intros i hb Hhb;
    (apply list_item_entry; [done|]); apply list_elem_of_lookup_2 in Hhb.
  - rewrite Forall_forall in Hw. by apply Hw.
  - rewrite elem_of_reverse in Hhb. rewrite Forall_forall in Hw. by apply Hw.
Qed.

Lemma collect_results_ok {A} (l : list A) : collect_results (Ok <$> l) = Ok l.
Proof. induction l as [|x l IH]; [done|]. rewrite fmap_cons. simpl. by rewrite IH. Qed.

(** Which heights a cursor admits when listing in the given order. *)
Definition cursor_admits (order : BlockListOrder) (cursor : option (CursorChoice Z)) (h : Z) : Prop :=
  match cursor, order with
  | None, _ => True
  | Some (CursorAfter a), LowestToHighest => above_bound (after_to_bound a) h
  | Some (CursorAfter a), HighestToLowest => below_bound (after_to_bound a) h
  | Some (CursorBefore b), LowestToHighest => below_bound (before_to_bound b) h
  | Some (CursorBefore b), HighestToLowest => above_bound (before_to_bound b) h
  end.
Definition wf_cursor (cursor : option (CursorChoice Z)) : Prop :=
  match cursor with
  | None => True
  | Some (CursorAfter a) => wf_bound (after_to_bound a)
  | Some (CursorBefore b) => wf_bound (before_to_bound b)
  end.

(** A page: the first [limit] items, or the last ones before a cursor. *)
Definition page_of {A} (cursor : option (CursorChoice Z)) (limit : nat) (l : list A) : list A :=
  match cursor with
  | Some (CursorBefore _) => reverse (take limit (reverse l))
  | _ => take limit l
  end.

Lemma order_list_reverse {A} order (l : list A) :
  order_list (reverse_order order) l = reverse (order_list order l).
Proof. destruct order; [done|]. unfold order_list. simpl. by rewrite reverse_involutive. Qed.

Lemma key_list_paginated_ok mk db cursor order limit :
  listable mk → wf_store db → wf_cursor cursor →
  ∃ l, key_list_paginated mk db cursor order limit =
         Ok (block_of_key mk <$> page_of cursor limit (order_list order l)) ∧
    StronglySorted Z.lt l.*1 ∧
    ∀ h b, (h, b) ∈ l ↔ stored mk db h b ∧ cursor_admits order cursor h.
Proof.
  intros Hmk Hdb Hc.
  assert (∀ start end_ order',
    wf_bound start → wf_bound end_ →
    (∀ h, above_bound start h ∧ below_bound end_ h ↔ cursor_admits order cursor h) →
    ∃ l, StronglySorted Z.lt l.*1 ∧
      (∀ h b, (h, b) ∈ l ↔ stored mk db h b ∧ cursor_admits order cursor h) ∧
      collect_results (take limit (key_list mk db start end_ order')) =
        Ok (block_of_key mk <$> take limit (order_list order' l))) as Hgen.
  { intros start end_ order' Hs He Hadm.
    destruct (key_list_ok mk db start end_ order' Hmk Hdb Hs He) as (l & -> & Hsort & Hl).
    exists l. split; [done|]. split; [intros h b; by rewrite Hl, Hadm|].
    rewrite list_fmap_compose, <-fmap_take, collect_results_ok. by rewrite fmap_take. }
  unfold key_list_paginated.
  destruct cursor as [[a|a]|]; destruct order; cbn [is_indexed_order reverse_order] in *;
    (edestruct Hgen as (l & Hsort & Hl & ->);
       [try done; by destruct a..| |exists l; cbn [outcome_bind]; split; [f_equal|by split]]);
    try (intros h; simpl; tauto); try done.
  all: rewrite <-fmap_reverse; do 2 f_equal; unfold page_of, order_list; simpl;
    by rewrite ?reverse_involutive.
Qed.

Lemma stored_get db h b :
  wf_store db → stored KBlock db h b ↔ in_width 64 h ∧ store_get db h = Ok (Some b).
Proof.
  intros Hdb. unfold stored, store_get. f_equiv.
  destruct (db !! key_serialize (KBlock h)) as [[]|]; naive_solver.
Qed.

(** Listing a range of heights yields no error and exactly the stored
    blocks of that range, each once, in ascending order of height or, when
    asked for the opposite order, in descending order. *)
Theorem store_list_spec db start end_ order :
  wf_store db → wf_bound start → wf_bound end_ →
  ∃ l, store_list db start end_ order = Ok <$> order_list order l ∧
    StronglySorted Z.lt l.*1 ∧
    ∀ h b, (h, b) ∈ l ↔ in_width 64 h ∧ store_get db h = Ok (Some b) ∧
                        above_bound start h ∧ below_bound end_ h.
Proof.
  intros Hdb Hs He.
  destruct (key_list_ok KBlock db start end_ order (or_introl eq_refl) Hdb Hs He)
    as (l & Hl & Hsort & Hspec).
  exists l. split; [|split; [done|]].
  - unfold store_list. rewrite Hl, <-list_fmap_compose. apply list_fmap_ext. by intros i [h b].
  - intros h b. rewrite Hspec, stored_get by done. tauto.
Qed.

(** A page of blocks holds exactly the blocks the cursor admits, in the
    requested order, cut to the limit: the first ones after an after-cursor,
    the last ones before a before-cursor (which is how the previous page is
    fetched). *)
Theorem store_list_paginated_spec db cursor order limit :
  wf_store db → wf_cursor cursor →
  ∃ l, store_list_paginated db cursor order limit =
         Ok (Ok <$> page_of cursor limit (order_list order l)) ∧
    StronglySorted Z.lt l.*1 ∧
    ∀ h b, (h, b) ∈ l ↔ in_width 64 h ∧ store_get db h = Ok (Some b) ∧
                        cursor_admits order cursor h.
Proof.
  intros Hdb Hc.
  destruct (key_list_paginated_ok KBlock db cursor order limit (or_introl eq_refl) Hdb Hc)
    as (l & Hl & Hsort & Hspec).
  exists l. split; [|split; [done|]].
  - unfold store_list_paginated. rewrite Hl. simpl. f_equal. rewrite <-list_fmap_compose.
    apply list_fmap_ext. by intros i [h b].
  - intros h b. rewrite Hspec, stored_get by done. tauto.
Qed.

(** C32: After a block is written every read agrees with it: the block is under
    its height and no other height changes, the maximum height is the maximum,
    the block's hash leads to its height, exactly its inputs, outputs and mint
    hashes gain a history entry that names it, its transactions are found by
    hash, and the store keeps its invariant. *)
Theorem store_set_reads db b :
  wf_store db → wf_store_block b → ∃ db', store_set db b = Ok db' ∧ set_post db b db'.
Proof. apply store_set_ok. Qed.
End listing.

(** Database keys decode to what was encoded, and the keys of blocks are
    ordered in the database as the heights are. *)
Theorem key_encoding k h1 h2 :
  wf_key k → in_width 64 h1 → in_width 64 h2 →
  key_deserialize (key_serialize k) = Ok k ∧
  (lex_le (key_serialize (KBlock h1)) (key_serialize (KBlock h2)) ↔ h1 ≤ h2).
Proof.
  intros Hk H1 H2. split; [by apply key_roundtrip_ok|].
  rewrite !(listable_serialize KBlock) by (by left). rewrite lex_cons, lex_be_bytes by done.
  naive_solver lia.
Qed.

Lemma key_encoding_witness :
  key_deserialize (key_serialize (KElementHistory 5 HistOutput)) = Ok (KElementHistory 5 HistOutput) ∧
  (lex_le (key_serialize (KBlock 255)) (key_serialize (KBlock 256)) ↔ 255 ≤ 256).
Proof.
  apply (key_encoding (KElementHistory 5 HistOutput) 255 256);
    by apply (bool_decide_unpack (in_width _ _)).
Defined.

(** * A concrete store, of blocks like the ones of the crate's tests *)

Record DummyTxn := mk_dummy_txn {
  dt_hash : list Z;
  dt_inputs : list Element;
  dt_outputs : list Element;
  dt_mint : option Element;
}.
Record DummyBlock := mk_dummy_block { db_height : Z; db_hash : list Z; db_txns : list DummyTxn }.

#[export] Instance dummy_transaction : Transaction DummyTxn :=
  {| st_txn_hash := dt_hash; input_elements := dt_inputs;
     output_elements := dt_outputs; st_mint_hash := dt_mint |}.
#[export] Instance dummy_block : StoreBlock DummyBlock DummyTxn :=
  {| block_height := db_height; block_hash := db_hash; txns := db_txns |}.

Definition ex_block1 : DummyBlock :=
  mk_dummy_block 1 (replicate 32 7)
    [mk_dummy_txn (replicate 32 123) [] [100; 101] (Some 102)].
Definition ex_block2 : DummyBlock :=
  mk_dummy_block 2 (replicate 32 8)
    [mk_dummy_txn (replicate 32 124) [100] [103] None].

Lemma ex_block1_wf : wf_store_block ex_block1.
Proof.
  split; [by apply (bool_decide_unpack (in_width _ _))|by apply (bool_decide_unpack (bytes32 _))|].
  apply Forall_singleton. split; [by apply (bool_decide_unpack (bytes32 _))|constructor| |].
  - apply (bool_decide_unpack (Forall (in_width 256) [100; 101])). by vm_compute.
  - intros m [= <-]. by apply (bool_decide_unpack (in_width 256 _)).
Qed.
Lemma ex_block2_wf : wf_store_block ex_block2.
Proof.
  split; [by apply (bool_decide_unpack (in_width _ _))|by apply (bool_decide_unpack (bytes32 _))|].
  apply Forall_singleton. split; [by apply (bool_decide_unpack (bytes32 _))| | |done].
  - apply (bool_decide_unpack (Forall (in_width 256) [100])). by vm_compute.
  - apply (bool_decide_unpack (Forall (in_width 256) [103])). by vm_compute.
Qed.

Definition from_ok {E A} (d : A) (o : outcome E A) : A := match o with Ok a => a | _ => d end.
Definition ex_store1 : StoreDB DummyBlock DummyTxn :=
  from_ok ∅ (store_set store_create ex_block1).

Lemma ex_store1_wf : wf_store ex_store1.
Proof.
  destruct (store_set_ok store_create ex_block1 store_create_wf ex_block1_wf) as (db & Hdb & Hp).
  unfold ex_store1. rewrite Hdb. apply (sp_wf _ _ _ Hp).
Qed.

Lemma store_set_reads_witness :
  ∃ db', store_set ex_store1 ex_block2 = Ok db' ∧ set_post ex_store1 ex_block2 db'.
Proof. exact (store_set_reads ex_store1 ex_block2 ex_store1_wf ex_block2_wf). Defined.

Lemma store_list_spec_witness :
  ∃ l, store_list ex_store1 (Included 0) (Excluded 5) HighestToLowest =
         Ok <$> order_list HighestToLowest l ∧
    StronglySorted Z.lt l.*1 ∧
    ∀ h b, (h, b) ∈ l ↔ in_width 64 h ∧ store_get ex_store1 h = Ok (Some b) ∧ 0 ≤ h ∧ h < 5.
Proof.
  apply (store_list_spec ex_store1 (Included 0) (Excluded 5) HighestToLowest ex_store1_wf);
    by apply (bool_decide_unpack (in_width _ _)).
Defined.

Lemma store_list_paginated_spec_witness :
  ∃ l, store_list_paginated ex_store1 (Some (CursorBefore (Before 9))) LowestToHighest 3 =
         Ok (Ok <$> reverse (take 3 (reverse l))) ∧
    StronglySorted Z.lt l.*1 ∧
    ∀ h b, (h, b) ∈ l ↔ in_width 64 h ∧ store_get ex_store1 h = Ok (Some b) ∧ h < 9.
Proof.
  apply (store_list_paginated_spec ex_store1 (Some (CursorBefore (Before 9))) LowestToHighest 3
           ex_store1_wf).
  by apply (bool_decide_unpack (in_width _ _)).
Defined.
