(* ===== verification/Crypto.v ===== *)
(** Hashes, addresses and signatures (pkg/primitives/src: hash.rs, peer.rs,
    sig.rs).

    Keccak-256 and the secp256k1 library are parameters ([CryptoLib]); what the
    code relies on is the class [CryptoLaws].  Byte arrays are lists of bytes. *)
From S2P Require Import Prelude Element MerkleHash Utxo BlockStore.

(** * The libraries *)

Class CryptoLib := {
  keccak256 : list Z → list Z;
  PublicKey : Type;
  SecretKey : Type;
  RecSig : Type;
  (** [PublicKey::from_secret_key], [serialize_uncompressed] (65 bytes). *)
  public_key : SecretKey → PublicKey;
  serialize_uncompressed : PublicKey → list Z;
  (** [RecoverableSignature::from_compact(data, RecoveryId)]: [None] is [Err]. *)
  from_compact : list Z → Z → option RecSig;
  (** [serialize_compact]: the recovery id and the 64 bytes. *)
  serialize_compact : RecSig → Z * list Z;
  sign_ecdsa_recoverable : list Z → SecretKey → RecSig;
  recover_ecdsa : list Z → RecSig → option PublicKey;
}.

Class CryptoLaws `{CryptoLib} : Prop := {
  keccak_bytes m : bytes32 (keccak256 m);
  compact_length s : length (serialize_compact s).2 = 64%nat;
  compact_recid s : 0 ≤ (serialize_compact s).1 < 4;
  compact_roundtrip s : from_compact (serialize_compact s).2 (serialize_compact s).1 = Some s;
  recover_signed m k : recover_ecdsa m (sign_ecdsa_recoverable m k) = Some (public_key k);
}.

(** * Hashes and addresses *)

Notation CryptoHash := (list Z) (only parsing).
Notation Address := (list Z) (only parsing).
Notation Signature := (list Z) (only parsing).

Definition hash_default : CryptoHash := replicate 32 0.
Definition hash_genesis : CryptoHash := replicate 32 0.
Definition hash_from_u64 (n : Z) : CryptoHash := replicate 24 0 ++ be_bytes 8 n.
Definition hash_as_u256 (h : CryptoHash) : Z := little_endian_to_Z 8 h.
Definition address_default : Address := replicate 20 0.
Definition address_to_u256 (a : Address) : Z := little_endian_to_Z 8 a.

(** "Ciphera" *)
Definition network : list Z := [67; 105; 112; 104; 101; 114; 97].

Section crypto.
Context `{CryptoLib}.

Definition address_from_public_key (pk : PublicKey) : Address :=
  let hashed := keccak256 (drop 1 (serialize_uncompressed pk)) in
  drop (length hashed - 20) hashed.
Definition address_from_secret_key (sk : SecretKey) : Address :=
  address_from_public_key (public_key sk).

(** The digest both [sign] and [verify] compute. *)
Definition message_digest (msg : CryptoHash) : list Z :=
  keccak256 (be_bytes 8 (Z.of_nat (length network)) ++ network ++ msg).

Record PeerIdSigner := mk_signer { peer_id : Address; signer_key : SecretKey }.
Definition signer_new (sk : SecretKey) : PeerIdSigner :=
  mk_signer (address_from_secret_key sk) sk.

Definition signer_sign (s : PeerIdSigner) (msg : CryptoHash) : Signature :=
  let '(recovery, rest) :=
    serialize_compact (sign_ecdsa_recoverable (message_digest msg) (signer_key s)) in
  take 64 rest ++ [wrap 8 recovery].

(** [Signature::verify]; [RecoveryId::from_i32] accepts 0 to 3. *)
Definition signature_verify {E} (sig : Signature) (msg : CryptoHash)
  : outcome E (option Address) :=
  let digest := message_digest msg in
  match sig !! 64%nat with
  | None => Panic "index out of bounds"
  | Some id =>
      if decide (0 ≤ id < 4) then
        let? s := unwrap (from_compact (take 64 sig) id)
                    "called Result::unwrap() on an Err value" in
        Ok (address_from_public_key <$> recover_ecdsa digest s)
      else Ok None
  end.

(** [Address::verify]. *)
Definition address_verify {E} (a : Address) (sig : Signature) (msg : CryptoHash)
  : outcome E bool :=
  let? r := signature_verify sig msg in
  Ok (bool_decide (default address_default r = a)).
End crypto.

Section crypto_properties.
Context `{CryptoLaws}.

Lemma signature_verify_sign {E} sk msg :
  signature_verify (E := E) (signer_sign (signer_new sk) msg) msg =
  Ok (Some (peer_id (signer_new sk))).
Proof.
  unfold signer_sign, signer_new. cbn [signer_key peer_id].
  set (s := sign_ecdsa_recoverable _ _).
  pose proof (compact_length s) as Hl. pose proof (compact_recid s) as Hr.
  pose proof (compact_roundtrip s) as Hc.
  destruct (serialize_compact s) as [recid rest]. cbn [fst snd] in *.
  rewrite (take_ge rest) by lia. unfold signature_verify, wrap.
  rewrite lookup_app_r by lia. rewrite Hl. cbn [lookup list_lookup Nat.sub].
  rewrite Z.mod_small by lia. rewrite decide_True by done.
  rewrite take_app_length' by done. rewrite Hc. cbn [unwrap outcome_bind].
  unfold s. by rewrite recover_signed.
Qed.

(** A signature made by a signer verifies to the signer's address, for
    every message; so [Address::verify] accepts it for that address and
    rejects it for every other. *)
Theorem sign_verify_roundtrip {E} sk msg a :
  signature_verify (E := E) (signer_sign (signer_new sk) msg) msg =
    Ok (Some (peer_id (signer_new sk))) ∧
  address_verify (E := E) a (signer_sign (signer_new sk) msg) msg =
    Ok (bool_decide (peer_id (signer_new sk) = a)).
Proof.
  pose proof (signature_verify_sign (E := E) sk msg) as Hv.
  split; [done|]. unfold address_verify. by rewrite Hv.
Qed.
End crypto_properties.

Section malformed.
Context `{CryptoLib}.

(** Verifying a signature whose last byte is a recovery id but whose first
    64 bytes the library rejects panics instead of returning [None], whatever
    the message. *)
Theorem malformed_signature_panics {E} sig msg id :
  sig !! 64%nat = Some id → 0 ≤ id < 4 → from_compact (take 64 sig) id = None →
  signature_verify (E := E) sig msg = Panic "called Result::unwrap() on an Err value".
Proof.
  intros Hs Hid Hc. unfold signature_verify. rewrite Hs, decide_True by done. by rewrite Hc.
Qed.
End malformed.

(** * A concrete instance *)

(** A stand-in with the shape of the libraries: there are two keys, a signature
    carries its key, and a compact signature starts with the marker 1. *)
Definition toy_keccak (m : list Z) : list Z :=
  to_be_bytes (foldl (λ a x, (a * 257 + x + 1) mod MODULUS) 7 m).

Definition toy_compact (k : bool) : list Z := 1 :: replicate 62 0 ++ [Z.b2z k].

Definition toy_crypto : CryptoLib := {|
  keccak256 := toy_keccak;
  PublicKey := bool;
  SecretKey := bool;
  RecSig := bool;
  public_key k := k;
  serialize_uncompressed k := 4 :: to_be_bytes (Z.b2z k) ++ to_be_bytes 0;
  from_compact l id :=
    if decide (l = toy_compact true) then Some true
    else if decide (l = toy_compact false) then Some false else None;
  serialize_compact k := (0, toy_compact k);
  sign_ecdsa_recoverable _ k := k;
  recover_ecdsa _ k := Some k;
|}.

Lemma toy_crypto_laws : CryptoLaws (H := toy_crypto).
Proof.
  split.
  - intros m. split; [apply to_be_bytes_length|apply to_be_bytes_range].
  - done.
  - intros s. simpl. lia.
  - intros []; by vm_compute.
  - done.
Qed.

Lemma sign_verify_roundtrip_witness :
  signature_verify (H := toy_crypto) (E := Empty_set)
    (signer_sign (H := toy_crypto) (signer_new (H := toy_crypto) true) hash_default) hash_default =
    Ok (Some (peer_id (H := toy_crypto) (signer_new (H := toy_crypto) true))) ∧
  address_verify (H := toy_crypto) (E := Empty_set) address_default
    (signer_sign (H := toy_crypto) (signer_new (H := toy_crypto) true) hash_default) hash_default =
    Ok (bool_decide (peer_id (H := toy_crypto) (signer_new (H := toy_crypto) true) = address_default)).
Proof.
  exact (sign_verify_roundtrip (H := toy_crypto) (H0 := toy_crypto_laws) (E := Empty_set)
           true hash_default address_default).
Defined.

Lemma malformed_signature_panics_witness :
  signature_verify (H := toy_crypto) (E := Empty_set) (replicate 64 255 ++ [0]) hash_default =
  Panic "called Result::unwrap() on an Err value".
Proof.
  apply (malformed_signature_panics (H := toy_crypto) (replicate 64 255 ++ [0]) hash_default 0);
    [reflexivity|lia|by vm_compute].
Defined.
