(* ===== verification/NodeBlock.v ===== *)
(** Blocks of the node (pkg/node/src: block.rs, utxo.rs, node/block.rs,
    node/block_format.rs, node/txn_format.rs): their hashes, the checks a block
    and its transactions have to pass, and applying a block to the notes tree.

    Parameters: the proof verifier of the barretenberg backend, the validator
    list the rollup contract reports for a height, the configured bad blocks,
    and the compile-time switch of the tree ([temp_noir]).  [BlockHeight] is a
    u64; [PersistentMerkleTree] is a persistent tree of depth 161 whose values
    are the heights of insertion ([SmirkMetadata]). *)
From S2P Require Import Prelude Element MerkleHash HashCache SmirkBatch SmirkNode SmirkNodeSpec.
From S2P Require Import SmirkTree SmirkStorage Utxo BlockStore Crypto.

Definition MERKLE_TREE_DEPTH : nat := 161.

(** * Data *)

Record BlockHeader := mk_header {
  height : Z;
  last_block_hash : list Z;
  epoch_id : Z;
  last_final_block_hash : list Z;
  approvals : list (list Z);
}.
Record BlockState := mk_state { root : Element; state_txns : list UtxoProof }.
Record BlockContent := mk_content { header : BlockHeader; state : BlockState }.
Record Block := mk_block { content : BlockContent; blk_signature : list Z }.

Record BlockMetadata := mk_block_metadata { timestamp_unix_s : option Z }.
Inductive BlockFormat :=
| BlockV1 (b : Block)
| BlockV2 (b : Block) (m : BlockMetadata).

Record TxnMetadata := mk_txn_metadata {
  tm_block_height : Z;
  tm_block_time : option Z;
  tm_block_hash : list Z;
  tm_block_txn_index : Z;
}.
Inductive TxnFormat := TxnV1 (t : UtxoProof) (m : TxnMetadata).

Inductive Mode := ModeValidator | ModeNode | ModeProver | ModeMockProver.
#[export] Instance mode_eq_dec : EqDecision Mode.
Proof. solve_decision. Defined.

Inductive NodeError :=
| InvalidProof
| TxnDuplicateInputCommitments (es : list Element)
| TxnDuplicateOutputCommitments (es : list Element)
| InvalidElementSize (e : Element)
| TxnOutputCommitmentsExist (es : list Element)
| TxnOutputCommitmentsExistedRecently (es : list Element)
| TxnInputCommitmentsNotInTree (es : list Element)
| MintHashAlreadyExists (e : Element)
| ConflictingElementsInBlock (es : list Element)
| TxnCommitmentAlreadyPending (es : list Element)
| InvalidBlockRoot (got expected : Element)
| InvalidSignature
| InvalidTransaction (txn : Element)
| NoteAlreadySpent (spent_note failing_txn_hash : Element)
| LeafAlreadyInsertedInTheSameBlock (inserted_leaf txn_hash failing_txn_hash : Element)
| MintIsNotInTheContract (e : Element)
| MintIsAlreadySpent (es : list Element)
| MintInContractIsDifferent (contract_value contract_note_kind proof_value proof_note_kind : Element)
| EthClientError
| BlockStoreError (e : StoreError)
| SmirkError (e : StorageError)
| CollisionErr (e : CollisionError).

(** [SmirkMetadata]. *)
Record SmirkMetadata := mk_smirk_metadata { inserted_in : Z }.
Notation PersistentMerkleTree := (@Persistent SmirkMetadata).

Section node_block.
Context `{FieldLib, CryptoLib}.

(** ** Hashes *)

Definition block_state_default : BlockState := mk_state ZERO [].
Definition content_genesis : BlockContent :=
  mk_content (mk_header 0 hash_default 0 hash_default []) block_state_default.
Definition block_genesis : Block := mk_block content_genesis (replicate 65 0).

Definition le_bytes (n x : Z) : list Z := Z_to_little_endian n 8 x.

(** Borsh encoding of the header. *)
Definition borsh_header (h : BlockHeader) : list Z :=
  le_bytes 8 (height h) ++ last_block_hash h ++ le_bytes 8 (epoch_id h) ++
  last_final_block_hash h ++ le_bytes 4 (Z.of_nat (length (approvals h))) ++ mjoin (approvals h).
Definition header_hash (c : BlockContent) : list Z := keccak256 (borsh_header (header c)).
Definition content_hash (c : BlockContent) : list Z :=
  keccak256 (to_be_bytes (root (state c)) ++ be_bytes 32 (height (header c)) ++ header_hash c).
Definition hash (b : Block) : list Z := content_hash (content b).
Definition content_sign (c : BlockContent) (s : PeerIdSigner) : list Z :=
  signer_sign s (content_hash c).
Definition to_block (c : BlockContent) (s : PeerIdSigner) : Block :=
  mk_block c (content_sign c s).

(** ** The stored formats *)

Definition into_block (f : BlockFormat) : Block :=
  match f with BlockV1 b => b | BlockV2 b _ => b end.
Definition format_metadata (f : BlockFormat) : BlockMetadata :=
  match f with BlockV1 _ => mk_block_metadata None | BlockV2 _ m => m end.
Definition format_version (f : BlockFormat) : Z :=
  match f with BlockV1 _ => 1 | BlockV2 _ _ => 2 end.
Definition format_upgrade_once (f : BlockFormat) : option BlockFormat :=
  match f with
  | BlockV1 b => Some (BlockV2 b (mk_block_metadata None))
  | BlockV2 _ _ => None
  end.

(** [Block::txns] of a plain block. *)
Definition block_txns (b : Block) : list TxnFormat :=
  imap (λ i t, TxnV1 t (mk_txn_metadata (height (header (content b))) None (hash b)
                          (wrap 32 (Z.of_nat i))))
       (state_txns (state (content b))).
Definition set_block_time (time : option Z) (t : TxnFormat) : TxnFormat :=
  match t with
  | TxnV1 p m => TxnV1 p (mk_txn_metadata (tm_block_height m) time (tm_block_hash m)
                            (tm_block_txn_index m))
  end.
Definition format_txns (f : BlockFormat) : list TxnFormat :=
  match f with
  | BlockV1 b => block_txns b
  | BlockV2 b m => set_block_time (timestamp_unix_s m) <$> block_txns b
  end.

Definition txn_of (t : TxnFormat) : UtxoProof := match t with TxnV1 p _ => p end.
Definition non_zero (es : list Element) : list Element := filter (λ e, e ≠ ZERO) es.

#[export] Instance txn_format_transaction : Transaction TxnFormat := {|
  st_txn_hash t := to_be_bytes (txn_hash (txn_of t));
  input_elements t := non_zero (inputs (txn_of t));
  output_elements t := non_zero (outputs (txn_of t));
  st_mint_hash t := txn_mint_hash (txn_of t);
|}.
#[export] Instance block_format_block : StoreBlock BlockFormat TxnFormat := {|
  block_height f := height (header (content (into_block f)));
  block_hash f := hash (into_block f);
  txns f := format_txns f;
|}.
Notation Store := (StoreDB BlockFormat TxnFormat).

(** ** validate_txn (utxo.rs)

    The parameters [_mode] and [_height] are not used by the code. *)
Section validation.
Context (proof_verify : UtxoProof → bool).

Fixpoint check_outputs (store : Store) (notes_tree : PersistentMerkleTree)
    (leaves : list Element) : outcome NodeError unit :=
  match leaves with
  | [] => Ok tt
  | leaf :: rest =>
      if decide (MODULUS ≤ leaf) then Err (InvalidElementSize leaf)
      else if decide (leaf = ZERO) then check_outputs store notes_tree rest
      else if contains_element (p_tree notes_tree) leaf
      then Err (TxnOutputCommitmentsExist [leaf])
      else
        let? history := map_err BlockStoreError (get_element_history store leaf) in
        match history.2 with
        | Some _ => Err (TxnOutputCommitmentsExistedRecently [leaf])
        | None => check_outputs store notes_tree rest
        end
  end.

Fixpoint check_inputs (notes_tree : PersistentMerkleTree) (leaves : list Element)
  : outcome NodeError unit :=
  match leaves with
  | [] => Ok tt
  | leaf :: rest =>
      if decide (MODULUS ≤ leaf) then Err (InvalidElementSize leaf)
      else if bool_decide (leaf ≠ ZERO) && negb (contains_element (p_tree notes_tree) leaf)
      then Err (TxnInputCommitmentsNotInTree [leaf])
      else check_inputs notes_tree rest
  end.

Definition check_mint (store : Store) (utxo_proof : UtxoProof) : outcome NodeError unit :=
  match txn_mint_hash utxo_proof with
  | Some mint_hash =>
      let? in_db := map_err BlockStoreError (get_mint_hash store mint_hash) in
      match in_db with
      | Some _ => Err (MintHashAlreadyExists mint_hash)
      | None => Ok tt
      end
  | None => Ok tt
  end.

Definition validate_txn (utxo_proof : UtxoProof) (store : Store)
    (notes_tree : PersistentMerkleTree) : outcome NodeError unit :=
  if negb (proof_verify utxo_proof) then Err InvalidProof
  else
    let '(input_0, input_1) := input_commitments (public_inputs utxo_proof) in
    if decide (input_0 ≠ ZERO ∧ input_0 = input_1)
    then Err (TxnDuplicateInputCommitments [input_0])
    else
    let '(output_0, output_1) := output_commitments (public_inputs utxo_proof) in
    if decide (output_0 ≠ ZERO ∧ output_0 = output_1)
    then Err (TxnDuplicateOutputCommitments [output_0])
    else
      let? _ := check_outputs store notes_tree (outputs utxo_proof) in
      let? _ := check_inputs notes_tree (inputs utxo_proof) in
      check_mint store utxo_proof.

(** ** BlockContent::validate (block.rs) *)

(** One pass over the two commitments of a transaction: [self] is the map
    that is filled, [other] the map of the other side. *)
Fixpoint add_leaves (self other : gmap Element Element) (txn_hash : Element)
    (leaves : list Element) : outcome NodeError (gmap Element Element) :=
  match leaves with
  | [] => Ok self
  | leaf :: rest =>
      if decide (leaf = ZERO) then add_leaves self other txn_hash rest
      else match self !! leaf, other !! leaf with
           | None, None => add_leaves (<[leaf := txn_hash]> self) other txn_hash rest
           | _, _ => Err (ConflictingElementsInBlock [leaf])
           end
  end.

Fixpoint validate_txns (store : Store) (notes_tree : PersistentMerkleTree)
    (insert_txn_leaves remove_txn_leaves : gmap Element Element) (l : list UtxoProof)
  : outcome NodeError (gmap Element Element * gmap Element Element) :=
  match l with
  | [] => Ok (insert_txn_leaves, remove_txn_leaves)
  | t :: rest =>
      let? ins := add_leaves insert_txn_leaves remove_txn_leaves (txn_hash t) (outputs t) in
      let? rem := add_leaves remove_txn_leaves ins (txn_hash t) (inputs t) in
      let? _ := validate_txn t store notes_tree in
      validate_txns store notes_tree ins rem rest
  end.

Definition keys_of (m : gmap Element Element) : list Element := (map_to_list m).*1.

(** The cache of the tree is behind [&self]: the simulation may fill it. *)
Definition set_cache (p : PersistentMerkleTree) (c : SimpleHashCache) : PersistentMerkleTree :=
  mk_persistent (mk_tree (tree (p_tree p)) (tree_entries (p_tree p)) c) (p_db p).

Definition content_validate (self : BlockContent) (store : Store)
    (notes_tree : PersistentMerkleTree) : PersistentMerkleTree * outcome NodeError unit :=
  match validate_txns store notes_tree ∅ ∅ (state_txns (state self)) with
  | Ok (ins, rem) =>
      let '(notes_tree', new_root) :=
        if decide (ins = ∅ ∧ rem = ∅) then (notes_tree, Ok (root_hash (p_tree notes_tree)))
        else let '(c, r) := root_hash_with MERKLE_TREE_DEPTH (p_tree notes_tree)
                              (keys_of ins) (keys_of rem) in
             (set_cache notes_tree c, r) in
      (notes_tree',
       match new_root with
       | Ok r => if decide (r = root (state self)) then Ok tt
                 else Err (InvalidBlockRoot r (root (state self)))
       | Err e => match e with end
       | Panic m => Panic m
       end)
  | Err e => (notes_tree, Err e)
  | Panic m => (notes_tree, Panic m)
  end.

(** ** validate_block (node/block.rs, node.rs) *)

Context (bad_blocks : list Z) (validators_for_height : Z → list (list Z)).

Definition get_leader_for_block_height (h : Z) : outcome NodeError (list Z) :=
  let validators := validators_for_height h in
  if decide (validators = []) then Panic "attempt to calculate the remainder with a divisor of zero"
  else unwrap (validators !! Z.to_nat (h mod Z.of_nat (length validators))) "index out of bounds".

Definition validate_block (b : Block) (store : Store) (notes_tree : PersistentMerkleTree)
  : PersistentMerkleTree * outcome NodeError unit :=
  if decide (height (header (content b)) ∈ bad_blocks) then (notes_tree, Ok tt)
  else match get_leader_for_block_height (height (header (content b))) with
  | Ok validator =>
      match signature_verify (blk_signature b) (hash b) with
      | Ok (Some signed_by) =>
          if decide (signed_by ≠ validator) then (notes_tree, Err InvalidSignature)
          else content_validate (content b) store notes_tree
      | Ok None => (notes_tree, Err InvalidSignature)
      | Err e => (notes_tree, Err e)
      | Panic m => (notes_tree, Panic m)
      end
  | Err e => (notes_tree, Err e)
  | Panic m => (notes_tree, Panic m)
  end.
End validation.

(** ** apply_block_to_tree (node/block.rs) *)

Definition block_ins (st : BlockState) : list Element := non_zero (state_txns st ≫= inputs).
Definition block_outs (st : BlockState) : list Element := non_zero (state_txns st ≫= outputs).

Definition apply_block_to_tree (temp_noir : bool) (notes_tree : PersistentMerkleTree)
    (st : BlockState) (current_height : Z) : PersistentMerkleTree * outcome NodeError unit :=
  let leaves_with_height := (λ e, (e, mk_smirk_metadata current_height)) <$> block_outs st in
  match from_entries MERKLE_TREE_DEPTH leaves_with_height (block_ins st) with
  | Ok batch =>
      let '(p, r) := persistent_insert_batch MERKLE_TREE_DEPTH temp_noir notes_tree batch in
      (p, map_err SmirkError r)
  | Err e => (notes_tree, Err (CollisionErr e))
  | Panic m => (notes_tree, Panic m)
  end.
End node_block.
Notation Store := (StoreDB BlockFormat TxnFormat).

#[global] Opaque MERKLE_TREE_DEPTH.

(** * What a passed validation means *)

Section validation_facts.
Context `{FieldLib, CryptoLib} (proof_verify : UtxoProof → bool).
Implicit Types (store : Store) (p : PersistentMerkleTree) (t : UtxoProof).

Lemma elem_non_zero es e : e ∈ non_zero es ↔ e ≠ ZERO ∧ e ∈ es.
Proof. unfold non_zero. by rewrite list_elem_of_filter. Qed.
Lemma non_zero_app l k : non_zero (l ++ k) = non_zero l ++ non_zero k.
Proof. unfold non_zero. by rewrite filter_app. Qed.

Lemma contains_false p e :
  contains_element (p_tree p) e = false ↔ tree_entries (p_tree p) !! e = None.
Proof. unfold contains_element. rewrite bool_decide_eq_false, eq_None_not_Some. done. Qed.
Lemma contains_true p e :
  contains_element (p_tree p) e = true ↔ is_Some (tree_entries (p_tree p) !! e).
Proof. unfold contains_element. by rewrite bool_decide_eq_true. Qed.

(** What [validate_txn] checks. *)
Record txn_valid store p t : Prop := {
  tv_proof : proof_verify t = true;
  tv_nodup_in : NoDup (non_zero (inputs t));
  tv_nodup_out : NoDup (non_zero (outputs t));
  tv_out : ∀ e, e ∈ non_zero (outputs t) →
    e < MODULUS ∧ tree_entries (p_tree p) !! e = None ∧
    get_element_history_with_kind store e HistOutput = Ok None;
  tv_in : ∀ e, e ∈ non_zero (inputs t) →
    e < MODULUS ∧ is_Some (tree_entries (p_tree p) !! e);
  tv_mint : ∀ m, txn_mint_hash t = Some m → get_mint_hash store m = Ok None;
}.

Lemma check_outputs_ok store p es :
  check_outputs store p es = Ok tt →
  ∀ e, e ∈ non_zero es →
    e < MODULUS ∧ tree_entries (p_tree p) !! e = None ∧
    get_element_history_with_kind store e HistOutput = Ok None.
Proof.
  induction es as [|x es IH]; simpl; [intros _ e []%elem_of_nil|].
  case_decide as Hm; [done|]. intros Hok e [Hz He]%elem_non_zero.
  case_decide as Hx.
  { apply IH; [done|]. apply elem_non_zero. apply elem_of_cons in He as [->|?]; done. }
  destruct (contains_element _ x) eqn:Hc; [done|]. unfold get_element_history in Hok.
  destruct (get_element_history_with_kind store x HistInput) as [hi|?|?]; [|done..].
  destruct (get_element_history_with_kind store x HistOutput) as [[?|]|?|?] eqn:Ho; [done| |done..].
  simpl in Hok. apply elem_of_cons in He as [->|He].
  - split; [lia|]. split; [by apply contains_false|done].
  - apply IH; [done|]. by apply elem_non_zero.
Qed.

Lemma check_inputs_ok p es :
  check_inputs p es = Ok tt →
  ∀ e, e ∈ non_zero es → e < MODULUS ∧ is_Some (tree_entries (p_tree p) !! e).
Proof.
  induction es as [|x es IH]; simpl; [intros _ e []%elem_of_nil|].
  case_decide as Hm; [done|]. destruct (_ && _) eqn:Hb; [done|].
  intros Hok e [Hz [->|He]%elem_of_cons]%elem_non_zero; [|by apply IH, elem_non_zero].
  split; [lia|]. apply andb_false_iff in Hb as [Hb|Hb].
  - by apply bool_decide_eq_false in Hb.
  - by apply contains_true, negb_false_iff.
Qed.

Lemma non_zero_pair a b : ¬ (a ≠ ZERO ∧ a = b) → NoDup (non_zero [a; b]).
Proof.
  intros Hab. unfold non_zero. rewrite !filter_cons, filter_nil.
  repeat case_decide; repeat constructor; rewrite ?list_elem_of_singleton, ?elem_of_nil; tauto || naive_solver.
Qed.

Lemma validate_txn_ok store p t : validate_txn proof_verify t store p = Ok tt → txn_valid store p t.
Proof.
  unfold validate_txn. destruct (proof_verify t) eqn:Hp; [|done]. cbn [negb].
  destruct (input_commitments _) as [i0 i1] eqn:Hic. case_decide as Hdi; [done|].
  destruct (output_commitments _) as [o0 o1] eqn:Hoc. case_decide as Hdo; [done|].
  destruct (check_outputs store p (outputs t)) as [[]|?|?] eqn:Ho; [|done..].
  cbn [outcome_bind].
  destruct (check_inputs p (inputs t)) as [[]|?|?] eqn:Hi; [|done..]. cbn [outcome_bind].
  unfold check_mint. intros Hm. split; [done| | |by apply check_outputs_ok|by apply check_inputs_ok|].
  { unfold inputs. rewrite Hic. by apply non_zero_pair. }
  { unfold outputs. rewrite Hoc. by apply non_zero_pair. }
  intros m Hmm. rewrite Hmm in Hm. destruct (get_mint_hash store m) as [[?|]|?|?]; simplify_eq/=; done.
Qed.

Lemma add_leaves_ok self other h es m :
  add_leaves self other h es = Ok m →
  dom m = dom self ∪ list_to_set (non_zero es) ∧ NoDup (non_zero es) ∧
  ∀ e, e ∈ non_zero es → e ∉ dom self ∧ e ∉ dom other.
Proof.
  revert self. induction es as [|x es IH]; intros self; simpl.
  { intros [= <-]. split_and!; [set_solver|constructor|]. intros e []%elem_of_nil. }
  unfold non_zero. rewrite filter_cons. case_decide as Hz.
  { intros Hok. rewrite decide_False by tauto. by apply IH. }
  rewrite decide_True by done. fold (non_zero es).
  destruct (self !! x) eqn:Hs; [done|]. destruct (other !! x) eqn:Ho; [done|].
  intros (Hd & Hn & Hf)%IH. rewrite dom_insert_L in Hd, Hf.
  apply not_elem_of_dom in Hs. apply not_elem_of_dom in Ho. split_and!.
  - rewrite Hd. simpl. set_solver.
  - constructor; [|done]. intros Hin. apply Hf in Hin as [Hin _]. set_solver.
  - intros e [->|He]%elem_of_cons; [done|]. apply Hf in He as [??]. set_solver.
Qed.

Lemma validate_txns_ok store p ins rem l ins' rem' :
  validate_txns proof_verify store p ins rem l = Ok (ins', rem') →
  let O := non_zero (l ≫= outputs) in
  let I := non_zero (l ≫= inputs) in
  dom ins' = dom ins ∪ list_to_set O ∧ dom rem' = dom rem ∪ list_to_set I ∧
  NoDup (O ++ I) ∧ (∀ e, e ∈ O ++ I → e ∉ dom ins ∧ e ∉ dom rem) ∧
  Forall (txn_valid store p) l.
Proof.
  revert ins rem. induction l as [|t l IH]; intros ins rem.
  { intros [= <- <-]. cbn. split_and!; [set_solver|set_solver|constructor| |constructor].
    intros e []%elem_of_nil. }
  cbn [validate_txns].
  destruct (add_leaves ins rem (txn_hash t) (outputs t)) as [ins1|?|?] eqn:E1; [|done..].
  cbn [outcome_bind].
  destruct (add_leaves rem ins1 (txn_hash t) (inputs t)) as [rem1|?|?] eqn:E2; [|done..].
  cbn [outcome_bind].
  destruct (validate_txn proof_verify t store p) as [[]|?|?] eqn:E3; [|done..].
  cbn [outcome_bind]. intros (Hd1 & Hd2 & Hn & Hf & Hv)%IH.
  apply add_leaves_ok in E1 as (D1 & N1 & F1). apply add_leaves_ok in E2 as (D2 & N2 & F2).
  apply validate_txn_ok in E3. rewrite !bind_cons, !non_zero_app in *. cbn zeta.
  set (Ot := non_zero (outputs t)) in *. set (It := non_zero (inputs t)) in *.
  set (Ol := non_zero (l ≫= outputs)) in *. set (Il := non_zero (l ≫= inputs)) in *.
  split_and!.
  - rewrite Hd1, D1, list_to_set_app_L. set_solver.
  - rewrite Hd2, D2, list_to_set_app_L. set_solver.
  - assert ((Ot ++ Ol) ++ It ++ Il ≡ₚ (Ot ++ It) ++ Ol ++ Il) as ->.
    { rewrite <-!app_assoc. apply Permutation_app_head. rewrite !app_assoc.
      apply Permutation_app_tail, Permutation_app_comm. }
    apply NoDup_app. split_and!; [|set_solver|done].
    apply NoDup_app. split_and!; [done|set_solver|done].
  - set_solver.
  - by constructor.
Qed.

Lemma add_leaves_complete self other h es :
  NoDup (non_zero es) → (∀ e, e ∈ non_zero es → e ∉ dom self ∧ e ∉ dom other) →
  ∃ m, add_leaves self other h es = Ok m.
Proof.
  revert self. induction es as [|x es IH]; intros self; simpl; [by eauto|].
  unfold non_zero. rewrite filter_cons. destruct (decide (x = ZERO)) as [Hz|Hz].
  { rewrite decide_False by tauto. apply IH. }
  rewrite decide_True by done. fold (non_zero es). rewrite NoDup_cons. intros [Hnx Hn] Hf.
  destruct (Hf x) as [Hs Ho]; [by left|]. apply not_elem_of_dom in Hs, Ho. rewrite Hs, Ho.
  apply IH; [done|]. intros e He. rewrite dom_insert_L. destruct (Hf e); [by right|]. set_solver.
Qed.

(** Transactions that are valid one by one and touch distinct commitments
    make a valid list. *)
Lemma validate_txns_complete store p ins rem l :
  Forall (λ t, validate_txn proof_verify t store p = Ok tt) l →
  NoDup (non_zero (l ≫= outputs) ++ non_zero (l ≫= inputs)) →
  (∀ e, e ∈ non_zero (l ≫= outputs) ++ non_zero (l ≫= inputs) → e ∉ dom ins ∧ e ∉ dom rem) →
  ∃ r, validate_txns proof_verify store p ins rem l = Ok r.
Proof.
  intros Hl. revert ins rem. induction Hl as [|t l Ht Hl IH]; intros ins rem; [by eauto|].
  rewrite !bind_cons, !non_zero_app. cbn [validate_txns].
  set (Ot := non_zero (outputs t)). set (It := non_zero (inputs t)).
  set (Ol := non_zero (l ≫= outputs)) in *. set (Il := non_zero (l ≫= inputs)) in *.
  intros Hn Hf.
  assert (Hn' : NoDup ((Ot ++ It) ++ Ol ++ Il)).
  { revert Hn. rewrite <-!app_assoc. by rewrite (Permutation_app_swap_app Ol It). }
  apply NoDup_app in Hn' as (Hn1 & Hd & Hn2). apply NoDup_app in Hn1 as (HnO & HdO & HnI).
  destruct (add_leaves_complete ins rem (txn_hash t) (outputs t)) as [ins1 E1]; [done| |].
  { intros e He. apply Hf. set_solver. }
  destruct (add_leaves_ok _ _ _ _ _ E1) as (D1 & _ & _). rewrite E1. cbn [outcome_bind].
  destruct (add_leaves_complete rem ins1 (txn_hash t) (inputs t)) as [rem1 E2]; [done| |].
  { intros e He. rewrite D1. fold It in He. fold Ot. specialize (Hf e). specialize (HdO e). set_solver. }
  destruct (add_leaves_ok _ _ _ _ _ E2) as (D2 & _ & _). rewrite E2. cbn [outcome_bind].
  rewrite Ht. cbn [outcome_bind]. apply IH; [done|].
  intros e He. rewrite D1, D2. fold Ot It. specialize (Hf e). specialize (Hd e).
  rewrite !elem_of_app in *. set_solver.
Qed.

(** Validation looks at the elements of the tree only. *)
Lemma validate_txns_entries store p p1 ins rem l :
  tree_entries (p_tree p1) = tree_entries (p_tree p) →
  validate_txns proof_verify store p1 ins rem l = validate_txns proof_verify store p ins rem l.
Proof.
  intros He.
  assert (∀ e, contains_element (p_tree p1) e = contains_element (p_tree p) e) as Hc.
  { intros e. unfold contains_element. by rewrite He. }
  assert (∀ es, check_outputs store p1 es = check_outputs store p es) as Ho.
  { induction es as [|e es IH]; [done|]. cbn [check_outputs]. rewrite IH, Hc. done. }
  assert (∀ es, check_inputs p1 es = check_inputs p es) as Hi.
  { induction es as [|e es IH]; [done|]. cbn [check_inputs]. rewrite IH, Hc. done. }
  revert ins rem. induction l as [|t l IH]; intros ins rem; [done|]. cbn [validate_txns].
  unfold validate_txn. rewrite Ho, Hi.
  destruct (add_leaves ins rem _ _); [|done..]. cbn [outcome_bind].
  destruct (add_leaves rem _ _ _); [|done..]. cbn [outcome_bind]. by rewrite IH.
Qed.

Lemma validate_txns_each store p ins rem l r :
  validate_txns proof_verify store p ins rem l = Ok r →
  Forall (λ t, validate_txn proof_verify t store p = Ok tt) l.
Proof.
  revert ins rem. induction l as [|t l IH]; intros ins rem; [by constructor|]. cbn [validate_txns].
  destruct (add_leaves ins rem _ _) as [ins1|?|?]; [|done..]. cbn [outcome_bind].
  destruct (add_leaves rem ins1 _ _) as [rem1|?|?]; [|done..]. cbn [outcome_bind].
  destruct (validate_txn proof_verify t store p) as [[]|?|?] eqn:E; [|done..]. cbn [outcome_bind].
  intros Hr. constructor; [done|]. by eapply IH.
Qed.
End validation_facts.

(** * Applying a validated block *)

Section apply_facts.
Context `{FieldLib, CryptoLib} (proof_verify : UtxoProof → bool) (temp_noir : bool).
Implicit Types (store : Store) (p : PersistentMerkleTree) (st : BlockState).
Notation D := MERKLE_TREE_DEPTH.
Notation elems p := (dom (tree_entries (p_tree p))).

(** Changes that can be carried out on the tree of [p]: nothing occurs twice,
    the insertions are new, the removals are present, and no two elements
    share the 160 low bits that select a slot. *)
Record changes_fit p (ins rem : list Element) : Prop := {
  cf_nodup : NoDup (ins ++ rem);
  cf_zero : ∀ e, e ∈ ins ++ rem → e ≠ ZERO;
  cf_in : ∀ e, e ∈ ins → e ∉ elems p;
  cf_rem : ∀ e, e ∈ rem → e ∈ elems p;
  cf_slots : ∀ x y, x ∈ elems p ∪ list_to_set ins → y ∈ elems p ∪ list_to_set ins →
                    slot D x = slot D y → x = y;
}.

Lemma changes_fit_proper p ins rem ins' rem' :
  (∀ e, e ∈ ins ↔ e ∈ ins') → (∀ e, e ∈ rem ↔ e ∈ rem') → NoDup (ins' ++ rem') →
  changes_fit p ins rem → changes_fit p ins' rem'.
Proof.
  intros Hi Hr Hn [H1 H2 H3 H4 H5]. split.
  - done.
  - intros e. rewrite elem_of_app, <-Hi, <-Hr, <-elem_of_app. apply H2.
  - intros e. rewrite <-Hi. apply H3.
  - intros e. rewrite <-Hr. apply H4.
  - intros x y. rewrite !elem_of_union, !elem_of_list_to_set, <-!Hi, <-!(elem_of_list_to_set (C := gset Element)),
      <-!elem_of_union. apply H5.
Qed.

Lemma fit_slots_nodup p ins rem : changes_fit p ins rem → NoDup (slot D <$> (ins ++ rem)).
Proof.
  intros Hf. apply NoDup_fmap_2_strong; [|apply (cf_nodup _ _ _ Hf)].
  assert (∀ e, e ∈ ins ++ rem → e ∈ elems p ∪ list_to_set ins) as Hsub.
  { intros e [He|He]%elem_of_app; [set_solver|]. apply (cf_rem _ _ _ Hf) in He. set_solver. }
  intros x y Hx Hy. apply (cf_slots _ _ _ Hf); by apply Hsub.
Qed.

Lemma fit_batch {M} (f : Element → M) p ins rem :
  changes_fit p ins rem →
  ∃ b, from_entries D ((λ e, (e, f e)) <$> ins) rem = Ok b ∧ wf_batch D b ∧
    entries b = ((λ e, (e, f e)) <$> ins) ∧ remove_entries b = rem ∧
    insert_elements b = ins.
Proof.
  intros Hf.
  assert (((λ e, (e, f e)) <$> ins).*1 = ins) as Hfst.
  { rewrite <-list_fmap_compose. apply list_fmap_id. }
  destruct (from_entries_ok D ((λ e, (e, f e)) <$> ins) rem) as (b & Hb & Hwb & He & Hr).
  { rewrite Hfst. by eapply fit_slots_nodup. }
  exists b. split_and!; try done. unfold insert_elements. by rewrite He.
Qed.

Lemma fit_valid p ins rem (b : Batch SmirkMetadata) :
  changes_fit p ins rem → wf_batch D b → insert_elements b = ins → remove_entries b = rem →
  valid_batch D (p_tree p) b.
Proof.
  intros Hf Hwb Hi Hr. split; [done| | |].
  - intros e. unfold batch_elements, remove_elements. rewrite Hi, Hr. apply (cf_zero _ _ _ Hf).
  - intros e x He Hx Hs. rewrite Hi in He. apply elem_of_dom in Hx.
    assert (x = e) as ->; [|by apply (cf_in _ _ _ Hf e)].
    apply (cf_slots _ _ _ Hf); [apply elem_of_union_l|apply elem_of_union_r|exact Hs]; [done|].
    by apply elem_of_list_to_set.
  - intros e. unfold remove_elements. rewrite Hr. intros He.
    apply elem_of_dom. by apply (cf_rem _ _ _ Hf).
Qed.

Lemma apply_block_ok p st h :
  wf_persistent D p → changes_fit p (block_outs st) (block_ins st) →
  ∃ p', apply_block_to_tree temp_noir p st h = (p', Ok tt) ∧ wf_persistent D p' ∧
    tree_entries (p_tree p') =
      apply_entries (tree_entries (p_tree p))
        ((λ e, (e, mk_smirk_metadata h)) <$> block_outs st) (block_ins st).
Proof.
  intros Hwf Hf. unfold apply_block_to_tree.
  destruct (fit_batch (λ _, mk_smirk_metadata h) _ _ _ Hf) as (b & -> & Hwb & He & Hr & Hi).
  destruct (persistent_insert_batch_ok D temp_noir p b Hwf) as (p' & -> & Hwf' & He').
  { by eapply fit_valid. }
  exists p'. split; [done|]. split; [done|]. by rewrite He', He, Hr.
Qed.

Definition elems_after p st : gset Element :=
  (list_to_set (block_outs st) ∪ elems p) ∖ list_to_set (block_ins st).

Lemma dom_after p p' st h :
  tree_entries (p_tree p') =
    apply_entries (tree_entries (p_tree p))
      ((λ e, (e, mk_smirk_metadata h)) <$> block_outs st) (block_ins st) →
  elems p' = elems_after p st.
Proof.
  intros ->. rewrite dom_apply_entries. unfold elems_after. do 3 f_equal.
  rewrite <-list_fmap_compose. apply list_fmap_id.
Qed.

Lemma set_cache_wf p c : wf_persistent D p → cache_inv c → wf_persistent D (set_cache p c).
Proof.
  intros [[Hd Hn Hc Hh _ He] Hdb] Hcc. split; [|done]. by split.
Qed.

Lemma elem_keys_of m e : e ∈ keys_of m ↔ e ∈ dom m.
Proof.
  unfold keys_of. rewrite elem_of_dom, list_elem_of_fmap. split.
  - intros ([? v] & -> & Hin%elem_of_map_to_list). by exists v.
  - intros [v Hv]. exists (e, v). split; [done|]. by apply elem_of_map_to_list.
Qed.

(** No two elements in play share a slot. *)
Definition collision_free p st : Prop :=
  ∀ x y, x ∈ elems p ∪ list_to_set (block_outs st) → y ∈ elems p ∪ list_to_set (block_outs st) →
         slot D x = slot D y → x = y.

Lemma validated_fit store p st ins rem :
  validate_txns proof_verify store p ∅ ∅ (state_txns st) = Ok (ins, rem) →
  collision_free p st → changes_fit p (block_outs st) (block_ins st) ∧
  dom ins = list_to_set (block_outs st) ∧ dom rem = list_to_set (block_ins st).
Proof.
  intros (Hd1 & Hd2 & Hn & _ & Hv)%validate_txns_ok Hcf.
  rewrite dom_empty_L in Hd1, Hd2. split; [|by rewrite Hd1, Hd2, !(left_id_L ∅ (∪))].
  rewrite Forall_forall in Hv. split; [done| | | |done].
  - intros e [He|He]%elem_of_app; by apply elem_non_zero in He as [].
  - intros e [Hz (t & Ht & Htl)%list_elem_of_bind]%elem_non_zero.
    apply not_elem_of_dom. apply (tv_out _ _ _ _ (Hv t Htl)). by apply elem_non_zero.
  - intros e [Hz (t & Ht & Htl)%list_elem_of_bind]%elem_non_zero.
    apply elem_of_dom. apply (tv_in _ _ _ _ (Hv t Htl)). by apply elem_non_zero.
Qed.

Lemma validated_txns store p c p1 :
  content_validate proof_verify c store p = (p1, Ok tt) →
  Forall (txn_valid proof_verify store p) (state_txns (state c)).
Proof.
  unfold content_validate.
  destruct (validate_txns _ _ _ _ _ _) as [[ins rem]|?|?] eqn:E; [|done..].
  by apply validate_txns_ok in E as (_ & _ & _ & _ & ?).
Qed.

(** Once its transactions are validated, a block passes exactly when it states
    the root of the tree after it. *)
Lemma content_validate_root store p c ins rem :
  wf_persistent D p → collision_free p (state c) →
  validate_txns proof_verify store p ∅ ∅ (state_txns (state c)) = Ok (ins, rem) →
  let r := spec_root D (elems_after p (state c)) in
  ∃ p1, content_validate proof_verify c store p =
      (p1, if decide (r = root (state c)) then Ok tt else Err (InvalidBlockRoot r (root (state c)))) ∧
    wf_persistent D p1 ∧ tree_entries (p_tree p1) = tree_entries (p_tree p) ∧ p_db p1 = p_db p.
Proof.
  intros Hwf Hcf E. unfold content_validate. rewrite E.
  destruct (validated_fit _ _ _ _ _ E Hcf) as (Hfit & Hd1 & Hd2).
  case_decide as Hemp.
  - destruct Hemp as [-> ->]. exists p.
    replace (spec_root D (elems_after p (state c))) with (root_hash (p_tree p)); [done|].
    rewrite (root_hash_spec D _ (wp_tree _ _ Hwf)). f_equal.
    unfold elems_after. rewrite <-Hd1, <-Hd2, !dom_empty_L. set_solver.
  - assert (changes_fit p (keys_of ins) (keys_of rem)) as Hfit'.
    { eapply changes_fit_proper; [..|exact Hfit].
      - intros e. by rewrite elem_keys_of, Hd1, elem_of_list_to_set.
      - intros e. by rewrite elem_keys_of, Hd2, elem_of_list_to_set.
      - apply NoDup_app. split_and!; [apply NoDup_fst_map_to_list| |apply NoDup_fst_map_to_list].
        intros e. rewrite !elem_keys_of, Hd1, Hd2, !elem_of_list_to_set. intros Ho Hi.
        pose proof (cf_nodup _ _ _ Hfit) as Hn. apply NoDup_app in Hn as (_ & Hn & _).
        by apply (Hn e). }
    destruct (fit_batch (λ _, mk_smirk_metadata 0) _ _ _ Hfit') as (b & _ & Hwb & _ & Hr & Hi).
    destruct (root_hash_with_ok D temp_noir (p_tree p) b (wp_tree _ _ Hwf)) as (cc & Hc & Hcc).
    { by eapply fit_valid. }
    unfold remove_elements in Hc. rewrite Hi, Hr in Hc. rewrite Hc.
    exists (set_cache p cc). cbn zeta. split_and!; [|by apply set_cache_wf|done|done].
    replace ((list_to_set (keys_of ins) ∪ elems p) ∖ list_to_set (keys_of rem)) with (elems_after p (state c)); [done|].
    unfold elems_after. apply set_eq. intros e.
    rewrite !elem_of_difference, !elem_of_union, !elem_of_list_to_set, !elem_keys_of, Hd1, Hd2.
    by rewrite !elem_of_list_to_set.
Qed.

(** A block that passes validation states the root of the tree after it. *)
Lemma content_validate_ok store p c p1 :
  wf_persistent D p → collision_free p (state c) →
  content_validate proof_verify c store p = (p1, Ok tt) →
  wf_persistent D p1 ∧ tree_entries (p_tree p1) = tree_entries (p_tree p) ∧ p_db p1 = p_db p ∧
  changes_fit p (block_outs (state c)) (block_ins (state c)) ∧
  root (state c) = spec_root D (elems_after p (state c)).
Proof.
  intros Hwf Hcf Hv.
  destruct (validate_txns proof_verify store p ∅ ∅ (state_txns (state c))) as [[ins rem]|?|?] eqn:E;
    [|unfold content_validate in Hv; by rewrite E in Hv..].
  destruct (validated_fit _ _ _ _ _ E Hcf) as (Hfit & _).
  destruct (content_validate_root _ _ _ _ _ Hwf Hcf E) as (p2 & Hv' & Hwf2 & He2 & Hdb2).
  rewrite Hv in Hv'. case_decide as Hr; [|done]. by injection Hv' as ->.
Qed.

(** ** Validation never panics on a well-formed store *)

Lemma check_outputs_total store p es :
  wf_store store → Forall wf_element es → ∀ m, check_outputs store p es ≠ Panic m.
Proof.
  intros Hs. induction 1 as [|e es He Hes IH]; intros m; simpl; [done|].
  case_decide; [done|]. case_decide; [apply IH|]. destruct (contains_element _ _); [done|].
  unfold get_element_history.
  destruct (history_total store e HistInput Hs He) as [hi ->].
  destruct (history_total store e HistOutput Hs He) as [ho ->]. simpl.
  destruct ho; [done|apply IH].
Qed.
Lemma check_inputs_total p es m : check_inputs p es ≠ Panic m.
Proof.
  induction es as [|e es IH]; simpl; [done|]. case_decide; [done|]. by destruct (_ && _).
Qed.
Lemma validate_txn_total store p t m :
  wf_store store → Forall wf_element (outputs t) → (∀ x, txn_mint_hash t = Some x → wf_element x) →
  validate_txn proof_verify t store p ≠ Panic m.
Proof.
  intros Hs Ho Hm. unfold validate_txn. destruct (proof_verify t); [|done]. cbn [negb].
  destruct (input_commitments _) as [i0 i1]. case_decide; [done|].
  destruct (output_commitments _) as [o0 o1]. case_decide; [done|].
  pose proof (check_outputs_total store p (outputs t) Hs Ho) as Hc.
  destruct (check_outputs store p (outputs t)) as [[]|?|mo]; [|done|by edestruct Hc].
  cbn [outcome_bind]. pose proof (check_inputs_total p (inputs t)) as Hi.
  destruct (check_inputs p (inputs t)) as [[]|?|mi]; [|done|by edestruct Hi].
  cbn [outcome_bind]. unfold check_mint. destruct (txn_mint_hash t) as [x|]; [|done].
  destruct (mint_total store x Hs (Hm x eq_refl)) as [d ->]. by destruct d.
Qed.

Lemma add_leaves_total self other h es m : add_leaves self other h es ≠ Panic m.
Proof.
  revert self. induction es as [|e es IH]; intros self; simpl; [done|].
  case_decide; [apply IH|]. destruct (self !! e), (other !! e); done || apply IH.
Qed.

Lemma validate_txns_total store p ins rem l m :
  wf_store store → Forall (λ t, Forall wf_element (outputs t) ∧
    ∀ x, txn_mint_hash t = Some x → wf_element x) l →
  validate_txns proof_verify store p ins rem l ≠ Panic m.
Proof.
  intros Hs Hl. revert ins rem. induction Hl as [|t l [Ho Hm] Hl IH]; intros ins rem; [done|].
  cbn [validate_txns].
  pose proof (add_leaves_total ins rem (txn_hash t) (outputs t)) as H1.
  destruct (add_leaves ins rem (txn_hash t) (outputs t)) as [i1|?|x]; [|done|by edestruct H1].
  cbn [outcome_bind]. pose proof (add_leaves_total rem i1 (txn_hash t) (inputs t)) as H2.
  destruct (add_leaves rem i1 (txn_hash t) (inputs t)) as [r1|?|x]; [|done|by edestruct H2].
  cbn [outcome_bind]. pose proof (validate_txn_total store p t) as H3.
  destruct (validate_txn proof_verify t store p) as [[]|?|x]; [|done|by edestruct H3].
  cbn [outcome_bind]. apply IH.
Qed.
End apply_facts.
