(* ===== verification/Mempool.v ===== *)
(** The mempool (pkg/node/src/mempool.rs): pending transactions, the queue they
    wait in and the leases that hold them while a block is built.

    A oneshot sender is the name of its channel; [commit] also returns the
    messages it sends.  Each method locks the state for its whole body ([commit]
    drops the lock before [free]; the model takes the two together).  The order
    in which [free] returns the keys of a [HashSet] is that of [elements]. *)
From S2P Require Import Prelude.

Inductive AddError (C : Type) := Conflict (c : C) | DuplicateKey.
Arguments Conflict {C} _.
Arguments DuplicateKey {C}.

Record MempoolTxn (V C : Type) := mk_mempool_txn {
  mtxn : V;
  sender : option Z;
  changes : list C;
}.
Arguments mk_mempool_txn {V C} _ _ _.
Arguments mtxn {V C} _.
Arguments sender {V C} _.
Arguments changes {V C} _.

Section mempool.
Context {K V L C R : Type} `{Countable K, Countable L, Countable C}.

Record Mempool := mk_mempool {
  mp_txns : gmap K (MempoolTxn V C);
  pool : list K;
  leased : gmap L (gset K);
}.
Implicit Types (m : Mempool) (k : K) (l : L).

Definition mempool_default : Mempool := mk_mempool ∅ [] ∅.

(** ** add *)

Definition conflicts m (c : C) : bool :=
  List.existsb (λ kt : K * MempoolTxn V C, List.existsb (λ x, bool_decide (x = c)) (changes kt.2))
    (map_to_list (mp_txns m)).

Definition mempool_add_ m k (txn : V) (cs : list C) (s : option Z)
  : Mempool * outcome (AddError C) unit :=
  match List.find (conflicts m) cs with
  | Some c => (m, Err (Conflict c))
  | None =>
      if decide (is_Some (mp_txns m !! k)) then (m, Err DuplicateKey)
      else (mk_mempool (<[k := mk_mempool_txn txn s cs]> (mp_txns m)) (pool m ++ [k]) (leased m),
            Ok tt)
  end.

Definition mempool_add m k txn cs := mempool_add_ m k txn cs None.
Definition mempool_add_with_listener m k txn cs (s : Z) := mempool_add_ m k txn cs (Some s).

(** ** commit and free *)

Definition mempool_free m l : Mempool :=
  let keys := default ∅ (leased m !! l) in
  mk_mempool (mp_txns m) (reverse (elements keys) ++ pool m) (delete l (leased m)).

(** [VecDeque::remove] of the first position that holds the key. *)
Fixpoint remove_first k (q : list K) : list K :=
  match q with
  | [] => []
  | x :: q' => if decide (x = k) then q' else x :: remove_first k q'
  end.

(** One iteration of the loop of [commit]. *)
Definition commit_key l (mr : Mempool * list (Z * R)) (kr : K * R) : Mempool * list (Z * R) :=
  let '(m, sent) := mr in
  let '(k, result) := kr in
  let sent' := match mp_txns m !! k with
               | Some t => match sender t with Some s => sent ++ [(s, result)] | None => sent end
               | None => sent
               end in
  (mk_mempool (delete k (mp_txns m)) (remove_first k (pool m))
     (alter (λ s, s ∖ {[k]}) l (leased m)), sent').

Definition mempool_commit m l (keys_with_results : list (K * R)) : Mempool * list (Z * R) :=
  let '(m', sent) := foldl (commit_key l) (m, []) keys_with_results in
  (mempool_free m' l, sent).

(** ** Leases *)

Definition lease_key l m k : Mempool :=
  mk_mempool (mp_txns m) (remove_first k (pool m))
    (<[l := {[k]} ∪ default ∅ (leased m !! l)]> (leased m)).
Definition lease_txns m l (keys : list K) : Mempool := foldl (lease_key l) m keys.

(** The loop of [lease_batch]; [q] is what is left of the queue. *)
Fixpoint lease_loop (ts : gmap K (MempoolTxn V C)) (max_count : nat) (q : list K)
    (lease : gset K) (batch : list (K * V)) (discard : list K) (conflict_check : gset C)
  : outcome Empty_set (list K * gset K * list (K * V) * list K) :=
  match q with
  | [] => Ok ([], lease, batch, discard)
  | k :: q' =>
      match ts !! k with
      | None => Panic "key not found in txns"
      | Some t =>
          if List.existsb (λ c, bool_decide (c ∈ conflict_check)) (changes t)
          then lease_loop ts max_count q' lease batch (discard ++ [k]) conflict_check
          else
            let batch' := batch ++ [(k, mtxn t)] in
            if decide (max_count ≤ length batch')%nat
            then Ok (q', {[k]} ∪ lease, batch', discard)
            else lease_loop ts max_count q' ({[k]} ∪ lease) batch' discard
                   (list_to_set (changes t) ∪ conflict_check)
      end
  end.

Definition lease_batch m l (max_count : nat) : outcome Empty_set (Mempool * list (K * V)) :=
  let? r := lease_loop (mp_txns m) max_count (pool m) (default ∅ (leased m !! l)) [] [] ∅ in
  let '(q, lease, batch, discard) := r in
  Ok (mk_mempool (mp_txns m) (q ++ discard)
        (match batch with [] => leased m | _ => <[l := lease]> (leased m) end), batch).

(** * Invariant *)

Definition lease_of m l : gset K := default ∅ (leased m !! l).

(** Every transaction is in the queue or under exactly one lease, nothing else
    is, and no two transactions touch the same commitment. *)
Record wf_mempool m : Prop := {
  wm_nodup : NoDup (pool m);
  wm_pool : ∀ k, k ∈ pool m → is_Some (mp_txns m !! k);
  wm_lease : ∀ l k, k ∈ lease_of m l → is_Some (mp_txns m !! k) ∧ k ∉ pool m;
  wm_disjoint : ∀ l l' k, k ∈ lease_of m l → k ∈ lease_of m l' → l = l';
  wm_cover : ∀ k, is_Some (mp_txns m !! k) → k ∈ pool m ∨ ∃ l, k ∈ lease_of m l;
  wm_changes : ∀ k k' t t' c, mp_txns m !! k = Some t → mp_txns m !! k' = Some t' →
    c ∈ changes t → c ∈ changes t' → k = k';
}.

Lemma mempool_default_wf : wf_mempool mempool_default.
Proof.
  split; simpl; try done.
  - constructor.
  - intros k []%elem_of_nil.
  - by intros k [].
Qed.

Lemma conflicts_spec m c :
  conflicts m c = true ↔ ∃ k t, mp_txns m !! k = Some t ∧ c ∈ changes t.
Proof.
  unfold conflicts. rewrite existsb_elem_of. split.
  - intros ([k t] & Hk%elem_of_map_to_list & Hc). apply existsb_elem_of in Hc as (x & Hx & Hb).
    apply bool_decide_eq_true in Hb as ->. eauto.
  - intros (k & t & Hk & Hc). exists (k, t). split; [by apply elem_of_map_to_list|].
    apply existsb_elem_of. exists c. split; [done|]. by apply bool_decide_eq_true.
Qed.

Lemma mempool_add_wf m k txn cs s : wf_mempool m → wf_mempool (mempool_add_ m k txn cs s).1.
Proof.
  intros [Hn Hp Hl Hd Hc Hx]. unfold mempool_add_.
  destruct (List.find _ cs) as [c|] eqn:Hf; [by split|].
  case_decide as Hk; [by split|]. rewrite <-eq_None_not_Some in Hk. cbn [fst].
  assert (k ∉ pool m) as Hkp by (intros Hin; apply Hp in Hin as [? Hin]; congruence).
  rewrite find_none_iff in Hf.
  assert (∀ k' t c, mp_txns m !! k' = Some t → c ∈ changes t → c ∈ cs → False) as Hfree.
  { intros k' t c Hk' Hct Hcs. apply Hf in Hcs.
    assert (conflicts m c = true) by (apply conflicts_spec; eauto). congruence. }
  split; cbn [mp_txns pool leased].
  - apply NoDup_app. split_and!; [done| |apply NoDup_singleton].
    intros x Hx' ->%list_elem_of_singleton. done.
  - intros x. rewrite elem_of_app, list_elem_of_singleton, lookup_insert_is_Some'.
    intros [?| ->]; [right; by apply Hp|by left].
  - intros l x Hlx. destruct (Hl l x Hlx) as [Hs Hnp].
    rewrite lookup_insert_is_Some'. split; [by right|].
    rewrite elem_of_app, list_elem_of_singleton. intros [?| ->]; [done|].
    destruct Hs as [? Hs]. congruence.
  - apply Hd.
  - intros x. rewrite lookup_insert_is_Some', elem_of_app, list_elem_of_singleton.
    intros [->|Hs]; [by left; right|]. destruct (Hc x Hs); [by left; left|by right].
  - intros k1 k2 t1 t2 c. rewrite !lookup_insert.
    repeat case_decide; simplify_eq; eauto; intros; simplify_eq/=; exfalso; eauto.
Qed.

(** ** Leasing a batch *)

(** The pairs [lease_batch] returns for a list of queued keys. *)
Definition taken (ts : gmap K (MempoolTxn V C)) (ks : list K) : list (K * V) :=
  omap (λ k, (λ t, (k, mtxn t)) <$> ts !! k) ks.

Lemma taken_cons ts k t ks : ts !! k = Some t → taken ts (k :: ks) = (k, mtxn t) :: taken ts ks.
Proof. intros Hk. unfold taken. csimpl. by rewrite Hk. Qed.

Lemma taken_keys ts ks : (∀ k, k ∈ ks → is_Some (ts !! k)) → (taken ts ks).*1 = ks.
Proof.
  induction ks as [|k ks IH]; intros Hk; [done|].
  destruct (Hk k) as [t Ht]; [by left|]. rewrite (taken_cons _ _ t) by done. csimpl.
  f_equal. apply IH. intros x Hx. apply Hk. by right.
Qed.

(** With pairwise disjoint changes nothing is ever discarded: the loop takes
    the keys from the front of the queue. *)
Lemma lease_loop_fifo ts n q lease batch cc :
  NoDup q → (∀ k, k ∈ q → is_Some (ts !! k)) →
  (∀ k k' t t' c, ts !! k = Some t → ts !! k' = Some t' → c ∈ changes t → c ∈ changes t' → k = k') →
  (∀ c, c ∈ cc → ∃ k t, k ∉ q ∧ ts !! k = Some t ∧ c ∈ changes t) →
  (length batch < Nat.max 1 n)%nat →
  let j := (Nat.max 1 n - length batch)%nat in
  lease_loop ts n q lease batch [] cc =
    Ok (drop j q, list_to_set (take j q) ∪ lease, batch ++ taken ts (take j q), []).
Proof.
  intros Hn Hq Hx. revert lease batch cc. induction Hn as [|k q Hk Hn IH]; intros lease batch cc Hcc Hlen j.
  { cbn. rewrite drop_nil, take_nil, app_nil_r. simpl. by rewrite (left_id_L ∅ (∪)). }
  destruct (Hq k) as [t Ht]; [by left|]. cbn [lease_loop]. rewrite Ht.
  destruct (List.existsb _ _) eqn:Hex.
  { apply existsb_elem_of in Hex as (c & Hct & Hc%bool_decide_eq_true).
    apply Hcc in Hc as (k' & t' & Hk' & Ht' & Hct'). exfalso. apply Hk'.
    rewrite <-(Hx k k' t t' c); [by left|done..]. }
  destruct j as [|j'] eqn:Ej; [unfold j in Ej; lia|]. cbn [take drop].
  rewrite (taken_cons _ _ t) by done. case_decide as Hfull; rewrite length_app in Hfull; simpl in Hfull.
  - assert (j' = 0%nat) as -> by (unfold j in Ej; lia).
    cbn [take drop list_to_set taken omap list_omap]. do 3 f_equal. f_equal. set_solver.
  - rewrite IH; cycle 1.
    + intros x Hxq. apply Hq. by right.
    + intros c [Hc|Hc]%elem_of_union.
      * apply elem_of_list_to_set in Hc. eauto.
      * apply Hcc in Hc as (k' & t' & Hk' & ? & ?). exists k', t'.
        split; [|done]. intros ?. apply Hk'. by right.
    + rewrite length_app. simpl. lia.
    + cbn zeta. rewrite length_app. cbn [length].
      replace (Nat.max 1 n - (length batch + 1))%nat with j' by (unfold j in Ej; lia).
      rewrite <-app_assoc. cbn [app list_to_set]. do 3 f_equal. f_equal. set_solver.
Qed.

(** The state after [lease_batch]. *)
Definition leased_state m l (n : nat) : Mempool :=
  mk_mempool (mp_txns m) (drop (Nat.max 1 n) (pool m))
    (match pool m with
     | [] => leased m
     | _ => <[l := list_to_set (take (Nat.max 1 n) (pool m)) ∪ lease_of m l]> (leased m)
     end).

Lemma lease_batch_ok m l n :
  wf_mempool m →
  lease_batch m l n = Ok (leased_state m l n, taken (mp_txns m) (take (Nat.max 1 n) (pool m))).
Proof.
  intros Hwf. unfold lease_batch.
  rewrite (lease_loop_fifo _ n (pool m)); cycle 1.
  - apply (wm_nodup m Hwf).
  - apply (wm_pool m Hwf).
  - apply (wm_changes m Hwf).
  - set_solver.
  - simpl. lia.
  - cbn [length app outcome_bind]. rewrite Nat.sub_0_r, app_nil_r. do 2 f_equal.
    unfold leased_state. f_equal. destruct (pool m) as [|k q] eqn:Ep; [by rewrite take_nil|].
    destruct (wm_pool m Hwf k) as [t Ht]; [rewrite Ep; by left|].
    destruct (Nat.max 1 n) as [|j] eqn:Ej; [lia|]. cbn [take]. by rewrite (taken_cons _ _ t).
Qed.

Lemma lease_of_insert m l s l' (ts : gmap K (MempoolTxn V C)) q :
  lease_of (mk_mempool ts q (<[l := s]> (leased m))) l' = if decide (l = l') then s else lease_of m l'.
Proof. unfold lease_of. cbn [leased]. rewrite lookup_insert. by case_decide. Qed.

Lemma leased_state_wf m l n : wf_mempool m → wf_mempool (leased_state m l n).
Proof.
  intros [Hn Hp Hl Hd Hc Hx]. unfold leased_state. set (j := Nat.max 1 n).
  destruct (decide (pool m = [])) as [Hnil|Hne].
  { rewrite Hnil, drop_nil. split; simpl; try done.
    - constructor.
    - intros k []%elem_of_nil.
    - intros l' k Hk. split; [by apply (Hl l' k)|apply not_elem_of_nil].
    - intros k Hk. rewrite <-Hnil. by apply Hc. }
  assert (∀ k, k ∈ pool m ↔ k ∈ take j (pool m) ∨ k ∈ drop j (pool m)) as Hsplit.
  { intros k. by rewrite <-elem_of_app, take_drop. }
  assert (NoDup (take j (pool m)) ∧ (∀ k, k ∈ take j (pool m) → k ∉ drop j (pool m)) ∧
          NoDup (drop j (pool m))) as (_ & Hdisj & Hnd) by (by apply NoDup_app; rewrite take_drop).
  replace (match pool m with [] => leased m | _ => <[l := list_to_set (take j (pool m)) ∪ lease_of m l]> (leased m) end)
    with (<[l := list_to_set (take j (pool m)) ∪ lease_of m l]> (leased m)) by (by destruct (pool m)).
  split; cbn [mp_txns pool].
  - done.
  - intros k Hk. apply Hp, Hsplit. by right.
  - intros l' k. rewrite lease_of_insert. case_decide as Hll.
    + rewrite elem_of_union, elem_of_list_to_set. intros [Hk|Hk].
      * split; [apply Hp, Hsplit; by left|by apply Hdisj].
      * destruct (Hl l k Hk) as [? Hkp]. split; [done|]. rewrite Hsplit in Hkp. tauto.
    + intros Hk. destruct (Hl l' k Hk) as [? Hkp]. split; [done|]. rewrite Hsplit in Hkp. tauto.
  - intros l1 l2 k. rewrite !lease_of_insert.
    assert (∀ l', k ∈ lease_of m l' → k ∈ take j (pool m) → False) as Hno.
    { intros l' Hk Ht. apply (Hl l' k Hk). apply Hsplit. by left. }
    repeat case_decide; subst; try done; rewrite ?elem_of_union, ?elem_of_list_to_set; naive_solver.
  - intros k Hk. destruct (Hc k Hk) as [Hkp|[l' Hk']].
    + apply Hsplit in Hkp as [Hk'|?]; [|by left]. right. exists l. rewrite lease_of_insert.
      rewrite decide_True by done. apply elem_of_union_l. by apply elem_of_list_to_set.
    + right. exists l'. rewrite lease_of_insert. case_decide; [|done]. subst. by apply elem_of_union_r.
  - done.
Qed.

(** ** Committing *)

Lemma elem_remove_first k x q : NoDup q → x ∈ remove_first k q ↔ x ∈ q ∧ x ≠ k.
Proof.
  induction 1 as [|y q Hy Hn IH]; simpl; [rewrite elem_of_nil; tauto|].
  case_decide; subst; rewrite !elem_of_cons, ?IH; naive_solver.
Qed.
Lemma remove_first_nodup k q : NoDup q → NoDup (remove_first k q).
Proof.
  induction 1 as [|y q Hy Hn IH]; simpl; [constructor|]. case_decide; [done|].
  constructor; [|done]. rewrite elem_remove_first by done. tauto.
Qed.

Lemma lease_of_alter m l k l' (ts : gmap K (MempoolTxn V C)) q :
  lease_of (mk_mempool ts q (alter (λ s, s ∖ {[k]}) l (leased m))) l' =
  if decide (l = l') then lease_of m l' ∖ {[k]} else lease_of m l'.
Proof.
  unfold lease_of. cbn [leased]. rewrite lookup_alter. case_decide; [|done]. subst.
  destruct (leased m !! l') as [s|]; simpl; [done|]. set_solver.
Qed.

(** Committing under lease [l] must not touch what another lease holds. *)
Definition lease_owns m l (ks : list K) : Prop :=
  ∀ k l', k ∈ ks → k ∈ lease_of m l' → l' = l.

Lemma commit_key_wf m l sent kr :
  wf_mempool m → lease_owns m l [kr.1] → wf_mempool (commit_key l (m, sent) kr).1.
Proof.
  destruct kr as [k r]. intros [Hn Hp Hl Hd Hc Hx] Hown. cbn [commit_key fst].
  assert (∀ l' x, x ∈ lease_of m l' → x ≠ k ∨ l' = l) as Hown'.
  { intros l' x Hk. destruct (decide (x = k)) as [->|]; [right|by left].
    apply (Hown k l'); [by left|done]. }
  split; cbn [mp_txns pool].
  - by apply remove_first_nodup.
  - intros x [Hxp Hne]%elem_remove_first; [|done]. rewrite lookup_delete_ne by done. by apply Hp.
  - intros l' x. rewrite lease_of_alter, elem_remove_first by done. case_decide as Hll.
    + rewrite elem_of_difference, elem_of_singleton. intros [Hk Hne].
      rewrite lookup_delete_ne by done. destruct (Hl l' x Hk). tauto.
    + intros Hk. destruct (Hl l' x Hk) as [? ?]. destruct (Hown' l' x Hk) as [Hne|Heq]; [|done].
      rewrite lookup_delete_ne by done. tauto.
  - intros l1 l2 x. rewrite !lease_of_alter.
    repeat case_decide; rewrite ?elem_of_difference; naive_solver.
  - intros x. rewrite lookup_delete_is_Some. intros [Hne Hs].
    destruct (Hc x Hs) as [Hxp|[l' Hk]].
    + left. apply elem_remove_first; [done|]. done.
    + right. exists l'. rewrite lease_of_alter. case_decide; [|done].
      apply elem_of_difference. rewrite elem_of_singleton. done.
  - intros k1 k2 t1 t2 c. rewrite !lookup_delete. repeat case_decide; try done. apply Hx.
Qed.

Lemma mempool_free_wf m l : wf_mempool m → wf_mempool (mempool_free m l).
Proof.
  intros [Hn Hp Hl Hd Hc Hx].
  assert (∀ l', lease_of (mempool_free m l) l' = if decide (l = l') then ∅ else lease_of m l') as Hlo.
  { intros l'. unfold lease_of, mempool_free. cbn [leased]. rewrite lookup_delete. by case_decide. }
  split; unfold mempool_free; cbn [mp_txns pool].
  - apply NoDup_app. split_and!; [rewrite reverse_Permutation; apply NoDup_elements| |done].
    intros x. rewrite elem_of_reverse, elem_of_elements. intros Hk. by apply (Hl l x).
  - intros x. rewrite elem_of_app, elem_of_reverse, elem_of_elements.
    intros [Hk|Hk]; [by apply (Hl l x)|by apply Hp].
  - intros l' x. fold (mempool_free m l). rewrite Hlo. case_decide as Hll; [set_solver|].
    intros Hk. destruct (Hl l' x Hk) as [? ?]. split; [done|].
    rewrite elem_of_app, elem_of_reverse, elem_of_elements. intros [Hk'|?]; [|done].
    apply Hll. by apply (Hd l l' x).
  - intros l1 l2 x. fold (mempool_free m l). rewrite !Hlo.
    repeat case_decide; [set_solver..|]. apply Hd.
  - intros x Hs. rewrite elem_of_app, elem_of_reverse, elem_of_elements.
    destruct (Hc x Hs) as [?|[l' Hk]]; [tauto|].
    destruct (decide (l = l')) as [->|Hne]; [left; by left|].
    right. exists l'. fold (mempool_free m l). rewrite Hlo. by rewrite decide_False.
  - apply Hx.
Qed.

Lemma commit_fold_wf m l sent (krs : list (K * R)) :
  wf_mempool m → lease_owns m l krs.*1 → wf_mempool (foldl (commit_key l) (m, sent) krs).1.
Proof.
  revert m sent. induction krs as [|kr krs IH]; intros m sent Hwf Hown; [done|]. cbn [foldl].
  pose proof (commit_key_wf m l sent kr Hwf) as Hstep.
  destruct (commit_key l (m, sent) kr) as [m1 sent1] eqn:E. apply IH.
  - apply Hstep. intros k l' ->%list_elem_of_singleton. apply Hown. by left.
  - destruct kr as [k0 r0]. cbn [commit_key] in E. injection E as <- <-.
    intros k l' Hk. rewrite lease_of_alter. intros Hin. apply (Hown k l'); [by right|].
    case_decide; [|done]. by apply elem_of_difference in Hin as [? _].
Qed.

Lemma mempool_commit_wf m l (krs : list (K * R)) :
  wf_mempool m → lease_owns m l krs.*1 → wf_mempool (mempool_commit m l krs).1.
Proof.
  intros Hwf Hown. unfold mempool_commit. pose proof (commit_fold_wf m l [] krs Hwf Hown) as Hf.
  destruct (foldl _ _ _) as [m' sent]. by apply mempool_free_wf.
Qed.

(** The notifications of a commit: one for each committed transaction that
    somebody waits for, in the order of the keys. *)
Definition notifications (ts : gmap K (MempoolTxn V C)) (krs : list (K * R)) : list (Z * R) :=
  omap (λ kr : K * R, (λ s, (s, kr.2)) <$> (ts !! kr.1 ≫= sender)) krs.

Lemma commit_fold_spec m l sent (krs : list (K * R)) :
  NoDup krs.*1 →
  let r := foldl (commit_key l) (m, sent) krs in
  (∀ k, mp_txns r.1 !! k = if decide (k ∈ krs.*1) then None else mp_txns m !! k) ∧
  r.2 = sent ++ notifications (mp_txns m) krs ∧
  (∀ l', lease_of r.1 l' = if decide (l' = l) then lease_of m l' ∖ list_to_set krs.*1 else lease_of m l').
Proof.
  revert m sent. induction krs as [|[k0 r0] krs IH]; intros m sent Hn; cbn zeta.
  { split_and!.
    - intros k. rewrite decide_False by apply not_elem_of_nil. done.
    - by rewrite app_nil_r.
    - intros l'. cbn. case_decide; [set_solver|done]. }
  rewrite fmap_cons, NoDup_cons in Hn. destruct Hn as [Hk0 Hn]. cbn [foldl].
  destruct (commit_key l (m, sent) (k0, r0)) as [m1 sent1] eqn:E.
  cbn [commit_key] in E. injection E as Hm1 Hs1.
  destruct (IH m1 sent1 Hn) as (F1 & F2 & F3). cbn zeta in *. split_and!.
  - intros k. rewrite F1, <-Hm1. cbn [mp_txns]. rewrite fmap_cons. cbn [fst].
    rewrite lookup_delete. repeat case_decide; subst; set_solver.
  - rewrite F2, <-Hs1. unfold notifications. csimpl.
    assert (∀ ks : list (K * R), k0 ∉ ks.*1 →
      omap (λ kr, (λ s, (s, kr.2)) <$> (mp_txns m1 !! kr.1 ≫= sender)) ks =
      omap (λ kr, (λ s, (s, kr.2)) <$> (mp_txns m !! kr.1 ≫= sender)) ks) as Hext.
    { intros ks. induction ks as [|[k r] ks IHk]; [done|]. rewrite fmap_cons, not_elem_of_cons.
      intros [Hne Hin]. csimpl. rewrite IHk by done. rewrite <-Hm1. cbn [mp_txns].
      by rewrite lookup_delete_ne. }
    rewrite Hext by done.
    destruct (mp_txns m !! k0) as [t|]; simpl; [|done].
    destruct (sender t); simpl; [by rewrite <-app_assoc|done].
  - intros l'. rewrite F3, <-Hm1, lease_of_alter. rewrite fmap_cons. cbn [fst list_to_set].
    repeat case_decide; subst; try done. set_solver.
Qed.

(** ** Reachable mempools *)

(** The operations of a block producer: transactions are added, a batch is
    leased under a height, and a height is committed with keys that no other
    lease holds. *)
Inductive mempool_reachable : Mempool → Prop :=
| reach_default : mempool_reachable mempool_default
| reach_add m k v cs s : mempool_reachable m → mempool_reachable (mempool_add_ m k v cs s).1
| reach_lease m l n m' b :
    mempool_reachable m → lease_batch m l n = Ok (m', b) → mempool_reachable m'
| reach_commit m l (krs : list (K * R)) :
    mempool_reachable m → lease_owns m l krs.*1 → mempool_reachable (mempool_commit m l krs).1.

Lemma mempool_reachable_wf m : mempool_reachable m → wf_mempool m.
Proof.
  induction 1 as [|m k v cs s _ IH|m l n m' b _ IH Hl|m l krs _ IH Ho].
  - apply mempool_default_wf.
  - by apply mempool_add_wf.
  - rewrite lease_batch_ok in Hl by done. injection Hl as <- _. by apply leased_state_wf.
  - by apply mempool_commit_wf.
Qed.

(** However a block producer mixes adding, leasing and committing, every
    transaction stays in the queue or under exactly one lease, so leasing a
    batch never panics: it hands out the transactions at the front of the
    queue in order, one at least and otherwise up to the count, and keeps the
    rest queued. *)
Theorem lease_batch_takes_front m l n :
  mempool_reachable m →
  ∃ m' b, lease_batch m l n = Ok (m', b) ∧
    b = taken (mp_txns m) (take (Nat.max 1 n) (pool m)) ∧
    b.*1 = take (Nat.max 1 n) (pool m) ∧ pool m = b.*1 ++ pool m' ∧
    mp_txns m' = mp_txns m ∧ wf_mempool m'.
Proof.
  intros Hwf%mempool_reachable_wf.
  exists (leased_state m l n), (taken (mp_txns m) (take (Nat.max 1 n) (pool m))).
  split; [by apply lease_batch_ok|].
  assert ((taken (mp_txns m) (take (Nat.max 1 n) (pool m))).*1 = take (Nat.max 1 n) (pool m)) as Hk.
  { apply taken_keys. intros k Hk. apply (wm_pool m Hwf).
    rewrite <-(take_drop (Nat.max 1 n)), elem_of_app. by left. }
  split_and!; [done|done| |done|by apply leased_state_wf].
  rewrite Hk. cbn [leased_state pool]. by rewrite take_drop.
Qed.

(** Committing a height removes exactly the committed transactions, sends
    each waiting client its result, releases the lease, and returns what the
    lease still held to the front of the queue; nothing else is dropped. *)
Theorem commit_releases_lease m l (krs : list (K * R)) :
  mempool_reachable m → lease_owns m l krs.*1 → NoDup krs.*1 →
  let '(m', sent) := mempool_commit m l krs in
  wf_mempool m' ∧ lease_of m' l = ∅ ∧
  (∀ l', l' ≠ l → lease_of m' l' = lease_of m l') ∧
  (∀ k, mp_txns m' !! k = if decide (k ∈ krs.*1) then None else mp_txns m !! k) ∧
  (∀ k, k ∈ lease_of m l → k ∉ krs.*1 → k ∈ pool m') ∧
  sent = notifications (mp_txns m) krs.
Proof.
  intros Hwf%mempool_reachable_wf Hown Hn.
  pose proof (mempool_commit_wf m l krs Hwf Hown) as Hwf'.
  pose proof (commit_fold_spec m l [] krs Hn) as (F1 & F2 & F3). unfold mempool_commit in *.
  destruct (foldl (commit_key l) (m, []) krs) as [m1 sent]. cbn [fst snd] in *.
  split_and!; [done| | | | |done].
  - unfold lease_of, mempool_free. cbn [leased]. by rewrite lookup_delete_eq.
  - intros l' Hne. unfold lease_of, mempool_free. cbn [leased].
    rewrite lookup_delete_ne by done. fold (lease_of m1 l'). rewrite F3. by rewrite decide_False.
  - intros k. unfold mempool_free. cbn [mp_txns]. apply F1.
  - intros k Hk Hnk. unfold mempool_free. cbn [pool].
    rewrite elem_of_app, elem_of_reverse, elem_of_elements. left.
    fold (lease_of m1 l). rewrite F3, decide_True by done.
    apply elem_of_difference. by rewrite elem_of_list_to_set.
Qed.
End mempool.
Arguments Mempool : clear implicits.
Arguments Mempool K V L C {_ _ _ _}.

(** * Concrete mempools *)

Definition mp_add (m : Mempool Z Z Z Z) (k v : Z) (cs : list Z) : Mempool Z Z Z Z :=
  (mempool_add m k v cs).1.
Definition ex_mempool : Mempool Z Z Z Z :=
  mp_add (mp_add (mp_add mempool_default 1 42 [10]) 2 24 [20]) 3 15 [30].

Lemma ex_mempool_reachable : mempool_reachable (R := Z) ex_mempool.
Proof. unfold ex_mempool, mp_add, mempool_add. repeat apply reach_add. apply reach_default. Qed.

Definition ex_leased : Mempool Z Z Z Z := leased_state ex_mempool 7 2.
Lemma ex_leased_reachable : mempool_reachable (R := Z) ex_leased.
Proof.
  apply (reach_lease ex_mempool 7 2 ex_leased
           (taken (mp_txns ex_mempool) (take 2 (pool ex_mempool)))).
  - apply ex_mempool_reachable.
  - apply lease_batch_ok. apply (mempool_reachable_wf (R := Z)), ex_mempool_reachable.
Qed.

Lemma lease_batch_takes_front_witness :
  ∃ m' b, lease_batch ex_mempool 7 2 = Ok (m', b) ∧
    b = taken (mp_txns ex_mempool) (take 2 (pool ex_mempool)) ∧
    b.*1 = take 2 (pool ex_mempool) ∧ pool ex_mempool = b.*1 ++ pool m' ∧
    mp_txns m' = mp_txns ex_mempool ∧ wf_mempool m'.
Proof. exact (lease_batch_takes_front (R := Z) ex_mempool 7 2 ex_mempool_reachable). Defined.

Lemma commit_releases_lease_witness :
  let '(m', sent) := mempool_commit ex_leased 7 [(1, 0)] in
  wf_mempool m' ∧ lease_of m' 7 = ∅ ∧
  (∀ l', l' ≠ 7 → lease_of m' l' = lease_of ex_leased l') ∧
  (∀ k, mp_txns m' !! k = if decide (k ∈ [1]) then None else mp_txns ex_leased !! k) ∧
  (∀ k, k ∈ lease_of ex_leased 7 → k ∉ [1] → k ∈ pool m') ∧
  sent = notifications (mp_txns ex_leased) [(1, 0)].
Proof.
  apply (commit_releases_lease ex_leased 7 [(1, 0)] ex_leased_reachable).
  - intros k l' _ Hk. destruct (decide (7 = l')) as [|Hne]; [done|].
    unfold ex_leased, leased_state, lease_of in Hk. cbn [leased] in Hk.
    change (leased ex_mempool) with (∅ : gmap Z (gset Z)) in Hk.
    destruct (pool ex_mempool); [done|]. by rewrite lookup_insert_ne in Hk.
  - apply NoDup_singleton.
Defined.

(** Committing a transaction under a height other than the one that leased
      it leaves its key in that lease; when the lease is released the key is
      queued again although the transaction is gone, and the next batch
      panics. *)
Theorem commit_under_other_lease_panics :
  let m1 := (mempool_commit (R := Z) ex_leased 8 [(1, 0)]).1 in
  let m2 := (mempool_commit (R := Z) m1 7 []).1 in
  1 ∈ pool m2 ∧ mp_txns m2 !! 1 = None ∧
  lease_batch m2 9 5 = Panic "key not found in txns".
Proof. split_and!; [|by vm_compute|by vm_compute]. apply (bool_decide_unpack _). by vm_compute. Qed.
