(* ===== verification/BlockCache.v ===== *)
(** The cache of unconfirmed blocks (pkg/node/src/cache.rs).

    A block is any type with a height and a hash; [hash_height] is the
    consequence of collision resistance the cache relies on: among the blocks
    the node ever sees ([known]), those with the same hash have the same height
    (the height is part of the hashed content). *)
From S2P Require Import Prelude.

(** * The cache *)

Section block_cache.
Context {B : Type} (bheight : B → Z) (bhash : B → list Z).

Record BlockCache := mk_cache {
  cache_height : Z;
  cache_max_height : Z;
  blocks : gmap (list Z) B;
  block_hash_heights : gmap Z (list Z);
  max_cache_size : nat;
}.
Implicit Types (c : BlockCache) (b : B) (h : Z).

Definition cache_remove c (x : list Z) : BlockCache :=
  match blocks c !! x with
  | Some b => mk_cache (cache_height c) (cache_max_height c) (delete x (blocks c))
                (delete (bheight b) (block_hash_heights c)) (max_cache_size c)
  | None => c
  end.

Definition cache_insert c b : BlockCache :=
  let h := bheight b in
  if decide (h < cache_height c) then c
  else
    let c1 := mk_cache (cache_height c) (Z.max (cache_max_height c) h) (blocks c)
                (block_hash_heights c) (max_cache_size c) in
    let '(max_height, max_hash) :=
      default (0, replicate 32 0) (last (btree_iter (block_hash_heights c1))) in
    let at_capacity := bool_decide (max_cache_size c1 ≤ size (blocks c1))%nat in
    if at_capacity && bool_decide (max_height < h) then c1
    else
      let c2 := if at_capacity then cache_remove c1 max_hash else c1 in
      mk_cache (cache_height c2) (cache_max_height c2) (<[bhash b := b]> (blocks c2))
        (<[h := bhash b]> (block_hash_heights c2)) (max_cache_size c2).

Definition cache_new (start_block : B) (max_size : nat) : BlockCache :=
  cache_insert (mk_cache (bheight start_block) (bheight start_block) ∅ ∅ max_size) start_block.

Definition cache_hash c : outcome Empty_set (list Z) :=
  unwrap (block_hash_heights c !! cache_height c) "unwrap on None".

(** One iteration of the second loop of [confirm]. *)
Definition confirm_remove c h : BlockCache :=
  match block_hash_heights c !! h with
  | Some x => mk_cache (cache_height c) (cache_max_height c) (delete x (blocks c))
                (delete h (block_hash_heights c)) (max_cache_size c)
  | None => c
  end.
Definition cache_confirm c h : BlockCache :=
  let c1 := mk_cache h (cache_max_height c) (blocks c) (block_hash_heights c) (max_cache_size c) in
  let heights_to_remove :=
    filter (λ k, k < h) (btree_iter (block_hash_heights c1)).*1 in
  foldl confirm_remove c1 heights_to_remove.

(** [BTreeMap::range] panics on a range whose start is above its end. *)
Definition get_range {E} c (start end_ : Z) : outcome E (list B) :=
  if decide (end_ < start) then Panic "range start is greater than range end in BTreeMap"
  else Ok (omap (λ kx, blocks c !! kx.2)
             (filter (λ kx, start ≤ kx.1 < end_) (btree_iter (block_hash_heights c)))).
Definition get_by_height c h : option B := block_hash_heights c !! h ≫= λ x, blocks c !! x.

Definition cache_is_out_of_sync c : outcome Empty_set bool :=
  match last (btree_iter (block_hash_heights c)) with
  | None => Panic "unwrap on None"
  | Some (k, _) =>
      if decide (k < cache_max_height c) then Ok true
      else
        let start := wrap 64 (cache_height c + 1) in
        Ok (List.existsb (λ h, bool_decide (block_hash_heights c !! h = None))
              (seqZ start (cache_max_height c - start + 1)))
  end.

Definition get_next_commit_block c : option B := get_by_height c (wrap 64 (cache_height c + 1)).

(** * Invariant *)

Context (known : B → Prop).
Hypothesis hash_height : ∀ b b', known b → known b' → bhash b = bhash b' → bheight b = bheight b'.

Record wf_cache c : Prop := {
  wc_index : ∀ h x, block_hash_heights c !! h = Some x →
    ∃ b, blocks c !! x = Some b ∧ bheight b = h ∧ cache_height c ≤ h ≤ cache_max_height c;
  wc_blocks : ∀ x b, blocks c !! x = Some b → x = bhash b ∧ known b;
  wc_confirmed : is_Some (block_hash_heights c !! cache_height c);
  wc_size : (size (blocks c) ≤ Nat.max 1 (max_cache_size c))%nat;
}.

Lemma wc_max c : wf_cache c → cache_height c ≤ cache_max_height c.
Proof. intros Hwf. destruct (wc_confirmed c Hwf) as [x Hx]. destruct (wc_index c Hwf _ _ Hx) as (? & ? & ? & ?). lia. Qed.

Lemma size_insert_le {A} (m : gmap (list Z) A) k x : (size (<[k := x]> m) ≤ S (size m))%nat.
Proof. rewrite map_size_insert. destruct (m !! k); simpl; lia. Qed.

(** The part of the invariant that survives the eviction before an insertion. *)
Record wf_index c : Prop := {
  wi_index : ∀ h x, block_hash_heights c !! h = Some x →
    ∃ b, blocks c !! x = Some b ∧ bheight b = h ∧ cache_height c ≤ h ≤ cache_max_height c;
  wi_blocks : ∀ x b, blocks c !! x = Some b → x = bhash b ∧ known b;
}.

Lemma cache_remove_index c x : wf_index c → wf_index (cache_remove c x).
Proof.
  intros [Hi Hb]. unfold cache_remove. destruct (blocks c !! x) as [b|] eqn:E; [|by split].
  split; simpl.
  - intros h y. rewrite lookup_delete_Some. intros [Hne Hy].
    destruct (Hi h y Hy) as (b' & Hb' & Hh & Hr). exists b'. split; [|done].
    rewrite lookup_delete_ne; [done|]. intros ->. congruence.
  - intros y b'. rewrite lookup_delete_Some. intros [_ Hy]. by apply Hb.
Qed.

Lemma put_index c b :
  wf_index c → known b → cache_height c ≤ bheight b ≤ cache_max_height c →
  wf_index (mk_cache (cache_height c) (cache_max_height c) (<[bhash b := b]> (blocks c))
              (<[bheight b := bhash b]> (block_hash_heights c)) (max_cache_size c)).
Proof.
  intros [Hi Hb] Hkn Hr. split; simpl.
  - intros h x. rewrite lookup_insert. case_decide as Hh.
    + intros [= <-]. exists b. rewrite lookup_insert_eq. by subst.
    + intros Hx. destruct (Hi h x Hx) as (b' & Hb' & Hh' & Hr'). exists b'.
      rewrite lookup_insert_ne; [done|]. intros <-. apply Hh. rewrite <-Hh'.
      destruct (Hb _ _ Hb') as [? ?]. by apply hash_height.
  - intros x b'. rewrite lookup_insert. case_decide; [|apply Hb]. intros [= <-]; by subst.
Qed.

(** ** insert *)

Lemma cache_insert_wf c b : wf_cache c → known b → wf_cache (cache_insert c b).
Proof.
  intros Hwf Hkn. pose proof (wc_max c Hwf) as Hmax. destruct Hwf as [Hi Hb Hc Hs].
  unfold cache_insert. case_decide as Hlow; [done|].
  set (c1 := mk_cache (cache_height c) (Z.max (cache_max_height c) (bheight b)) (blocks c)
               (block_hash_heights c) (max_cache_size c)).
  assert (wf_index c1) as Hc1.
  { split; [|done]. simpl. intros h x Hx. destruct (Hi h x Hx) as (b' & ? & ? & ?).
    exists b'. split; [done|]. split; [done|lia]. }
  destruct (last (btree_iter (block_hash_heights c1))) as [[mh mx]|] eqn:El; cycle 1.
  { apply btree_last_none in El. simpl in El. rewrite El in Hc. by destruct Hc. }
  apply btree_last in El as [Hmx Hmh]. simpl in Hmx, Hmh. cbn [default id].
  destruct (bool_decide_reflect (max_cache_size c1 ≤ size (blocks c1))%nat) as [_|Ecap]; cbn [andb].
  - case_bool_decide as Hhigh.
    { destruct Hc1 as [Hi1 Hb1]. by split. }
    destruct (Hi mh mx Hmx) as (bm & Hbm & Hhm & Hr).
    assert (cache_remove c1 mx =
      mk_cache (cache_height c) (Z.max (cache_max_height c) (bheight b)) (delete mx (blocks c))
        (delete mh (block_hash_heights c)) (max_cache_size c)) as Hrm.
    { unfold cache_remove. simpl. by rewrite Hbm, Hhm. }
    pose proof (put_index (cache_remove c1 mx) b (cache_remove_index _ mx Hc1) Hkn) as [Hpi Hpb].
    { rewrite Hrm. simpl. lia. }
    split; [exact Hpi|exact Hpb| |].
    + rewrite Hrm. simpl. rewrite lookup_insert. case_decide as Hh; [by eauto|].
      rewrite lookup_delete_ne; [done|]. intros ->. apply Hh. lia.
    + rewrite Hrm. simpl. etrans; [apply size_insert_le|].
      rewrite map_size_delete, Hbm. pose proof (map_size_ne_0_lookup_2 (blocks c) mx) as Hne.
      rewrite Hbm in Hne. specialize (Hne ltac:(eauto)). lia.
  - simpl in Ecap.
    pose proof (put_index c1 b Hc1 Hkn) as [Hpi Hpb]; [simpl; lia|].
    split; [exact Hpi|exact Hpb| |].
    + simpl. rewrite lookup_insert. case_decide; [by eauto|done].
    + simpl. etrans; [apply size_insert_le|]. lia.
Qed.

(** ** confirm *)

(** What one step of the removal loop keeps: the index entries at other
    heights, the two counters and the agreement of the two maps. *)
Lemma confirm_remove_spec c h :
  wf_index c →
  let c' := confirm_remove c h in
  wf_index c' ∧ cache_height c' = cache_height c ∧ cache_max_height c' = cache_max_height c ∧
  max_cache_size c' = max_cache_size c ∧
  block_hash_heights c' = delete h (block_hash_heights c) ∧
  (size (blocks c') ≤ size (blocks c))%nat.
Proof.
  intros [Hi Hb]. unfold confirm_remove.
  destruct (block_hash_heights c !! h) as [x|] eqn:E; simpl; cycle 1.
  { by rewrite delete_id. }
  split_and!; try done.
  - split; simpl.
    + intros h' y. rewrite lookup_delete_Some. intros [Hne Hy].
      destruct (Hi h' y Hy) as (b & Hby & Hh & Hr). exists b. split; [|done].
      rewrite lookup_delete_ne; [done|]. intros ->.
      destruct (Hi h y E) as (b' & Hby' & Hh' & _). congruence.
    + intros y b. rewrite lookup_delete_Some. intros [_ Hy]. by apply Hb.
  - rewrite map_size_delete. destruct (blocks c !! x); simpl; lia.
Qed.

Lemma confirm_removes_spec hs c :
  wf_index c →
  let c' := foldl confirm_remove c hs in
  wf_index c' ∧ cache_height c' = cache_height c ∧ cache_max_height c' = cache_max_height c ∧
  max_cache_size c' = max_cache_size c ∧
  (∀ h, block_hash_heights c' !! h = if decide (h ∈ hs) then None else block_hash_heights c !! h) ∧
  (size (blocks c') ≤ size (blocks c))%nat.
Proof.
  revert c. induction hs as [|h hs IH]; intros c Hwf; simpl.
  { split_and!; try done. }
  destruct (confirm_remove_spec c h Hwf) as (Hw & E1 & E2 & E3 & E4 & Hsz).
  destruct (IH _ Hw) as (Hw' & F1 & F2 & F3 & F4 & Hsz').
  split_and!; try congruence; [|lia].
  intros k. rewrite F4, E4. destruct (decide (k = h)) as [->|Hne].
  - rewrite (decide_True (P := h ∈ h :: hs)) by left. case_decide; [done|apply lookup_delete_eq].
  - rewrite lookup_delete_ne by done. destruct (decide (k ∈ hs)) as [Hin|Hin].
    + by rewrite decide_True by (by right).
    + rewrite decide_False; [done|]. rewrite elem_of_cons. tauto.
Qed.

Definition with_height h c : BlockCache :=
  mk_cache h (cache_max_height c) (blocks c) (block_hash_heights c) (max_cache_size c).
Lemma confirm_remove_height h hs c :
  foldl confirm_remove (with_height h c) hs = with_height h (foldl confirm_remove c hs).
Proof.
  revert c. induction hs as [|k hs IH]; intros c; [done|]. simpl. rewrite <-IH. f_equal.
  unfold confirm_remove. simpl. by destruct (block_hash_heights c !! k).
Qed.

Lemma cache_confirm_spec c h :
  wf_cache c → cache_height c ≤ h → is_Some (block_hash_heights c !! h) →
  let c' := cache_confirm c h in
  wf_cache c' ∧ cache_height c' = h ∧ cache_max_height c' = cache_max_height c ∧
  (∀ k, block_hash_heights c' !! k = if decide (k < h) then None else block_hash_heights c !! k).
Proof.
  intros [Hi Hb Hc Hs] Hle Hsome. unfold cache_confirm.
  set (c1 := mk_cache h _ _ _ _). set (hs := filter _ _).
  assert (Hhs : ∀ k, is_Some (block_hash_heights c !! k) → k ∈ hs ↔ k < h).
  { intros k [x Hx]. unfold hs. rewrite list_elem_of_filter. split; [tauto|]. intros Hk.
    split; [done|]. apply list_elem_of_fmap. exists (k, x). split; [done|]. by apply elem_btree_iter. }
  assert (Hlook : ∀ k, (if decide (k ∈ hs) then None else block_hash_heights c !! k) =
                       if decide (k < h) then None else block_hash_heights c !! k).
  { intros k. destruct (block_hash_heights c !! k) as [x|] eqn:E; [|by do 2 case_decide].
    specialize (Hhs k (ex_intro _ x E)). do 2 case_decide; tauto. }
  pose proof (confirm_removes_spec hs c (Build_wf_index _ Hi Hb)) as (Hw & F1 & F2 & F3 & F4 & Hsz).
  change c1 with (with_height h c). rewrite confirm_remove_height. cbn zeta in *. simpl.
  assert (Hk : ∀ k, block_hash_heights (foldl confirm_remove c hs) !! k =
    if decide (k < h) then None else block_hash_heights c !! k) by (intros k; by rewrite F4).
  split_and!; try done. split; simpl.
  - intros k x Hx. pose proof Hx as Hx'. rewrite Hk in Hx'. case_decide as Hlt; [done|].
    destruct (wi_index _ Hw k x Hx) as (b & ? & ? & ?). exists b. split; [done|]. split; [done|]. lia.
  - apply Hw.
  - rewrite Hk. case_decide; [lia|done].
  - lia.
Qed.

(** ** remove *)

Lemma cache_remove_wf c x b :
  wf_cache c → blocks c !! x = Some b → bheight b ≠ cache_height c → wf_cache (cache_remove c x).
Proof.
  intros [Hi Hb Hc Hs] Hx Hne.
  destruct (cache_remove_index c x (Build_wf_index _ Hi Hb)) as [Hi' Hb'].
  unfold cache_remove in *. rewrite Hx in *.
  split; [exact Hi'|exact Hb'| |].
  - simpl. by rewrite lookup_delete_ne.
  - simpl. rewrite map_size_delete, Hx. simpl. lia.
Qed.

Lemma cache_new_wf b n : (0 < n)%nat → known b → wf_cache (cache_new b n).
Proof.
  intros Hn Hkn. unfold cache_new, cache_insert. simpl. rewrite decide_False by lia.
  rewrite Z.max_id. unfold btree_iter at 1. rewrite map_to_list_empty. simpl.
  rewrite map_size_empty, bool_decide_eq_false_2 by lia. simpl.
  split; simpl.
  - intros h x. rewrite lookup_insert_Some, lookup_empty. intros [[<- <-]|[_ [=]]].
    exists b. rewrite lookup_insert_eq. split_and!; done || lia.
  - intros x b'. rewrite lookup_insert_Some, lookup_empty. by intros [[<- <-]|[_ [=]]].
  - rewrite lookup_insert_eq. by eauto.
  - rewrite map_size_insert, lookup_empty, map_size_empty. simpl. lia.
Qed.

(** * Reachable caches *)

(** The calls the node makes: a block is confirmed only once it is cached,
    and [remove] is called on the next block to commit (tick_worker.rs). *)
Inductive cache_reachable (n : nat) : BlockCache → Prop :=
  | reach_new b : known b → cache_reachable n (cache_new b n)
  | reach_insert c b : cache_reachable n c → known b → cache_reachable n (cache_insert c b)
  | reach_confirm c h :
      cache_reachable n c → cache_height c ≤ h → is_Some (get_by_height c h) →
      cache_reachable n (cache_confirm c h)
  | reach_remove c b :
      cache_reachable n c → get_next_commit_block c = Some b → cache_height c < bheight b →
      cache_reachable n (cache_remove c (bhash b)).

Lemma get_by_height_some c h :
  wf_cache c → is_Some (get_by_height c h) ↔ is_Some (block_hash_heights c !! h).
Proof.
  intros Hwf. unfold get_by_height. destruct (block_hash_heights c !! h) as [x|] eqn:E; simpl; [|done].
  destruct (wc_index c Hwf h x E) as (b & -> & _). split; eauto.
Qed.

Lemma get_by_height_block c h b :
  wf_cache c → get_by_height c h = Some b → bheight b = h ∧ blocks c !! bhash b = Some b.
Proof.
  intros Hwf. unfold get_by_height. destruct (block_hash_heights c !! h) as [x|] eqn:E; simpl; [|done].
  intros Hb. destruct (wc_index c Hwf h x E) as (b' & Hb' & Hh & _). simplify_eq.
  by destruct (wc_blocks c Hwf x b Hb) as [<- _].
Qed.

Lemma cache_insert_size c b : max_cache_size (cache_insert c b) = max_cache_size c.
Proof.
  unfold cache_insert. case_decide; [done|]. destruct (default _ _) as [mh mx].
  destruct (bool_decide _); simpl; [|done]. destruct (bool_decide _); [done|]. simpl.
  unfold cache_remove. simpl. by destruct (blocks c !! mx).
Qed.

Lemma cache_insert_height c b : cache_height (cache_insert c b) = cache_height c.
Proof.
  unfold cache_insert. case_decide; [done|]. destruct (default _ _) as [mh mx].
  destruct (bool_decide _); simpl; [|done]. destruct (bool_decide _); [done|]. simpl.
  unfold cache_remove. simpl. by destruct (blocks c !! mx).
Qed.

Lemma cache_confirm_size c h : max_cache_size (cache_confirm c h) = max_cache_size c.
Proof.
  unfold cache_confirm. change (mk_cache h _ _ _ _) with (with_height h c).
  rewrite confirm_remove_height. simpl. generalize (filter (λ k, k < h) (btree_iter (block_hash_heights c)).*1).
  intros hs. revert c. induction hs as [|k hs IH]; intros c; [done|]. simpl. rewrite IH.
  unfold confirm_remove. by destruct (block_hash_heights c !! k).
Qed.

Lemma cache_reachable_wf n c :
  (0 < n)%nat → cache_reachable n c → wf_cache c ∧ max_cache_size c = n.
Proof.
  intros Hn. induction 1 as [b Hkn|c b _ [IH Hs] Hkn|c h _ [IH Hs] Hle Hh|c b _ [IH Hs] Hb Hlt].
  - split; [by apply cache_new_wf|]. unfold cache_new. by rewrite cache_insert_size.
  - split; [by apply cache_insert_wf|]. by rewrite cache_insert_size.
  - split; [|by rewrite cache_confirm_size].
    apply cache_confirm_spec; [done|done|]. by apply get_by_height_some.
  - destruct (get_by_height_block _ _ _ IH Hb) as [_ Hx].
    split; [apply (cache_remove_wf c _ b); [done|done|lia]|].
    unfold cache_remove. by rewrite Hx.
Qed.

(** in every cache the node can reach (created with a positive size,
    then any sequence of insertions, confirmations of cached heights and
    removals of the next block) the confirmed block is present, so [hash]
    never panics, at most [max_cache_size] blocks are held, every indexed
    block sits at its own height between the confirmed and the greatest
    seen height, and [get_next_commit_block] returns only a block one above
    the confirmed height. *)
Theorem cache_invariant n c :
  (0 < n)%nat → cache_reachable n c → in_width 64 (cache_height c + 1) →
  (∃ b, cache_hash c = Ok (bhash b) ∧ get_by_height c (cache_height c) = Some b ∧
        bheight b = cache_height c) ∧
  (size (blocks c) ≤ n)%nat ∧
  (∀ h b, get_by_height c h = Some b → bheight b = h ∧ cache_height c ≤ h ≤ cache_max_height c) ∧
  (∀ b, get_next_commit_block c = Some b → bheight b = cache_height c + 1).
Proof.
  intros Hn Hr Hw. destruct (cache_reachable_wf n c Hn Hr) as [Hwf Hs]. split_and!.
  - destruct (wc_confirmed c Hwf) as [x Hx]. destruct (wc_index c Hwf _ _ Hx) as (b & Hb & Hh & _).
    exists b. unfold cache_hash, get_by_height. rewrite Hx. simpl. rewrite Hb.
    by destruct (wc_blocks c Hwf x b Hb) as [<- _].
  - pose proof (wc_size c Hwf). lia.
  - intros h b Hb. split; [by eapply get_by_height_block|].
    unfold get_by_height in Hb. destruct (block_hash_heights c !! h) as [x|] eqn:E; [|done].
    destruct (wc_index c Hwf h x E) as (_ & _ & _ & ?). done.
  - intros b Hb. unfold get_next_commit_block in Hb. rewrite wrap_small in Hb by done.
    by eapply get_by_height_block.
Qed.

(** [is_out_of_sync] never panics on a reachable cache and is exact: it
    answers [false] precisely when a block is cached at every height from
    the one after the confirmed height up to the greatest height ever
    seen. *)
Theorem is_out_of_sync_exact n c :
  (0 < n)%nat → cache_reachable n c → in_width 64 (cache_height c + 1) →
  ∃ r, cache_is_out_of_sync c = Ok r ∧
    (r = false ↔ ∀ h, cache_height c < h ≤ cache_max_height c → is_Some (get_by_height c h)).
Proof.
  intros Hn Hr Hw. destruct (cache_reachable_wf n c Hn Hr) as [Hwf _].
  unfold cache_is_out_of_sync. destruct (last _) as [[k x]|] eqn:El; cycle 1.
  { apply btree_last_none in El. destruct (wc_confirmed c Hwf) as [y Hy]. by rewrite El in Hy. }
  apply btree_last in El as [Hk Hmax]. destruct (wc_index c Hwf k x Hk) as (_ & _ & _ & Hrange).
  setoid_rewrite (get_by_height_some c _ Hwf). case_decide as Hlt.
  - exists true. split; [done|]. split; [done|]. intros Hall.
    assert (cache_max_height c ≤ k); [|lia]. apply Hmax. apply Hall. lia.
  - eexists. split; [done|]. rewrite wrap_small by done. rewrite <-not_true_iff_false.
    rewrite List.existsb_exists. setoid_rewrite bool_decide_eq_true.
    setoid_rewrite <-list_elem_of_In. setoid_rewrite elem_of_seqZ. split.
    + intros Hno h Hh. destruct (block_hash_heights c !! h) as [y|] eqn:E; [by eauto|].
      destruct Hno. exists h. split; [lia|done].
    + intros Hall (h & Hh & E). destruct (Hall h) as [? ?]; [lia|]. congruence.
Qed.
End block_cache.

(** * Witnesses *)

(** A block for the examples: its height and a tag that makes forks differ. *)
Definition ex_height (b : Z * Z) : Z := b.1.
Definition ex_hash (b : Z * Z) : list Z := [b.1; b.2].
Definition ex_known (b : Z * Z) : Prop := True.
Lemma ex_hash_height b b' : ex_known b → ex_known b' → ex_hash b = ex_hash b' → ex_height b = ex_height b'.
Proof. unfold ex_hash, ex_height. congruence. Qed.

Definition ex_cache : BlockCache :=
  cache_confirm (cache_insert ex_height ex_hash
    (cache_insert ex_height ex_hash (cache_new ex_height ex_hash (5, 0) 3) (6, 0)) (8, 0)) 6.
Lemma ex_cache_reachable : cache_reachable ex_height ex_hash ex_known 3 ex_cache.
Proof. apply reach_confirm; [by repeat constructor|by vm_compute|by vm_compute; eauto]. Qed.

Lemma cache_invariant_witness :
  cache_hash ex_cache = Ok [6; 0] ∧ get_next_commit_block ex_cache = None ∧
  (size (blocks ex_cache) ≤ 3)%nat.
Proof.
  split; [done|]. split; [done|].
  apply (cache_invariant ex_height ex_hash ex_known ex_hash_height 3 ex_cache);
    [lia|apply ex_cache_reachable|by vm_compute].
Defined.

Lemma is_out_of_sync_exact_witness :
  cache_is_out_of_sync ex_cache = Ok true ∧
  ∃ r, cache_is_out_of_sync ex_cache = Ok r ∧
      (r = false ↔ ∀ h, cache_height ex_cache < h ≤ cache_max_height ex_cache →
                        is_Some (get_by_height ex_cache h)).
Proof.
  split; [done|].
  apply (is_out_of_sync_exact ex_height ex_hash ex_known ex_hash_height 3 ex_cache);
    [lia|apply ex_cache_reachable|by vm_compute].
Defined.

(** A cache of three blocks after one fork at each of the heights 1 and 2. *)
Definition forked_cache : BlockCache :=
  let ins := λ c b, cache_insert ex_height ex_hash c b in
  let c1 := ins (ins (cache_new ex_height ex_hash (0, 0) 3) (1, 0)) (1, 1) in
  let c2 := ins (cache_confirm c1 1) (2, 0) in
  ins (cache_confirm c2 2) (2, 1).

(** a block that loses its height to another block of the same height
    stays in [blocks] after that height is confirmed, since [confirm] removes
    only the blocks the index still names. Such blocks count towards the
    capacity for good: in a cache of three, one fork at each of two heights
    leaves the cache full with nothing above the confirmed height, and the next
    block is refused whatever it is, so the node can no longer advance. *)
Theorem fork_blocks_fill_the_cache tag :
  cache_reachable ex_height ex_hash ex_known 3 forked_cache ∧
  cache_height forked_cache = 2 ∧
  blocks forked_cache !! ex_hash (1, 0) = Some (1, 0) ∧
  get_next_commit_block (cache_insert ex_height ex_hash forked_cache (3, tag)) = None ∧
  cache_is_out_of_sync (cache_insert ex_height ex_hash forked_cache (3, tag)) = Ok true.
Proof.
  split; [|by vm_compute].
  apply reach_insert; [|done]. apply reach_confirm; [|by vm_compute|by vm_compute; eauto].
  apply reach_insert; [|done]. apply reach_confirm; [|by vm_compute|by vm_compute; eauto].
  by repeat constructor.
Qed.
