(* ===== verification/NodeCommit.v ===== *)
(** The node's handlers that change its state (pkg/node/src: node.rs,
    node/proposal.rs, node/tick_worker.rs, node/transaction.rs, node/load.rs).

    A handler takes the node state and returns the next one with its outcome,
    so that what a handler did before an error or a panic stays visible.  The
    rollup contract and the Ethereum client are parameters, as are the clock
    (the time a block is committed at) and which commit listeners are alive.
    [outbox] is the log of the answers sent to requests that wait for a
    transaction.  The tree is read and written by one worker at a time. *)
From S2P Require Import Prelude Element MerkleHash HashCache SmirkBatch SmirkNode SmirkNodeSpec.
From S2P Require Import SmirkTree SmirkStorage Utxo BlockStore Crypto NodeBlock Mempool.
From S2P Require Import BlockCache.

Notation NodeMempool := (@Mempool Element UtxoProof Z Element _ _ _ _).
Notation NodeCache := (@BlockCache Block).

Definition bheight (b : Block) : Z := height (header (content b)).
Definition bstate (b : Block) : BlockState := state (content b).

(** What the contract reports for a mint. *)
Record GetMintRes := mk_mint_res { mint_amount : Element; mint_note_kind : Element; mint_spent : bool }.

Section node.
Context `{FieldLib, CryptoLib}.

Record NodeShared := mk_node {
  n_mode : Mode;
  local_peer : PeerIdSigner;
  block_txns_count : nat;
  safe_eth_height_offset : Z;
  block_store : Store;
  notes_tree : PersistentMerkleTree;
  mempool : NodeMempool;
  block_cache : NodeCache;
  last_commit : option Z;
  listeners : list Z;
  outbox : list (Z * outcome NodeError Block);
}.
Implicit Types (node : NodeShared) (b : Block).

Definition with_store node s := mk_node (n_mode node) (local_peer node) (block_txns_count node)
  (safe_eth_height_offset node) s (notes_tree node) (mempool node) (block_cache node)
  (last_commit node) (listeners node) (outbox node).
Definition with_tree node t := mk_node (n_mode node) (local_peer node) (block_txns_count node)
  (safe_eth_height_offset node) (block_store node) t (mempool node) (block_cache node)
  (last_commit node) (listeners node) (outbox node).
Definition with_cache node c := mk_node (n_mode node) (local_peer node) (block_txns_count node)
  (safe_eth_height_offset node) (block_store node) (notes_tree node) (mempool node) c
  (last_commit node) (listeners node) (outbox node).
Definition with_last_commit node t := mk_node (n_mode node) (local_peer node) (block_txns_count node)
  (safe_eth_height_offset node) (block_store node) (notes_tree node) (mempool node)
  (block_cache node) t (listeners node) (outbox node).
Definition with_listeners node l := mk_node (n_mode node) (local_peer node) (block_txns_count node)
  (safe_eth_height_offset node) (block_store node) (notes_tree node) (mempool node)
  (block_cache node) (last_commit node) l (outbox node).
(** The mempool and the answers a call to it sends. *)
Definition with_mempool node (mr : NodeMempool * list (Z * outcome NodeError Block)) :=
  mk_node (n_mode node) (local_peer node) (block_txns_count node)
    (safe_eth_height_offset node) (block_store node) (notes_tree node) mr.1
    (block_cache node) (last_commit node) (listeners node) (outbox node ++ mr.2).

Context (temp_noir : bool) (proof_verify : UtxoProof → bool) (bad_blocks : list Z)
        (validators_for_height : Z → list (list Z)) (clock : Z → Z) (alive : Z → bool).

(** ** node.rs *)

Definition node_height node : Z := cache_height (block_cache node).
Definition node_max_height node : Z := cache_max_height (block_cache node).
Definition node_root_hash node : Element := root_hash (p_tree (notes_tree node)).
Definition is_validator_for_height node (h : Z) : bool :=
  bool_decide (n_mode node = ModeValidator) &&
  List.existsb (λ a, bool_decide (peer_id (local_peer node) = a)) (validators_for_height h).

(** [validate_block] may fill the hash cache of the tree. *)
Definition node_validate_block node b : NodeShared * outcome NodeError unit :=
  let '(t, r) := validate_block proof_verify bad_blocks validators_for_height b
                   (block_store node) (notes_tree node) in
  (with_tree node t, r).

(** ** commit_proposal *)

Definition commit_proposal node b : NodeShared * outcome NodeError unit :=
  let st := bstate b in
  let h := bheight b in
  let node := with_last_commit node (Some (clock h)) in
  let keys := txn_hash <$> state_txns st in
  if negb (List.forallb (contains_element (p_tree (notes_tree node))) (block_ins st))
  then (node, Panic "Double-spend detected")
  else
    match store_set (block_store node) (BlockV2 b (mk_block_metadata (Some (wrap 64 (clock h))))) with
    | Ok db =>
        let node := with_store node db in
        let '(t, r) := apply_block_to_tree temp_noir (notes_tree node) st h in
        let node := with_tree node t in
        match r with
        | Ok _ =>
            let node := with_mempool node
                          (mempool_commit (mempool node) h ((λ k, (k, Ok b)) <$> keys)) in
            (with_listeners node (filter (λ l, alive l = true) (listeners node)), Ok tt)
        | r => (node, r)
        end
    | Err e => (node, Err (BlockStoreError e))
    | Panic m => (node, Panic m)
    end.

(** ** receive_proposal *)

Definition receive_proposal node b : NodeShared * outcome NodeError unit :=
  if decide (n_mode node = ModeValidator)
  then (node, Panic "This function should not be called by the validator")
  else
    let keys := txn_hash <$> state_txns (bstate b) in
    let node := with_cache node (cache_insert bheight hash (block_cache node) b) in
    (with_mempool node (lease_txns (mempool node) (bheight b) keys, []), Ok tt).

(** ** Transactions *)

Section transactions.
(** The current Ethereum block, and the mint registered at a height. *)
Context (eth_block_number : outcome NodeError Z)
        (get_mint : Z → Element → outcome NodeError (option GetMintRes)).

(** [overflowing_sub], with 0 for a height below the offset. *)
Definition safe_eth_height node (eth_block : Z) : Z :=
  if decide (eth_block < safe_eth_height_offset node) then 0
  else eth_block - safe_eth_height_offset node.

Definition check_contract_mint node (t : UtxoProof) : outcome NodeError unit :=
  match kind_messages (public_inputs t) with
  | MsgMint note_kind value mint_hash =>
      let? eth_block := eth_block_number in
      let? res := get_mint (safe_eth_height node eth_block) mint_hash in
      match res with
      | None => Err (MintIsNotInTheContract mint_hash)
      | Some m =>
          if mint_spent m then Err (MintIsAlreadySpent (outputs t))
          else if decide (mint_amount m ≠ value ∨ mint_note_kind m ≠ note_kind)
          then Err (MintInContractIsDifferent (mint_amount m) (mint_note_kind m) value note_kind)
          else Ok tt
      end
  | MsgBurn _ _ _ _ _ | MsgNone => Ok tt
  end.

Definition validate_transaction node (t : UtxoProof) : outcome NodeError unit :=
  let? _ := check_contract_mint node t in
  validate_txn proof_verify t (block_store node) (notes_tree node).

(** The distinct non-zero commitments of a transaction, inputs first. *)
Definition push_change (changes : list Element) (c : Element) : list Element :=
  if decide (c = ZERO) then changes
  else if decide (c ∈ changes) then changes else changes ++ [c].
Definition txn_changes (t : UtxoProof) : list Element :=
  foldl push_change [] (inputs t ++ outputs t).

Definition receive_transaction node (t : UtxoProof) : NodeShared * outcome NodeError unit :=
  match validate_transaction node t with
  | Panic m => (node, Panic m)
  | Err _ => (node, Ok tt)
  | Ok _ =>
      let '(m, r) := mempool_add (mempool node) (txn_hash t) t (txn_changes t) in
      (with_mempool node (m, []),
       match r with
       | Ok _ => Ok tt
       | Err (Conflict c) => Err (TxnCommitmentAlreadyPending [c])
       | Err DuplicateKey => Ok tt
       | Panic m => Panic m
       end)
  end.

(** The part of [submit_transaction_and_wait] after its first validation:
    [s] is the channel the request waits on. *)
Definition submit_transaction node (t : UtxoProof) (s : Z) : NodeShared * outcome NodeError unit :=
  let '(m, r) := mempool_add_with_listener (mempool node) (txn_hash t) t (txn_changes t) s in
  (with_mempool node (m, []),
   match r with
   | Ok _ => Ok tt
   | Err (Conflict c) => Err (TxnCommitmentAlreadyPending [c])
   | Err DuplicateKey => Err (TxnCommitmentAlreadyPending [])
   | Panic m => Panic m
   end).

(** ** create_proposal *)

(** The first transaction of the batch that fails validation. *)
Fixpoint validate_batch node (batch : list (Element * UtxoProof))
  : outcome NodeError (option (Element * NodeError)) :=
  match batch with
  | [] => Ok None
  | (_, t) :: rest =>
      match validate_transaction node t with
      | Ok _ => validate_batch node rest
      | Err e => Ok (Some (txn_hash t, e))
      | Panic m => Panic m
      end
  end.

(** The root the block will state. *)
Definition simulate_root node (insert_leaves remove_leaves : list Element)
  : NodeShared * outcome Empty_set Element :=
  if decide (insert_leaves = [] ∧ remove_leaves = []) then (node, Ok (node_root_hash node))
  else let '(c, r) := root_hash_with MERKLE_TREE_DEPTH (p_tree (notes_tree node))
                        insert_leaves remove_leaves in
       (with_tree node (set_cache (notes_tree node) c), r).

Definition proposal_content (last_block_hash : list Z) (h : Z) (accepts : list (list Z))
    (new_root : Element) (ts : list UtxoProof) : BlockContent :=
  mk_content (mk_header h last_block_hash 0 last_block_hash accepts) (mk_state new_root ts).

(** The third error branch validates the block again for each transaction,
    to have one error value for each. *)
Fixpoint revalidate node b (ts : list UtxoProof)
  : NodeShared * outcome NodeError (list (Element * outcome NodeError Block)) :=
  match ts with
  | [] => (node, Ok [])
  | t :: rest =>
      let '(node, r) := node_validate_block node b in
      match r with
      | Ok _ => (node, Panic "We know the result is Err in this match branch")
      | Panic m => (node, Panic m)
      | Err e =>
          let '(node, rs) := revalidate node b rest in
          (node, let? l := rs in Ok ((txn_hash t, Err e) :: l))
      end
  end.

(** Answering the transactions of a block that failed its own validation. *)
Definition reject_proposal node b (e : NodeError) : NodeShared * outcome NodeError unit :=
  let h := bheight b in
  match e with
  | LeafAlreadyInsertedInTheSameBlock _ _ failing | NoteAlreadySpent _ failing =>
      (with_mempool node (mempool_commit (mempool node) h [(failing, Err e)]), Err e)
  | _ =>
      let '(node, rs) := revalidate node b (state_txns (bstate b)) in
      match rs with
      | Ok l => (with_mempool node (mempool_commit (mempool node) h l), Err e)
      | Err e' => (node, Err e')
      | Panic m => (node, Panic m)
      end
  end.

Definition create_proposal node (last_block_hash : list Z) (h : Z) (accepts : list (list Z))
  : NodeShared * outcome NodeError Block :=
  match lease_batch (mempool node) h (block_txns_count node) with
  | Err e => match e with end
  | Panic m => (node, Panic m)
  | Ok (m, batch) =>
      let node := with_mempool node (m, []) in
      match validate_batch node batch with
      | Panic m => (node, Panic m)
      | Err e => (node, Err e)
      | Ok (Some (key, e)) =>
          (with_mempool node (mempool_commit (mempool node) h [(key, Err e)]),
           Err (InvalidTransaction key))
      | Ok None =>
          let ts := batch.*2 in
          let '(node, r) := simulate_root node (non_zero (ts ≫= outputs)) (non_zero (ts ≫= inputs)) in
          match r with
          | Err e => match e with end
          | Panic m => (node, Panic m)
          | Ok new_root =>
              let b := to_block (proposal_content last_block_hash h accepts new_root ts)
                         (local_peer node) in
              let '(node, vr) := node_validate_block node b in
              match vr with
              | Panic m => (node, Panic m)
              | Err e => let '(node, r) := reject_proposal node b e in
                         (node, match r with
                                | Ok _ => Err e | Err e => Err e | Panic m => Panic m end)
              | Ok _ =>
                  let '(node, cr) := commit_proposal node b in
                  match cr with
                  | Ok _ =>
                      let c := cache_insert bheight hash (block_cache node) b in
                      (with_cache node (cache_confirm c h), Ok b)
                  | Err e => (node, Err e)
                  | Panic m => (node, Panic m)
                  end
              end
          end
      end
  end.
End transactions.

(** ** The tick of a node that is not the validator

    The loop commits the blocks that follow the confirmed one.  [None] stands
    for an exhausted fuel; [Ok false] is the early return after a failed
    commit. *)
Fixpoint commit_loop (fuel : nat) node : option (NodeShared * outcome NodeError bool) :=
  match fuel with
  | O => None
  | S fuel =>
      match get_next_commit_block (block_cache node) with
      | None => Some (node, Ok true)
      | Some b =>
          let '(node, vr) := node_validate_block node b in
          match vr with
          | Panic m => Some (node, Panic m)
          | Err _ => commit_loop fuel (with_cache node (cache_remove bheight (block_cache node) (hash b)))
          | Ok _ =>
              let node := with_cache node (cache_confirm (block_cache node) (bheight b)) in
              let '(node, cr) := commit_proposal node b in
              match cr with
              | Ok _ => commit_loop fuel node
              | Err _ => Some (node, Ok false)
              | Panic m => Some (node, Panic m)
              end
          end
      end
  end.
Definition follower_tick node : option (NodeShared * outcome NodeError bool) :=
  commit_loop (S (size (block_hash_heights (block_cache node)))) node.

(** ** load_db_and_smirk (load.rs) and the state part of Node::new *)

Record LoadedData := mk_loaded {
  ld_store : Store;
  ld_tree : PersistentMerkleTree;
  ld_block : Block;
}.

(** The two databases on disk before the start; the tree is rebuilt from its
    own. A directory that was moved away is replaced by an empty database. *)
Definition load_smirk (db : DB SmirkMetadata) : outcome NodeError PersistentMerkleTree :=
  map_err SmirkError (persistent_load MERKLE_TREE_DEPTH temp_noir db).

Definition load_db_and_smirk (store : Store) (smirk : DB SmirkMetadata) : outcome NodeError LoadedData :=
  let? persistent_tree := load_smirk smirk in
  let? max := map_err BlockStoreError (get_max_height store) in
  match max with
  | None =>
      let? fresh := load_smirk ∅ in
      Ok (mk_loaded store fresh block_genesis)
  | Some max_height =>
      let? stored := map_err BlockStoreError (store_get store max_height) in
      let? f := unwrap stored "called `Option::unwrap()` on a `None` value" in
      let b := into_block f in
      if decide (root_hash (p_tree persistent_tree) = root (bstate b))
      then Ok (mk_loaded store persistent_tree b)
      else
        let? stored_previous := map_err BlockStoreError (store_get store (wrap 64 (max_height - 1))) in
        let? fp := unwrap stored_previous "called `Option::unwrap()` on a `None` value" in
        let previous_block := into_block fp in
        if decide (root_hash (p_tree persistent_tree) = root (bstate previous_block))
        then
          let '(t, r) := apply_block_to_tree temp_noir persistent_tree (bstate b) max_height in
          let? _ := r in
          if decide (root_hash (p_tree t) = root (bstate b))
          then Ok (mk_loaded store t b)
          else Panic "assertion failed"
        else
          let? fresh := load_smirk ∅ in
          Ok (mk_loaded store_create fresh block_genesis)
  end.

(** The state part of [Node::new]; the network and the sync worker are not
    part of the model. *)
Definition node_new (mode : Mode) (peer : PeerIdSigner) (count : nat) (offset : Z)
    (store : Store) (smirk : DB SmirkMetadata) : outcome NodeError NodeShared :=
  let? ld := load_db_and_smirk store smirk in
  let? migrated := map_err BlockStoreError (migrate (ld_store ld)) in
  Ok (mk_node mode peer count offset migrated (ld_tree ld) mempool_default
        (cache_new bheight hash (ld_block ld) (Z.to_nat 10000)) None [] []).
End node.
