(* ===== verification/NodeLedger.v ===== *)
(** The ledger a node keeps: what the block store and the notes tree hold after
    a chain of committed blocks, and that committing a validated block keeps it.

    [play] collects the blocks the node ever sees.  [InPlay] says that they are
    values of the Rust types (u64 heights, 256-bit elements) and that the hash
    functions did not collide on them: two of them with the same hash have the
    same height, and no two output commitments share the 160 bits that select a
    slot of the tree. *)
From S2P Require Import Prelude Element MerkleHash HashCache SmirkBatch SmirkNode SmirkNodeSpec.
From S2P Require Import SmirkTree SmirkStorage Utxo BlockStore Crypto NodeBlock Mempool.
From S2P Require Import BlockCache NodeCommit.

Notation D := MERKLE_TREE_DEPTH.
Notation elems p := (dom (tree_entries (p_tree p))).

Definition wf_utxo (t : UtxoProof) : Prop := Forall wf_element (fields (public_inputs t)).

Definition chain_outs (chain : list Block) : list Element := chain ≫= λ b, block_outs (bstate b).
Definition chain_ins (chain : list Block) : list Element := chain ≫= λ b, block_ins (bstate b).
Definition mints_of (b : Block) : list Element :=
  state_txns (bstate b) ≫= λ t, option_list (txn_mint_hash t).
Definition chain_mints (chain : list Block) : list Element := chain ≫= mints_of.

Class InPlay `{FieldLib, CryptoLib} (play : Block → Prop) (bad_blocks : list Z) : Prop := {
  play_height b : play b → in_width 64 (bheight b);
  play_txns b : play b → Forall wf_utxo (state_txns (bstate b));
  play_good b : play b → bheight b ∉ bad_blocks;
  play_hash b b' : play b → play b' → hash b = hash b' → bheight b = bheight b';
  play_slots b b' x y : play b → play b' →
    x ∈ block_outs (bstate b) → y ∈ block_outs (bstate b') → slot D x = slot D y → x = y;
}.

Section ledger.
Context `{FieldLib, CryptoLib, !CryptoLaws}.
Context (temp_noir : bool) (proof_verify : UtxoProof → bool) (bad_blocks : list Z).
Context (play : Block → Prop) `{!InPlay play bad_blocks}.
Implicit Types (db : Store) (p : PersistentMerkleTree) (b : Block) (chain : list Block).

(** What a look-up of a transaction by its hash returns. *)
Definition txn_found chain (x : list Z) (r : outcome StoreError (option TxnFormat)) : Prop :=
  (r = Ok None ∧ ∀ b t, b ∈ chain → t ∈ state_txns (bstate b) → to_be_bytes (txn_hash t) ≠ x) ∨
  ∃ b i t m, r = Ok (Some (TxnV1 t m)) ∧ b ∈ chain ∧ state_txns (bstate b) !! i = Some t ∧
    to_be_bytes (txn_hash t) = x ∧ tm_block_height m = bheight b ∧ tm_block_hash m = hash b ∧
    tm_block_txn_index m = wrap 32 (Z.of_nat i).

(** What the databases hold after the blocks of [chain], the first of which
    has height 1. *)
Record ledger_inv chain db p : Prop := {
  li_tree : wf_persistent D p;
  li_store : wf_store db;
  li_play : Forall play chain;
  li_heights : ∀ i b, chain !! i = Some b → bheight b = Z.of_nat i + 1;
  li_elems : elems p = list_to_set (chain_outs chain) ∖ list_to_set (chain_ins chain);
  li_outs : NoDup (chain_outs chain);
  li_ins : NoDup (chain_ins chain);
  li_sub : chain_ins chain ⊆ chain_outs chain;
  li_hist : ∀ e, wf_element e →
    (get_element_history_with_kind db e HistOutput = Ok None ↔ e ∉ chain_outs chain) ∧
    (get_element_history_with_kind db e HistInput = Ok None ↔ e ∉ chain_ins chain);
  li_mint : ∀ m, wf_element m → get_mint_hash db m = Ok None ↔ m ∉ chain_mints chain;
  li_mints : ∀ i j bi bj m, chain !! i = Some bi → chain !! j = Some bj →
    m ∈ mints_of bi → m ∈ mints_of bj → i = j;
  li_get : ∀ i b, chain !! i = Some b →
    ∃ f, store_get db (bheight b) = Ok (Some f) ∧ into_block f = b;
  li_absent : ∀ h, in_width 64 h → ¬ (1 ≤ h ≤ Z.of_nat (length chain)) → store_get db h = Ok None;
  li_max : get_max_height db = Ok (bheight <$> last chain);
  li_version : store_version db = Ok latest_version;
  li_root : ∀ b, last chain = Some b → root (bstate b) = root_hash (p_tree p);
  li_meta : ∀ e m, tree_entries (p_tree p) !! e = Some m →
    ∃ b, b ∈ chain ∧ bheight b = inserted_in m ∧ e ∈ block_outs (bstate b);
  li_seen : ∀ e kd d, wf_element e → get_element_history_with_kind db e kd = Ok (Some d) →
    ∃ b, b ∈ chain ∧ d = mk_history (hash b) (bheight b) ∧
         e ∈ (match kd with HistInput => block_ins | HistOutput => block_outs end) (bstate b);
  li_hash : ∀ b, b ∈ chain → get_block_height_by_hash db (hash b) = Ok (Some (bheight b));
  li_nonempty : ∀ h f, stored KNonEmptyBlock db h f ↔ stored KBlock db h f ∧ length (txns f) ≠ 0%nat;
  li_txn : ∀ x, bytes32 x → txn_found chain x (get_txn_by_hash db x);
  li_disjoint : ∀ b e, b ∈ chain → e ∈ block_outs (bstate b) → e ∉ block_ins (bstate b);
}.

(** ** The stored form of a block *)

Lemma format_txns_of b m : txn_of <$> format_txns (BlockV2 b m) = state_txns (bstate b).
Proof.
  cbn [format_txns]. unfold block_txns, bstate. rewrite <-list_fmap_compose.
  apply list_eq. intros i. rewrite list_lookup_fmap, list_lookup_imap.
  by destruct (_ !! i).
Qed.

Lemma format_bind {A} (f : UtxoProof → list A) b m :
  (format_txns (BlockV2 b m) ≫= λ t, f (txn_of t)) = state_txns (bstate b) ≫= f.
Proof.
  rewrite <-(format_txns_of b m). generalize (format_txns (BlockV2 b m)).
  induction l as [|t l IH]; [done|]. csimpl. by rewrite IH.
Qed.

Lemma non_zero_bind (f : UtxoProof → list Element) ts :
  non_zero (ts ≫= f) = ts ≫= λ t, non_zero (f t).
Proof. induction ts as [|t ts IH]; [done|]. by rewrite !bind_cons, non_zero_app, IH. Qed.

Lemma stored_outputs b m : block_outputs (BlockV2 b m) = block_outs (bstate b).
Proof. unfold block_outs. rewrite non_zero_bind. apply (format_bind (λ t, non_zero (outputs t))). Qed.
Lemma stored_inputs b m : block_inputs (BlockV2 b m) = block_ins (bstate b).
Proof. unfold block_ins. rewrite non_zero_bind. apply (format_bind (λ t, non_zero (inputs t))). Qed.
Lemma stored_mints b m : block_mints (BlockV2 b m) = mints_of b.
Proof. apply (format_bind (λ t, option_list (txn_mint_hash t))). Qed.

Lemma wf_utxo_elems t e : wf_utxo t → e ∈ inputs t ++ outputs t → wf_element e.
Proof.
  unfold wf_utxo, fields. rewrite Forall_app. intros [Hf _] He. rewrite Forall_forall in Hf. by apply Hf.
Qed.

Lemma wf_message t i : wf_utxo t → wf_element (message (public_inputs t) i).
Proof.
  unfold wf_utxo, fields, message. rewrite Forall_app. intros [_ Hm].
  destruct (messages (public_inputs t) !! i) as [e|] eqn:E; simpl.
  - rewrite Forall_forall in Hm. apply Hm. by eapply list_elem_of_lookup_2.
  - by apply (bool_decide_unpack (in_width 256 _)).
Qed.

Lemma wf_mint t m : wf_utxo t → txn_mint_hash t = Some m → wf_element m.
Proof.
  intros Ht. unfold txn_mint_hash, kind_messages.
  destruct (public_input_kind _); intros [=<-]; by apply wf_message.
Qed.

Lemma stored_wf b m : play b → wf_store_block (BlockV2 b m).
Proof.
  intros Hb. split.
  - apply (play_height b Hb).
  - apply keccak_bytes.
  - pose proof (play_txns b Hb) as Ht. rewrite <-(format_txns_of b m), Forall_fmap in Ht.
    eapply Forall_impl; [exact Ht|]. intros t Hwt. unfold compose in Hwt. split.
    + split; [apply to_be_bytes_length|apply to_be_bytes_range].
    + apply Forall_forall. intros e [_ He]%elem_non_zero. apply (wf_utxo_elems _ e Hwt), elem_of_app. by left.
    + apply Forall_forall. intros e [_ He]%elem_non_zero. apply (wf_utxo_elems _ e Hwt), elem_of_app. by right.
    + intros x. by apply wf_mint.
Qed.

Lemma play_outs_wf b e : play b → e ∈ block_outs (bstate b) → wf_element e.
Proof.
  intros Hb [_ (t & He & Ht)%list_elem_of_bind]%elem_non_zero.
  pose proof (play_txns b Hb) as Hf. rewrite Forall_forall in Hf.
  apply (wf_utxo_elems t); [by apply Hf|]. apply elem_of_app. by right.
Qed.
Lemma play_ins_wf b e : play b → e ∈ block_ins (bstate b) → wf_element e.
Proof.
  intros Hb [_ (t & He & Ht)%list_elem_of_bind]%elem_non_zero.
  pose proof (play_txns b Hb) as Hf. rewrite Forall_forall in Hf.
  apply (wf_utxo_elems t); [by apply Hf|]. apply elem_of_app. by left.
Qed.

Lemma elem_chain_outs chain e :
  e ∈ chain_outs chain ↔ ∃ b, b ∈ chain ∧ e ∈ block_outs (bstate b).
Proof. unfold chain_outs. rewrite list_elem_of_bind. naive_solver. Qed.

(** ** A validated block *)

Lemma ledger_collision_free chain db p b :
  ledger_inv chain db p → play b → collision_free p (bstate b).
Proof.
  intros Hl Hb. pose proof (li_play _ _ _ Hl) as Hp. rewrite Forall_forall in Hp.
  assert (∀ x, x ∈ elems p ∪ list_to_set (block_outs (bstate b)) →
    ∃ b', play b' ∧ x ∈ block_outs (bstate b')) as Hx.
  { intros x. rewrite (li_elems _ _ _ Hl), elem_of_union, elem_of_difference, !elem_of_list_to_set.
    intros [[(b' & ? & ?)%elem_chain_outs _]|?]; [|by eauto]. exists b'. split; [by apply Hp|done]. }
  intros x y (bx & ? & ?)%Hx (by_ & ? & ?)%Hx. by apply (play_slots bx by_).
Qed.

Lemma chain_snoc {A} (f : Block → list A) chain b : (chain ++ [b]) ≫= f = (chain ≫= f) ++ f b.
Proof. rewrite bind_app. csimpl. by rewrite app_nil_r. Qed.

(** The history of an element after a block is stored. *)
Lemma hist_after db db' b m kd (old new : list Element) e :
  set_post db (BlockV2 b m) db' → wf_element e →
  block_history (BlockV2 b m) kd = new →
  (get_element_history_with_kind db e kd = Ok None ↔ e ∉ old) →
  (get_element_history_with_kind db' e kd = Ok None ↔ e ∉ old ++ new).
Proof.
  intros Hp He Hn Ho. rewrite (sp_history _ _ _ Hp e kd He), Hn, elem_of_app.
  case_decide; [|rewrite Ho; tauto]. split; [done|tauto].
Qed.

(** What validation against the ledger says of the elements of a block. *)
Record fresh_block chain b : Prop := {
  fb_nodup : NoDup (block_outs (bstate b) ++ block_ins (bstate b));
  fb_outs : ∀ e, e ∈ block_outs (bstate b) → e ∉ chain_outs chain;
  fb_ins : ∀ e, e ∈ block_ins (bstate b) → e ∈ chain_outs chain ∧ e ∉ chain_ins chain;
  fb_mints : ∀ m, m ∈ mints_of b → m ∉ chain_mints chain;
}.

Lemma validated_fresh chain db p b :
  ledger_inv chain db p → play b → changes_fit p (block_outs (bstate b)) (block_ins (bstate b)) →
  Forall (txn_valid proof_verify db p) (state_txns (bstate b)) → fresh_block chain b.
Proof.
  intros Hl Hb Hfit Hvt. rewrite Forall_forall in Hvt.
  pose proof (play_txns b Hb) as Hw. rewrite Forall_forall in Hw. split.
  - apply (cf_nodup _ _ _ Hfit).
  - intros e He. apply (li_hist _ _ _ Hl e (play_outs_wf b e Hb He)).
    apply elem_non_zero in He as [Hz (t & He & Ht)%list_elem_of_bind].
    apply (tv_out _ _ _ _ (Hvt t Ht)). by apply elem_non_zero.
  - intros e He. apply (cf_rem _ _ _ Hfit) in He. rewrite (li_elems _ _ _ Hl) in He. set_solver.
  - intros m (t & Hm%elem_of_option_list & Ht)%list_elem_of_bind.
    apply (li_mint _ _ _ Hl m); [by apply (wf_mint t); [apply Hw|]|].
    by apply (tv_mint _ _ _ _ (Hvt t Ht)).
Qed.

(** The elements of the extended chain. *)
Lemma fresh_chain chain b :
  fresh_block chain b → NoDup (chain_outs chain) → NoDup (chain_ins chain) →
  chain_ins chain ⊆ chain_outs chain →
  NoDup (chain_outs (chain ++ [b])) ∧ NoDup (chain_ins (chain ++ [b])) ∧
  chain_ins (chain ++ [b]) ⊆ chain_outs (chain ++ [b]).
Proof.
  intros [Hn Ho Hi _] HO HI Hsub. apply NoDup_app in Hn as (Hno & _ & Hni).
  unfold chain_outs, chain_ins in *. rewrite !chain_snoc. split_and!.
  - apply NoDup_app. split_and!; [done| |done]. intros e HeO Heo. by apply (Ho e).
  - apply NoDup_app. split_and!; [done| |done]. intros e HeI Hei. by apply (Hi e).
  - intros e. rewrite !elem_of_app. intros [He|He]; [left; by apply Hsub|left; by apply Hi].
Qed.

Lemma fresh_elems chain b p p' :
  fresh_block chain b → chain_ins chain ⊆ chain_outs chain →
  elems p = list_to_set (chain_outs chain) ∖ list_to_set (chain_ins chain) →
  elems p' = elems_after p (bstate b) →
  elems p' = list_to_set (chain_outs (chain ++ [b])) ∖ list_to_set (chain_ins (chain ++ [b])).
Proof.
  intros [Hn Ho Hi _] Hsub Hp ->. unfold elems_after. rewrite Hp.
  unfold chain_outs, chain_ins in *. rewrite !chain_snoc. apply set_eq. intros e.
  rewrite !elem_of_difference, !elem_of_union, !elem_of_difference, !elem_of_list_to_set, !elem_of_app.
  specialize (Ho e). specialize (Hsub e). tauto.
Qed.

(** ** The store after a block, read by read *)

Lemma elem_format_txns b bm t :
  t ∈ format_txns (BlockV2 b bm) ↔
  ∃ i u, state_txns (bstate b) !! i = Some u ∧
    t = TxnV1 u (mk_txn_metadata (bheight b) (timestamp_unix_s bm) (hash b) (wrap 32 (Z.of_nat i))).
Proof.
  cbn [format_txns]. rewrite list_elem_of_fmap. unfold block_txns. split.
  - intros (t' & -> & (i & Hi)%list_elem_of_lookup). rewrite list_lookup_imap in Hi.
    destruct (_ !! i) as [u|] eqn:E; [|done]. injection Hi as <-. eauto.
  - intros (i & u & Hu & ->). eexists (TxnV1 u (mk_txn_metadata _ _ _ _)). split; [done|].
    apply list_elem_of_lookup. exists i. rewrite list_lookup_imap. unfold bstate in Hu. by rewrite Hu.
Qed.

Lemma txn_found_after chain db db' b bm x :
  set_post db (BlockV2 b bm) db' → bytes32 x →
  txn_found chain x (get_txn_by_hash db x) → txn_found (chain ++ [b]) x (get_txn_by_hash db' x).
Proof.
  intros Hp Hx Hold. destruct (sp_txn _ _ _ Hp x Hx) as [[Hno ->]|(t & Ht & Htx & ->)].
  - destruct Hold as [[-> Hn]|(b' & i & t & m & -> & Hb' & Hrest)].
    + left. split; [done|]. intros b' t [Hb'| ->%list_elem_of_singleton]%elem_of_app Ht; [by eapply Hn|].
      intros Hh. apply Hno. apply (list_elem_of_lookup_1) in Ht as [i Hi].
      apply list_elem_of_fmap. eexists (TxnV1 t (mk_txn_metadata _ _ _ _)). split; [symmetry; exact Hh|].
      apply elem_format_txns. eauto.
    + right. exists b', i, t, m. split; [done|]. split; [|done]. apply elem_of_app. by left.
  - right. apply elem_format_txns in Ht as (i & u & Hi & ->). exists b, i, u. eexists.
    split; [done|]. split; [apply elem_of_app; right; by apply list_elem_of_singleton|]. done.
Qed.

Lemma seen_after chain db db' b bm e kd d :
  set_post db (BlockV2 b bm) db' → wf_element e →
  (∀ d, get_element_history_with_kind db e kd = Ok (Some d) →
    ∃ b, b ∈ chain ∧ d = mk_history (hash b) (bheight b) ∧
         e ∈ (match kd with HistInput => block_ins | HistOutput => block_outs end) (bstate b)) →
  get_element_history_with_kind db' e kd = Ok (Some d) →
  ∃ b', b' ∈ chain ++ [b] ∧ d = mk_history (hash b') (bheight b') ∧
         e ∈ (match kd with HistInput => block_ins | HistOutput => block_outs end) (bstate b').
Proof.
  intros Hp He Hold. rewrite (sp_history _ _ _ Hp e kd He). case_decide as Hin.
  - intros [= <-]. exists b. split; [apply elem_of_app; right; by apply list_elem_of_singleton|].
    split; [done|]. destruct kd; cbn [block_history] in Hin; by rewrite ?stored_inputs, ?stored_outputs in Hin.
  - intros (b' & ? & ?)%Hold. exists b'. split; [apply elem_of_app; by left|done].
Qed.

Lemma lookup_snoc_cases chain b i b' :
  (chain ++ [b]) !! i = Some b' →
  (chain !! i = Some b' ∧ (i < length chain)%nat) ∨ (i = length chain ∧ b' = b).
Proof.
  intros [Hi|[Hle Hi]]%lookup_app_Some.
  - left. split; [done|]. by apply lookup_lt_Some in Hi.
  - right. apply list_lookup_singleton_Some in Hi as [? ?]. split; [lia|done].
Qed.

Lemma nonempty_after chain db p db' b m h f :
  ledger_inv chain db p → bheight b = Z.of_nat (length chain) + 1 → set_post db (BlockV2 b m) db' →
  stored KNonEmptyBlock db' h f ↔ stored KBlock db' h f ∧ length (txns f) ≠ 0%nat.
Proof.
  intros Hl Hh Hp. rewrite (stored_get db' h f (sp_wf _ _ _ Hp)).
  destruct (decide (in_width 64 h)) as [Hw|Hw]; [|unfold stored; tauto].
  rewrite (sp_get _ _ _ Hp h Hw). unfold stored. rewrite (sp_nonempty _ _ _ Hp h Hw).
  cbn [block_height block_format_block into_block]. change (height (header (content b))) with (bheight b).
  pose proof (li_nonempty _ _ _ Hl h f) as Hne. rewrite (stored_get db h f (li_store _ _ _ Hl)) in Hne. unfold stored in Hne.
  destruct (decide (h = bheight b)) as [->|Hhb].
  - rewrite (li_absent _ _ _ Hl (bheight b) Hw) in Hne by lia.
    case_decide as Hc; [naive_solver|]. split; [naive_solver|]. intros [[_ [= <-]] Hn]. destruct Hc. done.
  - rewrite decide_False by tauto. done.
Qed.

(** Where the entries of the tree come from after the block. *)
Definition meta_after p p' b : Prop :=
  ∀ e m, tree_entries (p_tree p') !! e = Some m →
    tree_entries (p_tree p) !! e = Some m ∨ (inserted_in m = bheight b ∧ e ∈ block_outs (bstate b)).

Lemma applied_meta p p' b :
  tree_entries (p_tree p') =
    apply_entries (tree_entries (p_tree p))
      ((λ e, (e, mk_smirk_metadata (bheight b))) <$> block_outs (bstate b)) (block_ins (bstate b)) →
  meta_after p p' b.
Proof.
  intros Heq e m. rewrite Heq. intros [Hm|Hm]%apply_entries_source; [by left|right].
  apply list_elem_of_fmap in Hm as (x & [= -> ->] & Hx). done.
Qed.

(** The store after the block. *)
Lemma ledger_store chain db p db' p' b m :
  ledger_inv chain db p → play b → bheight b = Z.of_nat (length chain) + 1 →
  fresh_block chain b → set_post db (BlockV2 b m) db' →
  wf_persistent D p' → elems p' = elems_after p (bstate b) →
  root (bstate b) = root_hash (p_tree p') → meta_after p p' b →
  ledger_inv (chain ++ [b]) db' p'.
Proof.
  intros Hl Hb Hh Hf Hp Hwf' He' Hr Hmeta.
  destruct (fresh_chain chain b Hf (li_outs _ _ _ Hl) (li_ins _ _ _ Hl) (li_sub _ _ _ Hl)) as (HO & HI & Hsub).
  assert (∀ i b', chain !! i = Some b' → (i < length chain)%nat ∧ bheight b' = Z.of_nat i + 1) as Hlen.
  { intros i b' Hi. split; [by apply lookup_lt_Some in Hi|by apply (li_heights _ _ _ Hl)]. }
  split; try done.
  - apply (sp_wf _ _ _ Hp).
  - apply Forall_app. split; [apply (li_play _ _ _ Hl)|by apply Forall_singleton].
  - intros i b' [[Hi _]|[-> ->]]%lookup_snoc_cases; [by apply Hlen|done].
  - apply (fresh_elems chain b p); [done|apply (li_sub _ _ _ Hl)|apply (li_elems _ _ _ Hl)|done].
  - intros e He. unfold chain_outs, chain_ins. rewrite !chain_snoc.
    split; eapply hist_after; try done; [apply stored_outputs|apply (li_hist _ _ _ Hl e He)
      |apply stored_inputs|apply (li_hist _ _ _ Hl e He)].
  - intros x Hx. rewrite (sp_mint _ _ _ Hp x Hx), stored_mints.
    unfold chain_mints. rewrite chain_snoc, elem_of_app. fold (chain_mints chain).
    case_decide; [split; [done|tauto]|]. rewrite (li_mint _ _ _ Hl x Hx). tauto.
  - assert (∀ k bk x, chain !! k = Some bk → x ∈ mints_of bk → x ∈ mints_of b → False) as Hno.
    { intros k bk x Hk Hxk Hxb. apply (fb_mints _ _ Hf x Hxb). apply list_elem_of_bind.
      exists bk. split; [done|]. by eapply list_elem_of_lookup_2. }
    intros i j bi bj x [[Hi _]|[-> ->]]%lookup_snoc_cases [[Hj _]|[-> ->]]%lookup_snoc_cases Hxi Hxj;
      [by eapply (li_mints _ _ _ Hl)|exfalso; by eapply Hno..|done].
  - intros i b' Hi. assert (play b') as Hb'.
    { apply lookup_snoc_cases in Hi as [[Hi _]|[_ ->]]; [|done].
      pose proof (li_play _ _ _ Hl) as Hpl. rewrite Forall_forall in Hpl. apply Hpl.
      by eapply list_elem_of_lookup_2. }
    rewrite (sp_get _ _ _ Hp _ (play_height b' Hb')). cbn [block_height block_format_block into_block].
    change (height (header (content b))) with (bheight b). case_decide as Hbb.
    + eexists. split; [done|]. apply lookup_snoc_cases in Hi as [[Hi ?]|[_ ->]]; [|done].
      destruct (Hlen i b' Hi). lia.
    + apply lookup_snoc_cases in Hi as [[Hi _]|[_ ->]]; [by apply (li_get _ _ _ Hl i)|done].
  - intros h Hw Hout. rewrite length_app in Hout. cbn [length] in Hout.
    rewrite (sp_get _ _ _ Hp h Hw). cbn [block_height block_format_block into_block].
    change (height (header (content b))) with (bheight b). rewrite decide_False by lia.
    apply (li_absent _ _ _ Hl); [done|lia].
  - rewrite (sp_max _ _ _ Hp), (li_max _ _ _ Hl), last_snoc. cbn [outcome_bind fmap option_fmap option_map].
    cbn [block_height block_format_block into_block]. change (height (header (content b))) with (bheight b).
    destruct (last chain) as [b'|] eqn:El; [|done]. simpl. do 2 f_equal.
    rewrite last_lookup in El. apply Hlen in El. lia.
  - rewrite (sp_version _ _ _ Hp). apply (li_version _ _ _ Hl).
  - intros b'. rewrite last_snoc. by intros [= <-].
  - intros e x [Hx|[Hx Hin]]%Hmeta; [|by exists b; split; [apply elem_of_app; right; by apply list_elem_of_singleton|]].
    destruct (li_meta _ _ _ Hl e x Hx) as (b' & ? & ?). exists b'. split; [apply elem_of_app; by left|done].
  - intros e kd d He. eapply seen_after; try done. intros d'. by apply (li_seen _ _ _ Hl).
  - intros b' Hb'. destruct (decide (hash b' = hash b)) as [Heq|Hne].
    + rewrite Heq. change (hash b) with (block_hash (BlockV2 b m)) at 1. rewrite (sp_hash _ _ _ Hp).
      do 2 f_equal. change (bheight b = bheight b'). symmetry. apply elem_of_app in Hb' as [Hb'| ->%list_elem_of_singleton]; [|done].
      apply play_hash; [|done|done]. pose proof (li_play _ _ _ Hl) as Hpl. rewrite Forall_forall in Hpl. by apply Hpl.
    + rewrite (sp_hash_other _ _ _ Hp (hash b')); [|apply keccak_bytes|done].
      apply (li_hash _ _ _ Hl). apply elem_of_app in Hb' as [?| ->%list_elem_of_singleton]; done.
  - intros h f. apply (nonempty_after chain db p db' b m h f); done.
  - intros x Hx. eapply txn_found_after; try done. by apply (li_txn _ _ _ Hl).
  - intros b' e [Hb'| ->%list_elem_of_singleton]%elem_of_app; [by apply (li_disjoint _ _ _ Hl)|].
    pose proof (fb_nodup _ _ Hf) as Hn. apply NoDup_app in Hn as (_ & Hn & _). apply Hn.
Qed.

Lemma ledger_commit chain db p p1 b now :
  ledger_inv chain db p → play b → bheight b = Z.of_nat (length chain) + 1 →
  content_validate proof_verify (content b) db p = (p1, Ok tt) →
  List.forallb (contains_element (p_tree p1)) (block_ins (bstate b)) = true ∧
  ∃ db' p', store_set db (BlockV2 b (mk_block_metadata now)) = Ok db' ∧
    apply_block_to_tree temp_noir p1 (bstate b) (bheight b) = (p', Ok tt) ∧
    ledger_inv (chain ++ [b]) db' p'.
Proof.
  intros Hl Hb Hh Hv.
  pose proof (ledger_collision_free _ _ _ b Hl Hb) as Hcf.
  destruct (content_validate_ok proof_verify temp_noir db p (content b) p1 (li_tree _ _ _ Hl) Hcf Hv)
    as (Hwf1 & He1 & _ & Hfit & Hroot).
  pose proof (validated_txns _ _ _ _ _ Hv) as Hvt. fold (bstate b) in *.
  pose proof (validated_fresh chain db p b Hl Hb Hfit Hvt) as Hf.
  assert (changes_fit p1 (block_outs (bstate b)) (block_ins (bstate b))) as Hfit1.
  { destruct Hfit as [F1 F2 F3 F4 F5]. split; rewrite ?He1; done. }
  split.
  { apply List.forallb_forall. intros e He%list_elem_of_In. apply contains_true, elem_of_dom.
    by apply (cf_rem _ _ _ Hfit1). }
  destruct (store_set_ok db (BlockV2 b (mk_block_metadata now)) (li_store _ _ _ Hl) (stored_wf b _ Hb))
    as (db' & Hdb' & Hpost).
  destruct (apply_block_ok temp_noir p1 (bstate b) (bheight b) Hwf1 Hfit1) as (p' & Hap & Hwf' & He').
  exists db', p'. split; [done|]. split; [done|].
  assert (elems p' = elems_after p (bstate b)) as Hd.
  { rewrite (dom_after p1 p' _ _ He'). unfold elems_after. by rewrite He1. }
  eapply ledger_store; try done.
  - by rewrite Hroot, (root_hash_spec D _ (wp_tree _ _ Hwf')), Hd.
  - rewrite He1 in He'. by apply applied_meta.
Qed.
End ledger.
