(* ===== verification/NodeProps.v ===== *)
(** The handlers of the node keep the ledger: committing, following the
    validator, restarting and recovering from a crash. *)
From S2P Require Import Prelude Element MerkleHash HashCache SmirkBatch SmirkNode SmirkNodeSpec.
From S2P Require Import SmirkTree SmirkStorage Utxo BlockStore Crypto NodeBlock Mempool.
From S2P Require Import BlockCache NodeCommit NodeLedger.

Section node_props.
Context `{FieldLib, CryptoLib, !CryptoLaws}.
Context (temp_noir : bool) (proof_verify : UtxoProof → bool) (bad_blocks : list Z).
Context (validators_for_height : Z → list (list Z)) (clock : Z → Z) (alive : Z → bool).
Context (play : Block → Prop) `{!InPlay play bad_blocks}.
Implicit Types (db : Store) (p : PersistentMerkleTree) (b : Block) (chain : list Block)
  (node : NodeShared).

Notation validate_block := (validate_block proof_verify bad_blocks validators_for_height).
Notation node_validate_block := (node_validate_block proof_verify bad_blocks validators_for_height).
Notation commit_proposal := (commit_proposal temp_noir clock alive).
Notation commit_loop := (commit_loop temp_noir proof_verify bad_blocks validators_for_height clock alive).
Notation follower_tick := (follower_tick temp_noir proof_verify bad_blocks validators_for_height clock alive).
Notation ledger_inv := (ledger_inv play).

(** The ledger of [chain], and a cache whose confirmed block is its last. *)
Record node_inv chain node : Prop := {
  ni_ledger : ledger_inv chain (block_store node) (notes_tree node);
  ni_cache : wf_cache bheight hash play (block_cache node);
  ni_height : node_height node = Z.of_nat (length chain);
}.

(** The two ways validation panics: no validator is known for the height, or
    the signature bytes are not a signature at all. *)
Definition validation_panics b : Prop :=
  validators_for_height (bheight b) = [] ∨
  ∃ m, signature_verify (E := NodeError) (blk_signature b) (hash b) = Panic m.

(** ** Validation leaves the ledger as it is *)

Lemma ledger_same chain db p p1 :
  ledger_inv chain db p → wf_persistent D p1 →
  tree_entries (p_tree p1) = tree_entries (p_tree p) → ledger_inv chain db p1.
Proof.
  intros Hl Hwf1 He. pose proof (li_tree _ _ _ _ Hl) as Hwf. destruct Hl. split; try done.
  - by rewrite He.
  - intros b Hb. rewrite (root_hash_spec D _ (wp_tree _ _ Hwf1)), He.
    rewrite <-(root_hash_spec D _ (wp_tree _ _ Hwf)). by apply li_root.
  - by rewrite He.
Qed.

Lemma content_validate_keeps chain db p b p1 r :
  ledger_inv chain db p → play b →
  content_validate proof_verify (content b) db p = (p1, r) →
  ledger_inv chain db p1 ∧ ∀ m, r ≠ Panic m.
Proof.
  intros Hl Hb Hv.
  assert (∀ m, validate_txns proof_verify db p ∅ ∅ (state_txns (bstate b)) ≠ Panic m) as Htot.
  { intros m. apply validate_txns_total; [apply (li_store _ _ _ _ Hl)|].
    eapply Forall_impl; [apply (play_txns b Hb)|]. intros t Ht. split; [|intros x; by apply wf_mint].
    apply Forall_forall. intros e He. apply (wf_utxo_elems t e Ht), elem_of_app. by right. }
  destruct (validate_txns proof_verify db p ∅ ∅ (state_txns (bstate b))) as [[ins rem]|e|m] eqn:E;
    [|unfold content_validate in Hv; fold (bstate b) in Hv; rewrite E in Hv; by injection Hv as <- <-
     |by destruct (Htot m)].
  destruct (content_validate_root proof_verify temp_noir db p (content b) ins rem (li_tree _ _ _ _ Hl)
              (ledger_collision_free _ _ _ _ _ b Hl Hb) E) as (p2 & Hv' & Hwf2 & He2 & _).
  rewrite Hv in Hv'. injection Hv' as -> ->. split; [by eapply ledger_same|].
  intros m. by case_decide.
Qed.

Lemma validate_block_keeps chain db p b p1 r :
  ledger_inv chain db p → play b → validate_block b db p = (p1, r) →
  ledger_inv chain db p1 ∧
  (r = Ok tt → content_validate proof_verify (content b) db p = (p1, Ok tt)) ∧
  ((∃ m, r = Panic m) → validation_panics b).
Proof.
  intros Hl Hb. unfold NodeBlock.validate_block.
  rewrite decide_False by (apply (play_good b Hb)).
  unfold get_leader_for_block_height. fold (bheight b).
  case_decide as Hvals.
  { intros [= <- <-]. split_and!; [done|done|]. intros _. by left. }
  destruct (validators_for_height (bheight b) !! _) as [v|] eqn:Hv; cycle 1.
  { apply lookup_ge_None_1 in Hv. exfalso. apply Hvals, nil_length_inv.
    set (n := length _) in *. destruct (decide (n = 0%nat)) as [|Hn]; [done|].
    pose proof (Z.mod_pos_bound (bheight b) (Z.of_nat n) ltac:(lia)). lia. }
  cbn [unwrap]. destruct (signature_verify _ _) as [[s|]|e|m] eqn:Es.
  - case_decide; [by intros [= <- <-]; split_and!; [..|intros [? [=]]]|].
    intros Hc. destruct (content_validate_keeps _ _ _ _ _ _ Hl Hb Hc) as [Hl' Hr].
    split_and!; [done|by intros ->|]. intros [m ->]. by destruct (Hr m).
  - intros [= <- <-]. split_and!; [done..|]. by intros [? [=]].
  - intros [= <- <-]. split_and!; [done..|]. by intros [? [=]].
  - intros [= <- <-]. split_and!; [done..|]. intros _. right. by exists m.
Qed.

(** ** Committing *)

Lemma commit_proposal_ok chain node p0 b :
  ledger_inv chain (block_store node) p0 → play b → bheight b = Z.of_nat (length chain) + 1 →
  content_validate proof_verify (content b) (block_store node) p0 = (notes_tree node, Ok tt) →
  ∃ node', commit_proposal node b = (node', Ok tt) ∧
    ledger_inv (chain ++ [b]) (block_store node') (notes_tree node') ∧
    block_cache node' = block_cache node ∧
    (mempool node', outbox node') =
      (let '(m, sent) := mempool_commit (mempool node) (bheight b)
                           ((λ k, (k, Ok b)) <$> (txn_hash <$> state_txns (bstate b))) in
       (m, outbox node ++ sent)).
Proof.
  intros Hl Hb Hh Hv. unfold NodeCommit.commit_proposal. cbn [with_last_commit notes_tree].
  destruct (ledger_commit temp_noir proof_verify bad_blocks play chain _ p0 _ b (Some (wrap 64 (clock (bheight b))))
              Hl Hb Hh Hv) as (Hins & db' & p' & Hdb & Hp & Hl').
  rewrite Hins. cbn [negb block_store with_last_commit]. rewrite Hdb.
  cbn [with_store notes_tree with_last_commit]. rewrite Hp.
  eexists. split; [done|]. split; [done|]. split; [done|].
  cbn [with_listeners with_mempool mempool outbox with_tree with_store with_last_commit].
  by destruct (mempool_commit _ _ _).
Qed.

(** ** Following the validator *)

Lemma cache_height_width node : wf_cache bheight hash play (block_cache node) →
  in_width 64 (cache_height (block_cache node)).
Proof.
  intros Hwf. destruct (wc_confirmed _ _ _ _ Hwf) as [x Hx].
  destruct (wc_index _ _ _ _ Hwf _ _ Hx) as (b & Hb & <- & _).
  apply play_height. by apply (wc_blocks _ _ _ _ Hwf x b).
Qed.

(** The next block to commit is known and one above the confirmed height. *)
Lemma next_block node b :
  wf_cache bheight hash play (block_cache node) →
  get_next_commit_block (block_cache node) = Some b →
  play b ∧ bheight b = node_height node + 1 ∧
  block_hash_heights (block_cache node) !! bheight b = Some (hash b) ∧
  blocks (block_cache node) !! hash b = Some b.
Proof.
  intros Hwf. unfold get_next_commit_block, get_by_height, node_height.
  set (c := block_cache node) in *. set (k := wrap 64 (cache_height c + 1)).
  destruct (block_hash_heights c !! k) as [x|] eqn:E; simpl; [|done]. intros Hb.
  destruct (wc_index _ _ _ _ Hwf k x E) as (b' & Hb' & Hh & Hr). assert (b' = b) as -> by congruence.
  destruct (wc_blocks _ _ _ _ Hwf x b Hb) as [-> Hp]. split; [done|].
  assert (k = cache_height c + 1) as Hk.
  { pose proof (cache_height_width node Hwf) as Hw. fold c in Hw. subst k.
    unfold wrap, in_width in *.
    destruct (decide (cache_height c + 1 = 2 ^ 64)) as [Heq|]; [|rewrite Z.mod_small; lia].
    rewrite Heq, Z.mod_same in Hr by lia. lia. }
  rewrite Hh. by split_and!.
Qed.

Lemma index_shrinks (m m' : gmap Z (list Z)) k :
  (∀ j, m' !! j = m !! j ∨ m' !! j = None) → is_Some (m !! k) → m' !! k = None →
  (size m' < size m)%nat.
Proof.
  intros Hsub Hk Hk'. apply map_subset_size. split.
  - apply map_subseteq_spec. intros j x Hj. destruct (Hsub j) as [Heq|Heq]; congruence.
  - rewrite map_subseteq_spec. intros Hm. destruct Hk as [x Hx]. apply Hm in Hx. congruence.
Qed.

(** One round of the loop that drops an invalid block. *)
Lemma drop_block_inv chain node b t :
  node_inv chain node → get_next_commit_block (block_cache node) = Some b →
  ledger_inv chain (block_store node) t →
  let node' := with_cache (with_tree node t) (cache_remove bheight (block_cache node) (hash b)) in
  node_inv chain node' ∧
  (size (block_hash_heights (block_cache node')) < size (block_hash_heights (block_cache node)))%nat.
Proof.
  intros [Hl Hc Hh] Hn Ht. destruct (next_block node b Hc Hn) as (Hp & Hbh & Hidx & Hblk).
  cbn zeta. cbn [with_cache block_cache]. unfold node_height in *. split.
  - split; [done| |].
    + apply (cache_remove_wf bheight hash play _ _ b); [done|done|lia].
    + unfold node_height, cache_remove. cbn. by rewrite Hblk.
  - unfold cache_remove. rewrite Hblk. cbn [block_hash_heights].
    apply (index_shrinks _ _ (bheight b)); [|by eauto|apply lookup_delete_eq].
    intros j. rewrite lookup_delete. case_decide; tauto.
Qed.

(** One round of the loop that commits a block. *)
Lemma commit_block_inv chain node b t :
  node_inv chain node → get_next_commit_block (block_cache node) = Some b →
  content_validate proof_verify (content b) (block_store node) (notes_tree node) = (t, Ok tt) →
  ∃ node', commit_proposal (with_cache (with_tree node t) (cache_confirm (block_cache node) (bheight b))) b =
      (node', Ok tt) ∧ node_inv (chain ++ [b]) node' ∧
    (size (block_hash_heights (block_cache node')) < size (block_hash_heights (block_cache node)))%nat.
Proof.
  intros [Hl Hc Hh] Hn Hv. destruct (next_block node b Hc Hn) as (Hp & Hbh & Hidx & Hblk).
  unfold node_height in Hh, Hbh.
  destruct (cache_confirm_spec bheight hash play (block_cache node) (bheight b) Hc) as (Hc' & Hh' & _ & Hk);
    [lia|by eauto|].
  edestruct (commit_proposal_ok chain
    (with_cache (with_tree node t) (cache_confirm (block_cache node) (bheight b))) (notes_tree node) b)
    as (node' & Hcp & Hl' & Hcc & _); [done|done|lia|done|].
  cbn [with_cache block_cache] in Hcc.
  exists node'. split; [done|]. split.
  - split; [done|by rewrite Hcc|]. unfold node_height. rewrite Hcc, Hh', length_app. cbn [length]. lia.
  - rewrite Hcc. apply (index_shrinks _ _ (cache_height (block_cache node))).
    + intros j. rewrite Hk. case_decide; tauto.
    + apply (wc_confirmed _ _ _ _ Hc).
    + rewrite Hk. rewrite decide_True; [done|lia].
Qed.

(** How the loop ends: no next block is left, or validating it panics. *)
Definition loop_end node (r : outcome NodeError bool) : Prop :=
  (r = Ok true ∧ get_next_commit_block (block_cache node) = None) ∨
  (∃ m b, r = Panic m ∧ get_next_commit_block (block_cache node) = Some b ∧ validation_panics b).

Lemma commit_loop_ok fuel chain node :
  node_inv chain node → (size (block_hash_heights (block_cache node)) < fuel)%nat →
  ∃ node' ext r, commit_loop fuel node = Some (node', r) ∧ node_inv (chain ++ ext) node' ∧
    loop_end node' r.
Proof.
  revert chain node. induction fuel as [|fuel IH]; intros chain node Hinv Hfuel; [lia|].
  cbn [NodeCommit.commit_loop].
  destruct (get_next_commit_block (block_cache node)) as [b|] eqn:Hn; cycle 1.
  { exists node, [], (Ok true). rewrite app_nil_r. split_and!; [done..|]. by left. }
  destruct (next_block node b (ni_cache _ _ Hinv) Hn) as (Hp & _).
  unfold NodeCommit.node_validate_block.
  destruct (validate_block b (block_store node) (notes_tree node)) as [t r] eqn:Hv.
  destruct (validate_block_keeps chain _ _ b t r (ni_ledger _ _ Hinv) Hp Hv) as (Ht & Hok & Hpan).
  destruct r as [[]|e|m].
  - destruct (commit_block_inv chain node b t Hinv Hn (Hok eq_refl)) as (node' & Hcp & Hinv' & Hlt).
    cbn [with_tree block_cache]. rewrite Hcp.
    destruct (IH (chain ++ [b]) node' Hinv') as (node2 & ext & r & -> & Hinv2 & Hend); [lia|].
    exists node2, (b :: ext), r. by rewrite <-app_assoc in Hinv2.
  - destruct (drop_block_inv chain node b t Hinv Hn Ht) as [Hinv' Hlt].
    cbn [with_tree block_cache]. destruct (IH _ _ Hinv') as (node2 & ext & r & -> & Hinv2 & Hend); [lia|]. by exists node2, ext, r.
  - exists (with_tree node t), [], (Panic m). rewrite app_nil_r. split; [done|]. split.
    + destruct Hinv. by split.
    + right. exists m, b. split; [done|]. split; [done|]. apply Hpan. by exists m.
Qed.

(** ** Starting *)

Notation load_db_and_smirk := (load_db_and_smirk temp_noir).
Notation node_new := (node_new temp_noir).

Lemma load_smirk_ok p :
  wf_persistent D p →
  ∃ p', load_smirk temp_noir (p_db p) = Ok p' ∧ wf_persistent D p' ∧
    tree_entries (p_tree p') = tree_entries (p_tree p) ∧
    root_hash (p_tree p') = root_hash (p_tree p) ∧ p_db p' = p_db p.
Proof.
  intros [Ht Hd]. destruct (load_tree_ok D temp_noir (p_tree p) (p_db p) Ht Hd) as (t & Hl & Hwt & He & Hr).
  exists (mk_persistent t (p_db p)). unfold load_smirk, persistent_load. rewrite Hl. cbn.
  split_and!; try done. split; [done|]. cbn. by rewrite He.
Qed.

Lemma depth_ok : (1 ≤ D ≤ 257)%nat.
Proof. Transparent MERKLE_TREE_DEPTH. unfold MERKLE_TREE_DEPTH. lia. Opaque MERKLE_TREE_DEPTH. Qed.

Lemma fresh_tree :
  ∃ p', load_smirk temp_noir ∅ = Ok p' ∧ wf_persistent D p' ∧ tree_entries (p_tree p') = ∅ ∧ p_db p' = ∅.
Proof.
  destruct (load_smirk_ok (persistent_new D) (persistent_new_wf D depth_ok)) as (p' & Hl & Hwf & He & _ & Hdb).
  exists p'. by split_and!.
Qed.

Lemma last_block_stored chain db p b :
  ledger_inv chain db p → last chain = Some b →
  bheight b = Z.of_nat (length chain) ∧ play b ∧
  ∃ f, store_get db (bheight b) = Ok (Some f) ∧ into_block f = b.
Proof.
  intros Hl Hlast. rewrite last_lookup in Hlast.
  assert (0 < length chain)%nat by (apply lookup_lt_Some in Hlast; lia).
  pose proof (li_play _ _ _ _ Hl) as Hp. rewrite Forall_forall in Hp. split_and!.
  - rewrite (li_heights _ _ _ _ Hl _ _ Hlast). lia.
  - apply Hp. by eapply list_elem_of_lookup_2.
  - by apply (li_get _ _ _ _ Hl (pred (length chain))).
Qed.

(** A start after a clean stop. *)
Lemma load_clean chain db p :
  ledger_inv chain db p →
  ∃ ld, load_db_and_smirk db (p_db p) = Ok ld ∧ ld_store ld = db ∧
    ledger_inv chain db (ld_tree ld) ∧ ld_block ld = default block_genesis (last chain).
Proof.
  intros Hl. destruct (load_smirk_ok p (li_tree _ _ _ _ Hl)) as (p' & Hp' & Hwf' & He' & Hr' & _).
  unfold NodeCommit.load_db_and_smirk. rewrite Hp', (li_max _ _ _ _ Hl). cbn [outcome_bind map_err].
  destruct (last chain) as [b|] eqn:Hlast; cbn [fmap option_fmap option_map default].
  - destruct (last_block_stored _ _ _ _ Hl Hlast) as (_ & _ & f & Hg & Hf).
    rewrite Hg. cbn [outcome_bind map_err unwrap]. rewrite Hf, decide_True.
    + eexists. split; [done|]. split_and!; [done|by eapply ledger_same|done].
    + rewrite Hr'. symmetry. by apply (li_root _ _ _ _ Hl).
  - destruct fresh_tree as (p0 & -> & Hwf0 & He0 & _). cbn [outcome_bind].
    eexists. split; [done|]. split_and!; [done| |done].
    eapply ledger_same; [done|done|]. cbn [ld_tree]. rewrite He0. symmetry. apply dom_empty_inv_L.
    rewrite (li_elems _ _ _ _ Hl). apply last_None in Hlast as ->. set_solver.
Qed.

(** A start after a crash between the two writes of [commit_proposal]: the
    block is stored, the tree is still that of the block before. *)
Lemma load_crashed chain db p p1 b now db' :
  ledger_inv chain db p → play b → bheight b = Z.of_nat (length chain) + 1 →
  content_validate proof_verify (content b) db p = (p1, Ok tt) → chain ≠ [] →
  (root (bstate b) = root_hash (p_tree p) → elems_after p (bstate b) = elems p) →
  store_set db (BlockV2 b (mk_block_metadata now)) = Ok db' →
  ∃ ld, load_db_and_smirk db' (p_db p) = Ok ld ∧ ld_store ld = db' ∧
    ledger_inv (chain ++ [b]) db' (ld_tree ld) ∧ ld_block ld = b.
Proof.
  intros Hl Hb Hh Hv Hne Hroot Hset.
  destruct (load_smirk_ok p (li_tree _ _ _ _ Hl)) as (p' & Hp' & Hwf' & He' & Hr' & Hdb').
  (* the recovered tree validates and applies the block as the lost one did *)
  pose proof (ledger_same _ _ _ p' Hl Hwf' He') as Hlp'.
  destruct (content_validate_ok proof_verify temp_noir db p (content b) p1 (li_tree _ _ _ _ Hl)
              (ledger_collision_free _ _ _ _ _ b Hl Hb) Hv) as (_ & _ & _ & Hfit & Hrb).
  pose proof (validated_txns _ _ _ _ _ Hv) as Hvt. fold (bstate b) in *.
  pose proof (validated_fresh proof_verify bad_blocks play chain db p b Hl Hb Hfit Hvt) as Hfresh.
  destruct (store_set_ok db (BlockV2 b (mk_block_metadata now)) (li_store _ _ _ _ Hl) (stored_wf _ _ b _ Hb))
    as (db2 & Hdb2 & Hpost). rewrite Hset in Hdb2. injection Hdb2 as <-.
  assert (∀ t, wf_persistent D t → elems t = elems_after p (bstate b) → meta_after p t b →
    ledger_inv (chain ++ [b]) db' t) as Hfin.
  { intros t Hwt Het Hmt. eapply (ledger_store bad_blocks play chain db p); try done.
    by rewrite Hrb, (root_hash_spec D _ (wp_tree _ _ Hwt)), Het. }
  destruct (last chain) as [b0|] eqn:Hlast; [|by apply last_None in Hlast].
  destruct (last_block_stored _ _ _ _ Hl Hlast) as (Hb0 & Hpb0 & f0 & Hg0 & Hf0).
  unfold NodeCommit.load_db_and_smirk. rewrite Hp'. cbn [outcome_bind].
  rewrite (sp_max _ _ _ Hpost), (li_max _ _ _ _ Hl), Hlast. cbn [outcome_bind map_err fmap option_fmap option_map].
  change (block_height (BlockV2 b (mk_block_metadata now))) with (bheight b).
  rewrite Z.max_r by lia. rewrite (sp_get _ _ _ Hpost _ (play_height b Hb)).
  change (block_height (BlockV2 b (mk_block_metadata now))) with (bheight b).
  rewrite decide_True by done. cbn [outcome_bind map_err unwrap into_block]. rewrite Hr'.
  case_decide as Hsame.
  { eexists. split; [done|]. split_and!; [done| |done]. apply Hfin; [done| |].
    - cbn [ld_tree]. rewrite He'. symmetry. by apply Hroot.
    - intros e m. cbn [ld_tree]. rewrite He'. by left. }
  replace (wrap 64 (bheight b - 1)) with (bheight b0); cycle 1.
  { rewrite wrap_small; [lia|]. replace (bheight b - 1) with (bheight b0) by lia. by apply play_height. }
  rewrite (sp_get _ _ _ Hpost _ (play_height b0 Hpb0)).
  change (block_height (BlockV2 b (mk_block_metadata now))) with (bheight b).
  rewrite decide_False by lia. rewrite Hg0. cbn [outcome_bind map_err unwrap]. rewrite Hf0.
  rewrite decide_True by (symmetry; by apply (li_root _ _ _ _ Hl)).
  assert (changes_fit p' (block_outs (bstate b)) (block_ins (bstate b))) as Hfit'.
  { destruct Hfit as [F1 F2 F3 F4 F5]. split; rewrite ?He'; done. }
  destruct (apply_block_ok temp_noir p' (bstate b) (bheight b) Hwf' Hfit') as (t & -> & Hwt & Het).
  cbn [outcome_bind].
  assert (elems t = elems_after p (bstate b)) as Het'.
  { rewrite (dom_after p' t _ _ Het). unfold elems_after. by rewrite He'. }
  rewrite decide_True.
  - eexists. split; [done|]. split_and!; [done| |done]. apply Hfin; [done|done|]. cbn [ld_tree]. rewrite He' in Het. by apply applied_meta.
  - by rewrite Hrb, (root_hash_spec D _ (wp_tree _ _ Hwt)), Het'.
Qed.

(** ** A started node *)

Lemma migrate_current db : store_version db = Ok latest_version → migrate db = Ok db.
Proof. intros Hv. unfold migrate. rewrite Hv. done. Qed.

Lemma ledger_genesis : ∃ p, load_smirk temp_noir ∅ = Ok p ∧ ledger_inv [] store_create p.
Proof.
  destruct fresh_tree as (p & Hp & Hwf & He & _). exists p. split; [done|].
  split; try done.
  - apply store_create_wf.
  - by rewrite He, dom_empty_L.
  - constructor.
  - constructor.
  - intros e He'. split; (split; [intros _; apply not_elem_of_nil|intros _]); by apply store_create_history.
  - intros m Hm. split; [intros _; apply not_elem_of_nil|intros _]. by apply store_create_mint.
  - intros h Hh _. by apply store_create_get.
  - intros e m. by rewrite He, lookup_empty.
  - intros e kd d Hwe. by rewrite store_create_history.
  - intros b Hb. by apply elem_of_nil in Hb.
  - intros h f. unfold stored. split.
    + intros [Hw Hs]. by rewrite store_create_lookup in Hs.
    + intros [[Hw Hs] _]. by rewrite store_create_lookup in Hs.
  - intros x Hx. left. split; [by apply store_create_txn|]. intros b t Hb. by apply elem_of_nil in Hb.
  - intros b e Hb. by apply elem_of_nil in Hb.
Qed.

(** From loaded databases to a node. *)
Lemma node_new_inv chain db smirk ld mode peer count offset :
  load_db_and_smirk db smirk = Ok ld → play block_genesis →
  ledger_inv chain (ld_store ld) (ld_tree ld) → ld_block ld = default block_genesis (last chain) →
  ∃ node, node_new mode peer count offset db smirk = Ok node ∧ node_inv chain node ∧
    mempool node = mempool_default ∧
    block_cache node = cache_new bheight hash (ld_block ld) (Z.to_nat 10000).
Proof.
  intros Hld Hgen Hl Hblk. unfold NodeCommit.node_new. rewrite Hld. cbn [outcome_bind].
  rewrite (migrate_current _ (li_version _ _ _ _ Hl)). cbn [outcome_bind map_err].
  eexists. split; [done|]. split; [|done].
  assert (play (ld_block ld) ∧ bheight (ld_block ld) = Z.of_nat (length chain)) as [Hp Hh].
  { rewrite Hblk. destruct (last chain) as [b|] eqn:Hlast; cbn [default id].
    - by destruct (last_block_stored _ _ _ _ Hl Hlast) as (? & ? & _).
    - apply last_None in Hlast as ->. done. }
  split; cbn [block_store notes_tree block_cache node_height]; [done| |].
  - apply cache_new_wf; [lia|done].
  - rewrite <-Hh. unfold node_height. cbn [block_cache].
    unfold cache_new, cache_insert. cbn [cache_height]. rewrite decide_False by lia.
    cbn [block_hash_heights]. destruct (default _ _) as [a b]. cbn [blocks max_cache_size].
    rewrite map_size_empty, bool_decide_eq_false_2 by lia. done.
Qed.

(** ** Reachable nodes *)

Section reach.
Context (mode : Mode) (peer : PeerIdSigner) (count : nat) (offset : Z).
Notation start := (node_new mode peer count offset).

(** The life of a node that follows the validator: it starts with empty
    databases, receives proposals and transactions, ticks, and is stopped
    and started again, also between the two writes of a commit once it
    holds a block. A block that changes the tree changes its root. *)
Inductive node_reach : NodeShared → Prop :=
| nr_start node : start store_create ∅ = Ok node → node_reach node
| nr_proposal node b : node_reach node → play b → node_reach (receive_proposal node b).1
| nr_transaction node t eth mint :
    node_reach node → node_reach (receive_transaction proof_verify eth mint node t).1
| nr_tick node node' r : node_reach node → follower_tick node = Some (node', r) → node_reach node'
| nr_restart node node' :
    node_reach node → start (block_store node) (p_db (notes_tree node)) = Ok node' → node_reach node'
| nr_crash node node' b t now db' :
    node_reach node → get_next_commit_block (block_cache node) = Some b →
    validate_block b (block_store node) (notes_tree node) = (t, Ok tt) →
    node_height node ≠ 0 →
    (root (bstate b) = node_root_hash node →
     elems_after (notes_tree node) (bstate b) = elems (notes_tree node)) →
    store_set (block_store node) (BlockV2 b (mk_block_metadata now)) = Ok db' →
    start db' (p_db (notes_tree node)) = Ok node' → node_reach node'.

Context (genesis_play : play block_genesis).

Lemma receive_proposal_inv chain node b :
  node_inv chain node → play b → node_inv chain (receive_proposal node b).1.
Proof.
  intros [Hl Hc Hh] Hb. unfold receive_proposal. case_decide; [by split|]. cbn [fst].
  split; [done| |].
  - cbn. apply cache_insert_wf; [intros ????; by apply play_hash|done|done].
  - unfold node_height. cbn. by rewrite cache_insert_height.
Qed.

Lemma receive_transaction_inv chain node t eth mint :
  node_inv chain node → node_inv chain (receive_transaction proof_verify eth mint node t).1.
Proof.
  intros [Hl Hc Hh]. unfold receive_transaction.
  destruct (validate_transaction _ _ _ _ _); [|by split..].
  destruct (mempool_add _ _ _ _) as [m r]. by split.
Qed.

Lemma node_reach_inv node : node_reach node → ∃ chain, node_inv chain node.
Proof.
  induction 1 as [node Hs|node b _ [chain IH] Hb|node t eth mint _ [chain IH]|node node' r _ [chain IH] Ht
    |node node' _ [chain IH] Hs|node node' b t now db' _ [chain IH] Hn Hv Hne Hroot Hset Hs].
  - destruct ledger_genesis as (p & Hp & Hl).
    assert (load_db_and_smirk store_create ∅ = Ok (mk_loaded store_create p block_genesis)) as Hld.
    { unfold NodeCommit.load_db_and_smirk. rewrite Hp. cbn [outcome_bind]. by rewrite store_create_max. }
    destruct (node_new_inv [] _ _ _ mode peer count offset Hld genesis_play Hl eq_refl) as (n & Hn & Hi & _).
    rewrite Hs in Hn. injection Hn as ->. by exists [].
  - exists chain. by apply receive_proposal_inv.
  - exists chain. by apply receive_transaction_inv.
  - destruct (commit_loop_ok _ chain node IH (Nat.lt_succ_diag_r _)) as (n' & ext & r' & Hc & Hi & _).
    unfold NodeCommit.follower_tick in Ht. rewrite Hc in Ht. injection Ht as -> _. by exists (chain ++ ext).
  - destruct (load_clean _ _ _ (ni_ledger _ _ IH)) as (ld & Hld & Hst & Hl & Hb).
    rewrite <-Hst in Hl.
    destruct (node_new_inv chain _ _ _ mode peer count offset Hld genesis_play Hl Hb) as (n & Hn & Hi & _).
    rewrite Hs in Hn. injection Hn as ->. by exists chain.
  - destruct (next_block node b (ni_cache _ _ IH) Hn) as (Hp & Hbh & _).
    rewrite (ni_height _ _ IH) in Hbh, Hne.
    destruct (validate_block_keeps _ _ _ _ _ _ (ni_ledger _ _ IH) Hp Hv) as (_ & Hc & _).
    destruct (load_crashed chain _ _ t b now db' (ni_ledger _ _ IH) Hp Hbh (Hc eq_refl))
      as (ld & Hld & Hst & Hl & Hb); [by intros ->|done|done|].
    rewrite <-Hst in Hl.
    destruct (node_new_inv (chain ++ [b]) _ _ _ mode peer count offset Hld genesis_play Hl) as (n & Hn' & Hi & _).
    { by rewrite last_snoc. }
    rewrite Hs in Hn'. injection Hn' as ->. by exists (chain ++ [b]).
Qed.


End reach.



(** The first block is not recovered: no block of height 0 is ever stored,
    so when the node is stopped between the two writes of its first commit,
    the tree is still empty and loading the previous block unwraps [None];
    the node panics at every start until the database is removed by hand. *)
Theorem crash_at_first_block_panics db p b now :
  ledger_inv [] db p → play b → bheight b = 1 → root (bstate b) ≠ root_hash (p_tree p) →
  ∃ db', store_set db (BlockV2 b (mk_block_metadata now)) = Ok db' ∧
    load_db_and_smirk db' (p_db p) = Panic "called `Option::unwrap()` on a `None` value".
Proof.
  intros Hl Hb Hh Hroot.
  destruct (store_set_ok db (BlockV2 b (mk_block_metadata now)) (li_store _ _ _ _ Hl) (stored_wf _ _ b _ Hb))
    as (db' & Hdb & Hpost). exists db'. split; [done|].
  destruct (load_smirk_ok p (li_tree _ _ _ _ Hl)) as (p' & Hp' & _ & _ & Hr' & _).
  unfold NodeCommit.load_db_and_smirk. rewrite Hp'. cbn [outcome_bind].
  rewrite (sp_max _ _ _ Hpost), (li_max _ _ _ _ Hl). cbn [outcome_bind map_err last fmap option_fmap option_map].
  change (block_height (BlockV2 b (mk_block_metadata now))) with (bheight b). rewrite Hh.
  rewrite (sp_get _ _ _ Hpost) by done.
  change (block_height (BlockV2 b (mk_block_metadata now))) with (bheight b). rewrite Hh.
  rewrite decide_True by done. cbn [outcome_bind map_err unwrap into_block].
  rewrite Hr', decide_False by done. change (wrap 64 (1 - 1)) with 0.
  rewrite (sp_get _ _ _ Hpost) by done.
  change (block_height (BlockV2 b (mk_block_metadata now))) with (bheight b). rewrite Hh.
  rewrite decide_False by done. rewrite (li_absent _ _ _ _ Hl) by (done || simpl; lia). done.
Qed.

Lemma content_validate_complete chain db p b :
  ledger_inv chain db p → play b →
  Forall (λ t, validate_txn proof_verify t db p = Ok tt) (state_txns (bstate b)) →
  NoDup (block_outs (bstate b) ++ block_ins (bstate b)) →
  root (bstate b) = spec_root D (elems_after p (bstate b)) →
  ∃ p1, content_validate proof_verify (content b) db p = (p1, Ok tt).
Proof.
  intros Hl Hb Hv Hn Hr.
  destruct (validate_txns_complete proof_verify db p ∅ ∅ (state_txns (bstate b)) Hv Hn) as [[ins rem] E].
  { intros e _. rewrite !dom_empty_L. split; apply not_elem_of_empty. }
  destruct (content_validate_root proof_verify temp_noir db p (content b) ins rem (li_tree _ _ _ _ Hl)
              (ledger_collision_free _ _ _ _ _ b Hl Hb) E) as (p1 & Hc & _).
  exists p1. rewrite Hc. fold (bstate b). by rewrite decide_True.
Qed.

(** C3: What a block has to satisfy. Against the ledger of a chain, content
    validation accepts a block exactly when each transaction is valid on its
    own, the non-zero commitments of the whole block are distinct, and the
    block states the root of the tree with its outputs and without its inputs.
    No condition relates the mint hashes of two transactions of one block:
    they are compared with the stored blocks only. *)
Theorem content_validate_iff chain db p b :
  ledger_inv chain db p → play b →
  (∃ p1, content_validate proof_verify (content b) db p = (p1, Ok tt)) ↔
  Forall (λ t, validate_txn proof_verify t db p = Ok tt) (state_txns (bstate b)) ∧
  NoDup (block_outs (bstate b) ++ block_ins (bstate b)) ∧
  root (bstate b) = spec_root D (elems_after p (bstate b)).
Proof.
  intros Hl Hb. pose proof (ledger_collision_free _ _ _ _ _ b Hl Hb) as Hcf. split.
  - intros [p1 Hv].
    destruct (content_validate_ok proof_verify temp_noir db p (content b) p1 (li_tree _ _ _ _ Hl) Hcf Hv)
      as (_ & _ & _ & Hfit & Hr).
    split_and!; [|apply (cf_nodup _ _ _ Hfit)|done].
    unfold content_validate in Hv. fold (bstate b) in Hv.
    destruct (validate_txns _ _ _ _ _ _) as [r|?|?] eqn:E; [|done..]. by eapply validate_txns_each.
  - intros (Hv & Hn & Hr). by apply (content_validate_complete chain).
Qed.
End node_props.
