(* ===== verification/NodeProducer.v ===== *)
(** The block producer: a batch of leased transactions that validate one by one
    becomes a block that passes its own validation and commits. *)
From S2P Require Import Prelude Element MerkleHash HashCache SmirkBatch SmirkNode SmirkNodeSpec.
From S2P Require Import SmirkTree SmirkStorage Utxo BlockStore Crypto NodeBlock Mempool.
From S2P Require Import BlockCache NodeCommit NodeLedger NodeProps.

Section producer.
Context `{FieldLib, CryptoLib, !CryptoLaws}.
Context (temp_noir : bool) (proof_verify : UtxoProof → bool) (bad_blocks : list Z).
Context (validators_for_height : Z → list (list Z)) (clock : Z → Z) (alive : Z → bool).
Context (eth_block_number : outcome NodeError Z)
        (get_mint : Z → Element → outcome NodeError (option GetMintRes)).
Context (play : Block → Prop) `{!InPlay play bad_blocks}.
Implicit Types (db : Store) (p : PersistentMerkleTree) (b : Block) (chain : list Block)
  (node : NodeShared) (m : NodeMempool) (t : UtxoProof).

Notation create_proposal := (create_proposal temp_noir proof_verify bad_blocks validators_for_height
  clock alive eth_block_number get_mint).
Notation validate_batch := (validate_batch proof_verify eth_block_number get_mint).
Notation validate_transaction := (validate_transaction proof_verify eth_block_number get_mint).
Notation node_inv := (node_inv play).

(** ** What the mempool records of a transaction *)

Lemma elem_push_changes cs acc e :
  e ∈ foldl push_change acc cs ↔ e ∈ acc ∨ e ∈ non_zero cs.
Proof.
  revert acc. induction cs as [|c cs IH]; intros acc; cbn [foldl].
  { unfold non_zero. rewrite filter_nil, elem_of_nil. tauto. }
  rewrite IH. unfold push_change. rewrite !elem_non_zero, elem_of_cons.
  repeat case_decide; rewrite ?elem_of_app, ?list_elem_of_singleton; naive_solver.
Qed.
Lemma elem_txn_changes t e : e ∈ txn_changes t ↔ e ∈ non_zero (outputs t) ++ non_zero (inputs t).
Proof.
  unfold txn_changes. rewrite elem_push_changes, elem_of_nil, non_zero_app, !elem_of_app. tauto.
Qed.

(** Keys and changes are those of the transaction. *)
Definition honest_pool m : Prop := ∀ k x, mp_txns m !! k = Some x →
  k = txn_hash (mtxn x) ∧ changes x = txn_changes (mtxn x).

Lemma taken_elem m ks k t :
  (k, t) ∈ taken (mp_txns m) ks ↔ k ∈ ks ∧ ∃ x, mp_txns m !! k = Some x ∧ t = mtxn x.
Proof.
  unfold taken. rewrite list_elem_of_omap. split.
  - intros (k' & Hk' & Hx). destruct (mp_txns m !! k') as [x|] eqn:E; simpl in Hx; simplify_eq.
    split; [done|]. by exists x.
  - intros [Hk (x & Hx & ->)]. exists k. split; [done|]. by rewrite Hx.
Qed.

Lemma leased_distinct m db p ks :
  wf_mempool m → honest_pool m → NoDup ks → (∀ k, k ∈ ks → is_Some (mp_txns m !! k)) →
  Forall (txn_valid proof_verify db p) (taken (mp_txns m) ks).*2 →
  let ts := (taken (mp_txns m) ks).*2 in
  NoDup (non_zero (ts ≫= outputs) ++ non_zero (ts ≫= inputs)).
Proof.
  intros Hm Hh Hn. induction Hn as [|k ks Hk Hn IH]; intros Hsome Hv; [constructor|].
  destruct (Hsome k) as [x Hx]; [by left|]. rewrite (taken_cons _ _ x) in * by done.
  rewrite fmap_cons in *. cbn [snd] in *. apply Forall_cons in Hv as [Hvx Hv].
  cbn zeta. rewrite !bind_cons, !non_zero_app.
  set (ts := (taken (mp_txns m) ks).*2) in *.
  assert (NoDup (non_zero (ts ≫= outputs) ++ non_zero (ts ≫= inputs))) as Hrest.
  { apply IH; [|done]. intros k' Hk'. apply Hsome. by right. }
  cut (NoDup ((non_zero (outputs (mtxn x)) ++ non_zero (inputs (mtxn x))) ++
              non_zero (ts ≫= outputs) ++ non_zero (ts ≫= inputs))).
  { rewrite <-!app_assoc. by rewrite (Permutation_app_swap_app (non_zero (inputs (mtxn x)))). }
  apply NoDup_app. split_and!; [| |done].
  - apply NoDup_app. split_and!; [apply (tv_nodup_out _ _ _ _ Hvx)| |apply (tv_nodup_in _ _ _ _ Hvx)].
    intros e (_ & Ho & _)%(tv_out _ _ _ _ Hvx) (_ & [? Hi])%(tv_in _ _ _ _ Hvx). congruence.
  - intros e Hex Hel. apply elem_txn_changes in Hex.
    assert (∃ k' t', k' ∈ ks ∧ (k', t') ∈ taken (mp_txns m) ks ∧ e ∈ txn_changes t') as (k' & t' & Hk' & Ht' & He').
    { rewrite elem_of_app, !elem_non_zero, !list_elem_of_bind in Hel.
      assert (∃ t', t' ∈ ts ∧ e ∈ txn_changes t') as (t' & Ht' & He').
      { setoid_rewrite elem_txn_changes. setoid_rewrite elem_of_app. setoid_rewrite elem_non_zero. naive_solver. }
      apply list_elem_of_fmap in Ht' as ([k' t''] & -> & Ht'). exists k', t''.
      split; [|done]. by apply taken_elem in Ht' as [? _]. }
    apply taken_elem in Ht' as (_ & x' & Hx' & ->). apply Hk.
    rewrite (wm_changes m Hm k k' x x' e); [done|done|done| |].
    + destruct (Hh k x Hx) as [_ ->]. done.
    + destruct (Hh k' x' Hx') as [_ ->]. done.
Qed.

(** ** Validation of the batch *)

Lemma validate_transaction_txn node t :
  validate_transaction node t = Ok tt →
  validate_txn proof_verify t (block_store node) (notes_tree node) = Ok tt.
Proof. unfold NodeCommit.validate_transaction. by destruct (check_contract_mint _ _ _ _) as [[]|?|?]. Qed.

Lemma validate_batch_all node batch :
  validate_batch node batch = Ok None →
  Forall (λ t, validate_txn proof_verify t (block_store node) (notes_tree node) = Ok tt) batch.*2.
Proof.
  induction batch as [|[k t] batch IH]; cbn [NodeCommit.validate_batch]; [by constructor|].
  destruct (validate_transaction node t) as [[]|?|?] eqn:E; [|done..]. intros Hb.
  rewrite fmap_cons. constructor; [by apply validate_transaction_txn|by apply IH].
Qed.

(** ** The root *)

Lemma simulate_root_ok node ins rem :
  wf_persistent D (notes_tree node) → changes_fit (notes_tree node) ins rem →
  ∃ q, simulate_root node ins rem =
      (with_tree node q,
       Ok (spec_root D ((list_to_set ins ∪ elems (notes_tree node)) ∖ list_to_set rem))) ∧
    wf_persistent D q ∧ tree_entries (p_tree q) = tree_entries (p_tree (notes_tree node)).
Proof.
  intros Hwf Hfit. unfold simulate_root. case_decide as Hemp.
  - destruct Hemp as [-> ->]. exists (notes_tree node). split; [|done].
    unfold node_root_hash. rewrite (root_hash_spec D _ (wp_tree _ _ Hwf)).
    replace ((list_to_set [] ∪ elems (notes_tree node)) ∖ list_to_set []) with (elems (notes_tree node)) by set_solver.
    by destruct node.
  - destruct (fit_batch (λ _, mk_smirk_metadata 0) _ _ _ Hfit) as (b & _ & Hwb & _ & Hr & Hi).
    destruct (root_hash_with_ok D temp_noir _ b (wp_tree _ _ Hwf)) as (cc & Hc & Hcc).
    { by eapply fit_valid. }
    unfold remove_elements in Hc. rewrite Hi, Hr in Hc. rewrite Hc.
    exists (set_cache (notes_tree node) cc). split_and!; [done|by apply set_cache_wf|done].
Qed.

(** ** The cache of a producer: the last block only *)

Definition cache_of b : NodeCache :=
  mk_cache (bheight b) (bheight b) {[hash b := b]} {[bheight b := hash b]} (Z.to_nat 10000).

Lemma cache_new_of b : cache_new bheight hash b (Z.to_nat 10000) = cache_of b.
Proof.
  unfold cache_new, cache_insert. cbn [cache_height]. rewrite decide_False by lia.
  cbn [block_hash_heights]. destruct (default _ _) as [x y]. cbn [blocks max_cache_size].
  rewrite map_size_empty, bool_decide_eq_false_2 by lia. cbn [andb].
  cbn [cache_height cache_max_height]. by rewrite Z.max_id.
Qed.

Lemma singleton_list {A} (a : A) l : NoDup l → (∀ x, x ∈ l ↔ x = a) → l = [a].
Proof.
  intros Hn Hl. apply Permutation_singleton_r. apply NoDup_Permutation; [done|apply NoDup_singleton|].
  intros x. by rewrite Hl, list_elem_of_singleton.
Qed.

Lemma cache_advance b0 b :
  bheight b = bheight b0 + 1 → hash b ≠ hash b0 →
  cache_confirm (cache_insert bheight hash (cache_of b0) b) (bheight b) = cache_of b.
Proof.
  intros Hh Hne. unfold cache_insert.
  change (cache_of b0) with (mk_cache (bheight b0) (bheight b0) {[hash b0 := b0]}
    {[bheight b0 := hash b0]} (Z.to_nat 10000)). cbn [cache_height cache_max_height blocks max_cache_size].
  rewrite decide_False by lia.
  cbn [block_hash_heights]. destruct (default _ _) as [x y]. cbn [blocks max_cache_size].
  rewrite map_size_singleton, bool_decide_eq_false_2 by lia. cbn [andb cache_height cache_max_height].
  unfold cache_confirm. cbn [block_hash_heights cache_max_height blocks max_cache_size].
  rewrite Z.max_r by lia.
  rewrite (singleton_list (bheight b0) (filter _ _)).
  - cbn [foldl]. unfold confirm_remove. cbn [block_hash_heights].
    rewrite lookup_insert_ne, lookup_singleton_eq by lia.
    cbn [blocks cache_height cache_max_height max_cache_size]. unfold cache_of. f_equal.
    + rewrite delete_insert_ne by done. by rewrite delete_singleton_eq.
    + rewrite delete_insert_ne by lia. by rewrite delete_singleton_eq.
  - apply NoDup_filter, btree_iter_nodup.
  - intros k. rewrite list_elem_of_filter, list_elem_of_fmap. split.
    + intros [Hk ([k' z] & -> & Hz)]. apply elem_btree_iter in Hz. cbn [fst] in *.
      rewrite lookup_insert_ne in Hz by lia. by apply lookup_singleton_Some in Hz as [-> _].
    + intros ->. split; [lia|]. exists (bheight b0, hash b0). split; [done|].
      apply elem_btree_iter. by rewrite lookup_insert_ne, lookup_singleton_eq by lia.
Qed.

(** ** The state of a producer between ticks *)

Record producer_inv chain node : Prop := {
  pi_node : node_inv chain node;
  pi_cache : block_cache node = cache_of (default block_genesis (last chain));
  pi_mempool : wf_mempool (mempool node);
  pi_honest : honest_pool (mempool node);
  pi_free : ∀ l, lease_of (mempool node) l = ∅;
}.

Lemma lease_owns_all m l n ks :
  (∀ l, lease_of m l = ∅) → lease_owns (leased_state m l n) l ks.
Proof.
  intros Hf k l' _. unfold leased_state. destruct (pool m) as [|k0 q].
  - unfold lease_of. cbn [leased]. fold (lease_of m l'). rewrite Hf. set_solver.
  - rewrite lease_of_insert. case_decide; [done|]. rewrite Hf. set_solver.
Qed.

(** Committing part of what was leased under [l] leaves no lease behind. *)
Lemma commit_leased m l n (krs : list (Element * outcome NodeError Block)) :
  wf_mempool m → honest_pool m → (∀ l, lease_of m l = ∅) → NoDup krs.*1 →
  let m' := (mempool_commit (leased_state m l n) l krs).1 in
  wf_mempool m' ∧ honest_pool m' ∧ (∀ l, lease_of m' l = ∅) ∧
  (∀ k, mp_txns m' !! k = if decide (k ∈ krs.*1) then None else mp_txns m !! k).
Proof.
  intros Hwf Hh Hf Hn.
  pose proof (mempool_commit_wf (leased_state m l n) l krs (leased_state_wf m l n Hwf)
                (lease_owns_all m l n _ Hf)) as Hwf'.
  pose proof (commit_fold_spec (leased_state m l n) l [] krs Hn) as (F1 & _ & F3).
  unfold mempool_commit in *. destruct (foldl (commit_key l) _ krs) as [m1 sent]. cbn [fst snd] in *.
  assert (∀ k, mp_txns (mempool_free m1 l) !! k = if decide (k ∈ krs.*1) then None else mp_txns m !! k) as Hk.
  { intros k. apply F1. }
  split_and!; [done| | |done].
  - intros k x. rewrite Hk. case_decide; [done|]. apply Hh.
  - intros l'. unfold lease_of, mempool_free. cbn [leased]. rewrite lookup_delete. case_decide; [done|].
    fold (lease_of m1 l'). rewrite F3, decide_False by done. unfold leased_state.
    destruct (pool m); [apply Hf|]. by rewrite lease_of_insert, decide_False by done.
Qed.

(** ** Proposing *)

Definition leased_batch node : list (Element * UtxoProof) :=
  taken (mp_txns (mempool node)) (take (Nat.max 1 (block_txns_count node)) (pool (mempool node))).

(** The block for the leased transactions, with the root of the tree that
    holds their outputs and not their inputs. *)
Definition proposed node (last_block_hash : list Z) (h : Z) (accepts : list (list Z)) : Block :=
  let ts := (leased_batch node).*2 in
  to_block (proposal_content last_block_hash h accepts
              (spec_root D (elems_after (notes_tree node) (mk_state ZERO ts))) ts) (local_peer node).

Lemma leased_fit chain node :
  producer_inv chain node → validate_batch node (leased_batch node) = Ok None →
  (∀ lbh h acc, play (proposed node lbh h acc) →
   let st := bstate (proposed node lbh h acc) in
   Forall (λ t, validate_txn proof_verify t (block_store node) (notes_tree node) = Ok tt) (state_txns st) ∧
   (∃ r, validate_txns proof_verify (block_store node) (notes_tree node) ∅ ∅ (state_txns st) = Ok r) ∧
   changes_fit (notes_tree node) (block_outs st) (block_ins st)).
Proof.
  intros Hp Hv lbh h acc Hplay. cbn zeta. pose proof (validate_batch_all _ _ Hv) as Hall.
  change (state_txns (bstate (proposed node lbh h acc))) with ((leased_batch node).*2).
  assert (∃ r, validate_txns proof_verify (block_store node) (notes_tree node) ∅ ∅ (leased_batch node).*2 = Ok r)
    as Hr.
  { apply validate_txns_complete; [done| |].
    - apply (leased_distinct _ (block_store node) (notes_tree node)).
      + apply (pi_mempool _ _ Hp).
      + apply (pi_honest _ _ Hp).
      + eapply sublist_NoDup; [apply (wm_nodup _ (pi_mempool _ _ Hp))|apply sublist_take].
      + intros k Hk. apply (wm_pool _ (pi_mempool _ _ Hp)).
        rewrite <-(take_drop (Nat.max 1 (block_txns_count node))), elem_of_app. by left.
      + eapply Forall_impl; [exact Hall|]. intros t. apply validate_txn_ok.
    - intros e _. rewrite !dom_empty_L. set_solver. }
  split_and!; [done|done|]. destruct Hr as [[ins rem] Hr].
  apply (validated_fit proof_verify (block_store node) (notes_tree node) (bstate (proposed node lbh h acc)) ins rem Hr).
  apply (ledger_collision_free bad_blocks play chain (block_store node)); [|done].
  apply (ni_ledger _ _ _ (pi_node _ _ Hp)).
Qed.

(** The leader's block passes its own validation. *)
Lemma proposed_valid chain node p1 lbh h acc sk :
  producer_inv chain node → validate_batch node (leased_batch node) = Ok None →
  play (proposed node lbh h acc) → local_peer node = signer_new sk →
  get_leader_for_block_height validators_for_height h = Ok (peer_id (local_peer node)) →
  wf_persistent D p1 → tree_entries (p_tree p1) = tree_entries (p_tree (notes_tree node)) →
  ∃ p2, validate_block proof_verify bad_blocks validators_for_height (proposed node lbh h acc)
          (block_store node) p1 = (p2, Ok tt) ∧
    content_validate proof_verify (content (proposed node lbh h acc)) (block_store node) p1 = (p2, Ok tt).
Proof.
  intros Hp Hv Hplay Hsk Hlead Hwf1 He1. set (b := proposed node lbh h acc).
  assert (Hext : ∀ ts, validate_txns proof_verify (block_store node) p1 ∅ ∅ ts =
                 validate_txns proof_verify (block_store node) (notes_tree node) ∅ ∅ ts).
  { intros ts. apply validate_txns_entries. done. }
  destruct (leased_fit chain node Hp Hv lbh h acc Hplay) as (_ & [[ins rem] Hr] & Hfit).
  pose proof (ni_ledger _ _ _ (pi_node _ _ Hp)) as Hl.
  pose proof (ledger_collision_free bad_blocks play chain _ _ b Hl Hplay) as Hcf.
  destruct (content_validate_root proof_verify temp_noir (block_store node) p1 (content b) ins rem Hwf1)
    as (p2 & Hc & _).
  { unfold collision_free in *. by rewrite He1. }
  { rewrite Hext. exact Hr. }
  assert (content_validate proof_verify (content b) (block_store node) p1 = (p2, Ok tt)) as Hc'.
  { rewrite Hc, decide_True; [done|]. unfold elems_after. rewrite He1. done. }
  exists p2. split; [|done]. unfold validate_block.
  rewrite decide_False by (apply (play_good b Hplay)).
  change (height (header (content b))) with h. rewrite Hlead.
  change (blk_signature b) with (signer_sign (local_peer node) (hash b)).
  rewrite Hsk, signature_verify_sign, decide_False; [done|]. intros Hn. by apply Hn.
Qed.

Lemma validate_batch_mempool node mr batch :
  validate_batch (with_mempool node mr) batch = validate_batch node batch.
Proof. induction batch as [|[k t] batch IH]; [done|]. cbn [NodeCommit.validate_batch]. by rewrite IH. Qed.

Lemma batch_keys node : wf_mempool (mempool node) → honest_pool (mempool node) →
  (leased_batch node).*1 = txn_hash <$> (leased_batch node).*2 ∧ NoDup (leased_batch node).*1.
Proof.
  intros Hwf Hh. split.
  - rewrite <-list_fmap_compose. apply list_fmap_ext. intros i [k t] Hi%list_elem_of_lookup_2.
    apply taken_elem in Hi as (_ & x & Hx & ->). by apply Hh.
  - unfold leased_batch. rewrite taken_keys.
    + eapply sublist_NoDup; [apply (wm_nodup _ Hwf)|apply sublist_take].
    + intros k Hk. apply (wm_pool _ Hwf).
      rewrite <-(take_drop (Nat.max 1 (block_txns_count node))), elem_of_app. by left.
Qed.

Lemma genesis_last chain node : node_inv chain node → play block_genesis →
  let b0 := default block_genesis (last chain) in
  play b0 ∧ bheight b0 = node_height node.
Proof.
  intros Hi Hg. cbn zeta. destruct (last chain) as [b0|] eqn:E; cbn [default id].
  - destruct (last_block_stored _ _ _ _ _ (ni_ledger _ _ _ Hi) E) as (Hh & ? & _).
    by rewrite Hh, (ni_height _ _ _ Hi).
  - apply last_None in E as ->. by rewrite (ni_height _ _ _ Hi).
Qed.

(** The pool after the leased transactions are committed with the block [b]. *)
Lemma batch_committed chain node h b :
  producer_inv chain node →
  let m' := (mempool_commit (leased_state (mempool node) h (block_txns_count node)) h
               ((λ k, (k, Ok b)) <$> (leased_batch node).*1 : list (Element * outcome NodeError Block))).1 in
  wf_mempool m' ∧ honest_pool m' ∧ (∀ l, lease_of m' l = ∅) ∧
  (∀ k, mp_txns m' !! k = if decide (k ∈ (leased_batch node).*1) then None else mp_txns (mempool node) !! k).
Proof.
  intros Hp. destruct (batch_keys node (pi_mempool _ _ Hp) (pi_honest _ _ Hp)) as [_ Hnd].
  set (krs := (λ k, (k, Ok b)) <$> _ : list (Element * outcome NodeError Block)).
  assert (krs.*1 = (leased_batch node).*1) as Hkrs by (unfold krs; rewrite <-list_fmap_compose; apply list_fmap_id).
  rewrite <-Hkrs. apply (commit_leased _ _ _ _ (pi_mempool _ _ Hp) (pi_honest _ _ Hp) (pi_free _ _ Hp)). by rewrite Hkrs.
Qed.
(** The cache after the next block is confirmed. *)
Lemma cache_after chain node b :
  producer_inv chain node → play block_genesis → play b → bheight b = node_height node + 1 →
  cache_confirm (cache_insert bheight hash (block_cache node) b) (bheight b) = cache_of b.
Proof.
  intros Hp Hgen Hb Hh. destruct (genesis_last chain node (pi_node _ _ Hp) Hgen) as [Hp0 Hh0]. rewrite (pi_cache _ _ Hp).
  apply cache_advance; [by rewrite Hh0|]. intros Heq. apply (play_hash (bad_blocks := bad_blocks)) in Heq; [|done|done].
  rewrite Heq in Hh. lia.
Qed.

(** C4: The leader's proposal. When the leased transactions validate one by
    one, the block built from them (at most [block_txns_count], at least one
    if any waits) passes [validate_block] and is committed: the ledger is
    extended by it, its root is that of the tree with the outputs and without
    the inputs, the transactions leave the mempool, no lease is left, and the
    cache holds the new block as the confirmed one. *)
Theorem create_proposal_commits chain node lbh h acc sk :
  producer_inv chain node → h = node_height node + 1 → play block_genesis →
  local_peer node = signer_new sk →
  get_leader_for_block_height validators_for_height h = Ok (peer_id (local_peer node)) →
  validate_batch node (leased_batch node) = Ok None →
  play (proposed node lbh h acc) →
  ∃ node', create_proposal node lbh h acc = (node', Ok (proposed node lbh h acc)) ∧
    producer_inv (chain ++ [proposed node lbh h acc]) node' ∧
    node_root_hash node' = root (bstate (proposed node lbh h acc)) ∧
    (∀ k, mp_txns (mempool node') !! k =
          if decide (k ∈ (leased_batch node).*1) then None else mp_txns (mempool node) !! k).
Proof.
  intros Hp -> Hgen Hsk Hlead Hv Hplay. set (h := node_height node + 1) in *. set (b := proposed node lbh h acc) in *.
  pose proof (pi_node _ _ Hp) as Hn. pose proof (ni_ledger _ _ _ Hn) as Hl.
  destruct (leased_fit chain node Hp Hv lbh h acc Hplay) as (_ & _ & Hfit).
  destruct (batch_keys node (pi_mempool _ _ Hp) (pi_honest _ _ Hp)) as [Hkeys _].
  unfold NodeCommit.create_proposal.
  rewrite (lease_batch_ok (mempool node) h _ (pi_mempool _ _ Hp)). fold (leased_batch node).
  rewrite validate_batch_mempool, Hv.
  set (m1 := leased_state (mempool node) h (block_txns_count node)).
  destruct (simulate_root_ok (with_mempool node (m1, [])) (block_outs (bstate b)) (block_ins (bstate b))
              (li_tree _ _ _ _ Hl) Hfit) as (q & Hsim & Hwq & Heq).
  change (non_zero ((leased_batch node).*2 ≫= outputs)) with (block_outs (bstate b)).
  change (non_zero ((leased_batch node).*2 ≫= inputs)) with (block_ins (bstate b)).
  rewrite Hsim. cbn [with_mempool notes_tree] in Heq.
  destruct (proposed_valid chain node q lbh h acc sk Hp Hv Hplay Hsk Hlead Hwq Heq) as (p2 & Hval & Hcon).
  fold b in Hval, Hcon. set (node1 := with_tree (with_mempool node (m1, [])) q).
  change (to_block _ (local_peer node1)) with b. cbv beta zeta.
  unfold node_validate_block. change (block_store node1) with (block_store node).
  change (notes_tree node1) with q. rewrite Hval.
  destruct (commit_proposal_ok temp_noir proof_verify bad_blocks clock alive play chain (with_tree node1 p2) q b)
    as (node2 & Hcp & Hl2 & Hc2 & Hm2).
  { by eapply ledger_same. }
  { done. }
  { unfold h. change (node_height node + 1 = Z.of_nat (length chain) + 1). by rewrite (ni_height _ _ _ Hn). }
  { done. }
  rewrite Hcp. eexists. split; [done|].
  change (mempool (with_tree node1 p2)) with m1 in Hm2. change (state_txns (bstate b)) with ((leased_batch node).*2) in Hm2.
  rewrite <-Hkeys in Hm2.
  change (bheight b) with h in Hm2. destruct (batch_committed chain node h b Hp) as (Hw' & Hh' & Hf' & Hk'). fold m1 in Hw', Hh', Hf', Hk'.
  destruct (mempool_commit m1 h _) as [m2 sent]. injection Hm2 as Hm2 _. cbn [fst] in *.
  assert (cache_confirm (cache_insert bheight hash (block_cache node2) b) h = cache_of b) as Hadv.
  { rewrite Hc2. exact (cache_after chain node b Hp Hgen Hplay eq_refl). }
  rewrite Hadv. split_and!.
  - split; cbn [with_cache mempool block_cache]; rewrite ?Hm2; try done.
    + split; cbn [with_cache block_store notes_tree block_cache]; [done| |].
      * rewrite <-cache_new_of. apply cache_new_wf; [lia|done].
      * unfold node_height. cbn. rewrite length_app. change (bheight b) with h. unfold h.
        rewrite (ni_height _ _ _ Hn). cbn [length]. lia.
    + by rewrite last_snoc.
  - unfold node_root_hash. cbn [with_cache notes_tree]. symmetry.
    apply (li_root _ _ _ _ Hl2). apply last_snoc.
  - intros k. cbn [with_cache mempool]. rewrite Hm2. by rewrite Hk'.
Qed.

(** When a leased transaction fails validation, the proposal is given up:
    that transaction leaves the mempool and its request is answered with the
    error, every other leased transaction returns to the queue, and the
    databases and the cache are untouched, so the next tick can try the
    rest. *)
Theorem create_proposal_rejects chain node lbh h acc key e :
  producer_inv chain node → validate_batch node (leased_batch node) = Ok (Some (key, e)) →
  ∃ node', create_proposal node lbh h acc = (node', Err (InvalidTransaction key)) ∧
    producer_inv chain node' ∧ key ∈ (leased_batch node).*1 ∧
    (∀ k, mp_txns (mempool node') !! k = if decide (k = key) then None else mp_txns (mempool node) !! k) ∧
    (∀ k, k ≠ key → is_Some (mp_txns (mempool node) !! k) → k ∈ pool (mempool node')) ∧
    outbox node' = outbox node ++
      notifications (mp_txns (mempool node)) [(key, Err e)].
Proof.
  intros Hp Hv. unfold NodeCommit.create_proposal.
  rewrite (lease_batch_ok (mempool node) h _ (pi_mempool _ _ Hp)). fold (leased_batch node).
  rewrite validate_batch_mempool, Hv. eexists. split; [done|].
  set (m1 := leased_state (mempool node) h (block_txns_count node)).
  set (krs := [(key, Err e)] : list (Element * outcome NodeError Block)).
  destruct (commit_leased (mempool node) h (block_txns_count node) krs (pi_mempool _ _ Hp) (pi_honest _ _ Hp)
              (pi_free _ _ Hp)) as (Hw & Hh & Hf & Hk); [apply NoDup_singleton|].
  pose proof (commit_fold_spec m1 h [] krs (NoDup_singleton _)) as (_ & Hsent & _).
  fold m1 in Hw, Hh, Hf, Hk. cbn [with_mempool mempool outbox fst snd].
  assert (∀ k, mp_txns (mempool_commit m1 h krs).1 !! k = if decide (k = key) then None else mp_txns (mempool node) !! k) as Hk1.
  { intros k. rewrite Hk. apply decide_ext, list_elem_of_singleton. }
  split_and!; [| |done| |].
  - destruct Hp as [[Hl Hc Hhh] ? ? ? ?]. split; [by split|done|done|done|done].
  - clear -Hv Hp. destruct (batch_keys node (pi_mempool _ _ Hp) (pi_honest _ _ Hp)) as [-> _].
    revert Hv. generalize (leased_batch node) as l. induction l as [|[k t] l IH]; [done|].
    cbn [NodeCommit.validate_batch]. rewrite !fmap_cons. cbn [snd].
    destruct (validate_transaction node t); [|by intros [= <- _]; left|done]. intros Hl. right. by apply IH.
  - intros k Hne Hs. destruct (wm_cover _ Hw k) as [?|[l Hl]]; [by rewrite Hk1, decide_False|done|].
    rewrite Hf in Hl. set_solver.
  - rewrite app_nil_r. f_equal. unfold mempool_commit. fold krs in Hsent. cbn zeta in Hsent.
    destruct (foldl (commit_key h) (m1, []) krs) as [m2 sent]. exact Hsent.
Qed.
End producer.
