(* ===== verification/NodeWitness.v ===== *)
(** A concrete node: the stand-in libraries, a mint of two notes, and the
    theorems about the node applied to it. *)
From S2P Require Import Prelude Element MerkleHash HashCache SmirkBatch SmirkNode SmirkNodeSpec.
From S2P Require Import SmirkTree SmirkStorage Utxo BlockStore Crypto NodeBlock Mempool.
From S2P Require Import BlockCache NodeCommit NodeLedger NodeProps NodeProducer.

(** * The libraries

    The stand-in hash returns the second 32 bytes of its input, which for the
    content of a block is the height. *)

Definition middle_hash (m : list Z) : list Z :=
  (λ x, x mod 256) <$> take 32 (drop 32 m ++ replicate 32 0).

#[export] Instance ex_crypto : CryptoLib := {|
  keccak256 := middle_hash;
  PublicKey := bool;
  SecretKey := bool;
  RecSig := bool;
  public_key k := k;
  serialize_uncompressed k := replicate 33 0 ++ to_be_bytes (Z.b2z k);
  from_compact l id :=
    if decide (l = toy_compact true) then Some true
    else if decide (l = toy_compact false) then Some false else None;
  serialize_compact k := (0, toy_compact k);
  sign_ecdsa_recoverable _ k := k;
  recover_ecdsa _ k := Some k;
|}.

#[export] Instance ex_crypto_laws : CryptoLaws.
Proof.
  split.
  - intros m. unfold keccak256, ex_crypto, middle_hash. split.
    + rewrite length_fmap, length_take, length_app, length_replicate. lia.
    + apply Forall_fmap, Forall_forall. intros x _. unfold compose, is_byte.
      pose proof (Z.mod_pos_bound x 256). lia.
  - by intros [].
  - by intros [].
  - by intros [].
  - by intros m [].
Qed.

Lemma block_hash_height b : hash b = (λ x, x mod 256) <$> to_be_bytes (bheight b).
Proof. reflexivity. Qed.

Lemma mod_bytes l : Forall is_byte l → ((λ x, x mod 256) <$> l) = l.
Proof.
  induction 1 as [|x l Hx Hl IH]; [done|]. csimpl. rewrite IH. f_equal. apply Z.mod_small. exact Hx.
Qed.

(** * The blocks in play *)

Definition ex_play (b : Block) : Prop :=
  in_width 64 (bheight b) ∧ Forall wf_utxo (state_txns (bstate b)) ∧
  Forall (in_width 160) (block_outs (bstate b)).

Lemma small_slots x y :
  in_width 160 x → in_width 160 y → slot MERKLE_TREE_DEPTH x = slot MERKLE_TREE_DEPTH y → x = y.
Proof.
  Transparent MERKLE_TREE_DEPTH. unfold slot, MERKLE_TREE_DEPTH, in_width. cbn [Nat.sub]. Opaque MERKLE_TREE_DEPTH.
  intros Hx Hy Hs%lsb_bits_eq; [|lia]. by rewrite !Z.mod_small in Hs.
Qed.

#[export] Instance ex_in_play : InPlay ex_play [].
Proof.
  split.
  - by intros b (? & _).
  - by intros b (_ & ? & _).
  - intros b _. apply not_elem_of_nil.
  - intros b b' (Hb & _) (Hb' & _). rewrite !block_hash_height, !mod_bytes by apply to_be_bytes_range.
    intros Heq. apply (f_equal from_be_bytes) in Heq.
    rewrite !from_to_be_bytes in Heq; [done|unfold wf_element, in_width in *; lia..].
  - intros b b' x y (_ & _ & Hb) (_ & _ & Hb') Hx Hy.
    rewrite Forall_forall in Hb. rewrite Forall_forall in Hb'. apply small_slots; auto.
Qed.

Lemma genesis_in_play : ex_play block_genesis.
Proof. split; [by apply (bool_decide_unpack (in_width 64 _))|]. split; constructor. Qed.

(** * The node *)

Definition ex_key : @SecretKey ex_crypto := true.
Definition ex_signer : PeerIdSigner := signer_new ex_key.
Definition ex_validators (h : Z) : list (list Z) := [peer_id ex_signer].
Definition ex_verify (t : UtxoProof) : bool := true.
Definition ex_clock (h : Z) : Z := 1700000000 + h.
Definition ex_alive (l : Z) : bool := true.
(** The contract knows the mint 77 of value 5. *)
Definition ex_get_mint (h : Z) (m : Element) : outcome NodeError (option GetMintRes) :=
  Ok (if decide (m = 77) then Some (mk_mint_res 5 7 false) else None).

(** A mint of the notes 100 and 101, and one of the note 102 with the same
    mint hash. *)
Definition ex_mint : UtxoProof :=
  mk_utxo_proof [] (mk_public_input (0, 0) (100, 101) [2; 7; 5; 77; 0]).
Definition ex_mint_again : UtxoProof :=
  mk_utxo_proof [] (mk_public_input (0, 0) (102, 0) [2; 7; 5; 77; 0]).

Lemma mint_valid chain db p t pf o0 o1 :
  ledger_inv ex_play chain db p → chain_outs chain = [] → chain_ins chain = [] → chain_mints chain = [] →
  t = mk_utxo_proof pf (mk_public_input (0, 0) (o0, o1) [2; 7; 5; 77; 0]) →
  0 < o0 < 1000 → 0 ≤ o1 < 1000 → o0 ≠ o1 →
  validate_txn ex_verify t db p = Ok tt.
Proof.
  intros Hl HO HI HM -> H0 H1 Hne.
  assert (Hent : tree_entries (p_tree p) = ∅).
  { apply dom_empty_inv_L. rewrite (li_elems _ _ _ _ Hl), HO. set_solver. }
  assert (Hw : ∀ e, 0 ≤ e < 1000 → wf_element e ∧ ¬ MODULUS ≤ e).
  { intros e He. unfold wf_element, in_width, MODULUS. lia. }
  assert (Hh : ∀ e, 0 ≤ e < 1000 → get_element_history db e = Ok (None, None)).
  { intros e He. destruct (li_hist _ _ _ _ Hl e) as [Ho Hi]; [by apply Hw|]. unfold get_element_history.
    rewrite HO in Ho. rewrite HI in Hi.
    rewrite (proj2 Hi) by apply not_elem_of_nil. by rewrite (proj2 Ho) by apply not_elem_of_nil. }
  unfold validate_txn. cbn [ex_verify negb public_inputs input_commitments output_commitments].
  rewrite decide_False by (unfold ZERO; naive_solver). rewrite decide_False by naive_solver.
  unfold outputs, inputs. cbn [public_inputs input_commitments output_commitments fst snd check_outputs].
  rewrite (decide_False (P := MODULUS ≤ o0)) by (apply Hw; lia).
  rewrite (decide_False (P := o0 = ZERO)) by (unfold ZERO; lia).
  unfold contains_element. rewrite Hent, lookup_empty, bool_decide_eq_false_2 by (by intros []).
  rewrite Hh by lia. cbn [map_err outcome_bind snd].
  rewrite (decide_False (P := MODULUS ≤ o1)) by (apply Hw; lia).
  destruct (decide (o1 = ZERO)) as [|Hz].
  all: rewrite ?Hent, ?lookup_empty, ?bool_decide_eq_false_2, ?Hh by (lia || by intros []).
  all: cbn [map_err outcome_bind snd check_inputs].
  all: rewrite (decide_False (P := MODULUS ≤ 0)) by (apply Hw; lia).
  all: rewrite bool_decide_eq_false_2 by (unfold ZERO; naive_solver); cbn [andb check_inputs].
  all: rewrite ?(decide_False (P := MODULUS ≤ 0)) by (apply Hw; lia); cbn [outcome_bind].
  all: unfold check_mint; change (txn_mint_hash _) with (Some 77); cbv beta iota.
  all: rewrite (proj2 (li_mint _ _ _ _ Hl 77 ltac:(by apply (bool_decide_unpack (in_width 256 _))))) by (rewrite HM; apply not_elem_of_nil).
  all: done.
Qed.

(** A node that has just started with empty databases. *)
Lemma ex_started mode :
  ∃ node, node_new true mode ex_signer 10 0 store_create ∅ = Ok node ∧ node_inv ex_play [] node ∧
    mempool node = mempool_default ∧ block_cache node = cache_of block_genesis ∧
    local_peer node = ex_signer ∧ n_mode node = mode.
Proof.
  destruct (ledger_genesis true ex_play) as (p & Hp & Hl).
  assert (load_db_and_smirk true store_create ∅ = Ok (mk_loaded store_create p block_genesis)) as Hld.
  { unfold load_db_and_smirk. rewrite Hp. cbn [outcome_bind]. by rewrite store_create_max. }
  destruct (node_new_inv true ex_play [] _ _ _ mode ex_signer 10 0 Hld genesis_in_play Hl eq_refl)
    as (node & Hn & Hi & Hm & Hc).
  exists node. split_and!; [done|done|done| | |].
  - rewrite Hc. apply cache_new_of.
  - unfold node_new in Hn. rewrite Hld in Hn. cbn [outcome_bind] in Hn.
    destruct (map_err _ _); [|done..]. by injection Hn as <-.
  - unfold node_new in Hn. rewrite Hld in Hn. cbn [outcome_bind] in Hn.
    destruct (map_err _ _); [|done..]. by injection Hn as <-.
Qed.

#[local] Opaque txn_hash.

(** The validator after a client submitted the mint. *)
Definition ex_submitted (node : NodeShared) : NodeShared := (submit_transaction node ex_mint 9).1.

Lemma ex_submitted_same node :
  local_peer (ex_submitted node) = local_peer node ∧ block_store (ex_submitted node) = block_store node ∧
  notes_tree (ex_submitted node) = notes_tree node.
Proof.
  unfold ex_submitted, submit_transaction. by destruct (mempool_add_with_listener _ _ _ _ _).
Qed.

Lemma ex_submitted_inv node :
  node_inv ex_play [] node → mempool node = mempool_default → block_cache node = cache_of block_genesis →
  producer_inv ex_play [] (ex_submitted node) ∧ leased_batch (ex_submitted node) = [(txn_hash ex_mint, ex_mint)].
Proof.
  intros Hi Hm Hc. unfold ex_submitted, submit_transaction, mempool_add_with_listener. rewrite Hm.
  pose proof (mempool_add_wf (L := Z) mempool_default (txn_hash ex_mint) ex_mint (txn_changes ex_mint) (Some 9) mempool_default_wf) as Hwf.
  assert (mempool_add_ (L := Z) mempool_default (txn_hash ex_mint) ex_mint (txn_changes ex_mint) (Some 9) =
    (mk_mempool {[txn_hash ex_mint := mk_mempool_txn ex_mint (Some 9) (txn_changes ex_mint)]} [txn_hash ex_mint] ∅, Ok tt))
    as Hadd.
  { unfold mempool_add_. replace (List.find _ _) with (@None Element); [done|].
    symmetry. apply find_none_iff. intros c _. unfold conflicts. done. }
  rewrite Hadd in *. cbn [fst] in *. split.
  - split; cbn [with_mempool mempool block_cache fst]; [|done|done| |done].
    + destruct Hi. by split.
    + intros k x Hx. cbn [mp_txns] in Hx. apply lookup_singleton_Some in Hx as [Hk Hx]. rewrite <-Hk, <-Hx. split; reflexivity.
  - unfold leased_batch. cbn [with_mempool mempool fst pool mp_txns block_txns_count].
    replace (take _ [txn_hash ex_mint]) with [txn_hash ex_mint].
    + unfold taken. csimpl. by rewrite lookup_singleton_eq.
    + symmetry. apply take_ge. cbn [length]. lia.
Qed.

Lemma ex_leased_valid node :
  producer_inv ex_play [] node → leased_batch node = [(txn_hash ex_mint, ex_mint)] →
  validate_batch ex_verify (Ok 100) ex_get_mint node (leased_batch node) = Ok None.
Proof.
  intros Hp ->. cbn [validate_batch]. unfold validate_transaction.
  replace (check_contract_mint _ _ _ _) with (Ok tt : outcome NodeError unit) by reflexivity.
  cbn [outcome_bind]. rewrite (mint_valid [] _ _ ex_mint [] 100 101); [done| |done..|lia|lia|lia].
  apply (ni_ledger _ _ _ (pi_node _ _ _ Hp)).
Qed.

(** Any block over the two mints is in play. *)
Lemma ex_block_play h prev acc r ts :
  in_width 64 h → ts ⊆ [ex_mint; ex_mint_again] →
  ex_play (to_block (proposal_content prev h acc r ts) ex_signer).
Proof.
  intros Hh Hts. split; [done|]. cbn [bstate to_block content proposal_content state state_txns].
  split.
  - apply Forall_forall. intros t Ht. apply Hts in Ht.
    rewrite !elem_of_cons, elem_of_nil in Ht. destruct Ht as [->|[->|[]]]; unfold wf_utxo, wf_element;
      by apply (bool_decide_unpack (Forall (in_width 256) _)).
  - apply Forall_forall. intros e [_ (t & He & Ht)%list_elem_of_bind]%elem_non_zero. apply Hts in Ht.
    rewrite !elem_of_cons, elem_of_nil in Ht.
    destruct Ht as [->|[->|[]]]; unfold outputs in He; cbn in He; rewrite !elem_of_cons, elem_of_nil in He;
      unfold in_width; naive_solver lia.
Qed.

(** * Witnesses *)

Lemma create_proposal_commits_witness :
  ∃ node node', producer_inv ex_play [] node ∧
    create_proposal true ex_verify [] ex_validators ex_clock ex_alive (Ok 100) ex_get_mint
      node (hash block_genesis) 1 [] = (node', Ok (proposed node (hash block_genesis) 1 [])) ∧
    producer_inv ex_play [proposed node (hash block_genesis) 1 []] node' ∧
    state_txns (bstate (proposed node (hash block_genesis) 1 [])) = [ex_mint].
Proof.
  destruct (ex_started ModeValidator) as (node0 & _ & Hi & Hm & Hc & Hpeer & _).
  destruct (ex_submitted_inv node0 Hi Hm Hc) as [Hp Hb].
  destruct (ex_submitted_same node0) as [Hsame _].
  set (node := ex_submitted node0) in *.
  destruct (create_proposal_commits true ex_verify [] ex_validators ex_clock ex_alive (Ok 100) ex_get_mint
    ex_play [] node (hash block_genesis) 1 [] ex_key) as (node' & Hcp & Hp' & _).
  - exact Hp.
  - by rewrite (ni_height _ _ _ (pi_node _ _ _ Hp)).
  - apply genesis_in_play.
  - by rewrite Hsame.
  - rewrite Hsame, Hpeer. reflexivity.
  - by apply ex_leased_valid.
  - unfold proposed. rewrite Hsame, Hpeer, Hb.
    apply ex_block_play; [by apply (bool_decide_unpack (in_width 64 _))|].
    intros t Ht. apply list_elem_of_singleton in Ht as ->. by left.
  - exists node, node'. split_and!; [done|done|done|].
    change (state_txns _) with ((leased_batch node).*2). by rewrite Hb.
Defined.

Lemma create_proposal_rejects_witness :
  ∃ node node', producer_inv ex_play [] node ∧
    create_proposal true ex_verify [] ex_validators ex_clock ex_alive (Ok 100) (λ _ _, Ok None)
      node (hash block_genesis) 1 [] = (node', Err (InvalidTransaction (txn_hash ex_mint))) ∧
    outbox node' = [(9, Err (MintIsNotInTheContract 77))].
Proof.
  destruct (ex_started ModeValidator) as (node0 & Hnew & Hi & Hm & Hc & Hpeer & _).
  destruct (ex_submitted_inv node0 Hi Hm Hc) as [Hp Hb].
  set (node := ex_submitted node0) in *.
  destruct (create_proposal_rejects true ex_verify [] ex_validators ex_clock ex_alive (Ok 100) (λ _ _, Ok None)
    ex_play [] node (hash block_genesis) 1 [] (txn_hash ex_mint) (MintIsNotInTheContract 77))
    as (node' & Hcp & _ & _ & _ & _ & Hout).
  - exact Hp.
  - rewrite Hb. reflexivity.
  - exists node, node'. split_and!; [done|done|]. rewrite Hout.
    unfold node, ex_submitted, submit_transaction, mempool_add_with_listener, mempool_add_. rewrite Hm.
    replace (List.find _ _) with (@None Element)
      by (symmetry; apply find_none_iff; intros c _; done).
    rewrite decide_False by (by intros []). cbn [fst with_mempool outbox mempool mp_txns].
    unfold notifications. csimpl. rewrite lookup_insert_eq. cbn.
    unfold node_new in Hnew. destruct (load_db_and_smirk _ _ _); [|done..]. cbn [outcome_bind] in Hnew.
    destruct (map_err _ _); [|done..]. by injection Hnew as <-.
Defined.

(** A block over the two mints, with the root the tree will have. *)
Definition ex_block (p : PersistentMerkleTree) (h : Z) (ts : list UtxoProof) : Block :=
  to_block (proposal_content (hash block_genesis) h []
              (spec_root MERKLE_TREE_DEPTH (elems_after p (mk_state ZERO ts))) ts) ex_signer.

Lemma ex_mints_each db p :
  ledger_inv ex_play [] db p →
  Forall (λ t, validate_txn ex_verify t db p = Ok tt) [ex_mint; ex_mint_again].
Proof.
  intros Hl. repeat constructor.
  - by apply (mint_valid [] _ _ _ [] 100 101); try done; lia.
  - by apply (mint_valid [] _ _ _ [] 102 0); try done; lia.
Qed.

(** Both redeem the mint 77, and one block carries both. *)
Lemma content_validate_iff_witness :
  txn_mint_hash ex_mint = Some 77 ∧ txn_mint_hash ex_mint_again = Some 77 ∧
  ∃ db p p1, ledger_inv ex_play [] db p ∧
    content_validate ex_verify (content (ex_block p 1 [ex_mint; ex_mint_again])) db p = (p1, Ok tt).
Proof.
  split; [done|]. split; [done|].
  destruct (ledger_genesis true ex_play) as (p & _ & Hl). exists store_create, p.
  destruct (content_validate_iff true ex_verify [] ex_play [] store_create p (ex_block p 1 [ex_mint; ex_mint_again]) Hl)
    as [_ Hv].
  { apply ex_block_play; [by apply (bool_decide_unpack (in_width 64 _))|done]. }
  destruct Hv as [p1 Hp1]; [|by exists p1].
  split_and!; [by apply ex_mints_each| |reflexivity].
  apply (bool_decide_unpack (NoDup (non_zero ([ex_mint; ex_mint_again] ≫= outputs) ++
                                    non_zero ([ex_mint; ex_mint_again] ≫= inputs)))). by vm_compute.
Defined.

Lemma ex_leader h : get_leader_for_block_height ex_validators h = Ok (peer_id ex_signer).
Proof.
  unfold get_leader_for_block_height. rewrite decide_False by done.
  change (Z.of_nat (length (ex_validators h))) with 1. by rewrite Z.mod_1_r.
Qed.

Lemma ex_validates db p h :
  ledger_inv ex_play [] db p → in_width 64 h →
  ex_play (ex_block p h [ex_mint]) ∧
  ∃ p1, content_validate ex_verify (content (ex_block p h [ex_mint])) db p = (p1, Ok tt) ∧
    validate_block ex_verify [] ex_validators (ex_block p h [ex_mint]) db p = (p1, Ok tt).
Proof.
  intros Hl Hh. assert (ex_play (ex_block p h [ex_mint])) as Hp.
  { apply ex_block_play; [done|]. intros t Ht. apply list_elem_of_singleton in Ht as ->. by left. }
  split; [done|].
  destruct (content_validate_complete true ex_verify [] ex_play [] db p (ex_block p h [ex_mint]) Hl Hp)
    as [p1 Hp1].
  - by apply Forall_singleton, (mint_valid [] _ _ _ [] 100 101).
  - apply (bool_decide_unpack (NoDup (non_zero ([ex_mint] ≫= outputs) ++ non_zero ([ex_mint] ≫= inputs)))).
    by vm_compute.
  - reflexivity.
  - exists p1. split; [done|]. unfold validate_block. rewrite decide_False by apply not_elem_of_nil.
    rewrite ex_leader.
    change (blk_signature _) with (signer_sign (signer_new ex_key) (hash (ex_block p h [ex_mint]))).
    rewrite signature_verify_sign. rewrite decide_False; [done|]. intros Hn. by apply Hn.
Qed.


(** A follower that started and received a block. *)
Definition ex_reach := node_reach true ex_verify [] ex_validators ex_clock ex_alive ex_play ModeNode ex_signer 10 0.

Lemma ex_follower : ∃ node, ex_reach node ∧
  get_next_commit_block (block_cache node) = Some (ex_block (notes_tree node) 1 [ex_mint]).
Proof.
  destruct (ex_started ModeNode) as (node & Hn & Hi & _ & Hc & _ & Hm).
  assert (ex_play (ex_block (notes_tree node) 1 [ex_mint])) as Hp.
  { apply (ex_validates _ _ 1 (ni_ledger _ _ _ Hi)). by apply (bool_decide_unpack (in_width 64 _)). }
  exists (receive_proposal node (ex_block (notes_tree node) 1 [ex_mint])).1. split.
  - apply nr_proposal; [|done]. by apply nr_start.
  - unfold receive_proposal. rewrite Hm, decide_False by done. cbn [fst with_mempool with_cache block_cache notes_tree].
    rewrite Hc. generalize (notes_tree node). intros p. reflexivity.
Qed.



Lemma crash_at_first_block_panics_witness :
  ∃ db p b db', store_set db (BlockV2 b (mk_block_metadata None)) = Ok db' ∧
    load_db_and_smirk true db' (p_db p) = Panic "called `Option::unwrap()` on a `None` value".
Proof.
  destruct (ledger_genesis true ex_play) as (p & _ & Hl).
  set (b := to_block (proposal_content [] 1 [] (root_hash (p_tree p) + 1) [ex_mint]) ex_signer).
  destruct (crash_at_first_block_panics true [] ex_play store_create p b None Hl) as (db' & ? & ?).
  - apply ex_block_play; [by apply (bool_decide_unpack (in_width 64 _))|].
    intros t Ht. apply list_elem_of_singleton in Ht as ->. by left.
  - reflexivity.
  - change (root (bstate b)) with (root_hash (p_tree p) + 1). lia.
  - by exists store_create, p, b, db'.
Defined.

