(* ===== verification/NodeSync.v ===== *)
(** Synchronisation of a node with its peers (pkg/node/src: sync.rs,
    node/snapshot.rs, the snapshot messages of network.rs).

    A node that is behind requests a range of blocks, accepts an offer and gets a
    chunk: blocks (slow), or the notes of a tree with the block they lead to
    (fast).  Sending is returning the message; waiting for a message with a
    timeout is the message being there or not. *)
From S2P Require Import Prelude Element MerkleHash HashCache SmirkBatch SmirkNode SmirkNodeSpec.
From S2P Require Import SmirkTree SmirkStorage Utxo BlockStore Crypto NodeBlock Mempool.
From S2P Require Import BlockCache NodeCommit.
From S2P Require Import Pagination.

(** * Messages (network.rs) *)

Inductive SnapshotKind := Slow | Fast.
#[export] Instance snapshot_kind_eq_dec : EqDecision SnapshotKind.
Proof. solve_decision. Defined.

Record SnapshotRequest := mk_request {
  sr_snapshot_id : Z; sr_from_height : Z; sr_to_height : Z; sr_kind : SnapshotKind;
}.
Record SnapshotAccept := mk_accept {
  sa_snapshot_id : Z; sa_from_height : Z; sa_to_height : Z; sa_kind : SnapshotKind;
}.
Inductive SnapshotChunk :=
| ChunkSlow (snapshot_id : Z) (chunk : list Block)
| ChunkFast (snapshot_id : Z) (block : option Block) (elements : list Element).
Definition chunk_snapshot_id (c : SnapshotChunk) : Z :=
  match c with ChunkSlow id _ => id | ChunkFast id _ _ => id end.

(** What the sync worker receives: [wait_for_out_of_sync] and the other waits
    skip every message that is not the one they wait for. *)
Inductive SyncMessage :=
| OutOfSync (max_seen_height : Z)
| MsgSnapshotOffer (peer snapshot_id : Z)
| MsgSnapshotChunk (peer : Z) (chunk : SnapshotChunk).

Inductive SyncError :=
| ChannelWasClosed
| SyncNode (e : NodeError)
| SyncSmirkCollision (e : CollisionError)
| SyncSmirkStorage (e : StorageError).

Fixpoint wait_for {A} (f : SyncMessage → option A) (channel : list SyncMessage)
  : outcome SyncError (A * list SyncMessage) :=
  match channel with
  | [] => Err ChannelWasClosed
  | msg :: channel => match f msg with Some a => Ok (a, channel) | None => wait_for f channel end
  end.
Definition wait_for_out_of_sync : list SyncMessage → outcome SyncError (Z * list SyncMessage) :=
  wait_for (λ m, match m with OutOfSync h => Some h | _ => None end).
Definition wait_for_snapshot_offer (id : Z) : list SyncMessage → outcome SyncError (Z * list SyncMessage) :=
  wait_for (λ m, match m with
    | MsgSnapshotOffer peer id' => if decide (id' = id) then Some peer else None | _ => None end).
Definition wait_for_snapshot_chunk (peer id : Z)
  : list SyncMessage → outcome SyncError (SnapshotChunk * list SyncMessage) :=
  wait_for (λ m, match m with
    | MsgSnapshotChunk p c => if decide (p = peer ∧ chunk_snapshot_id c = id) then Some c else None | _ => None end).

Definition is_prover (m : Mode) : bool := match m with ModeProver | ModeMockProver => true | _ => false end.

Record SyncConfig := mk_sync_config { chunk_size : Z; fast_sync_threshold : Z }.

Section sync.
Context `{FieldLib, CryptoLib}.
Context (temp_noir : bool) (proof_verify : UtxoProof → bool) (bad_blocks : list Z)
        (validators_for_height : Z → list (list Z)) (clock : Z → Z) (alive : Z → bool).
Implicit Types (node : NodeShared) (b : Block).
Notation follower_tick :=
  (follower_tick temp_noir proof_verify bad_blocks validators_for_height clock alive).

(** * The node that is behind *)

Definition node_is_out_of_sync {E} node : outcome E bool :=
  match cache_is_out_of_sync (block_cache node) with
  | Ok x => Ok x | Err e => match e with end | Panic m => Panic m
  end.

(** The request of [handle_out_of_sync], if one is sent; [contract_height] is
    what the rollup contract reports, [None] when it cannot be read. *)
Definition snapshot_request (cfg : SyncConfig) (contract_height : option Z) (max_seen_height id : Z) node
  : outcome SyncError (option SnapshotRequest) :=
  let? out := node_is_out_of_sync node in
  if negb out then Ok None
  else
    let from_height := wrap 64 (node_height node + 1) in
    let to_height := wrap 64 (from_height + chunk_size cfg) in
    let far_enough := bool_decide (wrap 64 (max_seen_height - node_height node) > fast_sync_threshold cfg) in
    let '(to_height, kind) :=
      if is_prover (n_mode node) && far_enough then
        match contract_height with
        | Some h => if decide (h > to_height) then (h, Fast) else (to_height, Slow)
        | None => (to_height, Slow)
        end
      else (to_height, Slow) in
    Ok (Some (mk_request id from_height to_height kind)).

(** The answer of [handle_snapshot_offer]. *)
Definition snapshot_accept (kind : SnapshotKind) (to_height id : Z) node : SnapshotAccept :=
  mk_accept id (wrap 64 (node_height node + 1)) to_height kind.

(** [sort_by_key] is stable. *)
Fixpoint insert_by_height b (l : list Block) : list Block :=
  match l with
  | [] => [b]
  | b' :: l' => if decide (bheight b ≤ bheight b') then b :: l else b' :: insert_by_height b l'
  end.
Definition sort_by_height (l : list Block) : list Block := foldr insert_by_height [] l.

(** The loop over the blocks of a chunk: each is received, then the tick worker
    is notified; [ticks] says whether it runs before the next block is received.
    A block that is refused is skipped. [None]: the fuel of a tick ran out. *)
Fixpoint receive_blocks (ticks : list bool) (chunk : list Block) node
  : option (NodeShared * outcome SyncError unit) :=
  match chunk with
  | [] => Some (node, Ok tt)
  | b :: chunk =>
      match receive_proposal node b with
      | (node, Panic m) => Some (node, Panic m)
      | (node, _) =>
          match ticks with
          | true :: ticks =>
              match follower_tick node with
              | Some (node, _) => receive_blocks ticks chunk node
              | None => None
              end
          | _ => receive_blocks (tail ticks) chunk node
          end
      end
  end.

(** [handle_snapshot_chunk_slow]; the result is the message the worker sends to
    itself while it is still behind. *)
Definition handle_snapshot_chunk_slow (ticks : list bool) (chunk : list Block) node
  : option (NodeShared * outcome SyncError (option SyncMessage)) :=
  match receive_blocks ticks (sort_by_height chunk) node with
  | None => None
  | Some (node, Ok _) =>
      Some (node, let? out := node_is_out_of_sync node in
                  Ok (if out : bool then Some (OutOfSync (node_max_height node)) else None))
  | Some (node, Err e) => Some (node, Err e)
  | Some (node, Panic m) => Some (node, Panic m)
  end.

(** * Fast synchronisation *)

(** What the last block does to each commitment: [true] adds, [false] removes. *)
Definition last_block_elements b : gmap Element bool :=
  foldl (λ m t,
    let m := foldl (λ m e, <[e := false]> m) m (inputs t) in
    foldl (λ m e, <[e := true]> m) m (outputs t)) ∅ (state_txns (bstate b)).

(** The loops over the elements that are new and that are missing; the second
    component is what is left to find of the last block. *)
Fixpoint fast_insertions (last : gmap Element bool) (l : list Element)
    (s : Batch SmirkMetadata * gmap Element bool) : outcome CollisionError (Batch SmirkMetadata * gmap Element bool) :=
  match l with
  | [] => Ok s
  | e :: l =>
      if decide (e = ZERO) then fast_insertions last l s
      else if decide (last !! e = Some true) then fast_insertions last l (s.1, delete e s.2)
      else let? batch := batch_insert MERKLE_TREE_DEPTH s.1 e (mk_smirk_metadata 0) in
           fast_insertions last l (batch, s.2)
  end.
Fixpoint fast_removals (last : gmap Element bool) (l : list Element)
    (s : Batch SmirkMetadata * gmap Element bool) : outcome CollisionError (Batch SmirkMetadata * gmap Element bool) :=
  match l with
  | [] => Ok s
  | e :: l =>
      if decide (e = ZERO) then fast_removals last l s
      else if decide (last !! e = Some false) then fast_removals last l (s.1, delete e s.2)
      else let? batch := batch_remove MERKLE_TREE_DEPTH s.1 e in
           fast_removals last l (batch, s.2)
  end.

Definition apply_fast_snapshot_chunk (p : PersistentMerkleTree) b (elements : list Element)
  : PersistentMerkleTree * outcome SyncError unit :=
  let last := last_block_elements b in
  let elements_set : gset Element := list_to_set elements in
  let tree_elements_set := dom (tree_entries (p_tree p)) in
  let new_elements := base.elements (elements_set ∖ tree_elements_set) in
  let missing_elements := base.elements (tree_elements_set ∖ elements_set) in
  let '(c, r) := root_hash_with MERKLE_TREE_DEPTH (p_tree p) new_elements missing_elements in
  let p := set_cache p c in
  match r with
  | Err e => match e with end
  | Panic m => (p, Panic m)
  | Ok new_root =>
      if decide (new_root ≠ root (bstate b)) then (p, Ok tt)
      else
        match fast_insertions last new_elements (batch_new, last) with
        | Err e => (p, Err (SyncSmirkCollision e))
        | Panic m => (p, Panic m)
        | Ok s =>
            match fast_removals last missing_elements s with
            | Err e => (p, Err (SyncSmirkCollision e))
            | Panic m => (p, Panic m)
            | Ok (batch, left_to_find) =>
                if decide (left_to_find ≠ ∅) then (p, Ok tt)
                else
                  let '(p, r) := persistent_insert_batch MERKLE_TREE_DEPTH temp_noir p batch in
                  (p, map_err SyncSmirkStorage r)
            end
        end
  end.

(** [handle_snapshot_chunk_fast]; the notified tick runs afterwards. *)
Definition handle_snapshot_chunk_fast (block : option Block) (elements : list Element) node
  : NodeShared * outcome SyncError unit :=
  match block with
  | None => (node, Ok tt)
  | Some b =>
      let '(t, r) := apply_fast_snapshot_chunk (notes_tree node) b elements in
      let node := with_tree node t in
      match r with
      | Ok _ =>
          let node := with_cache node (cache_confirm (block_cache node) (wrap 64 (bheight b - 1))) in
          let '(node, r) := receive_proposal node b in
          (node, map_err SyncNode r)
      | r => (node, r)
      end
  end.

(** * The peer that helps *)

(** Whether a request is answered with an offer. *)
Definition handle_snapshot_request (from_height : Z) node : outcome SyncError bool :=
  let? out := node_is_out_of_sync node in
  Ok (negb (out || bool_decide (from_height > node_height node))).

Definition send_snapshot_chunk_slow (id from_height to_height : Z) node : outcome SyncError SnapshotChunk :=
  let to_height := Z.min to_height (wrap 64 (node_height node + 1)) in
  let? stored := map_err (λ e, SyncNode (BlockStoreError e))
    (collect_results (store_list (block_store node) (Included from_height) (Excluded to_height) LowestToHighest)) in
  let? pending := get_range (block_cache node) from_height to_height in
  Ok (ChunkSlow id (((λ kb, into_block kb.2) <$> stored) ++ pending)).

Definition send_snapshot_chunk_fast (id to_height : Z) node : outcome SyncError SnapshotChunk :=
  let? block := map_err (λ e, SyncNode (BlockStoreError e)) (store_get (block_store node) to_height) in
  let elements :=
    omap (λ kv : Element * SmirkMetadata, if decide (inserted_in kv.2 ≤ to_height) then Some kv.1 else None)
      (map_to_list (tree_entries (p_tree (notes_tree node)))) in
  Ok (ChunkFast id (into_block <$> block) elements).

Definition handle_snapshot_accept (a : SnapshotAccept) node : outcome SyncError SnapshotChunk :=
  match sa_kind a with
  | Slow => send_snapshot_chunk_slow (sa_snapshot_id a) (sa_from_height a) (sa_to_height a) node
  | Fast => send_snapshot_chunk_fast (sa_snapshot_id a) (sa_to_height a) node
  end.

(** The end of a round: a chunk that arrived. *)
Definition handle_snapshot_chunk (ticks : list bool) (c : SnapshotChunk) node
  : option (NodeShared * outcome SyncError (option SyncMessage)) :=
  match c with
  | ChunkSlow _ chunk => handle_snapshot_chunk_slow ticks chunk node
  | ChunkFast _ block elements =>
      let '(node, r) := handle_snapshot_chunk_fast block elements node in
      Some (node, let? _ := r in Ok None)
  end.
End sync.
