(* ===== verification/NodeSyncProps.v ===== *)
(** Two nodes with the same chain judge blocks alike; a node that synchronises
    slowly follows its peer's chain; what goes wrong in a fast synchronisation. *)
From S2P Require Import Prelude Element MerkleHash HashCache SmirkBatch SmirkNode SmirkNodeSpec.
From S2P Require Import SmirkTree SmirkStorage Utxo BlockStore Crypto NodeBlock Mempool.
From S2P Require Import BlockCache NodeCommit NodeLedger NodeProps NodeSync.
From S2P Require Import Pagination.

Section sync_props.
Context `{FieldLib, CryptoLib, !CryptoLaws}.
Context (temp_noir : bool) (proof_verify : UtxoProof → bool) (bad_blocks : list Z).
Context (validators_for_height : Z → list (list Z)) (clock : Z → Z) (alive : Z → bool).
Context (play : Block → Prop) `{!InPlay play bad_blocks}.
Implicit Types (db : Store) (p : PersistentMerkleTree) (b : Block) (chain : list Block)
  (node : NodeShared).

Notation validate_block := (validate_block proof_verify bad_blocks validators_for_height).
Notation node_validate_block := (node_validate_block proof_verify bad_blocks validators_for_height).
Notation commit_proposal := (commit_proposal temp_noir clock alive).
Notation commit_loop := (commit_loop temp_noir proof_verify bad_blocks validators_for_height clock alive).
Notation follower_tick := (follower_tick temp_noir proof_verify bad_blocks validators_for_height clock alive).
Notation receive_blocks := (receive_blocks temp_noir proof_verify bad_blocks validators_for_height clock alive).
Notation handle_snapshot_chunk_slow :=
  (handle_snapshot_chunk_slow temp_noir proof_verify bad_blocks validators_for_height clock alive).
Notation ledger_inv := (ledger_inv play).
Notation node_inv := (node_inv play).

(** * The same chain, the same verdict *)

Section agree.
Context chain db p db' p' (Hl : ledger_inv chain db p) (Hl' : ledger_inv chain db' p').

Lemma agree_elems : elems p' = elems p.
Proof. by rewrite (li_elems _ _ _ _ Hl), (li_elems _ _ _ _ Hl'). Qed.

Lemma agree_contains e : contains_element (p_tree p') e = contains_element (p_tree p) e.
Proof.
  unfold contains_element. apply bool_decide_ext. rewrite <-!elem_of_dom. by rewrite agree_elems.
Qed.

Lemma agree_outputs es : Forall wf_element es → check_outputs db p es = Ok tt → check_outputs db' p' es = Ok tt.
Proof.
  induction 1 as [|e es He Hes IH]; [done|]. cbn [check_outputs]. rewrite agree_contains.
  case_decide; [done|]. case_decide; [done|]. destruct (contains_element (p_tree p) e); [done|].
  pose proof (proj1 (li_hist _ _ _ _ Hl e He)) as Ho. pose proof (proj1 (li_hist _ _ _ _ Hl' e He)) as Ho'.
  unfold get_element_history.
  destruct (history_total db e HistInput (li_store _ _ _ _ Hl) He) as [hi ->].
  destruct (history_total db' e HistInput (li_store _ _ _ _ Hl') He) as [hi' ->].
  destruct (history_total db e HistOutput (li_store _ _ _ _ Hl) He) as [ho Hho].
  destruct (history_total db' e HistOutput (li_store _ _ _ _ Hl') He) as [ho' Hho'].
  rewrite Hho, Hho' in *. cbn. destruct ho as [d|]; [done|]. intros Hr.
  assert (ho' = None) as -> by (assert (Ok (E := StoreError) ho' = Ok None) as [= ->]; [|done]; rewrite Ho'; by apply Ho).
  by apply IH.
Qed.

Lemma agree_inputs es : check_inputs p' es = check_inputs p es.
Proof. induction es as [|e es IH]; [done|]. cbn [check_inputs]. by rewrite agree_contains, IH. Qed.

Lemma agree_mint t : wf_utxo t → check_mint db t = Ok tt → check_mint db' t = Ok tt.
Proof.
  intros Ht. unfold check_mint. destruct (txn_mint_hash t) as [m|] eqn:Hm; [|done].
  pose proof (wf_mint t m Ht Hm) as Hw. pose proof (li_mint _ _ _ _ Hl m Hw) as Hi. pose proof (li_mint _ _ _ _ Hl' m Hw) as Hi'.
  destruct (mint_total db m (li_store _ _ _ _ Hl) Hw) as [d Hd]. destruct (mint_total db' m (li_store _ _ _ _ Hl') Hw) as [d' Hd'].
  rewrite Hd, Hd' in *. cbn. destruct d as [x|]; [done|]. intros _.
  assert (Ok (E := StoreError) d' = Ok None) as [= ->]; [rewrite Hi'; by apply Hi|done].
Qed.

Lemma agree_txn t : wf_utxo t →
  validate_txn proof_verify t db p = Ok tt → validate_txn proof_verify t db' p' = Ok tt.
Proof.
  intros Ht. unfold validate_txn. destruct (negb _); [done|].
  destruct (input_commitments _) as [i0 i1]. case_decide; [done|].
  destruct (output_commitments _) as [o0 o1]. case_decide; [done|].
  intros ([] & Ho & ([] & Hi & Hm)%outcome_bind_ok)%outcome_bind_ok.
  rewrite (agree_outputs (outputs t)), agree_inputs; [|..|done].
  - cbn [outcome_bind]. rewrite Hi. cbn [outcome_bind]. by apply agree_mint.
  - apply Forall_forall. intros e He. apply (wf_utxo_elems t e Ht), elem_of_app. by right.
Qed.

Lemma agree_content b : play b →
  (∃ p1, content_validate proof_verify (content b) db p = (p1, Ok tt)) →
  ∃ p1, content_validate proof_verify (content b) db' p' = (p1, Ok tt).
Proof.
  intros Hb [p1 Hv].
  destruct (content_validate_ok proof_verify temp_noir db p (content b) p1 (li_tree _ _ _ _ Hl)
    (ledger_collision_free _ _ _ _ _ b Hl Hb) Hv) as (_ & _ & _ & Hfit & Hr).
  eapply (content_validate_complete temp_noir proof_verify bad_blocks play chain db' p' b Hl' Hb).
  - unfold content_validate in Hv. fold (bstate b) in Hv.
    destruct (validate_txns _ _ _ _ _ _) as [r|?|?] eqn:E; [|done..]. apply validate_txns_each in E.
    pose proof (play_txns b Hb) as Hw. rewrite Forall_forall in *. intros t Hin. apply agree_txn; auto.
  - apply (cf_nodup _ _ _ Hfit).
  - unfold elems_after. by rewrite agree_elems.
Qed.

Lemma agree_block b : play b →
  (∃ p1, validate_block b db p = (p1, Ok tt)) → ∃ p1, validate_block b db' p' = (p1, Ok tt).
Proof.
  intros Hb. unfold NodeBlock.validate_block. rewrite !decide_False by apply (play_good b Hb).
  destruct (get_leader_for_block_height _ _) as [v|e|m]; [|naive_solver..].
  destruct (signature_verify _ _) as [[s|]|e|m]; [|naive_solver..].
  case_decide; [naive_solver|]. by apply agree_content.
Qed.
End agree.

(** Two nodes whose ledgers hold the same chain accept the same blocks: whether a
    block passes [validate_block] does not depend on how their databases, trees
    and hash caches came about. *)
Theorem same_chain_same_verdict chain db p db' p' b :
  ledger_inv chain db p → ledger_inv chain db' p' → play b →
  (∃ p1, validate_block b db p = (p1, Ok tt)) ↔ (∃ p1, validate_block b db' p' = (p1, Ok tt)).
Proof. intros Hl Hl' Hb. split; by apply (agree_block chain). Qed.

(** * Following a chain *)

(** A node that has committed the first [n] blocks of [cp] and caches nothing
    above them but blocks of [cp]. *)
Record follows (cp : list Block) (n : nat) node : Prop := {
  fo_inv : node_inv (take n cp) node;
  fo_len : (n ≤ length cp)%nat;
  fo_cache h b : get_by_height (block_cache node) h = Some b → Z.of_nat n < h →
    cp !! Z.to_nat (h - 1) = Some b;
}.

(** Every block of [cp] above [n] was accepted by a node with the blocks before it. *)
Definition accepted (cp : list Block) (n : nat) : Prop :=
  ∀ i b, cp !! i = Some b → (n ≤ i)%nat →
    play b ∧ bheight b = Z.of_nat i + 1 ∧
    ∃ db p p1, ledger_inv (take i cp) db p ∧ validate_block b db p = (p1, Ok tt).

Lemma accepted_mono cp n m : (n ≤ m)%nat → accepted cp n → accepted cp m.
Proof. intros Hnm Ha i b Hi Hm. apply (Ha i b Hi). lia. Qed.

Lemma confirm_blocks_sub (c : NodeCache) h : blocks (cache_confirm c h) ⊆ blocks c.
Proof.
  unfold cache_confirm. set (l := filter _ _). set (c1 := mk_cache _ _ _ _ _).
  change (blocks c) with (blocks c1). clearbody l c1. revert c1. induction l as [|k l IH]; intros c1; [done|].
  cbn [foldl]. etransitivity; [apply IH|]. unfold confirm_remove.
  destruct (block_hash_heights c1 !! k); [|done]. cbn. apply delete_subseteq.
Qed.

Lemma follows_height cp n node : follows cp n node → cache_height (block_cache node) = Z.of_nat n.
Proof. intros [[_ _ Hh] Hn _]. unfold node_height in Hh. rewrite Hh, length_take. lia. Qed.

(** The next block in the cache is the next block of the chain. *)
Lemma follows_next cp n node b :
  follows cp n node → get_next_commit_block (block_cache node) = Some b →
  cp !! n = Some b ∧ bheight b = Z.of_nat n + 1.
Proof.
  intros Hf Hb. destruct (next_block bad_blocks play node b (ni_cache _ _ _ (fo_inv _ _ _ Hf)) Hb) as (Hp & Hh & Hidx & Hblk).
  unfold node_height in Hh. rewrite (follows_height _ _ _ Hf) in Hh.
  assert (get_by_height (block_cache node) (bheight b) = Some b) as Hg.
  { unfold get_by_height. by rewrite Hidx. }
  apply (fo_cache _ _ _ Hf) in Hg; [|lia]. rewrite Hh in *. by replace (Z.to_nat _) with n in Hg by lia.
Qed.

(** One round of the commit loop. *)
Lemma follows_round cp n node b :
  follows cp n node → accepted cp n → get_next_commit_block (block_cache node) = Some b →
  ∃ t node', validate_block b (block_store node) (notes_tree node) = (t, Ok tt) ∧
    commit_proposal (with_cache (with_tree node t) (cache_confirm (block_cache node) (bheight b))) b = (node', Ok tt) ∧
    follows cp (S n) node' ∧ blocks (block_cache node') ⊆ blocks (block_cache node) ∧
    max_cache_size (block_cache node') = max_cache_size (block_cache node) ∧
    (size (block_hash_heights (block_cache node')) < size (block_hash_heights (block_cache node)))%nat ∧
    (∀ h, Z.of_nat n < h → is_Some (get_by_height (block_cache node) h) → is_Some (get_by_height (block_cache node') h)).
Proof.
  intros Hf Ha Hn. destruct (follows_next _ _ _ _ Hf Hn) as [Hcp Hbh].
  destruct (Ha n b Hcp (le_n _)) as (Hp & _ & db & p & p1 & Hl & Hv).
  destruct Hf as [Hinv Hlen Hc]. pose proof (ni_cache _ _ _ Hinv) as Hwf.
  destruct (agree_block (take n cp) db p (block_store node) (notes_tree node) Hl (ni_ledger _ _ _ Hinv) b Hp) as [t Ht];
    [by exists p1|].
  destruct (validate_block_keeps temp_noir proof_verify bad_blocks validators_for_height play _ _ _ _ _ _
    (ni_ledger _ _ _ Hinv) Hp Ht) as (_ & Hcv & _).
  pose proof (ni_height _ _ _ Hinv) as Hnh. unfold node_height in Hnh. rewrite length_take in Hnh.
  assert (is_Some (block_hash_heights (block_cache node) !! bheight b)) as Hsome.
  { destruct (next_block bad_blocks play node b Hwf Hn) as (_ & _ & Hidx & _). by eexists. }
  destruct (cache_confirm_spec bheight hash play (block_cache node) (bheight b) Hwf) as (Hwf' & Hch & _ & Hidx);
    [lia|done|].
  destruct (commit_block_inv temp_noir proof_verify bad_blocks validators_for_height clock alive play _ node b t Hinv Hn (Hcv eq_refl))
    as (node' & Hcm & Hinv' & Hlt).
  destruct (commit_proposal_ok temp_noir proof_verify bad_blocks clock alive play (take n cp)
    (with_cache (with_tree node t) (cache_confirm (block_cache node) (bheight b))) (notes_tree node) b)
    as (node'' & Hcm' & _ & Hcc & _); [apply Hinv|done|rewrite length_take; lia|by apply Hcv|].
  rewrite Hcm in Hcm'. injection Hcm' as <-. cbn [with_cache block_cache] in Hcc.
  exists t, node'. split_and!; [done|done| |..].
  - split.
    + by rewrite (take_S_r _ _ b).
    + apply lookup_lt_Some in Hcp. lia.
    + intros h x Hx Hh. rewrite Hcc in Hx. apply Hc; [|lia]. unfold get_by_height in *.
      apply bind_Some in Hx as (y & Hy & Hx). rewrite Hidx in Hy. case_decide; [done|]. rewrite Hy. cbn.
      eapply lookup_weaken; [done|apply confirm_blocks_sub].
  - rewrite Hcc. apply confirm_blocks_sub.
  - rewrite Hcc. apply cache_confirm_size.
  - done.
  - intros h Hh [x Hx]. rewrite Hcc. unfold get_by_height in *. apply bind_Some in Hx as (y & Hy & _).
    rewrite Hidx. destruct (decide (h < bheight b)); [lia|]. rewrite Hy. cbn.
    assert (block_hash_heights (cache_confirm (block_cache node) (bheight b)) !! h = Some y) as Hy'.
    { rewrite Hidx. by rewrite decide_False. }
    destruct (wc_index _ _ _ _ Hwf' h y Hy') as (b' & Hb' & _). by rewrite Hb'.
Qed.

(** A tick commits all blocks that are cached without a gap. *)
Lemma follows_tick cp n node fuel :
  follows cp n node → accepted cp n → (size (block_hash_heights (block_cache node)) < fuel)%nat →
  ∃ node' n', commit_loop fuel node = Some (node', Ok true) ∧ (n ≤ n')%nat ∧ follows cp n' node' ∧
    blocks (block_cache node') ⊆ blocks (block_cache node) ∧ n_mode node' = n_mode node ∧
    max_cache_size (block_cache node') = max_cache_size (block_cache node) ∧
    (∀ h, is_Some (get_by_height (block_cache node) h) → Z.of_nat n' < h → is_Some (get_by_height (block_cache node') h)) ∧
    get_by_height (block_cache node') (Z.of_nat n' + 1) = None.
Proof.
  revert n node. induction fuel as [|fuel IH]; intros n node Hf Ha Hfuel; [lia|].
  cbn [NodeCommit.commit_loop].
  destruct (get_next_commit_block (block_cache node)) as [b|] eqn:Hn; cycle 1.
  { exists node, n. split_and!; try done. unfold get_next_commit_block in Hn. rewrite (follows_height _ _ _ Hf) in Hn.
    pose proof (cache_height_width bad_blocks play node (ni_cache _ _ _ (fo_inv _ _ _ Hf))) as Hw.
    rewrite (follows_height _ _ _ Hf) in Hw. unfold in_width in Hw.
    destruct (decide (Z.of_nat n + 1 < 2 ^ 64)) as [Hlt|Hge]; [by rewrite wrap_small in Hn by (unfold in_width; lia)|].
    destruct (get_by_height (block_cache node) (Z.of_nat n + 1)) as [b|] eqn:Hg; [|done].
    pose proof (ni_cache _ _ _ (fo_inv _ _ _ Hf)) as Hwf.
    unfold get_by_height in Hg. apply bind_Some in Hg as (x & Hx & Hb).
    destruct (wc_index _ _ _ _ Hwf _ _ Hx) as (b' & Hb' & Hh & _).
    destruct (wc_blocks _ _ _ _ Hwf _ _ Hb') as [_ Hp]. pose proof (play_height b' Hp) as Hbw.
    unfold in_width in Hbw. lia. }
  destruct (follows_round cp n node b Hf Ha Hn) as (t & node1 & Hv & Hcm & Hf1 & Hsub & Hms & Hlt & Hkeep).
  unfold NodeCommit.node_validate_block. rewrite Hv. cbn [with_tree block_cache]. rewrite Hcm.
  destruct (IH (S n) node1 Hf1) as (node' & n' & -> & Hn' & Hf' & Hsub' & Hm' & Hms' & Hk' & Hend);
    [by apply (accepted_mono cp n); [lia|]|lia|].
  exists node', n'. split_and!; [done|lia|done|by etransitivity| |by rewrite Hms'| |done].
  - rewrite Hm'. unfold NodeCommit.commit_proposal in Hcm.
    destruct (negb _); [done|]. destruct (store_set _ _); [|done..].
    destruct (apply_block_to_tree _ _ _ _) as [t' [[]|e|m]]; [|done..]. by injection Hcm as <-.
  - intros h Hh Hlt'. apply Hk'; [apply Hkeep; [lia|done]|done].
Qed.

(** A block of the chain is received: it is cached, unless it is already behind. *)
Lemma follows_receive cp n node b i :
  follows cp n node → n_mode node ≠ ModeValidator → cp !! i = Some b → play b → bheight b = Z.of_nat i + 1 →
  (size (blocks (block_cache node)) < max_cache_size (block_cache node))%nat →
  ∃ node', receive_proposal node b = (node', Ok tt) ∧ follows cp n node' ∧ n_mode node' = n_mode node ∧
    (size (blocks (block_cache node')) ≤ S (size (blocks (block_cache node))))%nat ∧
    max_cache_size (block_cache node') = max_cache_size (block_cache node) ∧
    (∀ h, is_Some (get_by_height (block_cache node) h) → is_Some (get_by_height (block_cache node') h)) ∧
    (bheight b ≤ Z.of_nat n ∨ get_by_height (block_cache node') (bheight b) = Some b).
Proof.
  intros Hf Hm Hi Hp Hb Hsz. unfold receive_proposal. rewrite decide_False by done.
  pose proof (follows_height _ _ _ Hf) as Hch. destruct Hf as [[Hl Hwf Hnh] Hlen Hc].
  set (c := block_cache node) in *. eexists. split; [done|]. cbn [with_mempool with_cache n_mode block_cache].
  pose proof (cache_insert_wf bheight hash play (play_hash (InPlay := InPlay0)) c b Hwf Hp) as Hwf'.
  assert (cache_insert bheight hash c b = c ∧ bheight b < cache_height c ∨
    cache_insert bheight hash c b = mk_cache (cache_height c) (Z.max (cache_max_height c) (bheight b))
      (<[hash b := b]> (blocks c)) (<[bheight b := hash b]> (block_hash_heights c)) (max_cache_size c)) as Hins.
  { unfold cache_insert. case_decide; [by left|right]. cbn zeta. cbn [blocks max_cache_size].
    rewrite (bool_decide_eq_false_2 (max_cache_size c ≤ _)%nat) by lia. cbn [andb].
    by destruct (default _ _). }
  assert (∀ h x, block_hash_heights c !! h = Some x → h ≠ bheight b → x ≠ hash b) as Hother.
  { intros h x Hx Hne ->. destruct (wc_index _ _ _ _ Hwf h _ Hx) as (b' & Hb' & Hh & _).
    destruct (wc_blocks _ _ _ _ Hwf _ _ Hb') as [Heq Hp']. apply Hne. rewrite <-Hh.
    symmetry. by apply (play_hash b b'). }
  destruct Hins as [[-> Hlow]|Hins].
  { assert (follows cp n (with_mempool (with_cache node c) (lease_txns (mempool node) (bheight b)
      (txn_hash <$> state_txns (bstate b)), []))) as Hfo by (split; [by split|done|done]).
    split_and!; try done; [lia|]. left. lia. }
  rewrite Hins in *. split_and!; try done.
  - split; [split; [done|done|]|done|].
    + by unfold node_height in *.
    + cbn [block_cache with_mempool with_cache]. intros h x Hx Hh. unfold get_by_height in Hx. cbn in Hx.
      apply bind_Some in Hx as (y & [[<- <-]|[Hne Hy]]%lookup_insert_Some & Hx).
      * rewrite lookup_insert_eq in Hx. simplify_eq. rewrite <-Hi. f_equal. lia.
      * rewrite lookup_insert_ne in Hx by (symmetry; by apply (Hother h)). apply Hc; [|done].
        unfold get_by_height. fold c. rewrite Hy. done.
  - cbn. apply size_insert_le.
  - intros h [x Hx]. unfold get_by_height in *. cbn. apply bind_Some in Hx as (y & Hy & Hx).
    destruct (decide (h = bheight b)) as [->|Hne].
    + rewrite lookup_insert_eq. cbn. rewrite lookup_insert_eq. eauto.
    + rewrite lookup_insert_ne by done. rewrite Hy. cbn.
      rewrite lookup_insert_ne by (symmetry; by apply (Hother h)). eauto.
  - right. unfold get_by_height. cbn. rewrite lookup_insert_eq. cbn. by rewrite lookup_insert_eq.
Qed.

(** The blocks of a chunk, whenever the ticks run. *)
Lemma follows_chunk cp n ticks chunk node :
  follows cp n node → n_mode node ≠ ModeValidator → accepted cp n →
  (∀ b, b ∈ chunk → ∃ i, cp !! i = Some b ∧ play b ∧ bheight b = Z.of_nat i + 1) →
  (size (blocks (block_cache node)) + length chunk ≤ max_cache_size (block_cache node))%nat →
  ∃ node' n', receive_blocks ticks chunk node = Some (node', Ok tt) ∧ (n ≤ n')%nat ∧ follows cp n' node' ∧
    (∀ h, is_Some (get_by_height (block_cache node) h) → Z.of_nat n' < h → is_Some (get_by_height (block_cache node') h)) ∧
    (∀ b, b ∈ chunk → bheight b ≤ Z.of_nat n' ∨ is_Some (get_by_height (block_cache node') (bheight b))).
Proof.
  revert n ticks node. induction chunk as [|b chunk IH]; intros n ticks node Hf Hm Ha Hch Hsz; cbn [NodeSync.receive_blocks].
  { exists node, n. split_and!; try done. by intros b ?%elem_of_nil. }
  destruct (Hch b) as (i & Hi & Hp & Hb); [by left|]. cbn [length] in Hsz.
  destruct (follows_receive cp n node b i Hf Hm Hi Hp Hb) as (node1 & -> & Hf1 & Hm1 & Hs1 & Hms1 & Hk1 & Hb1); [lia|].
  assert (∃ node2 n2, (match ticks with
      | true :: ticks => match follower_tick node1 with Some (node, _) => receive_blocks ticks chunk node | None => None end
      | _ => receive_blocks (tail ticks) chunk node1 end) = receive_blocks (tail ticks) chunk node2 ∧
      (n ≤ n2)%nat ∧ follows cp n2 node2 ∧ n_mode node2 = n_mode node ∧
      (size (blocks (block_cache node2)) ≤ size (blocks (block_cache node1)))%nat ∧
      max_cache_size (block_cache node2) = max_cache_size (block_cache node) ∧
      (∀ h, is_Some (get_by_height (block_cache node1) h) → Z.of_nat n2 < h → is_Some (get_by_height (block_cache node2) h)))
    as (node2 & n2 & Hrun & Hn2 & Hf2 & Hm2 & Hs2 & Hms2 & Hk2).
  { destruct ticks as [|[] ticks]; [exists node1, n; split_and!; done || congruence| |exists node1, n; split_and!; done || congruence].
    destruct (follows_tick cp n node1 (S (size (block_hash_heights (block_cache node1)))) Hf1 Ha (Nat.lt_succ_diag_r _))
      as (node2 & n2 & Ht & Hn2 & Hf2 & Hsub & Hm2 & Hms2 & Hk2 & _).
    exists node2, n2. unfold NodeCommit.follower_tick. rewrite Ht. cbn [tail]. split_and!; try done; try congruence.
    by apply map_subseteq_size. }
  rewrite Hrun. destruct (IH n2 (tail ticks) node2 Hf2) as (node' & n' & -> & Hn' & Hf' & Hk' & Hall).
  - congruence.
  - by apply (accepted_mono cp n).
  - intros b' Hb'. apply Hch. by right.
  - lia.
  - exists node', n'. split_and!; [done|lia|done| |].
    + intros h Hh Hlt. apply Hk'; [|done]. apply Hk2; [by apply Hk1|lia].
    + intros b' [->|Hb']%elem_of_cons; [|by apply Hall].
      destruct (decide (bheight b ≤ Z.of_nat n')) as [|Hgt]; [by left|right].
      destruct Hb1 as [?|Hb1]; [lia|]. apply Hk'; [|lia]. apply Hk2; [by rewrite Hb1|lia].
Qed.

(** * What the peer sends *)

Lemma collect_ok {A} (l : list A) : collect_results (Ok <$> l) = Ok l.
Proof. induction l as [|x l IH]; [done|]. csimpl. cbn. by rewrite IH. Qed.

Lemma nodup_bounded (l : list Z) lo hi : lo ≤ hi → NoDup l → (∀ x, x ∈ l → lo ≤ x < hi) → Z.of_nat (length l) ≤ hi - lo.
Proof.
  intros Hab Hnd Hin. assert (l ⊆+ seqZ lo (hi - lo)) as Hs.
  { apply NoDup_submseteq; [done|]. intros x Hx. apply elem_of_seqZ. specialize (Hin x Hx). lia. }
  apply submseteq_length in Hs. rewrite length_seqZ in Hs. lia.
Qed.

Lemma omap_length {A B} (f : A → option B) l : (length (omap f l) ≤ length l)%nat.
Proof. induction l as [|x l IH]; csimpl; [done|]. destruct (f x); csimpl; lia. Qed.

Lemma sorted_lt_nodup l : StronglySorted Z.lt l → NoDup l.
Proof.
  induction 1 as [|x l Hs IH Hall]; constructor; [|done]. rewrite Forall_forall in Hall.
  intros Hin. specialize (Hall x Hin). lia.
Qed.

Section peer.
Context (cp : list Block) (peer : NodeShared) (Hpeer : node_inv cp peer).
(** No other block at its height has displaced the last block in the peer's cache. *)
Context (Htip : cp = [] ∨ get_by_height (block_cache peer) (node_height peer) = last cp).
Context (from to : Z) (Hfrom : 1 ≤ from ≤ Z.of_nat (length cp) + 1) (Hto : from ≤ to).

Let to' := Z.min to (wrap 64 (node_height peer + 1)).

Context (Hu64 : Z.of_nat (length cp) < 2 ^ 64 - 1).

Lemma chain_below_u64 : wrap 64 (node_height peer + 1) = Z.of_nat (length cp) + 1.
Proof. rewrite (ni_height _ _ _ Hpeer). apply wrap_small. unfold in_width. lia. Qed.

Lemma to_bound : to' = Z.min to (Z.of_nat (length cp) + 1).
Proof. unfold to'. by rewrite chain_below_u64. Qed.

(** The pending blocks: at most the one at the peer's height. *)
Lemma pending_spec : ∃ pending, get_range (E := SyncError) (block_cache peer) from to' = Ok pending ∧
  (length pending ≤ 1)%nat ∧ ∀ b, b ∈ pending → last cp = Some b.
Proof.
  unfold get_range. rewrite decide_False by (rewrite to_bound; lia). eexists. split; [done|].
  pose proof (ni_cache _ _ _ Hpeer) as Hwf. pose proof (ni_height _ _ _ Hpeer) as Hh. unfold node_height in Hh.
  set (l := filter _ (btree_iter _)).
  assert (∀ kx, kx ∈ l → kx.1 = Z.of_nat (length cp) ∧ block_hash_heights (block_cache peer) !! kx.1 = Some kx.2) as Hl.
  { intros [k x] [Hr Hin%elem_btree_iter]%list_elem_of_filter. cbn in *. split; [|done].
    destruct (wc_index _ _ _ _ Hwf k x Hin) as (_ & _ & _ & Hb). rewrite to_bound in Hr. lia. }
  split.
  - etransitivity; [apply omap_length|]. assert (NoDup l.*1) as Hnd.
    { unfold l. pose proof (btree_iter_nodup (block_hash_heights (block_cache peer))) as Hn. revert Hn.
      generalize (btree_iter (block_hash_heights (block_cache peer))). clear. intros l.
      induction l as [|x l IH]; csimpl; [done|]. intros [Hx Hn]%NoDup_cons. rewrite filter_cons. case_decide; [|by apply IH].
      csimpl. constructor; [|by apply IH]. intros (y & Heq & [_ Hy]%list_elem_of_filter)%list_elem_of_fmap.
      apply Hx. rewrite Heq. by apply list_elem_of_fmap_2. }
    destruct l as [|x [|y l']]; cbn; [lia|lia|]. exfalso. csimpl in Hnd. apply NoDup_cons in Hnd as [Hx _].
    apply Hx. destruct (Hl x) as [-> _]; [by left|]. destruct (Hl y) as [-> _]; [right; by left|]. by left.
  - intros b (kx & Hkx & Hb)%list_elem_of_omap. destruct (Hl kx Hkx) as [Hk Hidx].
    apply list_elem_of_filter in Hkx as [Hr _]. rewrite to_bound in Hr.
    destruct Htip as [->|Ht]; [cbn in *; lia|]. rewrite <-Ht. unfold get_by_height, node_height. rewrite Hh, <-Hk, Hidx.
    done.
Qed.

(** A chunk holds exactly the blocks of the peer's chain in the range. *)
Lemma chunk_spec id :
  ∃ chunk, send_snapshot_chunk_slow id from to peer = Ok (ChunkSlow id chunk) ∧
    Z.of_nat (length chunk) ≤ Z.min to (Z.of_nat (length cp) + 1) - from + 1 ∧
    (∀ b, b ∈ chunk → ∃ i, cp !! i = Some b) ∧
    (∀ i b, cp !! i = Some b → from ≤ Z.of_nat i + 1 < to → b ∈ chunk).
Proof.
  unfold send_snapshot_chunk_slow. fold to'. pose proof (ni_ledger _ _ _ Hpeer) as Hl.
  destruct (store_list_spec (block_store peer) (Included from) (Excluded to') LowestToHighest (li_store _ _ _ _ Hl))
    as (l & -> & Hsort & Hspec); [rewrite ?to_bound; cbn; unfold in_width; lia..|].
  cbn [order_list is_indexed_order]. rewrite collect_ok. cbn [map_err outcome_bind].
  destruct pending_spec as (pending & -> & Hlen & Hpend). cbn [outcome_bind]. eexists. split; [done|].
  assert (∀ h f, (h, f) ∈ l ↔ ∃ i b, cp !! i = Some b ∧ h = Z.of_nat i + 1 ∧ store_get (block_store peer) h = Ok (Some f) ∧
    into_block f = b ∧ from ≤ h < to') as Hmem.
  { intros h f. rewrite Hspec. cbn. split.
    - intros (Hw & Hg & Ha & Hb). destruct (decide (1 ≤ h ≤ Z.of_nat (length cp))) as [Hr|Hr].
      + destruct (lookup_lt_is_Some_2 cp (Z.to_nat (h - 1))) as [b Hi]; [lia|].
        pose proof (li_heights _ _ _ _ Hl _ _ Hi) as Hbh. destruct (li_get _ _ _ _ Hl _ _ Hi) as (f' & Hf' & Hfb).
        exists (Z.to_nat (h - 1)), b. assert (bheight b = h) as Heq by lia. rewrite Heq in Hf'.
        split_and!; [done|lia|done| |lia|lia]. congruence.
      + rewrite (li_absent _ _ _ _ Hl h Hw Hr) in Hg. done.
    - intros (i & b & Hi & -> & Hg & _ & Hr). apply lookup_lt_Some in Hi as Hlt. rewrite to_bound in Hr |- *. split_and!; try done; unfold in_width; lia. }
  split_and!.
  - rewrite length_app, length_fmap. pose proof (nodup_bounded l.*1 from to') as Hb. rewrite length_fmap in Hb.
    rewrite to_bound in Hb. rewrite Nat2Z.inj_add. cut (Z.of_nat (length l) ≤ Z.min to (Z.of_nat (length cp) + 1) - from); [lia|].
    apply Hb; [lia|by apply sorted_lt_nodup|].
    intros x ([h f] & -> & (i & b & _ & _ & _ & _ & Hr)%Hmem)%list_elem_of_fmap. cbn. by rewrite to_bound in Hr.
  - intros b [([h f] & -> & (i & b' & Hi & _ & _ & <- & _)%Hmem)%list_elem_of_fmap|Hb]%elem_of_app; [by exists i|].
    apply Hpend in Hb. rewrite last_lookup in Hb. eauto.
  - intros i b Hi Hr. apply elem_of_app. left. destruct (li_get _ _ _ _ Hl i b Hi) as (f & Hf & Hfb).
    apply list_elem_of_fmap. exists (bheight b, f). split; [done|]. apply Hmem. exists i, b.
    pose proof (li_heights _ _ _ _ Hl _ _ Hi). apply lookup_lt_Some in Hi as Hlt. rewrite to_bound. split_and!; try done; lia.
Qed.
End peer.

Lemma insert_by_height_perm b l : insert_by_height b l ≡ₚ b :: l.
Proof.
  induction l as [|x l IH]; cbn; [done|]. case_decide; [done|]. rewrite IH. apply Permutation_swap.
Qed.
Lemma sort_by_height_perm l : sort_by_height l ≡ₚ l.
Proof. induction l as [|b l IH]; [done|]. cbn. by rewrite insert_by_height_perm, IH. Qed.

Lemma wf_cache_in_sync {E} node : wf_cache bheight hash play (block_cache node) →
  ∃ x, node_is_out_of_sync (E := E) node = Ok x.
Proof.
  intros Hwf. unfold node_is_out_of_sync, cache_is_out_of_sync.
  destruct (last (btree_iter _)) as [[k x]|] eqn:Hl; [case_decide; eauto|].
  apply btree_last_none in Hl. destruct (wc_confirmed _ _ _ _ Hwf) as [y Hy]. by rewrite Hl in Hy.
Qed.


End sync_props.

(** * Fast synchronisation *)

Section fast_props.
Context `{FieldLib, CryptoLib} (temp_noir : bool).
Implicit Types (b : Block) (node : NodeShared).

Lemma fast_insertions_keep_zero last l s s' :
  fast_insertions last l s = Ok s' → s'.2 !! ZERO = s.2 !! ZERO.
Proof.
  revert s. induction l as [|e l IH]; intros s; cbn [fast_insertions]; [by intros [= ->]|].
  case_decide as Hz; [apply IH|]. case_decide.
  - intros Hr. rewrite (IH _ Hr). cbn. by rewrite lookup_delete_ne.
  - intros (b & _ & Hr)%outcome_bind_ok. by rewrite (IH _ Hr).
Qed.
Lemma fast_removals_keep_zero last l s s' :
  fast_removals last l s = Ok s' → s'.2 !! ZERO = s.2 !! ZERO.
Proof.
  revert s. induction l as [|e l IH]; intros s; cbn [fast_removals]; [by intros [= ->]|].
  case_decide as Hz; [apply IH|]. case_decide.
  - intros Hr. rewrite (IH _ Hr). cbn. by rewrite lookup_delete_ne.
  - intros (b & _ & Hr)%outcome_bind_ok. by rewrite (IH _ Hr).
Qed.

Lemma last_block_elements_in b e :
  e ∈ (state_txns (bstate b) ≫= λ t, inputs t ++ outputs t) → is_Some (last_block_elements b !! e).
Proof.
  unfold last_block_elements. generalize (state_txns (bstate b)).
  assert (∀ v l (m : gmap Element bool), is_Some (m !! e) ∨ e ∈ l → is_Some (foldl (λ m e, <[e := v]> m) m l !! e)) as Hf.
  { intros v l. induction l as [|x l IH]; intros m; cbn [foldl]; [intros [?|?%elem_of_nil]; done|].
    intros Hin. apply IH. rewrite elem_of_cons in Hin. destruct (decide (e = x)) as [->|].
    - left. rewrite lookup_insert_eq. eauto.
    - rewrite lookup_insert_ne by done. naive_solver. }
  intros l. assert (∀ m : gmap Element bool, is_Some (m !! e) ∨ e ∈ (l ≫= λ t, inputs t ++ outputs t) →
    is_Some (foldl (λ m t, foldl (λ m e, <[e := true]> m) (foldl (λ m e, <[e := false]> m) m (inputs t)) (outputs t)) m l !! e)) as Hg.
  { induction l as [|t l IH]; intros m; [intros [?|?%elem_of_nil]; done|]. rewrite bind_cons, !elem_of_app.
    intros Hin. cbn [foldl]. apply IH.
    destruct Hin as [?|[[?|?]|?]]; [left; apply Hf; left; apply Hf; by left|left; apply Hf; left; apply Hf; by right
      |left; apply Hf; by right|by right]. }
  intros Hin. apply Hg. by right.
Qed.

(** What a chunk that is not applied leaves: the tree's entries. *)
Lemma fast_apply_rejected p b elements p' r :
  ZERO ∈ (state_txns (bstate b) ≫= λ t, inputs t ++ outputs t) →
  apply_fast_snapshot_chunk temp_noir p b elements = (p', r) →
  tree_entries (p_tree p') = tree_entries (p_tree p).
Proof.
  intros Hz%last_block_elements_in. unfold apply_fast_snapshot_chunk.
  destruct (root_hash_with _ _ _ _) as [c [x|[]|m]]; [|by intros [= <- _]].
  case_decide; [by intros [= <- _]|].
  destruct (fast_insertions _ _ _) as [s|e|m] eqn:Hi; [|by intros [= <- _]..].
  destruct (fast_removals _ _ _) as [[batch left]|e|m] eqn:Hr; [|by intros [= <- _]..].
  apply fast_insertions_keep_zero in Hi. apply fast_removals_keep_zero in Hr. cbn in Hi, Hr.
  rewrite decide_True; [by intros [= <- _]|]. intros ->. rewrite lookup_empty in Hr.
  rewrite <-Hr in Hi. rewrite <-Hi in Hz. by destruct Hz.
Qed.

(** A block with a transaction that leaves a commitment unused is never applied
    by a fast synchronisation, whatever notes come with it: the unused commitment,
    zero, stays among those left to find, so the tree keeps its notes.  The
    worker then still confirms the height below the block, which it does not
    have: the node reports that height with the notes and blocks of the old one. *)
Theorem padded_block_not_fast_synced b elements node node' :
  ZERO ∈ (state_txns (bstate b) ≫= λ t, inputs t ++ outputs t) →
  handle_snapshot_chunk_fast temp_noir (Some b) elements node = (node', Ok tt) →
  tree_entries (p_tree (notes_tree node')) = tree_entries (p_tree (notes_tree node)) ∧
  block_store node' = block_store node ∧ node_height node' = wrap 64 (bheight b - 1).
Proof.
  intros Hz. unfold handle_snapshot_chunk_fast.
  destruct (apply_fast_snapshot_chunk _ _ _ _) as [t [[]|e|m]] eqn:Ha; [|done..].
  apply fast_apply_rejected in Ha; [|done]. unfold receive_proposal. case_decide; [done|]. intros [= <-].
  cbn [with_mempool with_cache with_tree notes_tree block_store n_mode]. split_and!; [done|done|].
  unfold node_height. cbn [block_cache with_mempool with_cache]. rewrite cache_insert_height.
  unfold cache_confirm. set (l := filter _ _). set (c1 := mk_cache _ _ _ _ _).
  change (cache_height (foldl confirm_remove c1 l) = cache_height c1). clearbody l c1. revert c1.
  induction l as [|k l IH]; intros c1; [done|]. cbn [foldl]. rewrite IH. unfold confirm_remove.
  by destruct (block_hash_heights c1 !! k).
Qed.

(** A request for a range that ends before it starts panics the node that
    answers it, as the cache is asked for an empty range upside down. *)
Theorem inverted_range_panics id from to node :
  in_width 64 from → wf_store (block_store node) → 0 ≤ to →
  Z.min to (wrap 64 (node_height node + 1)) < from →
  handle_snapshot_accept (mk_accept id from to Slow) node =
    Panic "range start is greater than range end in BTreeMap".
Proof.
  intros Hw Hs Hto Hlt. unfold handle_snapshot_accept. cbn [sa_kind sa_snapshot_id sa_from_height sa_to_height].
  unfold send_snapshot_chunk_slow. set (to' := Z.min _ _) in *.
  assert (0 ≤ to' < 2 ^ 64).
  { unfold to' in *. pose proof (Z.mod_pos_bound (node_height node + 1) (2 ^ 64)). unfold in_width, wrap in *. lia. }
  destruct (store_list_spec (block_store node) (Included from) (Excluded to') LowestToHighest Hs)
    as (l & -> & _ & _); [done|done|].
  cbn [order_list is_indexed_order]. rewrite collect_ok. cbn [map_err outcome_bind].
  unfold get_range. by rewrite decide_True.
Qed.
End fast_props.
