(* ===== verification/NodeSyncWitness.v ===== *)
(** A peer with one block and a follower at the genesis: the hypotheses of the
    theorems of NodeSyncProps.v hold. *)
From S2P Require Import Prelude Element MerkleHash HashCache SmirkBatch SmirkNode SmirkNodeSpec.
From S2P Require Import SmirkTree SmirkStorage Utxo BlockStore Crypto NodeBlock Mempool.
From S2P Require Import BlockCache NodeCommit NodeLedger NodeProps NodeProducer NodeWitness.
From S2P Require Import NodeSync NodeSyncProps.

Lemma same_chain_same_verdict_witness :
  ∃ db p p1, ledger_inv ex_play [] db p ∧
    validate_block ex_verify [] ex_validators (ex_block p 1 [ex_mint]) db p = (p1, Ok tt).
Proof.
  destruct (ledger_genesis true ex_play) as (p & _ & Hl).
  destruct (ex_validates _ p 1 Hl) as [Hp (p1 & _ & Hv)]; [by apply (bool_decide_unpack (in_width 64 _))|].
  destruct (proj1 (same_chain_same_verdict true ex_verify [] ex_validators ex_play [] store_create p store_create p
    (ex_block p 1 [ex_mint]) Hl Hl Hp)) as [p2 Hp2]; [by exists p1|].
  by exists store_create, p, p2.
Defined.

(** The peer committed the block; its cache holds that block only. *)
Lemma ex_peer node :
  node_inv ex_play [] node →
  ∃ peer, node_inv ex_play [ex_block (notes_tree node) 1 [ex_mint]] peer ∧
    get_by_height (block_cache peer) (node_height peer) = Some (ex_block (notes_tree node) 1 [ex_mint]).
Proof.
  intros Hi. destruct (ex_validates _ (notes_tree node) 1 (ni_ledger _ _ _ Hi)) as [Hp (p1 & Hv & _)];
    [by apply (bool_decide_unpack (in_width 64 _))|].
  set (b := ex_block _ _ _) in *.
  destruct (commit_proposal_ok true ex_verify [] ex_clock ex_alive ex_play [] (with_cache (with_tree node p1) (cache_of b))
    (notes_tree node) b (ni_ledger _ _ _ Hi) Hp eq_refl Hv) as (peer & _ & Hl & Hc & _).
  exists peer. cbn [with_cache block_cache] in Hc. split.
  - split; [done| |by unfold node_height; rewrite Hc].
    rewrite Hc, <-cache_new_of. by apply cache_new_wf; [lia|].
  - unfold node_height, get_by_height. rewrite Hc. unfold cache_of. cbn [cache_height block_hash_heights blocks].
    rewrite lookup_singleton_eq. cbn. by rewrite lookup_singleton_eq.
Qed.

Lemma ex_follows node b :
  node_inv ex_play [] node → block_cache node = cache_of block_genesis → follows ex_play [b] 0 node.
Proof.
  intros Hi Hc. split; [done|cbn; lia|]. intros h x Hx Hh. exfalso. rewrite Hc in Hx.
  unfold get_by_height, cache_of in Hx. cbn [block_hash_heights] in Hx.
  rewrite lookup_singleton_ne in Hx; [done|]. change (bheight block_genesis) with 0. lia.
Qed.


Lemma inverted_range_panics_witness :
  ∃ node, handle_snapshot_accept (mk_accept 9 5 3 Slow) node =
    Panic "range start is greater than range end in BTreeMap".
Proof.
  destruct (ex_started ModeNode) as (node & _ & Hi & _). exists node.
  apply inverted_range_panics.
  - by apply (bool_decide_unpack (in_width 64 _)).
  - apply (li_store _ _ _ _ (ni_ledger _ _ _ Hi)).
  - lia.
  - lia.
Defined.

(** A chunk without changes is compared with the block and not applied. *)
Lemma fast_chunk_rejected_ok b node :
  node_inv ex_play [] node → n_mode node = ModeNode →
  ZERO ∈ (state_txns (bstate b) ≫= λ t, inputs t ++ outputs t) →
  ∃ node', handle_snapshot_chunk_fast true (Some b) [] node = (node', Ok tt).
Proof.
  intros Hi Hm Hz%last_block_elements_in. unfold handle_snapshot_chunk_fast.
  assert (∃ t, apply_fast_snapshot_chunk true (notes_tree node) b [] = (t, Ok tt)) as [t ->].
  { unfold apply_fast_snapshot_chunk. cbv zeta.
    assert (dom (tree_entries (p_tree (notes_tree node))) = (∅ : gset Element)) as ->
      by (apply (li_elems _ _ _ _ (ni_ledger _ _ _ Hi))).
    replace (base.elements _) with (@nil Element) by (symmetry; apply elements_empty_iff; set_solver).
    replace (base.elements _) with (@nil Element) by (symmetry; apply elements_empty_iff; set_solver).
    destruct (root_hash_with_ok MERKLE_TREE_DEPTH true (p_tree (notes_tree node)) batch_new
      (wp_tree _ _ (li_tree _ _ _ _ (ni_ledger _ _ _ Hi)))) as (c & Hc & _).
    { split; [apply batch_new_wf|intros ? []%elem_of_nil|intros ? ? []%elem_of_nil|intros ? []%elem_of_nil]. }
    change (insert_elements _) with (@nil Element) in Hc. change (remove_elements _) with (@nil Element) in Hc.
    rewrite Hc. case_decide; [eauto|]. cbn [fast_insertions fast_removals]. rewrite decide_True; [eauto|].
    intros Heq. rewrite Heq, lookup_empty in Hz. by destruct Hz. }
  unfold receive_proposal. cbn [with_tree with_cache n_mode]. rewrite Hm, decide_False by done. eauto.
Qed.

(** A follower that gets the block of the mint, whose inputs are unused, with
    exactly the notes it has already. *)
Lemma padded_block_not_fast_synced_witness :
  ∃ node node' b, n_mode node = ModeNode ∧ bheight b = 5 ∧
    handle_snapshot_chunk_fast true (Some b) [] node = (node', Ok tt) ∧
    node_height node = 0 ∧ node_height node' = 4 ∧ block_store node' = block_store node.
Proof.
  destruct (ex_started ModeNode) as (node & _ & Hi & _ & Hc & _ & Hm).
  set (b := ex_block (notes_tree node) 5 [ex_mint]).
  assert (ZERO ∈ (state_txns (bstate b) ≫= λ t, inputs t ++ outputs t)) as Hz.
  { apply (bool_decide_unpack (ZERO ∈ ([ex_mint] ≫= λ t, inputs t ++ outputs t))). by vm_compute. }
  destruct (fast_chunk_rejected_ok b node Hi Hm Hz) as [node' Hok].
  exists node, node', b. destruct (padded_block_not_fast_synced true b [] node node' Hz Hok) as (_ & Hs & Hh).
  split_and!; [done|done|done|by rewrite (ni_height _ _ _ Hi)|done|done].
Defined.
