(* ===== verification/RpcTxns.v ===== *)
(** The listing of transactions over RPC (pkg/node/src: rpc/routes/txn.rs and
    the reads of node.rs it uses).

    The clock is the parameter [now], the reading taken for a transaction of a
    block; [polled] says what a waiting request gets: the node at the time the
    commit stream yields a block with transactions, or nothing within the 50
    seconds. *)
From S2P Require Import Prelude Pagination Element MerkleHash HashCache SmirkBatch SmirkNode.
From S2P Require Import SmirkNodeSpec SmirkTree SmirkStorage Utxo BlockStore Crypto NodeBlock.
From S2P Require Import Mempool BlockCache NodeCommit NodeLedger NodeProps.

(** * Data *)

Record TxnWithInfo := mk_txn_info {
  ti_proof : UtxoProof;
  ti_index_in_block : Z;
  ti_hash : Element;
  ti_block_height : Z;
  ti_time : Z;
}.

Record ListTxnsPosition := mk_pos { pos_block : Z; pos_txn : Z }.
#[export] Instance position_eq_dec : EqDecision ListTxnsPosition.
Proof. solve_decision. Defined.

Inductive ListTxnOrder := NewestToOldest | OldestToNewest.
Definition to_block_list_order (o : ListTxnOrder) : BlockListOrder :=
  match o with NewestToOldest => HighestToLowest | OldestToNewest => LowestToHighest end.

Record ListTxnsQuery := mk_txns_query {
  tq_limit : option nat;
  tq_cursor : option (CursorChoice ListTxnsPosition);
  tq_order : ListTxnOrder;
  tq_poll : bool;
}.

#[export] Instance serde_height : Serde Z := {|
  to_json h := JNum h;
  of_json v := match v with JNum n => if decide (in_width 64 n) then Some n else None | _ => None end;
|}.
#[export] Instance serde_position : Serde ListTxnsPosition := {|
  to_json p := JObj [("block"%string, to_json (pos_block p)); ("txn"%string, to_json (pos_txn p))];
  of_json v := match json_field "block" v ≫= of_json, json_field "txn" v ≫= of_json with
               | Some b, Some t => Some (mk_pos b t)
               | _, _ => None
               end;
|}.

(** [Ord] of a pair. *)
Definition pair_leb (x y : Z * Z) : bool := (x.1 <? y.1) || ((x.1 =? y.1) && (x.2 <=? y.2)).

(** [flatten_ok]. *)
Definition flatten_ok {E A} (l : list (outcome E (list A))) : list (outcome E A) :=
  l ≫= λ r, match r with Ok xs => Ok <$> xs | Err e => [Err e] | Panic m => [Panic m] end.

(** [Utc::now().timestamp() as u64 - max_height.saturating_sub(height)]. *)
Definition estimate_block_time (now height max_height : Z) : Z :=
  wrap 64 (wrap 64 now - saturating_sub max_height height).

Section rpc_txns.
Context `{FieldLib, CryptoLib}.
Implicit Types (node : NodeShared) (b : Block) (q : ListTxnsQuery).

(** [upgrade] of a stored block to the latest format. *)
Definition upgraded {E} (f : BlockFormat) : outcome E (Block * BlockMetadata) :=
  match default f (format_upgrade_once f) with
  | BlockV1 _ => Panic "already upgraded"
  | BlockV2 b m => Ok (b, m)
  end.

(** ** Reads of node.rs *)

Definition fetch_blocks_paginated node (cursor : option (CursorChoice Z)) (order : BlockListOrder) (limit : nat)
  : outcome NodeError (list (outcome NodeError BlockFormat)) :=
  let? l := map_err BlockStoreError (store_list_paginated (block_store node) cursor order limit) in
  Ok ((λ r, let? hb := map_err BlockStoreError r in Ok hb.2) <$> l).
Definition fetch_blocks_non_empty_paginated node (cursor : option (CursorChoice Z)) (order : BlockListOrder)
    (limit : nat) : outcome NodeError (list (outcome NodeError BlockFormat)) :=
  let? l := map_err BlockStoreError (store_list_non_empty_paginated (block_store node) cursor order limit) in
  Ok ((λ r, let? hb := map_err BlockStoreError r in Ok hb.2) <$> l).

Definition fetch_blocks node (start end_ : Bound Z) (order : BlockListOrder) : list (outcome NodeError BlockFormat) :=
  (λ r, let? hb := map_err BlockStoreError r in Ok hb.2) <$> store_list (block_store node) start end_ order.
Definition fetch_blocks_non_empty node (start end_ : Bound Z) (order : BlockListOrder)
  : list (outcome NodeError BlockFormat) :=
  (λ r, let? hb := map_err BlockStoreError r in Ok hb.2) <$> store_list_non_empty (block_store node) start end_ order.

Definition not_before (from_height : Z) (r : outcome NodeError Block) : bool :=
  match r with Ok b => from_height <=? bheight b | _ => true end.
(** [commit_stream]: [first_commit] is the first block the new listener is sent,
    [later] what it is sent afterwards, [node] the node once the first arrived. *)
Definition commit_stream node (from_height : option Z) (first_commit : Block) (later : list Block)
  : list (outcome NodeError Block) :=
  match from_height with
  | Some from_height =>
      let blocks_before :=
        (λ r : outcome NodeError BlockFormat, let? f := r in Ok (into_block f)) <$>
        fetch_blocks node (Included from_height) (Excluded (bheight first_commit)) LowestToHighest in
      filter (λ r, not_before from_height r)
        (blocks_before ++ Ok first_commit :: (Ok <$> later))
  | None => Ok first_commit :: (Ok <$> later)
  end.

(** ** list_txns_inner *)

Section inner.
Context (now : Z → nat → Z) (max_h : Z).

Definition block_txn_infos {E} (f : BlockFormat) : outcome E (list TxnWithInfo) :=
  let? bm := upgraded f in
  let b := bm.1 in
  Ok (imap (λ i t, mk_txn_info t (Z.of_nat i) (txn_hash t) (bheight b)
        (default (estimate_block_time (now (bheight b) i) (bheight b) max_h) (timestamp_unix_s bm.2)))
      (state_txns (bstate b))).

Definition txns_to_skip (cursor : CursorChoice ListTxnsPosition) (x : Z * Z) : bool :=
  let p := cursor_inner cursor in
  pair_leb (pos_block p, 0) x && pair_leb x (pos_block p, pos_txn p).

Definition txn_kept (cursor : option (CursorChoice ListTxnsPosition)) (r : outcome NodeError TxnWithInfo) : bool :=
  match cursor with
  | None => true
  | Some c =>
      match r with
      | Ok txn => negb (txns_to_skip c (ti_block_height txn, ti_index_in_block txn))
      | _ => true
      end
  end.

Definition txn_position (r : outcome NodeError TxnWithInfo) : option ListTxnsPosition :=
  match r with Ok txn => Some (mk_pos (ti_block_height txn) (ti_index_in_block txn)) | _ => None end.

Definition txn_limit q : nat := Nat.min (default 10%nat (tq_limit q)) 100.

Definition list_txns_inner
    (block_fetcher : option (CursorChoice Z) → BlockListOrder → nat →
                     outcome NodeError (list (outcome NodeError BlockFormat))) q
  : outcome NodeError (Cursor ListTxnsPosition * list TxnWithInfo) :=
  let? blocks := block_fetcher (cursor_map_pos pos_block <$> tq_cursor q) (to_block_list_order (tq_order q))
                   (txn_limit q + 1)%nat in
  let transactions := flatten_ok ((λ r, let? f := r in block_txn_infos f) <$> blocks) in
  let transactions := take (txn_limit q) (filter (λ r, txn_kept (tq_cursor q) r) transactions) in
  let '(cursor, transactions) := paginator_collect txn_position transactions in
  let? transactions := transactions in
  Ok (mk_cursor (after_inclusive <$> cur_after cursor) (before_inclusive <$> cur_before cursor), transactions).
End inner.

(** ** list_txns *)

(** The height a polling request waits for. *)
Definition towards_newer_height q : option Z :=
  match tq_order q, tq_cursor q with
  | NewestToOldest, Some (CursorBefore before) => Some (wrap 64 (pos_block (before_inner before) + 1))
  | OldestToNewest, Some (CursorAfter after) => Some (wrap 64 (pos_block (after_inner after) + 1))
  | _, _ => None
  end.

Definition list_txns (now now' : Z → nat → Z) (polled : Z → option NodeShared) node q
  : outcome NodeError (Cursor ListTxnsPosition * list TxnWithInfo) :=
  let max_h := node_max_height node in
  let? r := list_txns_inner now max_h (fetch_blocks_non_empty_paginated node) q in
  if (length r.2 =? 0)%nat && tq_poll q
  then match towards_newer_height q with
       | None => Ok r
       | Some h =>
           match polled h with
           | None => Ok r
           | Some node' => list_txns_inner now' max_h (fetch_blocks_non_empty_paginated node') q
           end
       end
  else Ok r.
End rpc_txns.
