(* ===== verification/RpcTxnsProps.v ===== *)
(** What listing transactions over RPC returns: pages in the order asked for,
    without a gap or a repetition when they are followed by their after-cursor,
    and what goes wrong with the before-cursor. *)
From S2P Require Import Prelude Pagination Element MerkleHash HashCache SmirkBatch SmirkNode.
From S2P Require Import SmirkNodeSpec SmirkTree SmirkStorage Utxo BlockStore Crypto NodeBlock.
From S2P Require Import Mempool BlockCache NodeCommit NodeLedger NodeProps RpcTxns.

(** * Lists *)

Lemma strictly_sorted_unique {A} (f : A → Z) (l1 l2 : list A) :
  StronglySorted Z.lt (f <$> l1) → StronglySorted Z.lt (f <$> l2) → (∀ x, x ∈ l1 ↔ x ∈ l2) → l1 = l2.
Proof.
  revert l2. induction l1 as [|x l1 IH]; intros [|y l2] H1 H2 Heq.
  - done.
  - destruct (Heq y) as [_ Hy]. by apply elem_of_nil in Hy; [|left].
  - destruct (Heq x) as [Hx _]. by apply elem_of_nil in Hx; [|left].
  - rewrite !fmap_cons in *. apply StronglySorted_inv in H1 as [H1 F1], H2 as [H2 F2].
    rewrite Forall_fmap, Forall_forall in F1, F2. unfold compose in F1, F2.
    assert (x = y) as <-.
    { assert (x ∈ y :: l2) as [?|Hx]%elem_of_cons by (apply Heq; by left); [done|].
      assert (y ∈ x :: l1) as [?|Hy]%elem_of_cons by (apply Heq; by left); [done|].
      specialize (F1 y Hy). specialize (F2 x Hx). lia. }
    f_equal. apply IH; [done..|]. intros z.
    assert (∀ l, Forall (λ z, f x < f z) l → z ∈ l → z ≠ x) as Hne.
    { intros l Hl Hz ->. rewrite Forall_forall in Hl. specialize (Hl x Hz). simpl in Hl. lia. }
    specialize (Heq z). rewrite !elem_of_cons in Heq. split; intros Hz.
    + destruct Heq as [[->|?] _]; [by right| |done]. by destruct (Hne l1 (proj2 (Forall_forall _ _) F1) Hz).
    + destruct Heq as [_ [->|?]]; [by right| |done]. by destruct (Hne l2 (proj2 (Forall_forall _ _) F2) Hz).
Qed.

Notation keep f l := (filter (λ x, Is_true (f x)) l).

Section filters.
Context {A : Type}.
Implicit Types (l : list A).

Lemma keep_cons (f : A → bool) x l : keep f (x :: l) = if f x then x :: keep f l else keep f l.
Proof. rewrite filter_cons. by destruct (f x). Qed.
Lemma keep_ext (f g : A → bool) l : (∀ x, x ∈ l → f x = g x) → keep f l = keep g l.
Proof.
  induction l as [|x l IH]; intros Hfg; [done|].
  rewrite !keep_cons, (Hfg x) by (by left). rewrite IH by (intros; apply Hfg; by right). done.
Qed.
Lemma keep_none (f : A → bool) l : (∀ x, x ∈ l → f x = false) → keep f l = [].
Proof. intros Hf. rewrite (keep_ext f (λ _, false)) by done. clear Hf. induction l as [|x l IH]; [done|]. by rewrite keep_cons. Qed.
Lemma keep_all (f : A → bool) l : (∀ x, x ∈ l → f x = true) → keep f l = l.
Proof. intros Hf. rewrite (keep_ext f (λ _, true)) by done. clear Hf. induction l as [|x l IH]; [done|]. by rewrite keep_cons, IH. Qed.
End filters.

Section filter_blocks.
Context {A B : Type}.
Implicit Types (l : list A).

Lemma keep_fmap (f : B → bool) (h : A → B) l : keep f (h <$> l) = h <$> keep (f ∘ h) l.
Proof. induction l as [|x l IH]; [done|]. rewrite fmap_cons, !keep_cons, IH. simpl. by destruct (f (h x)). Qed.
Lemma keep_bind (f : B → bool) (g : A → list B) l : keep f (l ≫= g) = l ≫= λ x, keep f (g x).
Proof. induction l as [|x l IH]; [done|]. by rewrite !bind_cons, filter_app, IH. Qed.

(** In a strictly sorted list what follows an element is what is greater. *)
Lemma keep_after (R : A → A → bool) (y : A) pre post :
  (∀ x, R x x = false) → (∀ x z, R x z = true → R z x = false) →
  StronglySorted (λ x z, R x z = true) (pre ++ y :: post) → keep (R y) (pre ++ y :: post) = post.
Proof.
  intros Hirr Has Hs. induction pre as [|x pre IH]; simpl in *.
  - apply StronglySorted_inv in Hs as [_ Hp]. rewrite keep_cons, Hirr. apply keep_all.
    by apply Forall_forall.
  - apply StronglySorted_inv in Hs as [Hs Hp]. rewrite keep_cons.
    rewrite Forall_app, Forall_cons in Hp. destruct Hp as (_ & Hp & _).
    rewrite (Has _ _ Hp). by apply IH.
Qed.

(** Enough blocks: the first [L] kept items are among those of the first [n]
    blocks, if these have [L] kept items. *)
Lemma take_blocks (f : B → bool) (g : A → list B) L n (l : list A) :
  (length l ≤ n ∨ L ≤ length (keep f (take n l ≫= g)))%nat →
  take L (keep f (take n l ≫= g)) = take L (keep f (l ≫= g)).
Proof.
  intros [Hn|HL]; [by rewrite (take_ge l n) by done|].
  rewrite <-(take_drop n l) at 2. rewrite bind_app, filter_app, take_app_le; done.
Qed.

(** Every block but at most one, the one with key [k], has a kept item. *)
Lemma kept_count (key : A → Z) (k : Z) (f : B → bool) (g : A → list B) l :
  NoDup (key <$> l) → (∀ x, x ∈ l → key x ≠ k → keep f (g x) ≠ []) →
  (length l ≤ S (length (keep f (l ≫= g))))%nat.
Proof.
  rewrite keep_bind.
  assert (∀ l, (∀ x, x ∈ l → keep f (g x) ≠ []) → length l ≤ length (l ≫= λ x, keep f (g x)))%nat as Hall.
  { intros l'. induction l' as [|x l' IH]; intros Hne; [done|]. rewrite bind_cons, length_app. simpl.
    assert (length (keep f (g x)) ≠ 0)%nat by (rewrite length_zero_iff_nil; apply Hne; by left).
    specialize (IH ltac:(intros; apply Hne; by right)). lia. }
  induction l as [|x l IH]; intros Hnd Hne; [simpl; lia|].
  rewrite fmap_cons in Hnd. apply NoDup_cons in Hnd as [Hx Hnd]. rewrite bind_cons, length_app. simpl.
  destruct (decide (key x = k)) as [Hk|Hk].
  - assert (length l ≤ length (l ≫= λ x, keep f (g x)))%nat; [|lia]. apply Hall. intros y Hy.
    apply Hne; [by right|]. intros Hky. apply Hx. rewrite Hk, <-Hky. by apply list_elem_of_fmap_2.
  - assert (length (keep f (g x)) ≠ 0)%nat by (rewrite length_zero_iff_nil; apply Hne; [by left|done]).
    specialize (IH Hnd ltac:(intros; apply Hne; [by right|done])). lia.
Qed.
End filter_blocks.

(** * The transactions of a chain *)

(** Positions in the order of a listing: blocks in the order asked for, the
    transactions of a block always by their index. *)
Definition block_after (order : BlockListOrder) (h h' : Z) : bool :=
  match order with LowestToHighest => h <? h' | HighestToLowest => h' <? h end.
Definition pos_after (order : BlockListOrder) (p p' : ListTxnsPosition) : bool :=
  block_after order (pos_block p) (pos_block p') ||
  ((pos_block p =? pos_block p') && (pos_txn p <? pos_txn p')).

Definition block_keys (b : Block) : list (ListTxnsPosition * UtxoProof) :=
  imap (λ i t, (mk_pos (bheight b) (Z.of_nat i), t)) (state_txns (bstate b)).
(** The reference: every transaction of the chain with its position. *)
Definition all_txns (order : BlockListOrder) (chain : list Block) : list (ListTxnsPosition * UtxoProof) :=
  order_list order chain ≫= block_keys.

Definition info_key (t : TxnWithInfo) : ListTxnsPosition * UtxoProof :=
  (mk_pos (ti_block_height t) (ti_index_in_block t), ti_proof t).

(** [cursor_admits] as a test. *)
Definition admits (order : BlockListOrder) (cursor : option (CursorChoice Z)) (h : Z) : bool :=
  match cursor with
  | None => true
  | Some (CursorAfter (After p)) => block_after order p h
  | Some (CursorAfter (AfterInclusive p)) => negb (block_after order h p)
  | Some (CursorBefore (Before p)) => block_after order h p
  | Some (CursorBefore (BeforeInclusive p)) => negb (block_after order p h)
  end.
Lemma admits_spec order cursor h : admits order cursor h = true ↔ cursor_admits order cursor h.
Proof.
  destruct cursor as [[[p|p]|[p|p]]|], order; simpl; try tauto;
    rewrite ?negb_true_iff, ?Z.ltb_lt, ?Z.ltb_ge; done.
Qed.

Lemma elem_block_keys b x :
  x ∈ block_keys b ↔ ∃ i, state_txns (bstate b) !! i = Some x.2 ∧ x.1 = mk_pos (bheight b) (Z.of_nat i).
Proof.
  unfold block_keys. rewrite list_elem_of_lookup. setoid_rewrite list_lookup_imap. split.
  - intros (i & Hi). exists i. destruct (_ !! i) as [t|]; [|done]. by injection Hi as <-.
  - intros (i & Hi & Hx). exists i. rewrite Hi. destruct x as [p t]. simpl in *. by subst.
Qed.

Lemma block_keys_nil b : block_keys b = [] ↔ state_txns (bstate b) = [].
Proof. unfold block_keys. rewrite <-!length_zero_iff_nil, length_imap. done. Qed.

Section listing.
Context `{FieldLib, CryptoLib, !CryptoLaws}.
Context (bad_blocks : list Z) (play : Block → Prop) `{!InPlay play bad_blocks}.
Implicit Types (chain : list Block) (node : NodeShared) (b : Block).
Notation ledger_inv := (ledger_inv play).

Lemma chain_sorted chain db p : ledger_inv chain db p → StronglySorted Z.lt (bheight <$> chain).
Proof.
  intros Hl. assert (∀ i b, chain !! i = Some b → bheight b = Z.of_nat i + 1) as Hh by apply (li_heights _ _ _ _ Hl).
  clear Hl. induction chain as [|b chain IH] using rev_ind; [constructor|].
  rewrite fmap_app. apply StronglySorted_app_2.
  - intros x y (b' & -> & [i Hi]%list_elem_of_lookup)%list_elem_of_fmap ->%list_elem_of_singleton.
    rewrite (Hh i b'), (Hh (length chain) b).
    + apply lookup_lt_Some in Hi. lia.
    + by rewrite lookup_app_r, Nat.sub_diag by lia.
    + rewrite lookup_app_l; [done|]. by apply lookup_lt_Some in Hi.
  - apply IH. intros i b' Hi. apply Hh. by apply lookup_app_l_Some.
  - repeat constructor.
Qed.

Lemma stored_in_chain chain db p h f :
  ledger_inv chain db p → stored KBlock db h f ↔ into_block f ∈ chain ∧ bheight (into_block f) = h ∧ store_get db h = Ok (Some f).
Proof.
  intros Hl. rewrite (stored_get db h f (li_store _ _ _ _ Hl)). split.
  - intros [Hw Hg]. destruct (decide (1 ≤ h ≤ Z.of_nat (length chain))) as [Hr|Hr];
      [|by rewrite (li_absent _ _ _ _ Hl h Hw Hr) in Hg].
    destruct (lookup_lt_is_Some_2 chain (Z.to_nat (h - 1)) ltac:(lia)) as [b Hb].
    pose proof (li_heights _ _ _ _ Hl _ _ Hb) as Hbh. replace (Z.of_nat _ + 1) with h in Hbh by lia.
    destruct (li_get _ _ _ _ Hl _ _ Hb) as (f' & Hf' & <-). rewrite Hbh, Hg in Hf'. injection Hf' as <-.
    split; [by eapply list_elem_of_lookup_2|done].
  - intros (Hin & Hh & Hg). split; [|done]. rewrite <-Hh. apply (play_height (bad_blocks := bad_blocks)).
    pose proof (li_play _ _ _ _ Hl) as Hp. rewrite Forall_forall in Hp. by apply Hp.
Qed.

Lemma chain_is_stored chain db p b :
  ledger_inv chain db p → b ∈ chain → ∃ f, store_get db (bheight b) = Ok (Some f) ∧ into_block f = b.
Proof. intros Hl [i Hi]%list_elem_of_lookup. by apply (li_get _ _ _ _ Hl i). Qed.

Lemma format_txns_length f : length (txns f) = length (state_txns (bstate (into_block f))).
Proof.
  destruct f as [b|b m]; cbn [txns block_format_block format_txns into_block];
    unfold block_txns, bstate; by rewrite ?length_fmap, length_imap.
Qed.

(** The blocks a page of the non-empty blocks is cut from. *)
Definition listed_blocks order (cursor : option (CursorChoice Z)) chain : list Block :=
  keep (λ b, admits order cursor (bheight b)) (keep (λ b, negb (length (state_txns (bstate b)) =? 0)%nat) (order_list order chain)).

Lemma keep_order {A} (f : A → bool) order (l : list A) : keep f (order_list order l) = order_list order (keep f l).
Proof. destruct order; [done|]. apply filter_reverse. Qed.
Lemma order_fmap {A B} (f : A → B) order (l : list A) : f <$> order_list order l = order_list order (f <$> l).
Proof. destruct order; [done|]. apply fmap_reverse. Qed.
Lemma keep_sorted (f : Block → bool) (l : list Block) :
  StronglySorted Z.lt (bheight <$> l) → StronglySorted Z.lt (bheight <$> keep f l).
Proof.
  induction l as [|b l IH]; [done|]. rewrite keep_cons, fmap_cons. intros [Hs Hf]%StronglySorted_inv.
  destruct (f b); [|by apply IH]. rewrite fmap_cons. constructor; [by apply IH|].
  rewrite Forall_forall in Hf |- *. intros x (b' & -> & [_ Hb']%list_elem_of_filter)%list_elem_of_fmap.
  apply Hf. by apply list_elem_of_fmap_2.
Qed.

Lemma page_fmap {A B} (f : A → B) (cursor : option (CursorChoice Z)) limit (l : list A) :
  page_of cursor limit (f <$> l) = f <$> page_of cursor limit l.
Proof. unfold page_of. destruct cursor as [[]|]; by rewrite <-?fmap_reverse, <-?fmap_take, <-?fmap_reverse. Qed.

(** A sorted list of the stored blocks that pass a test is the chain cut to these. *)
Lemma chain_blocks_unique chain db p (l : list (Z * BlockFormat)) (test : Z → bool) :
  ledger_inv chain db p → StronglySorted Z.lt l.*1 →
  (∀ h f, (h, f) ∈ l ↔ stored KBlock db h f ∧ test h = true) →
  into_block <$> l.*2 = keep (λ b, test (bheight b)) chain.
Proof.
  intros Hl Hsort Hspec. apply (strictly_sorted_unique bheight).
  - assert (bheight <$> (into_block <$> l.*2) = l.*1) as ->; [|done].
    rewrite <-!list_fmap_compose. apply list_fmap_ext.
    intros i [h f] [(_ & ? & _)%(stored_in_chain _ _ _ h f Hl) _]%list_elem_of_lookup_2%Hspec. done.
  - apply keep_sorted. by eapply chain_sorted.
  - intros b. rewrite list_elem_of_filter, list_elem_of_fmap. split.
    + intros (f & -> & ([h f'] & -> & [(Hin & <- & _)%(stored_in_chain _ _ _ h f' Hl) Hb]%Hspec)%list_elem_of_fmap).
      split; [by apply Is_true_true|done].
    + intros (Hb%Is_true_true & Hin). destruct (chain_is_stored _ _ _ b Hl Hin) as (f & Hg & <-).
      exists f. split; [done|]. apply list_elem_of_fmap. exists (bheight (into_block f), f). split; [done|].
      apply Hspec. split; [|done]. by apply (stored_in_chain _ _ _ _ f Hl).
Qed.

(** The same for the blocks with transactions. *)
Lemma non_empty_unique chain db p (l : list (Z * BlockFormat)) (test : Z → bool) :
  ledger_inv chain db p → StronglySorted Z.lt l.*1 →
  (∀ h f, (h, f) ∈ l ↔ stored KNonEmptyBlock db h f ∧ test h = true) →
  into_block <$> l.*2 =
    keep (λ b, test (bheight b)) (keep (λ b, negb (length (state_txns (bstate b)) =? 0)%nat) chain).
Proof.
  intros Hl Hsort Hspec.
  assert (∀ h f, (h, f) ∈ l ↔ into_block f ∈ chain ∧ bheight (into_block f) = h ∧
    store_get db h = Ok (Some f) ∧ length (state_txns (bstate (into_block f))) ≠ 0%nat ∧ test h = true) as Hl'.
  { intros h f. rewrite Hspec, (li_nonempty _ _ _ _ Hl), format_txns_length, (stored_in_chain chain _ p h f Hl). tauto. }
  apply (strictly_sorted_unique bheight).
  - assert (bheight <$> (into_block <$> l.*2) = l.*1) as ->; [|done].
    rewrite <-!list_fmap_compose. apply list_fmap_ext. by intros i [h f] (_ & ? & _)%list_elem_of_lookup_2%Hl'.
  - apply keep_sorted, keep_sorted. by eapply chain_sorted.
  - intros b. rewrite !list_elem_of_filter, list_elem_of_fmap. split.
    + intros (f & -> & ([h f'] & -> & (Hin & Hh & Hg & Hn & Ha)%Hl')%list_elem_of_fmap). cbn [fst snd] in *.
      rewrite Hh. split; [by apply Is_true_true|]. split; [|done]. apply Is_true_true, negb_true_iff, Nat.eqb_neq, Hn.
    + intros (Ha%Is_true_true & Hn%Is_true_true%negb_true_iff%Nat.eqb_neq & Hin).
      destruct (chain_is_stored chain _ p b Hl Hin) as (f & Hg & <-).
      exists f. split; [done|]. apply list_elem_of_fmap. exists (bheight (into_block f), f). split; [done|]. by apply Hl'.
Qed.

Lemma fetch_non_empty_ok chain node p cursor order limit :
  ledger_inv chain (block_store node) p → wf_cursor cursor →
  ∃ fs, fetch_blocks_non_empty_paginated node cursor order limit = Ok (Ok <$> page_of cursor limit fs) ∧
    into_block <$> fs = listed_blocks order cursor chain.
Proof.
  intros Hl Hc.
  destruct (key_list_paginated_ok KNonEmptyBlock (block_store node) cursor order limit (or_intror eq_refl)
              (li_store _ _ _ _ Hl) Hc) as (l & Hlist & Hsort & Hspec).
  exists (order_list order l.*2). split.
  - unfold fetch_blocks_non_empty_paginated, store_list_non_empty_paginated. rewrite Hlist.
    cbn [outcome_bind map_err]. f_equal. rewrite <-!list_fmap_compose.
    rewrite <-order_fmap, page_fmap, <-list_fmap_compose. apply list_fmap_ext. by intros i [h f].
  - unfold listed_blocks. rewrite !keep_order, order_fmap. f_equal.
    apply (non_empty_unique chain _ p l _ Hl Hsort). intros h f. by rewrite Hspec, admits_spec.
Qed.

(** ** A page *)

Definition infos_of (now : Z → nat → Z) (max_h : Z) (f : BlockFormat) : list TxnWithInfo :=
  match block_txn_infos (E := NodeError) now max_h f with Ok l => l | _ => [] end.

Lemma block_infos_ok now max_h f :
  block_txn_infos now max_h f = Ok (E := NodeError) (infos_of now max_h f) ∧
  info_key <$> infos_of now max_h f = block_keys (into_block f) ∧
  Forall (λ t, ti_hash t = txn_hash (ti_proof t)) (infos_of now max_h f).
Proof.
  destruct f as [b|b m]; (split; [done|]); unfold infos_of, block_txn_infos, upgraded; cbn [format_upgrade_once default outcome_bind into_block fst snd];
    (split; [unfold block_keys; cbn; rewrite fmap_imap; by apply imap_ext|]); cbn;
    apply Forall_lookup; intros i t; rewrite list_lookup_imap; destruct (_ !! i); intros [= <-]; done.
Qed.

Lemma flatten_infos now max_h (fs : list BlockFormat) :
  flatten_ok ((λ r : outcome NodeError BlockFormat, let? f := r in block_txn_infos now max_h f) <$> (Ok <$> fs)) =
  Ok <$> (fs ≫= infos_of now max_h).
Proof.
  induction fs as [|f fs IH]; [done|]. unfold flatten_ok in *. rewrite !fmap_cons, !bind_cons, IH, fmap_app.
  f_equal. cbn [outcome_bind]. by rewrite (proj1 (block_infos_ok now max_h f)).
Qed.

Lemma infos_keys now max_h (fs : list BlockFormat) :
  info_key <$> (fs ≫= infos_of now max_h) = (into_block <$> fs) ≫= block_keys.
Proof.
  induction fs as [|f fs IH]; [done|]. rewrite fmap_cons, !bind_cons, fmap_app, IH.
  f_equal. apply block_infos_ok.
Qed.

(** The filter of a listing, by position. *)
Definition pos_kept (cursor : option (CursorChoice ListTxnsPosition)) (x : ListTxnsPosition * UtxoProof) : bool :=
  match cursor with
  | None => true
  | Some c => negb (txns_to_skip c (pos_block x.1, pos_txn x.1))
  end.

Definition ends (l : list (ListTxnsPosition * UtxoProof)) : Cursor ListTxnsPosition :=
  mk_cursor (AfterInclusive <$> last l.*1) (BeforeInclusive <$> head l.*1).

(** A page of the listing before it is cut to the order of positions. *)
Lemma list_txns_inner_ok chain node p now max_h q :
  ledger_inv chain (block_store node) p → wf_cursor (cursor_map_pos pos_block <$> tq_cursor q) →
  let order := to_block_list_order (tq_order q) in
  let bs := page_of (cursor_map_pos pos_block <$> tq_cursor q) (S (txn_limit q))
              (listed_blocks order (cursor_map_pos pos_block <$> tq_cursor q) chain) in
  let keys := take (txn_limit q) (keep (pos_kept (tq_cursor q)) (bs ≫= block_keys)) in
  ∃ page, list_txns_inner now max_h (fetch_blocks_non_empty_paginated node) q = Ok (ends keys, page) ∧
    info_key <$> page = keys ∧ Forall (λ t, ti_hash t = txn_hash (ti_proof t)) page.
Proof.
  intros Hl Hc order bs keys.
  destruct (fetch_non_empty_ok chain node p _ order (txn_limit q + 1)%nat Hl Hc) as (fs & Hf & Hfs).
  unfold list_txns_inner. fold order. rewrite Hf. cbn [outcome_bind]. rewrite flatten_infos, keep_fmap, <-fmap_take.
  rewrite paginator_collect_ok. cbn [outcome_bind cur_after cur_before].
  set (page := take _ _).
  assert (info_key <$> page = keys) as Hkeys.
  { unfold page, keys, bs. rewrite fmap_take. f_equal.
    rewrite (keep_ext _ (pos_kept (tq_cursor q) ∘ info_key)) by (by destruct (tq_cursor q)).
    rewrite <-keep_fmap, infos_keys. f_equal. f_equal.
    replace (txn_limit q + 1)%nat with (S (txn_limit q)) by lia. rewrite <-Hfs.
    unfold page_of. destruct (tq_cursor q) as [[]|]; simpl; by rewrite ?fmap_reverse, ?fmap_take, ?fmap_reverse. }
  exists page. split; [|split; [done|]].
  - f_equal. f_equal. unfold ends.
    assert (omap (txn_position ∘ Ok) page = keys.*1) as ->.
    { rewrite <-Hkeys, <-list_fmap_compose. generalize page. intros l. induction l as [|t l IH]; [done|]. simpl. by f_equal. }
    by destruct (last _), (head _).
  - unfold page. apply Forall_take. apply Forall_forall. intros t [_ Ht]%list_elem_of_filter.
    apply list_elem_of_bind in Ht as (f & Ht & _).
    destruct (block_infos_ok now max_h f) as (_ & _ & Hh). rewrite Forall_forall in Hh. by apply Hh.
Qed.

(** ** Pages that follow one another *)

(** The cursors a page returns for its successor. *)
Definition next_cursor (from : option ListTxnsPosition) : option (CursorChoice ListTxnsPosition) :=
  (λ p, CursorAfter (AfterInclusive p)) <$> from.
Definition follows order (from : option ListTxnsPosition) (x : ListTxnsPosition * UtxoProof) : bool :=
  match from with None => true | Some p => pos_after order p x.1 end.

Lemma kept_block order from b :
  let cursor := next_cursor from in
  keep (follows order from) (block_keys b) =
    if admits order (cursor_map_pos pos_block <$> cursor) (bheight b)
    then keep (pos_kept cursor) (block_keys b) else [].
Proof.
  intros cursor. destruct from as [p|]; [|done]. cbn [next_cursor follows cursor cursor_map_pos after_map_pos fmap option_fmap option_map admits pos_kept].
  assert (∀ x, x ∈ block_keys b → pos_block x.1 = bheight b ∧ 0 ≤ pos_txn x.1) as Hx.
  { intros [q t] (i & _ & Hq)%elem_block_keys. simpl in *. subst. simpl. lia. }
  destruct (negb _) eqn:Hadm.
  - apply keep_ext. intros x [Hb Ht]%Hx. unfold pos_after, txns_to_skip, pair_leb. cbn [cursor_inner after_inner fst snd].
    rewrite Hb. destruct order; unfold block_after in *; apply negb_true_iff in Hadm; lia.
  - apply keep_none. intros x [Hb Ht]%Hx. unfold pos_after. rewrite Hb.
    apply negb_false_iff in Hadm. destruct order; unfold block_after in *; lia.
Qed.

(** Of the blocks a page is cut from, everything after the cursor is listed. *)
Lemma kept_all order from chain :
  keep (pos_kept (next_cursor from)) (listed_blocks order (cursor_map_pos pos_block <$> next_cursor from) chain ≫= block_keys) =
  keep (follows order from) (all_txns order chain).
Proof.
  unfold all_txns, listed_blocks. rewrite !keep_bind. generalize (order_list order chain). intros l.
  induction l as [|b l IH]; [done|]. rewrite keep_cons, bind_cons, (kept_block order from b).
  destruct (length (state_txns (bstate b)) =? 0)%nat eqn:Hn; cbn [negb].
  - apply Nat.eqb_eq, length_zero_iff_nil, block_keys_nil in Hn. rewrite IH, Hn. by destruct (admits _ _ _).
  - rewrite keep_cons. destruct (admits _ _ _); [|by rewrite IH]. by rewrite bind_cons, IH.
Qed.

Lemma sorted_nodup (l : list Z) : StronglySorted Z.lt l → NoDup l.
Proof.
  induction 1 as [|x l Hs IH Hf]; constructor; [|done]. intros Hx. rewrite Forall_forall in Hf. specialize (Hf x Hx). lia.
Qed.
Lemma nodup_order {A} order (l : list A) : NoDup l → NoDup (order_list order l).
Proof. destruct order; [done|]. unfold order_list. cbn [is_indexed_order]. by rewrite reverse_Permutation. Qed.
Lemma listed_nodup chain db p order cursor :
  ledger_inv chain db p → NoDup (bheight <$> listed_blocks order cursor chain).
Proof.
  intros Hl. unfold listed_blocks. rewrite !keep_order, order_fmap.
  apply nodup_order, sorted_nodup, keep_sorted, keep_sorted. by eapply chain_sorted.
Qed.

(** A page that starts after a position of the listing (or at its start) is the
    next part of the listing, as long as the limit allows. *)
Lemma page_after_ok chain node p now max_h q from :
  ledger_inv chain (block_store node) p → tq_cursor q = next_cursor from →
  (∀ pos, from = Some pos → in_width 64 (pos_block pos)) →
  let order := to_block_list_order (tq_order q) in
  let keys := take (txn_limit q) (keep (follows order from) (all_txns order chain)) in
  ∃ page, list_txns_inner now max_h (fetch_blocks_non_empty_paginated node) q = Ok (ends keys, page) ∧
    info_key <$> page = keys ∧ Forall (λ t, ti_hash t = txn_hash (ti_proof t)) page.
Proof.
  intros Hl Hq Hw order keys.
  destruct (list_txns_inner_ok chain node p now max_h q Hl) as (page & Hp & Hk & Hh).
  { rewrite Hq. destruct from as [pos|]; [by apply Hw|done]. }
  fold order in Hp, Hk. rewrite Hq in Hp, Hk.
  set (lb := listed_blocks order (cursor_map_pos pos_block <$> next_cursor from) chain) in *.
  assert (page_of (cursor_map_pos pos_block <$> next_cursor from) (S (txn_limit q)) lb = take (S (txn_limit q)) lb) as Hpage.
  { by destruct from. }
  rewrite Hpage in Hp, Hk.
  assert (take (txn_limit q) (keep (pos_kept (next_cursor from)) (take (S (txn_limit q)) lb ≫= block_keys)) = keys) as Heq.
  { unfold keys. rewrite <-kept_all. apply take_blocks.
    destruct (decide (length lb ≤ S (txn_limit q))%nat) as [|Hlen]; [by left|right].
    pose proof (kept_count bheight (default 0 (pos_block <$> from)) (pos_kept (next_cursor from)) block_keys
      (take (S (txn_limit q)) lb)) as Hcount.
    rewrite length_take_le in Hcount by lia.
    apply le_S_n, Hcount.
    - rewrite fmap_take. eapply sublist_NoDup; [by eapply listed_nodup|]. apply sublist_take.
    - intros b Hb Hne. apply subseteq_take in Hb. unfold lb, listed_blocks in Hb.
      rewrite !list_elem_of_filter in Hb. destruct Hb as (_ & Hn%Is_true_true%negb_true_iff%Nat.eqb_neq & _).
      rewrite keep_all; [by rewrite block_keys_nil, <-length_zero_iff_nil|].
      intros [x t] (i & _ & Hx)%elem_block_keys. cbn [fst] in Hx. subst x. destruct from as [pos|]; [|done].
      cbn [next_cursor fmap option_fmap option_map pos_kept default] in *. unfold txns_to_skip, pair_leb.
      cbn [cursor_inner after_inner fst snd pos_block pos_txn]. simpl in Hne. lia. }
  rewrite Heq in Hp, Hk. by exists page.
Qed.

(** ** Following the cursors *)

(** A client that lists everything: it asks for the next page with the
    after-cursor of the last one until a page has none. *)
Fixpoint walk (now : nat → Z → nat → Z) (max_h : nat → Z) node limit order (fuel : nat) cursor
  : option (outcome NodeError (list TxnWithInfo)) :=
  match fuel with
  | O => None
  | S n =>
      match list_txns_inner (now n) (max_h n) (fetch_blocks_non_empty_paginated node)
              (mk_txns_query limit cursor order false) with
      | Ok (c, page) =>
          match cur_after c with
          | None => Some (Ok page)
          | Some a =>
              match walk now max_h node limit order n (Some (CursorAfter a)) with
              | Some (Ok rest) => Some (Ok (page ++ rest))
              | r => r
              end
          end
      | Err e => Some (Err e)
      | Panic m => Some (Panic m)
      end
  end.

Lemma sorted_impl {A} (R S : A → A → Prop) (l : list A) :
  (∀ x y, R x y → S x y) → StronglySorted R l → StronglySorted S l.
Proof. intros HRS. induction 1 as [|x l Hs IH Hf]; constructor; [done|]. eapply Forall_impl; [done|]. intros. by apply HRS. Qed.
Lemma sorted_reverse {A} (R : A → A → Prop) (l : list A) :
  StronglySorted R l → StronglySorted (flip R) (reverse l).
Proof.
  induction 1 as [|x l Hs IH Hf]; [constructor|]. rewrite reverse_cons. apply StronglySorted_app_2.
  - intros y z Hy ->%list_elem_of_singleton. rewrite elem_of_reverse in Hy. rewrite Forall_forall in Hf. exact (Hf _ Hy).
  - done.
  - repeat constructor.
Qed.
Lemma sorted_bind {A B} (R : A → A → Prop) (S : B → B → Prop) (g : A → list B) (l : list A) :
  StronglySorted R l → (∀ x, StronglySorted S (g x)) →
  (∀ x y, R x y → ∀ u v, u ∈ g x → v ∈ g y → S u v) → StronglySorted S (l ≫= g).
Proof.
  intros Hs Hg HR. induction Hs as [|x l Hs IH Hf]; [constructor|]. rewrite bind_cons.
  apply StronglySorted_app_2; [|done|done]. intros u v Hu (y & Hv & Hy)%list_elem_of_bind.
  rewrite Forall_forall in Hf. by eapply HR; [apply Hf|..].
Qed.
Lemma block_keys_sorted order b : StronglySorted (λ x y, pos_after order x.1 y.1 = true) (block_keys b).
Proof.
  unfold block_keys. generalize (state_txns (bstate b)). intros l. induction l as [|t l IH] using rev_ind; [constructor|].
  rewrite imap_app. apply StronglySorted_app_2; [|done|repeat constructor].
  intros x y [i Hi]%list_elem_of_lookup [-> | []%elem_of_nil]%elem_of_cons. rewrite list_lookup_imap in Hi.
  destruct (l !! i) as [t'|] eqn:E; [|done]. injection Hi as <-. apply lookup_lt_Some in E.
  unfold pos_after. cbn [fst pos_block pos_txn]. rewrite Z.eqb_refl, Nat.add_0_r. destruct order; simpl; lia.
Qed.
Lemma all_txns_sorted chain db p order :
  ledger_inv chain db p → StronglySorted (λ x y, pos_after order x.1 y.1 = true) (all_txns order chain).
Proof.
  intros Hl. apply (sorted_bind (λ b b', block_after order (bheight b) (bheight b') = true)).
  - pose proof (chain_sorted _ _ _ Hl) as Hs.
    assert (StronglySorted (λ b b', bheight b < bheight b') chain) as Hs'.
    { clear Hl. induction chain as [|b chain IH]; [constructor|]. rewrite fmap_cons in Hs.
      apply StronglySorted_inv in Hs as [Hs Hf]. constructor; [by apply IH|]. by rewrite Forall_fmap in Hf. }
    destruct order; cbn [order_list is_indexed_order block_after].
    + eapply sorted_impl; [|done]. intros. by apply Z.ltb_lt.
    + apply sorted_reverse in Hs'. eapply sorted_impl; [|done]. intros. by apply Z.ltb_lt.
  - apply block_keys_sorted.
  - intros b b' Hbb [x t] [y u] (i & _ & Hx)%elem_block_keys (j & _ & Hy)%elem_block_keys.
    simpl in *. subst. unfold pos_after. simpl. by rewrite Hbb.
Qed.

Lemma pos_after_irrefl order p : pos_after order p p = false.
Proof. unfold pos_after. rewrite Z.eqb_refl, Z.ltb_irrefl. destruct order; simpl; lia. Qed.
Lemma pos_after_asym order p p' : pos_after order p p' = true → pos_after order p' p = false.
Proof. unfold pos_after, block_after. destruct order; lia. Qed.

Lemma follows_rest chain db p order pre post :
  ledger_inv chain db p → all_txns order chain = pre ++ post →
  keep (follows order (last pre.*1)) (all_txns order chain) = post.
Proof.
  intros Hl Heq. pose proof (all_txns_sorted chain db p order Hl) as Hs. rewrite Heq in *.
  destruct pre as [|x pre _] using rev_ind; [by apply keep_all|]. rewrite fmap_app. change ([x].*1) with [x.1]. rewrite last_snoc.
  rewrite <-app_assoc in *. cbn [app follows] in *.
  apply (keep_after (λ x y, pos_after order x.1 y.1)); [intros; apply pos_after_irrefl|intros ??; apply pos_after_asym|done].
Qed.

Lemma all_txns_width chain db p order x :
  ledger_inv chain db p → x ∈ all_txns order chain → in_width 64 (pos_block x.1).
Proof.
  intros Hl (b & (i & _ & ->)%elem_block_keys & Hb)%list_elem_of_bind. simpl.
  apply (play_height (bad_blocks := bad_blocks)). pose proof (li_play _ _ _ _ Hl) as Hp. rewrite Forall_forall in Hp.
  apply Hp. unfold order_list in Hb. destruct (is_indexed_order order); [done|]. by rewrite elem_of_reverse in Hb.
Qed.

Lemma walk_from chain node p now max_h limit order pre post fuel :
  ledger_inv chain (block_store node) p → txn_limit (mk_txns_query limit None order false) ≠ 0%nat →
  all_txns (to_block_list_order order) chain = pre ++ post → (length post < fuel)%nat →
  ∃ ts, walk now max_h node limit order fuel (next_cursor (last pre.*1)) = Some (Ok ts) ∧
    info_key <$> ts = post ∧ Forall (λ t, ti_hash t = txn_hash (ti_proof t)) ts.
Proof.
  intros Hl HL. revert pre post. induction fuel as [|fuel IH]; intros pre post Heq Hlen; [lia|].
  set (q := mk_txns_query limit (next_cursor (last pre.*1)) order false).
  change (txn_limit _) with (txn_limit q) in HL.
  destruct (page_after_ok chain node p (now fuel) (max_h fuel) q (last pre.*1) Hl eq_refl) as (page & Hp & Hk & Hh).
  { intros pos Hpos. destruct pre as [|x pre _] using rev_ind; [done|].
    rewrite fmap_app in Hpos. change ([x].*1) with [x.1] in Hpos. rewrite last_snoc in Hpos. injection Hpos as <-.
    apply (all_txns_width chain _ p (to_block_list_order order) x Hl). rewrite Heq, !elem_of_app. left. right. by left. }
  change (tq_order q) with order in Hp, Hk. rewrite (follows_rest chain _ p _ pre post Hl Heq) in Hp, Hk.
  cbn [walk]. fold q. rewrite Hp. unfold ends. cbn [cur_after].
  destruct (last (take (txn_limit q) post).*1) as [pos|] eqn:Hlast; cbn [fmap option_fmap option_map].
  - rewrite <-(take_drop (txn_limit q) post) in Heq. rewrite app_assoc in Heq.
    destruct (IH _ _ Heq) as (ts & Hts & Hkts & Hhts).
    { destruct post; [by rewrite take_nil in Hlast|]. rewrite length_drop. simpl in *. lia. }
    rewrite fmap_app, last_app, Hlast in Hts. change (next_cursor (Some pos)) with (Some (CursorAfter (AfterInclusive pos))) in Hts.
    rewrite Hts. exists (page ++ ts). split; [done|]. split; [|by apply Forall_app].
    by rewrite fmap_app, Hk, Hkts, take_drop.
  - apply last_None, fmap_nil_inv in Hlast. exists page. split; [done|]. split; [|done].
    rewrite Hk, Hlast. destruct post; [done|]. destruct (txn_limit q); [done|]. by simpl in Hlast.
Qed.

(** C35: Listing is complete: a client that starts without a cursor and follows the
    after-cursor of each page gets, in either order and for every limit but
    zero, each transaction of the chain exactly once, in order, under its block
    height and index and with its hash; it takes at most one request more
    than there are transactions. *)
Theorem pages_list_every_txn chain node now max_h limit order fuel :
  node_inv play chain node → txn_limit (mk_txns_query limit None order false) ≠ 0%nat →
  (length (all_txns (to_block_list_order order) chain) < fuel)%nat →
  ∃ ts, walk now max_h node limit order fuel None = Some (Ok ts) ∧
    info_key <$> ts = all_txns (to_block_list_order order) chain ∧
    Forall (λ t, ti_hash t = txn_hash (ti_proof t)) ts.
Proof. intros Hn HL Hf. by apply (walk_from chain node (notes_tree node) now max_h limit order [] _ fuel (ni_ledger _ _ _ Hn)). Qed.

(** ** Polling *)

(** A request for what comes after a position, which finds nothing and waits,
    is answered with the transactions of the blocks committed meanwhile. *)
Theorem polling_returns_new_txns chain ext node node' now now' polled limit pos :
  node_inv play chain node → node_inv play (chain ++ ext) node' →
  let q := mk_txns_query limit (next_cursor (Some pos)) OldestToNewest true in
  0 ≤ pos_block pos ≤ Z.of_nat (length chain) → in_width 64 (Z.of_nat (length chain) + 1) →
  keep (follows LowestToHighest (Some pos)) (all_txns LowestToHighest chain) = [] →
  polled (pos_block pos + 1) = Some node' →
  ∃ page, list_txns now now' polled node q = Ok (ends (info_key <$> page), page) ∧
    info_key <$> page = take (txn_limit q) (all_txns LowestToHighest ext).
Proof.
  intros Hn Hn' q Hpos Hbig Hnone Hpolled.
  assert (in_width 64 (pos_block pos)) as Hw by (unfold in_width in *; lia).
  assert (∀ p, Some pos = Some p → in_width 64 (pos_block p)) as Hw' by (by intros p [= <-]).
  destruct (page_after_ok chain node _ now (node_max_height node) q (Some pos) (ni_ledger _ _ _ Hn) eq_refl Hw')
    as (page & Hp & Hk & _).
  destruct (page_after_ok (chain ++ ext) node' _ now' (node_max_height node) q (Some pos) (ni_ledger _ _ _ Hn') eq_refl Hw')
    as (page' & Hp' & Hk' & _).
  cbn [q tq_order to_block_list_order] in Hp, Hk, Hp', Hk'.
  rewrite Hnone, take_nil in Hk. apply fmap_nil_inv in Hk as ->.
  unfold list_txns. rewrite Hp. cbn [outcome_bind snd length Nat.eqb andb q tq_poll].
  unfold towards_newer_height. cbn [q tq_order tq_cursor next_cursor fmap option_fmap option_map after_inner].
  rewrite wrap_small by (unfold in_width in *; lia). rewrite Hpolled, Hp'.
  assert (keep (follows LowestToHighest (Some pos)) (all_txns LowestToHighest (chain ++ ext)) = all_txns LowestToHighest ext) as Hext.
  { unfold all_txns, order_list in *. cbn [is_indexed_order] in *. rewrite bind_app, filter_app, Hnone. simpl.
    apply keep_all. intros [p t] (b & (i & _ & Hpb)%elem_block_keys & [j Hj]%list_elem_of_lookup)%list_elem_of_bind.
    simpl in Hpb. subst p. unfold follows, pos_after, block_after. cbn [fst pos_block pos_txn].
    rewrite (li_heights _ _ _ _ (ni_ledger _ _ _ Hn') (length chain + j) b); [apply orb_true_iff; left; apply Z.ltb_lt; lia|]. by rewrite lookup_app_r, Nat.add_comm, Nat.add_sub by lia. }
  rewrite Hext in Hk'. rewrite Hext, <-Hk'. by exists page'.
Qed.

Lemma drop_heights (l : list Block) (k from : Z) :
  (∀ i b, l !! i = Some b → bheight b = k + Z.of_nat i + 1) →
  keep (λ b, from <=? bheight b) l = drop (Z.to_nat (from - 1 - k)) l.
Proof.
  revert k. induction l as [|b l IH]; intros k Hh; [by rewrite drop_nil|].
  pose proof (Hh 0%nat b eq_refl) as Hb. rewrite keep_cons.
  rewrite (IH (k + 1)) by (intros i b' Hi; rewrite (Hh (S i) b' Hi); lia).
  destruct (from <=? bheight b) eqn:E.
  - replace (Z.to_nat (from - 1 - k)) with 0%nat by lia. replace (Z.to_nat _) with 0%nat by lia. done.
  - replace (Z.to_nat (from - 1 - k)) with (S (Z.to_nat (from - 1 - (k + 1)))) by lia. done.
Qed.

(** The blocks of a range of heights. *)
Definition in_bounds (start end_ : Bound Z) (h : Z) : bool :=
  (match start with Included x => x <=? h | Excluded x => x <? h | Unbounded => true end) &&
  (match end_ with Included x => h <=? x | Excluded x => h <? x | Unbounded => true end).
Lemma in_bounds_spec start end_ h : in_bounds start end_ h = true ↔ above_bound start h ∧ below_bound end_ h.
Proof.
  unfold in_bounds. rewrite andb_true_iff.
  destruct start, end_; simpl; rewrite ?Z.leb_le, ?Z.ltb_lt; intuition.
Qed.

Lemma stored_range chain db p start end_ order :
  ledger_inv chain db p → wf_bound start → wf_bound end_ →
  ∃ l, store_list db start end_ order = Ok <$> order_list order l ∧
    into_block <$> l.*2 = keep (λ b, in_bounds start end_ (bheight b)) chain.
Proof.
  intros Hl Hs He. destruct (store_list_spec db start end_ order (li_store _ _ _ _ Hl) Hs He) as (l & Hlist & Hsort & Hspec).
  assert (∀ h f, (h, f) ∈ l ↔ stored KBlock db h f ∧ in_bounds start end_ h = true) as Hspec'.
  { intros h f. rewrite Hspec, (stored_get db h f (li_store _ _ _ _ Hl)), in_bounds_spec. tauto. }
  exists l. split; [done|]. by apply (chain_blocks_unique chain db p).
Qed.

Lemma fetched_range chain node p start end_ order :
  ledger_inv chain (block_store node) p → wf_bound start → wf_bound end_ →
  ∃ fs, fetch_blocks node start end_ order = Ok <$> order_list order fs ∧
    into_block <$> fs = keep (λ b, in_bounds start end_ (bheight b)) chain.
Proof.
  intros Hl Hs He. destruct (stored_range chain _ p start end_ order Hl Hs He) as (l & Hlist & Hin).
  exists l.*2. split; [|done]. unfold fetch_blocks. rewrite Hlist, <-order_fmap, <-!list_fmap_compose.
  apply list_fmap_ext. by intros i [h f].
Qed.

(** The stream of commits a listener gets has no gap: from the height asked for,
    the blocks of the chain that was committed before the listener was served
    its first block, that block, and the ones after it. *)
Theorem commit_stream_complete before first later seen node from_height :
  node_inv play (before ++ first :: seen) node → 1 ≤ from_height →
  (∀ i b, (before ++ first :: later) !! i = Some b → bheight b = Z.of_nat i + 1) →
  in_width 64 from_height →
  commit_stream node (Some from_height) first later =
    Ok <$> drop (Z.to_nat (from_height - 1)) (before ++ first :: later).
Proof.
  intros Hn Hf Hh Hw. pose proof (ni_ledger _ _ _ Hn) as Hl.
  assert (bheight first = Z.of_nat (length before) + 1) as Hfh.
  { apply (Hh (length before)). by rewrite lookup_app_r, Nat.sub_diag by lia. }
  destruct (fetched_range _ node _ (Included from_height) (Excluded (bheight first)) LowestToHighest Hl) as (fs & Hfs & Hin); [done| |].
  { pose proof (li_play _ _ _ _ Hl) as Hp. rewrite Forall_app, Forall_cons in Hp. by apply (play_height (bad_blocks := bad_blocks)), Hp. }
  assert (into_block <$> fs = keep (λ b, from_height <=? bheight b) before) as Hbefore.
  { rewrite Hin, filter_app. rewrite (keep_none _ (first :: seen)), app_nil_r.
    - apply keep_ext. intros b [i Hi]%list_elem_of_lookup. unfold in_bounds.
      rewrite (Hh i b) by (by apply lookup_app_l_Some). apply lookup_lt_Some in Hi. lia.
    - intros b [i Hi]%list_elem_of_lookup. unfold in_bounds.
      rewrite (li_heights _ _ _ _ Hl (length before + i) b); [apply andb_false_iff; right; apply Z.ltb_ge; lia|]. by rewrite lookup_app_r, Nat.add_comm, Nat.add_sub by lia. }
  unfold commit_stream. rewrite Hfs. unfold order_list. cbn [is_indexed_order].
  assert ((λ r : outcome NodeError BlockFormat, let? f := r in Ok (into_block f)) <$> (Ok <$> fs) =
    Ok <$> (into_block <$> fs)) as -> by (by rewrite <-!list_fmap_compose).
  change (Ok first :: (Ok <$> later)) with (Ok (E := NodeError) <$> first :: later).
  rewrite Hbefore, <-fmap_app, keep_fmap. f_equal.
  change (keep (λ b, from_height <=? bheight b) (keep (λ b, from_height <=? bheight b) before ++ first :: later) =
    drop (Z.to_nat (from_height - 1)) (before ++ first :: later)).
  replace (from_height - 1) with (from_height - 1 - 0) by lia.
  rewrite <-(drop_heights (before ++ first :: later) 0 from_height) by (intros i b Hi; rewrite (Hh i b Hi); lia).
  rewrite !filter_app. f_equal. apply keep_all. by intros b [?%Is_true_true _]%list_elem_of_filter.
Qed.

(** ** The page before a cursor *)

(** The page before a position is not what precedes the position: of the block
    the position is in it holds none of the transactions up to the position,
    only ones behind it.  So a client that goes back from a page that starts
    inside a block never sees the transactions of that block before the page. *)
Theorem previous_page_misses chain node now max_h limit order pos c page t :
  node_inv play chain node → in_width 64 (pos_block pos) →
  list_txns_inner now max_h (fetch_blocks_non_empty_paginated node)
    (mk_txns_query limit (Some (CursorBefore (BeforeInclusive pos))) order false) = Ok (c, page) →
  t ∈ page → ti_block_height t = pos_block pos → pos_txn pos < ti_index_in_block t.
Proof.
  intros Hn Hw Hp Ht Hb.
  destruct (list_txns_inner_ok chain node _ now max_h
    (mk_txns_query limit (Some (CursorBefore (BeforeInclusive pos))) order false) (ni_ledger _ _ _ Hn) Hw) as (page' & Hp' & Hk & _).
  rewrite Hp in Hp'. injection Hp' as _ <-.
  apply (list_elem_of_fmap_2 info_key) in Ht. rewrite Hk in Ht. apply subseteq_take in Ht.
  apply list_elem_of_filter in Ht as [Hkept%Is_true_true (b & (i & _ & Hi)%elem_block_keys & _)%list_elem_of_bind].
  cbn [tq_cursor pos_kept info_key fst] in Hkept, Hi. injection Hi as Hh Hi. revert Hkept.
  unfold txns_to_skip, pair_leb. cbn [cursor_inner before_inner info_key fst snd pos_block pos_txn]. lia.
Qed.
End listing.
