(* ===== verification/RpcRoutes.v ===== *)
(** The routes of the node's RPC server (pkg/node/src: rpc/routes/*.rs,
    rpc/http_error.rs, rpc/stats.rs, the reads of node.rs they use, the waiting
    loop of node/transaction.rs) with the errors and status codes they answer
    (pkg/node-interface/src/error.rs, pkg/rpc/src/code.rs).

    Routing, JSON and logging are actix and serde.  Parameters: the parsers of
    hashes, numbers and of [U256] in base 16, chrono's calendar ([naive_date],
    the day of a timestamp), the clock. *)
From Stdlib Require Import Ascii.
From S2P Require Import Prelude Pagination Element MerkleHash HashCache SmirkBatch SmirkNode.
From S2P Require Import SmirkNodeSpec SmirkTree SmirkPath SmirkStorage Utxo BlockStore Crypto.
From S2P Require Import NodeBlock Mempool BlockCache NodeCommit NodeSync RpcTxns.

(** * Errors and status codes *)

Inductive RouteError :=
| RouteNode (e : NodeError)
| ElementNotFound (e : Element)
| TxnNotFound (e : Element)
| ElementNotInTxn (e : Element) (block_height : Z)
| BlockNotFound (block : Z)
| BlockHashNotFound (block : list Z)
| InvalidElement (s : string)
| RouteOutOfSync
| StatisticsNotReady
| RouteInvalidProof.

Inductive ErrorCode :=
| BadRequest | InvalidArgument | FailedPrecondition | OutOfRange | Unauthenticated | PermissionDenied
| NotFound | Aborted | AlreadyExists | ResourceExhausted | Cancelled | PayloadTooLarge | Unavailable
| Internal | DeadlineExceeded.

Definition status_code (c : ErrorCode) : Z :=
  match c with
  | BadRequest | InvalidArgument | FailedPrecondition | OutOfRange => 400
  | Unauthenticated => 401
  | PermissionDenied => 403
  | NotFound => 404
  | Aborted | AlreadyExists => 409
  | ResourceExhausted => 429
  | Cancelled => 406
  | PayloadTooLarge => 413
  | Unavailable => 503
  | Internal => 500
  | DeadlineExceeded => 504
  end.

(** The codes and reasons of [RpcError]; the other errors of the node are internal. *)
Definition node_error_code (e : NodeError) : ErrorCode * string :=
  match e with
  | InvalidProof => (BadRequest, "invalid-proof"%string)
  | ConflictingElementsInBlock _ => (AlreadyExists, "conflicting-elements"%string)
  | TxnOutputCommitmentsExist _ => (AlreadyExists, "output-commitments-exists"%string)
  | TxnInputCommitmentsNotInTree _ => (NotFound, "input-commitments-not-found"%string)
  | TxnOutputCommitmentsExistedRecently _ => (AlreadyExists, "output-commitments-existed-recetly"%string)
  | MintIsNotInTheContract _ => (NotFound, "mint-not-in-contract"%string)
  | MintIsAlreadySpent _ => (AlreadyExists, "mint-is-already-spent"%string)
  | MintInContractIsDifferent _ _ _ _ => (BadRequest, "mint-in-contract-is-different"%string)
  | TxnDuplicateInputCommitments _ => (BadRequest, "duplicate-input-commitments"%string)
  | TxnDuplicateOutputCommitments _ => (BadRequest, "duplicate-output-commitments"%string)
  | TxnCommitmentAlreadyPending _ => (AlreadyExists, "commitment-already-pending"%string)
  | InvalidElementSize _ => (BadRequest, "invalid-element-size"%string)
  | MintHashAlreadyExists _ => (AlreadyExists, "mint-hash-already-exists"%string)
  | _ => (Internal, "internal"%string)
  end.
Definition http_error (e : RouteError) : ErrorCode * string :=
  match e with
  | RouteNode e => node_error_code e
  | ElementNotFound _ => (NotFound, "element-not-found"%string)
  | TxnNotFound _ => (NotFound, "txn-not-found"%string)
  | ElementNotInTxn _ _ | BlockNotFound _ | BlockHashNotFound _ => (Internal, "internal"%string)
  | InvalidElement _ => (BadRequest, "invalid-element"%string)
  | RouteOutOfSync => (Unavailable, "out-of-sync"%string)
  | StatisticsNotReady => (Unavailable, "statistics-not-ready"%string)
  | RouteInvalidProof => (BadRequest, "invalid-proof"%string)
  end.

(** * Requests and responses *)

(** [str::split(',')]: always at least one piece. *)
Fixpoint split_comma (s : string) : list string :=
  match s with
  | EmptyString => [EmptyString]
  | String c rest =>
      if Ascii.eqb c ","%char then EmptyString :: split_comma rest
      else match split_comma rest with
           | piece :: pieces => String c piece :: pieces
           | [] => [String c EmptyString]
           end
  end.
(** [Element::from_str]. *)
Definition strip_0x (s : string) : string :=
  match s with String "0" (String "x" rest) => rest | _ => s end.
Definition element_from_str (from_str_radix : string → option Z) (s : string) : option Element :=
  from_str_radix (strip_0x s).

Record ElementsResponseSingle := mk_element_response {
  er_element : Element;
  er_height : Z;
  er_root_hash : Element;
  er_txn_hash : Element;
  er_spent : bool;
}.
Record ElementSeenInfo := mk_seen_info {
  input_height : option Z;
  output_height : Z;
  input_block_hash : option (list Z);
  output_block_hash : list Z;
  seen_spent : bool;
}.

Inductive BlockIdentifier := BlockByHash (x : list Z) | BlockByHeight (h : Z).
(** [BlockIdentifier::deserialize]: 64 characters are a hash. *)
Definition block_identifier (parse_hash : string → option (list Z)) (parse_u64 : string → option Z) (s : string)
  : option BlockIdentifier :=
  if (String.length s =? 64)%nat then BlockByHash <$> parse_hash s else BlockByHeight <$> parse_u64 s.

(** [Block::from_node_block] with the hash and time beside it. *)
Record BlockWithInfo := mk_block_info {
  bi_header : BlockHeader;
  bi_root_hash : Element;
  bi_txns : list TxnWithInfo;
  bi_signature : list Z;
  bi_hash : list Z;
  bi_time : Z;
}.

Record ListBlocksQuery := mk_blocks_query {
  bq_limit : option nat;
  bq_cursor : option (CursorChoice Z);
  bq_order : BlockListOrder;
  bq_skip_empty : bool;
}.

Section routes.
Context `{FieldLib, CryptoLib}.
Implicit Types (node : NodeShared) (b : Block).

(** ** Reads of node.rs *)

Definition node_get_block node (h : Z) : outcome NodeError (option BlockFormat) :=
  map_err BlockStoreError (store_get (block_store node) h).
Definition get_block_by_hash node (x : list Z) : outcome NodeError (option BlockFormat) :=
  let? h := map_err BlockStoreError (get_block_height_by_hash (block_store node) x) in
  match h with
  | None => Ok None
  | Some h => node_get_block node h
  end.
Definition get_element_seen_info node (e : Element) : outcome NodeError (option ElementSeenInfo) :=
  let? hist := map_err BlockStoreError (get_element_history (block_store node) e) in
  Ok (match hist.2 with
      | Some out =>
          Some (mk_seen_info (hist_block_height <$> hist.1) (hist_block_height out)
                  (hist_block_hash <$> hist.1) (hist_block_hash out) (bool_decide (is_Some hist.1)))
      | None => None
      end).
Definition node_get_txn node (x : list Z) : outcome NodeError (option (UtxoProof * TxnMetadata)) :=
  let? t := map_err BlockStoreError (get_txn_by_hash (block_store node) x) in
  Ok ((λ f, match f with TxnV1 t m => (t, m) end) <$> t).
Fixpoint node_get_merkle_paths node (es : list Element) : outcome RouteError (list (list Element)) :=
  match es with
  | [] => Ok []
  | e :: es =>
      if negb (contains_element (p_tree (notes_tree node)) e) then Err (ElementNotFound e)
      else
        let? path := match path_for MERKLE_TREE_DEPTH (p_tree (notes_tree node)) e with
                     | Ok p => Ok (siblings_deepest_first p) | Err x => match x with end | Panic m => Panic m
                     end in
        let? paths := node_get_merkle_paths node es in
        Ok (path :: paths)
  end.

(** ** /elements *)

Definition holds_commitment (e : Element) (t : UtxoProof) : bool :=
  bool_decide (e ∈ commitments (public_inputs t)).

Definition get_element_response_unspent node (e : Element) : outcome RouteError ElementsResponseSingle :=
  match tree_entries (p_tree (notes_tree node)) !! e with
  | None => Err (ElementNotFound e)
  | Some meta =>
      let? block := map_err RouteNode (node_get_block node (inserted_in meta)) in
      match block with
      | None => Err (BlockNotFound (inserted_in meta))
      | Some f =>
          let b := into_block f in
          match List.find (holds_commitment e) (state_txns (bstate b)) with
          | None => Err (ElementNotInTxn e (bheight b))
          | Some t => Ok (mk_element_response e (inserted_in meta) (root (bstate b)) (txn_hash t) false)
          end
      end
  end.

Definition get_element_response_from_history node (e : Element) : outcome RouteError ElementsResponseSingle :=
  let? info := map_err RouteNode (get_element_seen_info node e) in
  match info with
  | None => Err (ElementNotFound e)
  | Some info =>
      let? block := map_err RouteNode (get_block_by_hash node (output_block_hash info)) in
      match block with
      | None => Err (BlockNotFound (output_height info))
      | Some f =>
          let b := into_block f in
          match List.find (holds_commitment e) (state_txns (bstate b)) with
          | None => Err (ElementNotInTxn e (output_height info))
          | Some t =>
              Ok (mk_element_response e (output_height info) (root (bstate b)) (txn_hash t) (seen_spent info))
          end
      end
  end.

Definition get_element_response node (e : Element) (include_spent : bool) : outcome RouteError ElementsResponseSingle :=
  match get_element_response_unspent node e with
  | Err (ElementNotFound x) =>
      if include_spent then get_element_response_from_history node e else Err (ElementNotFound x)
  | r => r
  end.

Definition get_element node (e : Element) : outcome RouteError ElementsResponseSingle :=
  get_element_response node e false.

Section parsing.
Context (from_str_radix : string → option Z).

Fixpoint parse_elements (pieces : list string) : outcome RouteError (list Element) :=
  match pieces with
  | [] => Ok []
  | s :: rest =>
      let? e := ok_or (element_from_str from_str_radix s) (InvalidElement s) in
      let? es := parse_elements rest in
      Ok (e :: es)
  end.

(** Elements that are not found are left out; any other error is the answer. *)
Fixpoint element_responses node (include_spent : bool) (es : list Element)
  : outcome RouteError (list ElementsResponseSingle) :=
  match es with
  | [] => Ok []
  | e :: es =>
      match get_element_response node e include_spent with
      | Ok r => let? rest := element_responses node include_spent es in Ok (r :: rest)
      | Err (ElementNotFound _) => element_responses node include_spent es
      | Err err => Err err
      | Panic m => Panic m
      end
  end.
Definition list_elements node (elements : string) (include_spent : bool)
  : outcome RouteError (list ElementsResponseSingle) :=
  if decide (elements = EmptyString) then Ok []
  else let? es := parse_elements (split_comma elements) in element_responses node include_spent es.

Definition get_merkle_paths node (commitments : string) : outcome RouteError (list (list Element)) :=
  let? es := parse_elements (split_comma commitments) in node_get_merkle_paths node es.
End parsing.

(** ** /smirk/elements/all, /height, /health *)

Definition get_all_smirk_elements node : list (Element * Z) :=
  (λ em, (em.1, inserted_in em.2)) <$> map_to_list (tree_entries (p_tree (notes_tree node))).

Definition get_height node : Z * Element := (node_height node, node_root_hash node).

(** [elapsed] is what the monotonic clock says of the last commit. *)
Definition get_health (interval_sec : Z) (elapsed : Z → Z) node : outcome RouteError Z :=
  let? out := node_is_out_of_sync node in
  if out : bool then Err RouteOutOfSync
  else if match last_commit node with None => true | Some at_ => interval_sec <? elapsed at_ end
  then Err RouteOutOfSync
  else Ok (node_height node).

(** ** /blocks *)

Definition block_info {E} (now : Z → nat → Z) (max_h : Z) (f : BlockFormat) : outcome E BlockWithInfo :=
  let? bm := upgraded f in
  let b := bm.1 in
  let time := default (estimate_block_time (now (bheight b) 0%nat) (bheight b) max_h) (timestamp_unix_s bm.2) in
  Ok (mk_block_info (header (content b)) (root (bstate b))
        (imap (λ i t, mk_txn_info t (Z.of_nat i) (txn_hash t) (bheight b) time) (state_txns (bstate b)))
        (blk_signature b) (hash b) time).

Definition get_block (now : Z → nat → Z) node (id : BlockIdentifier) : outcome RouteError BlockWithInfo :=
  let? f := match id with
            | BlockByHeight h =>
                let? o := map_err RouteNode (node_get_block node h) in ok_or o (BlockNotFound h)
            | BlockByHash x =>
                let? o := map_err RouteNode (get_block_by_hash node x) in ok_or o (BlockHashNotFound x)
            end in
  block_info now (node_max_height node) f.

Definition list_blocks (now : Z → nat → Z) node (q : ListBlocksQuery)
  : outcome NodeError (Cursor Z * list BlockWithInfo) :=
  let limit := Nat.min (default 10%nat (bq_limit q)) 100 in
  let? blocks := (if bq_skip_empty q then fetch_blocks_non_empty_paginated else fetch_blocks_paginated)
                   node (bq_cursor q) (bq_order q) limit in
  let max_h := node_max_height node in
  let '(cursor, blocks) :=
    paginator_collect (λ r, match r with Ok b => Some (height (bi_header b)) | _ => None end)
      ((λ r : outcome NodeError BlockFormat, let? f := r in block_info now max_h f) <$> blocks) in
  let? blocks := blocks in
  Ok (cursor, blocks).

(** ** /transactions/{hash} *)

Definition get_txn (now : Z) node (x : Element) : outcome RouteError TxnWithInfo :=
  let? o := map_err RouteNode (node_get_txn node (to_be_bytes x)) in
  let? tm := ok_or o (TxnNotFound x) in
  let m := tm.2 in
  Ok (mk_txn_info tm.1 (tm_block_txn_index m) x (tm_block_height m)
        (default (estimate_block_time now (tm_block_height m) (node_max_height node)) (tm_block_time m))).

(** ** Submitting a transaction *)

(** The first loop of [submit_transaction_and_wait]: each round validates and,
    while the mint is not in the contract, reads the Ethereum height; [None]
    when it is still waiting after the given rounds. *)
Fixpoint wait_until_valid (safe_eth_height_offset : Z) (started : option Z)
    (rounds : list (outcome NodeError unit * outcome NodeError Z)) : option (outcome NodeError unit) :=
  match rounds with
  | [] => None
  | (Ok _, _) :: _ => Some (Ok tt)
  | (Panic m, _) :: _ => Some (Panic m)
  | (Err (MintIsNotInTheContract e), Ok current) :: rest =>
      let started := default current started in
      let waited_too_long := safe_eth_height_offset <? wrap 64 (current - started) in
      if (safe_eth_height_offset =? 0) || waited_too_long then Some (Err (MintIsNotInTheContract e))
      else wait_until_valid safe_eth_height_offset (Some started) rest
  | (Err (MintIsNotInTheContract e), Err x) :: _ => Some (Err x)
  | (Err (MintIsNotInTheContract e), Panic m) :: _ => Some (Panic m)
  | (Err e, _) :: _ => Some (Err e)
  end.

(** The route: [mined] is what [submit_transaction_and_wait] returns. *)
Definition submit_txn (proof_verify : UtxoProof → bool) (t : UtxoProof) (mined : outcome NodeError Block)
  : outcome RouteError (Z * Element * Element) :=
  if negb (proof_verify t) then Err RouteInvalidProof
  else let? b := map_err RouteNode mined in Ok (bheight b, root (bstate b), txn_hash t).

(** ** /stats *)

(** [TxnStats] and its worker. *)
Record TxnStats := mk_stats { stats_ready : bool; stats_last_7_days : list (Z * Z) }.
Definition stats_new : TxnStats := mk_stats false [].

Definition to_i64 (t : Z) : Z := if decide (t < 2 ^ 63) then t else t - 2 ^ 64.

Section stats.
Context (naive_date : Z → option Z) (now : Z → nat → Z).

Fixpoint count_txns (max_h earliest_date : Z) (blocks : list (outcome NodeError BlockFormat)) (acc : gmap Z Z)
  : outcome NodeError (gmap Z Z) :=
  match blocks with
  | [] => Ok acc
  | r :: rest =>
      let? f := r in
      let b := into_block f in
      let time := match timestamp_unix_s (format_metadata f) with
                  | Some t => t
                  | None => estimate_block_time (now (bheight b) 0%nat) (bheight b) max_h
                  end in
      let? date := unwrap (naive_date (to_i64 time)) "unwrap on None" in
      if date <? earliest_date then Ok acc
      else
        let count := wrap 64 (default 0 (acc !! date) + Z.of_nat (length (state_txns (bstate b)))) in
        count_txns max_h earliest_date rest (<[date := count]> acc)
  end.

Definition refresh_last_7_days node (last_day : Z) : outcome NodeError (list (Z * Z)) :=
  let? txns_by_days :=
    count_txns (node_max_height node) (last_day - 7)
      (fetch_blocks_non_empty node Unbounded Unbounded HighestToLowest) ∅ in
  Ok ((λ i, (last_day - i, default 0 (txns_by_days !! (last_day - i)))) <$> reverse (seqZ 0 7)).

(** One round of the worker; an error is logged. *)
Definition stats_round node (today : Z) (s : TxnStats) : outcome Empty_set TxnStats :=
  match refresh_last_7_days node (today - 1) with
  | Ok days => Ok (mk_stats true days)
  | Err _ => Ok (mk_stats true (stats_last_7_days s))
  | Panic m => Panic m
  end.
End stats.

Definition get_stats (s : TxnStats) : outcome RouteError (list (Z * Z)) :=
  if negb (stats_ready s) then Err StatisticsNotReady else Ok (stats_last_7_days s).
End routes.
