(* ===== verification/RpcErrors.v ===== *)
(** Errors on the wire: pkg/rpc/src/error.rs (HTTP errors and their JSON), the
    derive macro of pkg/rpc-error-convert (conversion of an error enumeration to
    HTTP errors and back) and the enumeration [RpcError] of
    pkg/node-interface/src/error.rs it is applied to.

    The macro is modelled on a description of the enumeration: its variants
    with their attributes and fields.  A value of it is a variant with the JSON
    of its fields; which JSON a field type accepts is the parameter [accepts]. *)
From S2P Require Import Prelude Pagination Element Utxo BlockStore Crypto NodeBlock.
From S2P Require Import RpcRoutes.

(** * HTTP errors *)

Inductive json :=
| JNull
| JAtom (s : string)
| JArray (l : list json)
| JObject (l : list (string * json)).

Inductive Severity := SevWarn | SevError.

(** [he_source]: the messages of the source error and of its causes, in turn. *)
Record HTTPError := mk_http_error {
  he_code : ErrorCode;
  he_reason : string;
  he_source : option (string * list string);
  he_data : option json;
  he_severity : Severity
}.

Record ErrorDetail := mk_detail {
  ed_code : ErrorCode; ed_reason : string; ed_message : string; ed_data : option json }.
Record ErrorOutput := mk_output { eo_error : ErrorDetail }.

Inductive TryFromHTTPError :=
| NoRpcErrorExpected (o : ErrorOutput)
| UnknownReason (reason : string)
| DeserializationError
| MissingData.

(** The data of an error is what its serialisation gives, which may fail. *)
Definition new_with_severity (code : ErrorCode) (reason : string) (source : option (string * list string))
  (data : option (option json)) (severity : Severity) : HTTPError :=
  mk_http_error code reason source
    (match data with Some (Some value) => Some value | Some None => None | None => None end) severity.
Definition http_new code reason source data : HTTPError :=
  new_with_severity code reason source data SevError.
Definition http_internal (err : string * list string) : HTTPError :=
  http_new Internal "internal" (Some err) None.
Definition http_not_found reason source data : HTTPError := http_new NotFound reason source data.
Definition http_bad_request reason source data : HTTPError := http_new BadRequest reason source data.
Definition permission_denied : HTTPError := http_new PermissionDenied "permission-denied" None None.
Definition of_eyre (err : string * list string) : HTTPError :=
  http_new Internal "internal-error" (Some err) None.

Definition http_message (self : HTTPError) : string :=
  match he_source self with Some (m, _) => m | None => ""%string end.
Definition http_sources (self : HTTPError) : list string :=
  match he_source self with Some (m, causes) => m :: causes | None => [] end.
Definition newline : string := String (Ascii.ascii_of_nat 10) EmptyString.
Definition http_report (self : HTTPError) : string :=
  foldl (λ output source, output ++ newline ++ "  Caused by: " ++ source)%string
    (http_message self) (http_sources self).

Definition output_of (value : HTTPError) : ErrorOutput :=
  mk_output (mk_detail (he_code value) (he_reason value) (http_message value) (he_data value)).

(** [error_response]: the status and the body. *)
Definition error_response (self : HTTPError) : Z * ErrorOutput :=
  (status_code (he_code self), output_of self).
Definition not_found_error_handler : Z * ErrorOutput :=
  error_response (http_new NotFound "not-found" None None).

(** The body as text and read again: JSON has no difference between a missing
    and a null [data]. *)
Definition over_the_wire (o : ErrorOutput) : ErrorOutput :=
  let d := eo_error o in
  mk_output (mk_detail (ed_code d) (ed_reason d) (ed_message d)
    (match ed_data d with Some JNull => None | data => data end)).

(** * The derive macro *)

Inductive Fields := Unit | Unnamed (n : nat) | Named (names : list string).
Record Variant := mk_variant {
  v_ident : string;
  v_attrs : list (string * string);
  v_fields : Fields
}.

Fixpoint find_http_error_attr (attrs : list (string * string)) : option (ErrorCode * string) :=
  match attrs with
  | [] => None
  | (path, str) :: attrs =>
      if decide (path = "bad_request"%string) then Some (BadRequest, str)
      else if decide (path = "not_found"%string) then Some (NotFound, str)
      else if decide (path = "already_exists"%string) then Some (AlreadyExists, str)
      else if decide (path = "failed_precondition"%string ∨ path = "internal"%string)
      then Some (FailedPrecondition, str)
      else find_http_error_attr attrs
  end.

(** A value of the enumeration: the position of its variant, the JSON of its
    fields and the text it displays. *)
Record EnumError := mk_enum_error { ee_variant : nat; ee_args : list json }.

(** The data of a variant: the field itself, a tuple or a struct. *)
Definition variant_data (fs : Fields) (args : list json) : option json :=
  match fs with
  | Unit => None
  | Unnamed 1 => head args
  | Unnamed _ => Some (JArray args)
  | Named names => Some (JObject (zip names args))
  end.

Section macro.
Context (variants : list Variant).
Context (display : EnumError → string).
Context (accepts : string → nat → json → bool).

Definition to_http (err : EnumError) : HTTPError :=
  match variants !! ee_variant err with
  | Some v =>
      match find_http_error_attr (v_attrs v) with
      | Some (error_code, error_code_str) =>
          http_new error_code error_code_str (Some (display err, []))
            (Some <$> variant_data (v_fields v) (ee_args err))
      | None => http_new Internal "internal" (Some (display err, [])) None
      end
  | None => http_new Internal "internal" (Some (display err, [])) None
  end.

Fixpoint accept_all (v : string) (i : nat) (args : list json) : bool :=
  match args with [] => true | a :: args => accepts v i a && accept_all v (S i) args end.

Fixpoint take_fields (names : list string) (obj : list (string * json)) : option (list json) :=
  match names with
  | [] => Some []
  | name :: names =>
      match list_find (λ p, p.1 = name) obj with
      | Some (_, (_, value)) => (value ::.) <$> take_fields names obj
      | None => None
      end
  end.

(** [serde_json::from_value] into the data of the variant. *)
Definition variant_args (v : Variant) (data : json) : option (list json) :=
  let args := match v_fields v, data with
    | Unit, _ => None
    | Unnamed 1, value => Some [value]
    | Unnamed n, JArray l => if decide (length l = n) then Some l else None
    | Named names, JObject obj => take_fields names obj
    | _, _ => None
    end in
  match args with
  | Some l => if accept_all (v_ident v) 0 l then Some l else None
  | None => None
  end.

(** The arm of a reason: the first variant with it. *)
Fixpoint find_reason (i : nat) (vs : list Variant) (reason : string) : option (nat * Variant) :=
  match vs with
  | [] => None
  | v :: vs =>
      match find_http_error_attr (v_attrs v) with
      | Some (_, error_code_str) =>
          if decide (error_code_str = reason) then Some (i, v) else find_reason (S i) vs reason
      | None => find_reason (S i) vs reason
      end
  end.

Definition try_from_http (http_error : HTTPError) : outcome TryFromHTTPError EnumError :=
  match find_reason 0 variants (he_reason http_error) with
  | Some (i, v) =>
      match v_fields v with
      | Unit => Ok (mk_enum_error i [])
      | _ =>
          match he_data http_error with
          | Some data =>
              let? args := ok_or (variant_args v data) DeserializationError in
              Ok (mk_enum_error i args)
          | None => Err MissingData
          end
      end
  | None => Err (UnknownReason (he_reason http_error))
  end.

Definition try_from_output (error_output : ErrorOutput) : outcome TryFromHTTPError EnumError :=
  let d := eo_error error_output in
  try_from_http (http_new (ed_code d) (ed_reason d) None (Some <$> ed_data d)).

(** ** Errors come back *)

(** The reasons of the variants that have one. *)
Definition reasons : list string :=
  omap (λ v, snd <$> find_http_error_attr (v_attrs v)) variants.

(** A value of the enumeration: as many fields as its variant has, of the right
    types; a lone field is not null. *)
Definition wf_error (e : EnumError) (v : Variant) : Prop :=
  variants !! ee_variant e = Some v ∧ accept_all (v_ident v) 0 (ee_args e) = true ∧
  match v_fields v with
  | Unit => ee_args e = []
  | Unnamed n => length (ee_args e) = n ∧ (0 < n)%nat ∧ (n = 1%nat → ee_args e ≠ [JNull])
  | Named names => length (ee_args e) = length names ∧ NoDup names
  end.

Lemma find_reason_spec vs off i v code reason :
  NoDup (omap (λ v, snd <$> find_http_error_attr (v_attrs v)) vs) →
  vs !! i = Some v → find_http_error_attr (v_attrs v) = Some (code, reason) →
  find_reason off vs reason = Some ((off + i)%nat, v).
Proof.
  revert off i. induction vs as [|w vs IH]; intros off i Hnd Hv Ha; [done|].
  destruct i as [|i]; cbn [lookup list_lookup] in Hv.
  - injection Hv as ->. cbn [find_reason]. rewrite Ha, decide_True, Nat.add_0_r by done. done.
  - cbn [find_reason]. cbn [omap list_omap] in Hnd.
    replace (off + S i)%nat with (S off + i)%nat by lia.
    destruct (find_http_error_attr (v_attrs w)) as [[c r]|]; cbn in Hnd; [|by apply IH].
    apply NoDup_cons in Hnd as [Hni Hnd]. rewrite decide_False; [by apply IH|].
    intros ->. apply Hni. apply list_elem_of_omap. exists v. split; [by eapply list_elem_of_lookup_2|].
    by rewrite Ha.
Qed.

Lemma take_fields_skip name value names obj :
  name ∉ names → take_fields names ((name, value) :: obj) = take_fields names obj.
Proof.
  induction names as [|n names IH]; intros Hni; [done|]. cbn [take_fields list_find].
  apply not_elem_of_cons in Hni as [Hne Hni]. rewrite decide_False by (cbn; congruence).
  rewrite IH by done. by destruct (list_find _ obj) as [[? [? ?]]|].
Qed.

Lemma take_fields_zip names args :
  NoDup names → length args = length names → take_fields names (zip names args) = Some args.
Proof.
  revert args. induction names as [|n names IH]; intros [|a args] Hnd Hl; try done.
  apply NoDup_cons in Hnd as [Hni Hnd]. cbn [zip zip_with]. cbn [take_fields list_find].
  rewrite decide_True by done. rewrite take_fields_skip, IH by (done || by injection Hl). done.
Qed.

(** The data of a value is read back to its fields. *)
Lemma variant_args_data e v data :
  wf_error e v → variant_data (v_fields v) (ee_args e) = Some data →
  variant_args v data = Some (ee_args e) ∧ data ≠ JNull.
Proof.
  intros (_ & Hacc & Hf). unfold variant_data, variant_args.
  destruct (v_fields v) as [|n|names].
  - done.
  - destruct Hf as (Hl & Hpos & Hnull). destruct n as [|[|n]]; [lia| |].
    + destruct (ee_args e) as [|a [|]]; try done. cbn [head]. intros [= <-]. rewrite Hacc.
      split; [done|]. intros ->. by apply Hnull.
    + intros [= <-]. rewrite decide_True, Hacc by done. done.
  - destruct Hf as [Hl Hnd]. intros [= <-]. rewrite take_fields_zip, Hacc by done. done.
Qed.

(** Every error with an attribute survives the way from the server to the
    client, when no two variants have the same reason. *)
Theorem errors_survive_the_wire e v code reason :
  NoDup reasons → wf_error e v → find_http_error_attr (v_attrs v) = Some (code, reason) →
  try_from_output (over_the_wire (error_response (to_http e)).2) = Ok e ∧
  (error_response (to_http e)).1 = status_code code.
Proof.
  intros Hnd Hwf Ha. pose proof Hwf as (Hv & _ & Hf).
  unfold error_response, output_of, to_http. rewrite Hv, Ha. split; [|done].
  unfold try_from_output, over_the_wire, try_from_http.
  cbn [http_new new_with_severity eo_error ed_code ed_reason ed_message ed_data he_code he_reason he_source
    he_data snd fst].
  rewrite (find_reason_spec variants 0 (ee_variant e) v code reason Hnd Hv Ha). cbn [Nat.add].
  destruct (variant_data (v_fields v) (ee_args e)) as [data|] eqn:Hd; cbn [fmap option_fmap option_map].
  - destruct (variant_args_data e v data Hwf Hd) as [Hargs Hnull].
    destruct (v_fields v) as [|n|names] eqn:Hfs; [done|..]; destruct data; try done;
      cbn [fmap option_fmap option_map]; rewrite Hargs; by destruct e.
  - unfold variant_data in Hd. destruct (v_fields v) as [|n|names]; [|destruct n as [|[|]]|]; try done.
    + destruct e as [i args]. cbn in *. by subst.
    + destruct Hf as (Hl & _). by destruct (ee_args e).
Qed.

(** A variant without an attribute reaches the client only as a reason that is
    not known. *)
Theorem unmarked_error_is_unknown e v :
  variants !! ee_variant e = Some v → find_http_error_attr (v_attrs v) = None →
  "internal"%string ∉ reasons →
  try_from_output (over_the_wire (error_response (to_http e)).2) = Err (UnknownReason "internal").
Proof.
  intros Hv Ha Hni. unfold error_response, output_of, to_http. rewrite Hv, Ha.
  unfold try_from_output, over_the_wire, try_from_http. cbn.
  assert (Hn : ∀ vs off, "internal"%string ∉ omap (λ v, snd <$> find_http_error_attr (v_attrs v)) vs →
    find_reason off vs "internal" = None).
  { clear. induction vs as [|w vs IH]; intros off Hni; [done|]. cbn [find_reason].
    cbn [omap list_omap] in Hni.
    destruct (find_http_error_attr (v_attrs w)) as [[c r]|]; cbn in Hni; [|by apply IH].
    apply not_elem_of_cons in Hni as [Hne Hni]. rewrite decide_False by congruence. by apply IH. }
  by rewrite Hn.
Qed.
End macro.

(** * [RpcError] *)

Definition single (ident attr reason : string) : Variant := mk_variant ident [(attr, reason)] (Unnamed 1).
Definition nullary (ident attr reason : string) : Variant := mk_variant ident [(attr, reason)] Unit.

Definition RpcError_variants : list Variant := [
  nullary "InvalidProof" "bad_request" "invalid-proof";
  single "TxnRootNotRecentEnough" "already_exists" "txn-root-not-recent-enough";
  single "ConflictingElementsInBlock" "already_exists" "conflicting-elements";
  single "TxnOutputCommitmentsExist" "already_exists" "output-commitments-exists";
  single "TxnInputCommitmentsNotInTree" "not_found" "input-commitments-not-found";
  single "TxnOutputCommitmentsExistedRecently" "already_exists" "output-commitments-existed-recetly";
  single "MintIsNotInTheContract" "not_found" "mint-not-in-contract";
  single "MintIsAlreadySpent" "already_exists" "mint-is-already-spent";
  single "MintInContractIsDifferent" "bad_request" "mint-in-contract-is-different";
  single "TxnDuplicateInputCommitments" "bad_request" "duplicate-input-commitments";
  single "TxnDuplicateOutputCommitments" "bad_request" "duplicate-output-commitments";
  single "TxnCommitmentAlreadyPending" "already_exists" "commitment-already-pending";
  nullary "BurnToAddressCannotBeZero" "bad_request" "burn-to-address-cannot-be-zero";
  single "ElementNotFound" "not_found" "element-not-found";
  single "TxnNotFound" "not_found" "txn-not-found";
  single "InvalidElementSize" "bad_request" "invalid-element-size";
  single "FailedToParseElement" "bad_request" "failed-to-parse-element";
  single "MintHashAlreadyExists" "already_exists" "mint-hash-already-exists"
].

Section rpc_error.
Context (elem_json : Element → json).

(** The JSON of the data of an error. *)
Definition element_data (e : Element) : json := JObject [("element"%string, elem_json e)].
Definition elements_data (es : list Element) : json :=
  JObject [("elements"%string, JArray (elem_json <$> es))].

(** The [RpcError] of an error of the node. *)
Definition rpc_error_of (e : NodeError) : option EnumError :=
  match e with
  | InvalidProof => Some (mk_enum_error 0 [])
  | ConflictingElementsInBlock es => Some (mk_enum_error 2 [elements_data es])
  | TxnOutputCommitmentsExist es => Some (mk_enum_error 3 [elements_data es])
  | TxnInputCommitmentsNotInTree es => Some (mk_enum_error 4 [elements_data es])
  | TxnOutputCommitmentsExistedRecently es => Some (mk_enum_error 5 [elements_data es])
  | MintIsNotInTheContract e => Some (mk_enum_error 6 [element_data e])
  | MintIsAlreadySpent es => Some (mk_enum_error 7 [elements_data es])
  | MintInContractIsDifferent cv ck pv pk =>
      Some (mk_enum_error 8 [JObject [("contract_value", elem_json cv); ("contract_note_kind", elem_json ck);
        ("proof_value", elem_json pv); ("proof_note_kind", elem_json pk)]%string])
  | TxnDuplicateInputCommitments es => Some (mk_enum_error 9 [elements_data es])
  | TxnDuplicateOutputCommitments es => Some (mk_enum_error 10 [elements_data es])
  | TxnCommitmentAlreadyPending es => Some (mk_enum_error 11 [elements_data es])
  | InvalidElementSize e => Some (mk_enum_error 15 [element_data e])
  | MintHashAlreadyExists e => Some (mk_enum_error 17 [element_data e])
  | _ => None
  end.

Context (display : EnumError → string).
Context (accepts : string → nat → json → bool).

(** [From<errors::Error> for HTTPError]. *)
Definition node_http_error (message : string) (e : NodeError) : HTTPError :=
  match rpc_error_of e with
  | Some r => to_http RpcError_variants display r
  | None => http_new Internal "internal" (Some (message, [])) None
  end.

Lemma RpcError_reasons_distinct : NoDup (reasons RpcError_variants).
Proof. apply (bool_decide_unpack _). vm_compute. exact I. Qed.

(** The macro gives the errors of the node the codes and reasons of the routes. *)
Theorem node_errors_agree message e :
  (he_code (node_http_error message e), he_reason (node_http_error message e)) = node_error_code e.
Proof. by destruct e. Qed.

End rpc_error.

