(* ===== verification/RpcRoutesProps.v ===== *)
(** What the routes of the RPC server answer for a node that follows a chain:
    elements, transactions, Merkle paths, blocks, statistics; how long a mint is
    waited for; and the elements a fast synchronisation leaves unanswered. *)
From S2P Require Import Prelude Pagination Element MerkleHash HashCache SmirkBatch SmirkNode.
From S2P Require Import SmirkNodeSpec SmirkTree SmirkPath SmirkStorage Utxo BlockStore Crypto.
From S2P Require Import NodeBlock Mempool BlockCache NodeCommit NodeLedger NodeProps NodeSync.
From S2P Require Import RpcTxns RpcTxnsProps RpcRoutes.

Section routes_props.
Context `{FieldLib, CryptoLib, !CryptoLaws}.
Context (bad_blocks : list Z) (play : Block → Prop) `{!InPlay play bad_blocks}.
Implicit Types (chain : list Block) (node : NodeShared) (b : Block) (e : Element).
Notation ledger_inv := (ledger_inv play).
Notation node_inv := (node_inv play).

(** * Elements *)

(** The transaction of a block that holds an output of the block. *)
Lemma found_txn chain db p b e :
  ledger_inv chain db p → b ∈ chain → e ∈ block_outs (bstate b) →
  ∃ t, List.find (holds_commitment e) (state_txns (bstate b)) = Some t ∧
    t ∈ state_txns (bstate b) ∧ e ∈ outputs t.
Proof.
  intros Hl Hb He. pose proof (li_disjoint _ _ _ _ Hl b e Hb He) as Hni.
  apply elem_non_zero in He as [Hz (t0 & He0 & Ht0)%list_elem_of_bind].
  destruct (List.find (holds_commitment e) (state_txns (bstate b))) as [t|] eqn:Hfind.
  - exists t. split; [done|]. apply List.find_some in Hfind as [Hin%list_elem_of_In Hc%bool_decide_eq_true].
    split; [done|]. change (commitments (public_inputs t)) with (inputs t ++ outputs t) in Hc.
    apply elem_of_app in Hc as [Hi|]; [|done]. exfalso. apply Hni, elem_non_zero. split; [done|].
    apply list_elem_of_bind. by exists t.
  - pose proof (List.find_none _ _ Hfind t0 (proj1 (list_elem_of_In _ _) Ht0)) as Hn.
    apply bool_decide_eq_false in Hn. destruct Hn. change (e ∈ inputs t0 ++ outputs t0). apply elem_of_app. by right.
Qed.

Lemma get_chain_block chain node b :
  node_inv chain node → b ∈ chain →
  ∃ f, node_get_block node (bheight b) = Ok (Some f) ∧ into_block f = b.
Proof.
  intros Hn Hb. destruct (chain_is_stored play chain _ _ b (ni_ledger _ _ _ Hn) Hb) as (f & Hf & Hfb).
  exists f. unfold node_get_block. by rewrite Hf.
Qed.

(** An unspent element: the tree knows the block. *)
Lemma unspent_answer chain node e :
  node_inv chain node → e ∈ chain_outs chain → e ∉ chain_ins chain →
  ∃ b t, b ∈ chain ∧ t ∈ state_txns (bstate b) ∧ e ∈ outputs t ∧
    get_element_response_unspent node e =
      Ok (mk_element_response e (bheight b) (root (bstate b)) (txn_hash t) false).
Proof.
  intros Hn Ho Hi. pose proof (ni_ledger _ _ _ Hn) as Hl.
  assert (e ∈ dom (tree_entries (p_tree (notes_tree node)))) as [m Hm]%elem_of_dom.
  { rewrite (li_elems _ _ _ _ Hl), elem_of_difference, !elem_of_list_to_set. done. }
  destruct (li_meta _ _ _ _ Hl e m Hm) as (b & Hb & Hbh & Heb).
  destruct (get_chain_block chain node b Hn Hb) as (f & Hf & Hfb).
  destruct (found_txn chain _ _ b e Hl Hb Heb) as (t & Hfind & Ht & Het).
  exists b, t. split_and!; [done..|]. unfold get_element_response_unspent.
  rewrite Hm, <-Hbh, Hf. cbn [map_err outcome_bind]. by rewrite Hfb, Hfind.
Qed.
Lemma unspent_none chain node e :
  node_inv chain node → ¬ (e ∈ chain_outs chain ∧ e ∉ chain_ins chain) →
  get_element_response_unspent node e = Err (ElementNotFound e).
Proof.
  intros Hn Hno. unfold get_element_response_unspent.
  destruct (_ !! e) as [m|] eqn:Hm; [|done]. destruct Hno. apply elem_of_dom_2 in Hm.
  by rewrite (li_elems _ _ _ _ (ni_ledger _ _ _ Hn)), elem_of_difference, !elem_of_list_to_set in Hm.
Qed.

Lemma history_split chain node e :
  node_inv chain node → wf_element e →
  ∃ i o, get_element_history (block_store node) e = Ok (i, o) ∧
    (is_Some o ↔ e ∈ chain_outs chain) ∧ (is_Some i ↔ e ∈ chain_ins chain) ∧
    ∀ d, o = Some d → ∃ b, b ∈ chain ∧ d = mk_history (hash b) (bheight b) ∧ e ∈ block_outs (bstate b).
Proof.
  intros Hn He. pose proof (ni_ledger _ _ _ Hn) as Hl.
  destruct (history_total (block_store node) e HistInput (li_store _ _ _ _ Hl) He) as [i Hi].
  destruct (history_total (block_store node) e HistOutput (li_store _ _ _ _ Hl) He) as [o Ho].
  exists i, o. unfold get_element_history. rewrite Hi, Ho. split; [done|].
  destruct (li_hist _ _ _ _ Hl e He) as [HO HI]. rewrite Ho in HO. rewrite Hi in HI.
  assert (∀ (x : option HistoryData) (l : list Element), (Ok (E := StoreError) x = Ok None ↔ e ∉ l) → is_Some x ↔ e ∈ l) as Hsome.
  { intros x l Hx. rewrite <-not_eq_None_Some. destruct (decide (e ∈ l)) as [Hin|Hin]; [|naive_solver].
    split; [done|]. intros _ ->. by apply Hx. }
  split; [by apply Hsome|]. split; [by apply Hsome|].
  intros d ->. by apply (li_seen _ _ _ _ Hl e HistOutput d).
Qed.

(** Any element of the chain: the history of the store knows the block. *)
Lemma history_answer chain node e :
  node_inv chain node → wf_element e → e ∈ chain_outs chain →
  ∃ b t, b ∈ chain ∧ t ∈ state_txns (bstate b) ∧ e ∈ outputs t ∧
    get_element_response_from_history node e =
      Ok (mk_element_response e (bheight b) (root (bstate b)) (txn_hash t) (bool_decide (e ∈ chain_ins chain))).
Proof.
  intros Hn He Hin. pose proof (ni_ledger _ _ _ Hn) as Hl.
  destruct (history_split chain node e Hn He) as (i & o & Hh & Ho & Hi & Hd).
  destruct (proj2 Ho Hin) as [d ->]. destruct (Hd d eq_refl) as (b & Hb & -> & Heb).
  destruct (get_chain_block chain node b Hn Hb) as (f & Hf & Hfb).
  destruct (found_txn chain _ _ b e Hl Hb Heb) as (t & Hfind & Ht & Het).
  exists b, t. split_and!; [done..|]. unfold get_element_response_from_history, get_element_seen_info.
  rewrite Hh. cbn [map_err outcome_bind snd fst output_block_hash output_height seen_spent hist_block_hash hist_block_height].
  unfold get_block_by_hash. rewrite (li_hash _ _ _ _ Hl b Hb). cbn [map_err outcome_bind]. rewrite Hf. cbn [map_err outcome_bind].
  rewrite Hfb, Hfind. do 3 f_equal. by apply bool_decide_ext.
Qed.

(** C36: An element is answered exactly when the chain created it and it is unspent
    or spent ones are asked for: with the height and root of the block and the
    hash of the transaction that created it, and whether it was spent. *)
Theorem elements_answered chain node e include_spent :
  node_inv chain node → wf_element e →
  if decide (e ∈ chain_outs chain ∧ (e ∈ chain_ins chain → include_spent = true))
  then ∃ b t, b ∈ chain ∧ t ∈ state_txns (bstate b) ∧ e ∈ outputs t ∧
    get_element_response node e include_spent =
      Ok (mk_element_response e (bheight b) (root (bstate b)) (txn_hash t) (bool_decide (e ∈ chain_ins chain)))
  else get_element_response node e include_spent = Err (ElementNotFound e).
Proof.
  intros Hn He. unfold get_element_response.
  destruct (decide (e ∈ chain_outs chain ∧ e ∉ chain_ins chain)) as [[Ho Hi]|Hno].
  - rewrite decide_True by tauto. rewrite bool_decide_eq_false_2 by done.
    destruct (unspent_answer chain node e Hn Ho Hi) as (b & t & Hb & Ht & Het & ->). by exists b, t.
  - rewrite (unspent_none chain node e Hn Hno). destruct include_spent; cycle 1.
    { rewrite decide_False; [done|]. intros [Ho Hi]. apply Hno. split; [done|]. by intros ?%Hi. }
    case_decide as Hc; [apply history_answer; [done|done|apply Hc]|].
    destruct (history_split chain node e Hn He) as (i & o & Hh & Ho & _).
    unfold get_element_response_from_history, get_element_seen_info. rewrite Hh. cbn [map_err outcome_bind snd].
    destruct o as [d|]; [|done]. destruct Hc. split; [|done]. by apply Ho.
Qed.

(** * Transactions and Merkle paths *)

(** A transaction is found by its hash exactly when the chain has one with that
    hash, and is answered with its place in the chain. *)
Theorem txns_answered chain node now x :
  node_inv chain node →
  (get_txn now node x = Err (TxnNotFound x) ∧
   ∀ b t, b ∈ chain → t ∈ state_txns (bstate b) → to_be_bytes (txn_hash t) ≠ to_be_bytes x) ∨
  ∃ b i t info, get_txn now node x = Ok info ∧ b ∈ chain ∧ state_txns (bstate b) !! i = Some t ∧
    to_be_bytes (txn_hash t) = to_be_bytes x ∧ ti_proof info = t ∧ ti_hash info = x ∧
    ti_block_height info = bheight b ∧ ti_index_in_block info = wrap 32 (Z.of_nat i).
Proof.
  intros Hn. pose proof (ni_ledger _ _ _ Hn) as Hl. unfold get_txn, node_get_txn.
  assert (bytes32 (to_be_bytes x)) as Hx by (split; [apply to_be_bytes_length|apply to_be_bytes_range]).
  destruct (li_txn _ _ _ _ Hl _ Hx) as [[-> Hno]|(b & i & t & m & -> & Hb & Hi & Hh & Hbh & _ & Hidx)].
  - left. done.
  - right. exists b, i, t. eexists. split; [done|]. done.
Qed.

(** Merkle paths are answered exactly when all elements are in the tree, and
    each leads from its element to the current root. *)
Theorem merkle_paths_lead_to_root chain node es :
  node_inv chain node →
  if decide (Forall (λ e, contains_element (p_tree (notes_tree node)) e = true) es)
  then ∃ paths, node_get_merkle_paths node es = Ok paths ∧
    Forall2 (λ e path, compute_merkle_root e e path = node_root_hash node) es paths
  else ∃ e, e ∈ es ∧ contains_element (p_tree (notes_tree node)) e = false ∧
    node_get_merkle_paths node es = Err (ElementNotFound e).
Proof.
  intros Hn. pose proof (wp_tree _ _ (li_tree _ _ _ _ (ni_ledger _ _ _ Hn))) as Hwf.
  induction es as [|e es IH]; cbn [node_get_merkle_paths].
  { rewrite decide_True by constructor. by exists []. }
  destruct (contains_element _ e) eqn:He; cbn [negb]; cycle 1.
  { rewrite decide_False by (rewrite Forall_cons, He; by intros []). exists e. split; [by left|done]. }
  rewrite (path_for_ok _ _ e Hwf). cbn [outcome_bind].
  destruct (decide (Forall _ es)) as [Hall|Hall].
  - rewrite decide_True by (by constructor). destruct IH as (paths & -> & Hp). eexists. split; [done|].
    constructor; [|done]. pose proof (compute_root_occupant MERKLE_TREE_DEPTH _ e Hwf) as Hr.
    rewrite (occupant_present MERKLE_TREE_DEPTH _ e Hwf) in Hr; [exact Hr|]. by apply contains_true.
  - rewrite decide_False by (by rewrite Forall_cons; intros []). destruct IH as (x & Hx & Hxf & ->).
    exists x. split; [by right|done].
Qed.

(** * Blocks *)

Lemma block_info_ok now max_h f :
  ∃ info, block_info now max_h f = Ok (E := NodeError) info ∧ bi_hash info = hash (into_block f) ∧
    bi_header info = header (content (into_block f)) ∧
    ti_proof <$> bi_txns info = state_txns (bstate (into_block f)).
Proof.
  destruct f as [b|b m]; (eexists; split; [done|]); cbn [bi_hash bi_header bi_txns into_block fst];
    (split; [done|]); (split; [done|]); rewrite fmap_imap;
    apply list_eq; intros i; rewrite list_lookup_imap; by destruct (_ !! i).
Qed.

Lemma fetch_blocks_page_ok chain node cursor order limit (skip_empty : bool) :
  node_inv chain node → wf_cursor cursor →
  ∃ fs, (if skip_empty then fetch_blocks_non_empty_paginated else fetch_blocks_paginated)
          node cursor order limit = Ok (Ok <$> page_of cursor limit fs) ∧
    into_block <$> fs =
      keep (λ b, admits order cursor (bheight b))
        (keep (λ b, negb (skip_empty && (length (state_txns (bstate b)) =? 0)%nat)) (order_list order chain)).
Proof.
  intros Hn Hc. pose proof (ni_ledger _ _ _ Hn) as Hl. destruct skip_empty.
  { destruct (fetch_non_empty_ok bad_blocks play chain node _ cursor order limit Hl Hc) as (fs & Hf & Hfs). by exists fs. }
  destruct (store_list_paginated_spec (block_store node) cursor order limit (li_store _ _ _ _ Hl) Hc)
    as (l & Hlist & Hsort & Hspec).
  assert (∀ h f, (h, f) ∈ l ↔ stored KBlock (block_store node) h f ∧ admits order cursor h = true) as Hspec'.
  { intros h f. rewrite Hspec, (stored_get _ h f (li_store _ _ _ _ Hl)), admits_spec. tauto. }
  exists (order_list order l.*2). split.
  - unfold fetch_blocks_paginated. rewrite Hlist. cbn [map_err outcome_bind]. f_equal.
    rewrite <-order_fmap, page_fmap, <-!list_fmap_compose. apply list_fmap_ext. by intros i [h f].
  - rewrite (keep_all (λ b, negb (false && _))) by done. rewrite keep_order, order_fmap. f_equal.
    apply (chain_blocks_unique bad_blocks play chain _ _ l _ Hl Hsort Hspec').
Qed.

(** A page of blocks: the blocks the cursor admits in the order asked for, the
    empty ones left out when asked, cut to the limit on the side of the cursor;
    its own cursors name the first and the last block. *)
Theorem list_blocks_page chain node now q :
  node_inv chain node → wf_cursor (bq_cursor q) →
  let blocks := page_of (bq_cursor q) (Nat.min (default 10%nat (bq_limit q)) 100)
    (keep (λ b, admits (bq_order q) (bq_cursor q) (bheight b))
      (keep (λ b, negb (bq_skip_empty q && (length (state_txns (bstate b)) =? 0)%nat))
        (order_list (bq_order q) chain))) in
  ∃ infos, list_blocks now node q =
      Ok (mk_cursor (After ∘ bheight <$> last blocks) (Before ∘ bheight <$> head blocks), infos) ∧
    bi_hash <$> infos = hash <$> blocks ∧ bi_header <$> infos = header ∘ content <$> blocks.
Proof.
  intros Hn Hc blocks.
  destruct (fetch_blocks_page_ok chain node (bq_cursor q) (bq_order q)
    (Nat.min (default 10%nat (bq_limit q)) 100) (bq_skip_empty q) Hn Hc) as (fs & Hf & Hfs).
  assert (into_block <$> page_of (bq_cursor q) (Nat.min (default 10%nat (bq_limit q)) 100) fs = blocks) as Hpage.
  { unfold blocks. by rewrite <-page_fmap, Hfs. }
  set (page := page_of _ _ fs) in *.
  assert (∃ infos, (λ r : outcome NodeError BlockFormat, let? f := r in block_info now (node_max_height node) f) <$> (Ok <$> page) =
      Ok <$> infos ∧ bi_hash <$> infos = hash <$> (into_block <$> page) ∧
      bi_header <$> infos = header ∘ content <$> (into_block <$> page)) as (infos & Hinfos & Hh & Hhd).
  { clear. induction page as [|f page IH]; [by exists []|]. destruct IH as (infos & IH1 & IH2 & IH3).
    destruct (block_info_ok now (node_max_height node) f) as (info & Hi & Hih & Hid & _).
    exists (info :: infos). rewrite !fmap_cons, IH1, IH2, IH3. cbn [outcome_bind]. by rewrite Hi, Hih, Hid. }
  rewrite Hpage in Hh, Hhd. exists infos. split; [|done]. unfold list_blocks. rewrite Hf. cbn [outcome_bind].
  rewrite Hinfos, paginator_collect_ok. cbn [outcome_bind].
  assert (bheight <$> blocks = height <$> (bi_header <$> infos)) as Hheights
    by (rewrite Hhd, <-list_fmap_compose; done).
  assert (∀ l : list BlockWithInfo, omap ((λ r : outcome NodeError BlockWithInfo,
      match r with Ok b => Some (height (bi_header b)) | _ => None end) ∘ Ok) l = height <$> (bi_header <$> l)) as ->.
  { intros l. induction l as [|i l IH]; [done|]. simpl. by f_equal. }
  rewrite <-Hheights. do 3 f_equal.
  - rewrite fmap_last. by destruct (last blocks).
  - by destruct blocks.
Qed.

(** * Waiting for a mint *)

(** The rounds of a mint that the contract does not have yet, at the Ethereum
    heights [hs]. *)
Definition absent_rounds e (hs : list Z) : list (outcome NodeError unit * outcome NodeError Z) :=
  (λ h, (Err (MintIsNotInTheContract e), Ok h)) <$> hs.

Lemma wait_rounds offset e h0 hs rest :
  0 < offset → in_width 64 h0 → Forall (λ h, h0 ≤ h < 2 ^ 64) hs →
  wait_until_valid offset (Some h0) (absent_rounds e hs ++ rest) =
    if decide (Forall (λ h, h - h0 ≤ offset) hs) then wait_until_valid offset (Some h0) rest
    else Some (Err (MintIsNotInTheContract e)).
Proof.
  intros Ho Hw Hhs. induction Hhs as [|h hs Hh Hhs IH]; [by rewrite decide_True by constructor|].
  cbn [absent_rounds fmap list_fmap app wait_until_valid from_option id].
  rewrite (wrap_small 64 (h - h0)) by (unfold in_width in *; lia).
  destruct (offset =? 0) eqn:Hz; [lia|]. cbn [orb].
  destruct (Z.ltb_spec offset (h - h0)) as [Hlt|Hge].
  - rewrite decide_False; [done|]. rewrite Forall_cons. lia.
  - fold (absent_rounds e hs). rewrite IH. destruct (decide (Forall _ hs)) as [Hf|Hf].
    + rewrite decide_True by (constructor; [lia|done]). done.
    + rewrite decide_False; [done|]. rewrite Forall_cons. tauto.
Qed.

(** A mint the contract does not show yet is waited for: as long as the
    Ethereum height has not passed the one of the first round by more than the
    confirmation offset the submission goes on waiting and is accepted once
    the contract shows the mint; after that it is refused.  Without an offset
    it is refused at once. *)
Theorem mint_is_waited_for offset e h0 hs rest :
  0 ≤ offset → in_width 64 h0 → Forall (λ h, h0 ≤ h < 2 ^ 64) hs →
  wait_until_valid offset None (absent_rounds e (h0 :: hs) ++ rest) =
    if decide (0 < offset ∧ Forall (λ h, h - h0 ≤ offset) hs)
    then wait_until_valid offset (Some h0) rest
    else Some (Err (MintIsNotInTheContract e)).
Proof.
  intros Ho Hw Hhs. cbn [absent_rounds fmap list_fmap app wait_until_valid from_option id].
  rewrite Z.sub_diag. change (wrap 64 0) with 0.
  destruct (Z.eqb_spec offset 0) as [->|Hne]; [rewrite decide_False by lia; done|].
  replace (offset <? 0) with false by lia. cbn [orb]. fold (absent_rounds e hs).
  rewrite wait_rounds by (lia || done). destruct (decide (Forall _ hs)).
  - by rewrite decide_True by (split; [lia|done]).
  - rewrite decide_False; [done|]. tauto.
Qed.

(** * Statistics *)

Section stats_props.
Context (naive_date : Z → option Z) (now : Z → nat → Z) (max_h : Z).

(** The time of a stored block, and the transactions of a day among blocks. *)
Definition block_time (f : BlockFormat) : Z :=
  match timestamp_unix_s (format_metadata f) with
  | Some t => t
  | None => estimate_block_time (now (bheight (into_block f)) 0%nat) (bheight (into_block f)) max_h
  end.
Definition txns_in (f : BlockFormat) : Z := Z.of_nat (length (state_txns (bstate (into_block f)))).
Definition txns_of_day (date : BlockFormat → Z) (d : Z) (fs : list BlockFormat) : Z :=
  foldr (λ f n, (if date f =? d then txns_in f else 0) + n) 0 fs.
Definition total_txns (fs : list BlockFormat) : Z := foldr (λ f n, txns_in f + n) 0 fs.

Lemma txns_of_day_bound date d fs : 0 ≤ txns_of_day date d fs ≤ total_txns fs.
Proof.
  induction fs as [|f fs IH]; cbn [txns_of_day total_txns foldr]; [lia|]. fold (txns_of_day date d fs) (total_txns fs).
  unfold txns_in. destruct (date f =? d); lia.
Qed.
Lemma txns_of_day_none date d fs : (∀ f, f ∈ fs → date f ≠ d) → txns_of_day date d fs = 0.
Proof.
  induction fs as [|f fs IH]; intros Hne; [done|]. cbn [txns_of_day foldr]. fold (txns_of_day date d fs).
  rewrite IH by (intros; apply Hne; by right). destruct (Z.eqb_spec (date f) d); [|done].
  by destruct (Hne f ltac:(by left)).
Qed.

Lemma count_txns_ok date earliest fs acc :
  (∀ f, f ∈ fs → naive_date (to_i64 (block_time f)) = Some (date f)) →
  StronglySorted (λ f f', date f' ≤ date f) fs →
  (∀ d, 0 ≤ default 0 (acc !! d) ∧ default 0 (acc !! d) + total_txns fs < 2 ^ 64) →
  ∃ m, count_txns naive_date now max_h earliest (Ok <$> fs) acc = Ok m ∧
    ∀ d, earliest ≤ d → default 0 (m !! d) = default 0 (acc !! d) + txns_of_day date d fs.
Proof.
  revert acc. induction fs as [|f fs IH]; intros acc Hdate Hs Hacc.
  { exists acc. split; [done|]. intros d _. cbn. lia. }
  apply StronglySorted_inv in Hs as [Hs Hf]. cbn [fmap list_fmap count_txns outcome_bind]. fold (block_time f).
  rewrite (Hdate f) by (by left). cbn [unwrap outcome_bind].
  destruct (Z.ltb_spec (date f) earliest) as [Hlt|Hge].
  { exists acc. split; [done|]. intros d Hd. rewrite txns_of_day_none; [lia|].
    intros f' [->|Hf']%elem_of_cons; [lia|]. rewrite Forall_forall in Hf. specialize (Hf f' Hf'). simpl in Hf. lia. }
  assert (0 ≤ txns_in f) as Hpos by (unfold txns_in; lia).
  pose proof (txns_of_day_bound date (date f) fs) as Htot. cbn [total_txns foldr] in Hacc. fold (total_txns fs) in Hacc.
  fold (txns_in f).
  rewrite wrap_small by (destruct (Hacc (date f)); unfold in_width; lia).
  destruct (IH (<[date f := default 0 (acc !! date f) + txns_in f]> acc)) as (m & Hm & Hspec); [|done| |].
  - intros. apply Hdate. by right.
  - intros d. rewrite lookup_insert. destruct (Hacc d). case_decide; simplify_eq/=; lia.
  - exists m. split; [done|]. intros d Hd. rewrite (Hspec d Hd), lookup_insert.
    cbn [txns_of_day foldr]. fold (txns_of_day date d fs).
    case_decide as Hdd; [subst; rewrite Z.eqb_refl; cbn; lia|].
    destruct (Z.eqb_spec (date f) d); [done|]. lia.
Qed.
End stats_props.

Lemma fetch_all_non_empty chain node order :
  node_inv chain node →
  ∃ fs, fetch_blocks_non_empty node Unbounded Unbounded order = Ok <$> order_list order fs ∧
    into_block <$> fs = listed_blocks LowestToHighest None chain.
Proof.
  intros Hn. pose proof (ni_ledger _ _ _ Hn) as Hl.
  destruct (key_list_ok KNonEmptyBlock (block_store node) Unbounded Unbounded order (or_intror eq_refl)
              (li_store _ _ _ _ Hl) I I) as (l & Hlist & Hsort & Hspec).
  exists l.*2. split.
  - unfold fetch_blocks_non_empty, store_list_non_empty. rewrite Hlist, <-order_fmap, <-!list_fmap_compose.
    apply list_fmap_ext. by intros i [h f].
  - apply (non_empty_unique bad_blocks play chain _ _ l (λ _, true) Hl Hsort).
    intros h f. rewrite Hspec. simpl. tauto.
Qed.

(** The statistics are exact: when the stored times of the blocks do not
    decrease along the chain, the refresh succeeds and reports, for each of the
    seven days up to the last one, the number of transactions in the blocks of
    that day. *)
Theorem statistics_count_txns chain node naive_date now date last_day :
  node_inv chain node →
  ∃ fs, into_block <$> fs = listed_blocks LowestToHighest None chain ∧
    ((∀ f, f ∈ fs → naive_date (to_i64 (block_time now (node_max_height node) f)) = Some (date f)) →
     StronglySorted (λ f f', date f ≤ date f') fs → total_txns fs < 2 ^ 64 →
     refresh_last_7_days naive_date now node last_day =
       Ok ((λ i, (last_day - i, txns_of_day date (last_day - i) fs)) <$> [6; 5; 4; 3; 2; 1; 0])).
Proof.
  intros Hn. destruct (fetch_all_non_empty chain node HighestToLowest Hn) as (fs & Hf & Hfs).
  exists fs. split; [done|]. intros Hdate Hs Htot. unfold refresh_last_7_days. rewrite Hf.
  unfold order_list. cbn [is_indexed_order].
  destruct (count_txns_ok naive_date now (node_max_height node) date (last_day - 7) (reverse fs) ∅) as (m & Hm & Hspec).
  - intros f. rewrite elem_of_reverse. apply Hdate.
  - by apply sorted_reverse in Hs.
  - intros d. rewrite lookup_empty. cbn [from_option id].
    assert (∀ l l', total_txns (l ++ l') = total_txns l + total_txns l') as Happ.
    { intros l l'. unfold total_txns. induction l as [|f l IH]; [done|]. cbn [foldr app]. rewrite IH. lia. }
    assert (total_txns (reverse fs) = total_txns fs) as ->; [|lia].
    clear -Happ. induction fs as [|f fs IH]; [done|]. rewrite reverse_cons, Happ, IH.
    change (total_txns [f]) with (txns_in f + 0). change (total_txns (f :: fs)) with (txns_in f + total_txns fs). lia.
  - rewrite Hm. cbn [outcome_bind]. f_equal. change (reverse (seqZ 0 7)) with [6; 5; 4; 3; 2; 1; 0].
    assert (∀ d, txns_of_day date d (reverse fs) = txns_of_day date d fs) as Hrev.
    { intros d. assert (∀ l l', txns_of_day date d (l ++ l') = txns_of_day date d l + txns_of_day date d l') as Happ.
      { intros l l'. unfold txns_of_day. induction l as [|f l IH]; [done|]. cbn [foldr app]. rewrite IH. lia. }
      clear -Happ. induction fs as [|f fs IH]; [done|]. rewrite reverse_cons, Happ, IH.
      change (txns_of_day date d (f :: fs)) with (txns_of_day date d ([f] ++ fs)). rewrite Happ. lia. }
    apply list_fmap_ext. intros j i Hi%list_elem_of_lookup_2. f_equal. rewrite (Hspec (last_day - i)), lookup_empty, Hrev; [done|].
    repeat (apply elem_of_cons in Hi as [->|Hi]; [lia|]). by apply elem_of_nil in Hi.
Qed.
End routes_props.

(** * After a fast synchronisation *)

Section fast_unanswered.
Context `{FieldLib, CryptoLib} (temp_noir : bool).
Implicit Types (b : Block) (node : NodeShared) (e : Element).

Lemma fast_insertions_meta last l s s' :
  fast_insertions last l s = Ok s' → Forall (λ em, em.2 = mk_smirk_metadata 0) (entries s.1) →
  Forall (λ em, em.2 = mk_smirk_metadata 0) (entries s'.1).
Proof.
  revert s. induction l as [|e l IH]; intros s; cbn [fast_insertions]; [by intros [= ->]|].
  case_decide; [apply IH|]. case_decide; [intros Hr Hs; by apply (IH _ Hr)|].
  intros (batch & Hb & Hr)%outcome_bind_ok Hs. apply (IH _ Hr).
  unfold batch_insert, batch_collision in Hb. case_decide; [by destruct (find_element_with_lsb _ _ _)|]. injection Hb as <-. cbn [fst entries].
  apply Forall_app. split; [done|]. by apply Forall_singleton.
Qed.
Lemma fast_removals_entries last l s s' : fast_removals last l s = Ok s' → entries s'.1 = entries s.1.
Proof.
  revert s. induction l as [|e l IH]; intros s; cbn [fast_removals]; [by intros [= ->]|].
  case_decide; [apply IH|]. case_decide; [intros Hr; by rewrite (IH _ Hr)|].
  intros (batch & Hb & Hr)%outcome_bind_ok. rewrite (IH _ Hr).
  unfold batch_remove, batch_collision in Hb. case_decide; [by destruct (find_element_with_lsb _ _ _)|]. by injection Hb as <-.
Qed.

(** What a batch written to the tree adds. *)
Lemma insert_batch_source (p p' : PersistentMerkleTree) (batch : Batch SmirkMetadata) r e m :
  persistent_insert_batch MERKLE_TREE_DEPTH temp_noir p batch = (p', r) →
  tree_entries (p_tree p') !! e = Some m → tree_entries (p_tree p) !! e = Some m ∨ (e, m) ∈ entries batch.
Proof.
  unfold persistent_insert_batch. destruct (batch_is_empty _); [intros [= <- _]; by left|].
  assert (∀ t1 r1, tree_insert_without_hashing MERKLE_TREE_DEPTH (p_tree p) (entries batch) (remove_entries batch) = (t1, r1) →
    tree_entries t1 !! e = Some m → tree_entries (p_tree p) !! e = Some m ∨ (e, m) ∈ entries batch) as Hins.
  { intros t1 r1. unfold tree_insert_without_hashing. destruct (nil_b _ && _); [intros [= <- _]; by left|].
    destruct (List.existsb _ _); [intros [= <- _]; by left|]. destruct (List.find _ _); [intros [= <- _]; by left|].
    destruct (List.find _ _); [intros [= <- _]; by left|]. destruct (insert_without_hashing _ _ _ _ _ _) as [n [[]|c|msg]];
      intros [= <- _]; cbn [tree_entries]; [apply apply_entries_source|by left..]. }
  unfold insert_batch. destruct (check_collisions _ _); [|intros [= <- _]; by left..].
  destruct (tree_insert_without_hashing _ _ _ _) as [t1 r1]. specialize (Hins t1 r1 eq_refl).
  destruct r1; [destruct (recalculate_hashes _ _) as [[n c] evs]|..]; intros [= <- _]; exact Hins.
Qed.

(** C38: An element that came with a fast synchronisation is in the tree, but the
    routes for elements cannot answer for it: it is filed under height zero,
    where there is no block.  The request fails with an internal error, whether
    spent elements are asked for or not. *)
Theorem fast_synced_element_unanswered b elements node node' e m include_spent :
  handle_snapshot_chunk_fast temp_noir (Some b) elements node = (node', Ok tt) →
  tree_entries (p_tree (notes_tree node)) !! e = None →
  tree_entries (p_tree (notes_tree node')) !! e = Some m →
  store_get (block_store node) 0 = Ok None →
  get_element_response node' e include_spent = Err (BlockNotFound 0) ∧
  status_code (http_error (BlockNotFound 0)).1 = 500.
Proof.
  intros Hfast Hold Hnew Hstore. split; [|done].
  unfold handle_snapshot_chunk_fast in Hfast.
  destruct (apply_fast_snapshot_chunk _ _ _ _) as [t [[]|x|msg]] eqn:Ha; [|done..].
  assert (notes_tree node' = t ∧ block_store node' = block_store node) as [Ht Hs].
  { revert Hfast. unfold receive_proposal. case_decide; [done|]. intros [= <-]. done. }
  rewrite Ht in Hnew.
  assert (m = mk_smirk_metadata 0) as ->.
  { revert Ha. unfold apply_fast_snapshot_chunk. destruct (root_hash_with _ _ _ _) as [c [x|[]|msg]]; [|done].
    assert (tree_entries (p_tree (set_cache (notes_tree node) c)) !! e = None) as Hold' by done.
    case_decide; [intros [= <-]; congruence|].
    destruct (fast_insertions _ _ _) as [s|x'|msg] eqn:Hi; [|done..].
    destruct (fast_removals _ _ _) as [[batch left]|x'|msg] eqn:Hr; [|done..].
    case_decide; [intros [= <-]; congruence|].
    destruct (persistent_insert_batch _ _ _ _) as [p r] eqn:Hp. intros [= -> _].
    destruct (insert_batch_source _ _ _ _ e m Hp Hnew) as [?|Hin]; [congruence|].
    apply fast_removals_entries in Hr. cbn [fst] in Hr. rewrite Hr in Hin.
    apply fast_insertions_meta in Hi; [|constructor]. rewrite Forall_forall in Hi. exact (Hi _ Hin). }
  unfold get_element_response, get_element_response_unspent. rewrite Ht, Hnew. unfold node_get_block.
  cbn [inserted_in]. by rewrite Hs, Hstore.
Qed.
End fast_unanswered.
