(* ===== verification/RpcWitness.v ===== *)
(** The theorems about the RPC routes applied to a node with one block, and to
    one that synchronised fast. *)
From S2P Require Import Prelude Pagination Element MerkleHash HashCache SmirkBatch SmirkNode.
From S2P Require Import SmirkNodeSpec SmirkTree SmirkStorage Utxo BlockStore Crypto NodeBlock.
From S2P Require Import Mempool BlockCache NodeCommit NodeLedger NodeProps NodeProducer.
From S2P Require Import NodeWitness NodeSync NodeSyncProps NodeSyncWitness RpcTxns RpcTxnsProps.
From S2P Require Import RpcRoutes RpcRoutesProps.

#[local] Opaque txn_hash.

(** * A node with one block *)

Lemma ex_one_block : ∃ node b, node_inv ex_play [b] node ∧ state_txns (bstate b) = [ex_mint] ∧ bheight b = 1.
Proof.
  destruct (ex_started ModeNode) as (node & _ & Hi & _). destruct (ex_peer node Hi) as (peer & Hp & _).
  exists peer, (ex_block (notes_tree node) 1 [ex_mint]). done.
Qed.

Definition ex_now (h : Z) (i : nat) : Z := 1700000000.

Lemma pages_list_every_txn_witness :
  ∃ node b ts, node_inv ex_play [b] node ∧
    walk (λ _, ex_now) (λ _, 1) node (Some 1%nat) NewestToOldest 2 None = Some (Ok ts) ∧
    info_key <$> ts = [(mk_pos 1 0, ex_mint)].
Proof.
  destruct ex_one_block as (node & b & Hn & Hb & Hh). exists node, b.
  assert (all_txns HighestToLowest [b] = [(mk_pos 1 0, ex_mint)]) as Hall.
  { unfold all_txns, order_list. cbn [is_indexed_order reverse rev_append].
    change (block_keys b ++ [] = [(mk_pos 1 0, ex_mint)]). rewrite app_nil_r. unfold block_keys. by rewrite Hb, Hh. }
  destruct (pages_list_every_txn [] ex_play [b] node (λ _, ex_now) (λ _, 1) (Some 1%nat) NewestToOldest 2 Hn)
    as (ts & Hw & Hk & _).
  - done.
  - change (to_block_list_order NewestToOldest) with HighestToLowest. rewrite Hall. cbn [length]. lia.
  - exists ts. split; [done|]. split; [done|]. by rewrite Hk, <-Hall.
Defined.

Lemma ex_outs b : state_txns (bstate b) = [ex_mint] → chain_outs [b] = [100; 101] ∧ chain_ins [b] = [].
Proof.
  intros Hb. unfold chain_outs, chain_ins. cbn [mbind list_bind]. rewrite !app_nil_r.
  unfold block_outs, block_ins. rewrite Hb. split; by vm_compute.
Qed.

Lemma elements_answered_witness :
  ∃ node b t, node_inv ex_play [b] node ∧ 100 ∈ outputs t ∧
    get_element_response node 100 false = Ok (mk_element_response 100 (bheight b) (root (bstate b)) (txn_hash t) false) ∧
    get_element_response node 5 true = Err (ElementNotFound 5).
Proof.
  destruct ex_one_block as (node & b & Hn & Hb & Hh). destruct (ex_outs b Hb) as [Ho Hi].
  pose proof (elements_answered ex_play [b] node 100 false Hn) as H100.
  pose proof (elements_answered ex_play [b] node 5 true Hn) as H5.
  rewrite decide_True in H100; cycle 1.
  { rewrite Ho, Hi. split; [by left|]. by intros []%elem_of_nil. }
  rewrite decide_False in H5; cycle 1.
  { rewrite Ho. intros [Hin _]. revert Hin. apply (bool_decide_unpack (5 ∉ [100; 101])). by vm_compute. }
  destruct H100 as (b' & t & Hb' & Ht & Het & Hr); [by apply (bool_decide_unpack (in_width 256 _))|].
  apply list_elem_of_singleton in Hb' as ->. exists node, b, t. split_and!; [done|done| |].
  - rewrite Hr, Hi. by rewrite bool_decide_eq_false_2 by apply not_elem_of_nil.
  - apply H5. by apply (bool_decide_unpack (in_width 256 _)).
Defined.

(** * A node that synchronised fast *)

(** A block without transactions that states the root [r]. *)
Definition fast_block (r : Element) : Block :=
  mk_block (mk_content (mk_header 9 (replicate 32 0) 0 (replicate 32 0) []) (mk_state r [])) [].

Lemma fast_fit p : tree_entries (p_tree p) = ∅ → changes_fit p [500] [].
Proof.
  intros He. split; rewrite ?He, ?dom_empty_L.
  - repeat constructor; set_solver.
  - intros e [->|[]%elem_of_nil]%elem_of_cons. unfold ZERO. lia.
  - set_solver.
  - by intros e []%elem_of_nil.
  - assert (∀ z, z ∈ (∅ : gset Element) ∪ list_to_set [500] → z = 500) as H500 by (clear; set_solver).
    intros x y Hx%H500 Hy%H500 _. by rewrite Hx, Hy.
Qed.

(** The batch of the note 500, and the root it leads to. *)
Lemma fast_batch p :
  wf_persistent MERKLE_TREE_DEPTH p → tree_entries (p_tree p) = ∅ →
  ∃ b c r p', batch_insert MERKLE_TREE_DEPTH batch_new 500 (mk_smirk_metadata 0) = Ok b ∧
    root_hash_with MERKLE_TREE_DEPTH (p_tree p) [500] [] = (c, Ok r) ∧
    persistent_insert_batch MERKLE_TREE_DEPTH true (set_cache p c) b = (p', Ok tt) ∧
    tree_entries (p_tree p') !! 500 = Some (mk_smirk_metadata 0).
Proof.
  intros Hwf Hent. pose proof (fast_fit _ Hent) as Hfit.
  destruct (batch_insert_ok MERKLE_TREE_DEPTH batch_new 500 (mk_smirk_metadata 0) (batch_new_wf _)) as (b & Hb & Hwb & He & Hr).
  { apply not_elem_of_empty. }
  cbn [batch_new entries remove_entries app] in He, Hr.
  assert (insert_elements b = [500]) as Hie by (unfold insert_elements; by rewrite He).
  pose proof (fit_valid _ _ _ b Hfit Hwb Hie Hr) as Hvb.
  destruct (root_hash_with_ok MERKLE_TREE_DEPTH true _ b (wp_tree _ _ Hwf) Hvb) as (c & Hc & Hcc).
  unfold remove_elements in Hc. rewrite Hie, Hr in Hc.
  destruct (persistent_insert_batch_ok MERKLE_TREE_DEPTH true (set_cache p c) b (set_cache_wf p c Hwf Hcc)
    (fit_valid _ _ _ b (fast_fit (set_cache p c) Hent) Hwb Hie Hr))
    as (p' & Hp' & _ & He').
  exists b, c. eexists. exists p'. split; [exact Hb|]. split; [exact Hc|]. split; [exact Hp'|].
  rewrite He', He, Hr. unfold apply_entries. cbn [foldl]. apply lookup_insert_eq.
Qed.

Lemma fast_sync_ok node :
  node_inv ex_play [] node → n_mode node = ModeNode →
  ∃ r node', handle_snapshot_chunk_fast true (Some (fast_block r)) [500] node = (node', Ok tt) ∧
    tree_entries (p_tree (notes_tree node')) !! 500 = Some (mk_smirk_metadata 0).
Proof.
  intros Hi Hm. pose proof (li_tree _ _ _ _ (ni_ledger _ _ _ Hi)) as Hwf.
  assert (tree_entries (p_tree (notes_tree node)) = ∅) as Hent.
  { apply dom_empty_inv_L. rewrite (li_elems _ _ _ _ (ni_ledger _ _ _ Hi)). clear. set_solver. }
  destruct (fast_batch _ Hwf Hent) as (b & c & r & p' & Hb & Hc & Hp' & He). exists r.
  unfold handle_snapshot_chunk_fast.
  assert (apply_fast_snapshot_chunk true (notes_tree node) (fast_block r) [500] = (p', Ok tt)) as ->.
  { unfold apply_fast_snapshot_chunk. rewrite Hent, dom_empty_L. cbv zeta.
    assert (base.elements (list_to_set [500] ∖ ∅ : gset Element) = [500]) as ->.
    { assert (list_to_set [500] ∖ ∅ = ({[500]} : gset Element)) as -> by (clear; set_solver). apply elements_singleton. }
    assert (base.elements (∅ ∖ list_to_set [500] : gset Element) = []) as -> by (apply elements_empty_iff; clear; set_solver).
    rewrite Hc. change (root (bstate (fast_block r))) with r. change (last_block_elements (fast_block r)) with (∅ : gmap Element bool).
    rewrite decide_False by (intros Hne; apply Hne; reflexivity).
    cbn [fast_insertions]. rewrite decide_False by (unfold ZERO; lia). rewrite decide_False by (rewrite lookup_empty; discriminate).
    cbn [fst snd]. rewrite Hb. cbn [outcome_bind fast_removals].
    rewrite decide_False by (intros Hne; apply Hne; reflexivity). rewrite Hp'. reflexivity. }
  unfold receive_proposal. cbn [with_tree with_cache n_mode]. rewrite Hm, decide_False by discriminate.
  eexists. split; [reflexivity|]. exact He.
Qed.

Lemma fast_synced_element_unanswered_witness :
  ∃ node r node', handle_snapshot_chunk_fast true (Some (fast_block r)) [500] node = (node', Ok tt) ∧
    contains_element (p_tree (notes_tree node')) 500 = true ∧
    get_element_response node' 500 true = Err (BlockNotFound 0).
Proof.
  destruct (ex_started ModeNode) as (node & _ & Hi & _ & _ & _ & Hm).
  destruct (fast_sync_ok node Hi Hm) as (r & node' & Hf & He). exists node, r, node'.
  split; [exact Hf|]. split; [apply contains_true; rewrite He; eauto|].
  assert (tree_entries (p_tree (notes_tree node)) !! 500 = None) as Hnone.
  { apply not_elem_of_dom. rewrite (li_elems _ _ _ _ (ni_ledger _ _ _ Hi)). clear. set_solver. }
  apply (fast_synced_element_unanswered true (fast_block r) [500] node node' 500 (mk_smirk_metadata 0) true Hf Hnone He).
  apply (li_absent _ _ _ _ (ni_ledger _ _ _ Hi)); [by apply (bool_decide_unpack (in_width 64 _))|]. cbn. lia.
Defined.

Lemma previous_page_misses_witness :
  ∃ node b c page, node_inv ex_play [b] node ∧ state_txns (bstate b) = [ex_mint] ∧
    list_txns_inner ex_now 1 (fetch_blocks_non_empty_paginated node)
      (mk_txns_query None (Some (CursorBefore (BeforeInclusive (mk_pos 1 0)))) NewestToOldest false) = Ok (c, page) ∧
    ∀ t, t ∈ page → ti_block_height t = 1 → 0 < ti_index_in_block t.
Proof.
  destruct ex_one_block as (node & b & Hn & Hb & _). exists node, b.
  set (q := mk_txns_query None (Some (CursorBefore (BeforeInclusive (mk_pos 1 0)))) NewestToOldest false).
  assert (in_width 64 (pos_block (mk_pos 1 0))) as Hw by (by apply (bool_decide_unpack (in_width 64 1))).
  destruct (list_txns_inner_ok [] ex_play [b] node _ ex_now 1 q (ni_ledger _ _ _ Hn) Hw) as (page & Hp & _).
  eexists. exists page. split; [exact Hn|]. split; [exact Hb|]. split; [exact Hp|].
  intros t. exact (previous_page_misses [] ex_play [b] node ex_now 1 None NewestToOldest (mk_pos 1 0) _ page t Hn Hw Hp).
Defined.
