(* ===== verification/SolidProposal.v ===== *)
(** Proposals of the consensus library (pkg/solid/src: config.rs, traits.rs,
    errors.rs and proposal/{hash,header,accept,manifest,mod}.rs).

    A peer, its signer and the application are type classes, as the traits of
    the library are; SHA-256 and Keccak-256 are parameters.  Hashes are lists of
    32 bytes.  Heights and skips are u64; sums wrap as in a release build. *)
From S2P Require Import Prelude.

(** * Configuration (config.rs) *)

Inductive AcceptThreshold := MoreThanTwoThirds | Majority.

Section thresholds.
Local Open Scope nat_scope.

Definition threshold (self : AcceptThreshold) (peers : nat) : nat :=
  match self with
  | MoreThanTwoThirds => peers * 2 / 3 + 1
  | Majority => peers / 2 + 1
  end.

Definition is_exact_breach (self : AcceptThreshold) (accepts peers : nat) : bool :=
  bool_decide (threshold self peers = accepts).

(** The subtraction is never negative: the callers pass at least one peer. *)
Definition inverse_exceeded (self : AcceptThreshold) (accepts peers : nat) : bool :=
  bool_decide (peers - threshold self peers < accepts).

Definition is_exceeded (self : AcceptThreshold) (accepts peers : nat) : bool :=
  bool_decide (threshold self peers ≤ accepts).
End thresholds.

Record SolidConfig := mk_config {
  min_proposal_duration : Z;
  max_proposal_history : Z;
  skip_timeout : Z;
  out_of_sync_timeout : Z;
  accept_threshold : AcceptThreshold;
  missing_proposal_timeout : Z;
}.

(** Durations in milliseconds. *)
Definition config_default : SolidConfig :=
  mk_config 1000 1024 5000 60000 MoreThanTwoThirds 5000.

(** * Traits (traits.rs) *)

Notation ProposalHash := (list Z) (only parsing).

Class Peer (P : Type) := {
  peer_eq_dec :: EqDecision P;
  peer_countable :: Countable P;
  (** [Ord] *)
  peer_le : relation P;
  peer_le_dec :: RelDecision peer_le;
  peer_verify : P → list Z → list Z → bool;
  to_u256 : P → Z;
}.

Class PeerSigner (P PS : Type) := {
  signer_sign : PS → list Z → list Z;
  signer_peer : PS → P;
}.

Class SignerLaws (P PS : Type) `{Peer P, PeerSigner P PS} : Prop := {
  sign_verifies (s : PS) m : peer_verify (signer_peer s) (signer_sign s m) m = true;
}.

(** The digests the library calls. *)
Class Digests := {
  sha256 : list Z → list Z;
  keccak : list Z → list Z;
}.

Definition distance {P} `{Peer P} (self : P) (other : Z) : Z := Z.lxor other (to_u256 self).

(** * Data *)

Record ProposalHeader := mk_proposal_header {
  ph_hash : ProposalHash;
  ph_height : Z;
  ph_skips : Z;
}.

Record ProposalAccept (P : Type) := mk_accept {
  accept_leader_id : P;
  accept_proposal : ProposalHeader;
  accept_skips : Z;
  accept_from : P;
  accept_signature : list Z;
}.
Arguments mk_accept {P} _ _ _ _ _.
Arguments accept_leader_id {P} _.
Arguments accept_proposal {P} _.
Arguments accept_skips {P} _.
Arguments accept_from {P} _.
Arguments accept_signature {P} _.

Record ManifestContent (P S : Type) := mk_manifest_content {
  last_proposal_hash : ProposalHash;
  mc_skips : Z;
  mc_height : Z;
  leader_id : P;
  mc_state : S;
  validators : list P;
  accepts : list (ProposalAccept P);
}.
Arguments mk_manifest_content {P S} _ _ _ _ _ _ _.
Arguments last_proposal_hash {P S} _.
Arguments mc_skips {P S} _.
Arguments mc_height {P S} _.
Arguments leader_id {P S} _.
Arguments mc_state {P S} _.
Arguments validators {P S} _.
Arguments accepts {P S} _.

Record Manifest (P S : Type) := mk_manifest {
  m_content : ManifestContent P S;
  m_signature : list Z;
}.
Arguments mk_manifest {P S} _ _.
Arguments m_content {P S} _.
Arguments m_signature {P S} _.

Class App (A P S : Type) := {
  app_hash : ManifestContent P S → ProposalHash;
  app_validate_structure : A → ManifestContent P S → bool;
  app_validate_contents : A → ManifestContent P S → ManifestContent P S → bool;
}.

(** errors.rs; the strings of [InvalidAcceptLeader] show the two peers. *)
Inductive SolidError (P : Type) :=
| InvalidAcceptSignature
| InvalidAcceptProposalHash
| InvalidAcceptValidator
| InvalidProposalLeader
| InvalidAcceptLeader (expected got : P)
| InsufficientAcceptsForProposal
| InvalidProposalSignature
| ProposalAlreadyExists (h : ProposalHash)
| ProposalHeightTooLow
| ProposalPeerThresholdNotMet
| ProposalInvalidDecendent
| ProposalInvalidAppStructure
| ProposalInvalidAppContent.
Arguments InvalidAcceptSignature {P}.
Arguments InvalidAcceptProposalHash {P}.
Arguments InvalidAcceptValidator {P}.
Arguments InvalidProposalLeader {P}.
Arguments InvalidAcceptLeader {P} _ _.
Arguments InsufficientAcceptsForProposal {P}.
Arguments InvalidProposalSignature {P}.
Arguments ProposalAlreadyExists {P} _.
Arguments ProposalHeightTooLow {P}.
Arguments ProposalPeerThresholdNotMet {P}.
Arguments ProposalInvalidDecendent {P}.
Arguments ProposalInvalidAppStructure {P}.
Arguments ProposalInvalidAppContent {P}.

Record Proposal (P S : Type) `{Peer P} := mk_proposal {
  incoming_accepts : gmap Z (gmap P (ProposalAccept P));
  proposal_hash : ProposalHash;
  manifest : Manifest P S;
  proposal_ordered : list P;
  initial_accept_sent : bool;
  skips_sent : Z;
  is_validated : bool;
}.
Arguments mk_proposal {P S _} _ _ _ _ _ _ _.
Arguments incoming_accepts {P S _} _.
Arguments proposal_hash {P S _} _.
Arguments manifest {P S _} _.
Arguments proposal_ordered {P S _} _.
Arguments initial_accept_sent {P S _} _.
Arguments skips_sent {P S _} _.
Arguments is_validated {P S _} _.

(** * Operations *)

Section solid_proposal.
Context {P PS S A : Type} `{!Peer P} `{!PeerSigner P PS} `{!Digests} `{!App A P S}.
Implicit Types (p : Proposal P S) (m : Manifest P S) (c : ManifestContent P S).
Implicit Types (a : ProposalAccept P).

(** ** ProposalHash (hash.rs) *)

Definition ph_as_u256 (h : ProposalHash) : Z := little_endian_to_Z 8 h.
Definition ph_from_vec_hash (v : list Z) : ProposalHash := sha256 v.
Definition ph_genesis : ProposalHash := replicate 32 0.

(** ** ProposalAcceptSigData (traits.rs) and accepts (accept.rs) *)

Definition sig_data_hash (proposal : ProposalHeader) (skips : Z) : list Z :=
  keccak (ph_hash proposal ++ be_bytes 8 skips).
Definition sig_data_sign (proposal : ProposalHeader) (skips : Z) (s : PS) : list Z :=
  signer_sign s (sig_data_hash proposal skips).
Definition sig_data_verify (proposal : ProposalHeader) (skips : Z) (from : P) (sig : list Z) : bool :=
  peer_verify from sig (sig_data_hash proposal skips).

Definition verify_signature a : outcome (SolidError P) unit :=
  if sig_data_verify (accept_proposal a) (accept_skips a) (accept_from a) (accept_signature a)
  then Ok tt else Err InvalidAcceptSignature.

(** ** Manifests (manifest.rs) *)

Definition ordering_hash (height skips : Z) : Z :=
  little_endian_to_Z 8 (sha256 (be_bytes 8 height ++ be_bytes 8 skips)).

(** [sort_by_key] is a stable sort by the distance to the ordering hash. *)
Definition closer (h : Z) (a b : P) : Prop := distance a h ≤ distance b h.
#[export] Instance closer_dec h (a b : P) : Decision (closer h a b).
Proof. unfold closer. apply _. Defined.

Definition ordered_validators c : list P :=
  merge_sort (closer (ordering_hash (mc_height c) (mc_skips c))) (validators c).

(** An empty list is a remainder by zero. *)
Definition leader_of_order (skip : Z) (ordered : list P) : outcome (SolidError P) P :=
  match ordered with
  | [] => Panic "attempt to calculate the remainder with a divisor of zero"
  | _ => unwrap (ordered !! Z.to_nat (skip mod Z.of_nat (length ordered))) "index out of bounds"
  end.

Definition get_leader_for_skip c (skip : Z) : outcome (SolidError P) P :=
  leader_of_order skip (ordered_validators c).

Definition content_genesis (state : S) (vs : list P) : outcome (SolidError P) (ManifestContent P S) :=
  let? leader := leader_of_order 0 vs in
  Ok (mk_manifest_content ph_genesis 0 0 leader state vs []).
Definition manifest_genesis (state : S) (vs : list P) : outcome (SolidError P) (Manifest P S) :=
  let? c := content_genesis state vs in Ok (mk_manifest c []).

Definition manifest_verify m (signer : P) : bool :=
  peer_verify signer (m_signature m) (app_hash (m_content m)).
Definition content_sign c (s : PS) : list Z := signer_sign s (app_hash c).

(** ** Proposals (mod.rs) *)

Definition proposal_new m : Proposal P S :=
  mk_proposal ∅ (app_hash (m_content m)) m (ordered_validators (m_content m)) false 0 false.

Definition last_hash p : ProposalHash := last_proposal_hash (m_content (manifest p)).
Definition proposal_height p : Z := mc_height (m_content (manifest p)).
Definition proposal_skips p : Z := mc_skips (m_content (manifest p)).
Definition leader_for p (skip : Z) : outcome (SolidError P) P :=
  get_leader_for_skip (m_content (manifest p)) skip.

Definition with_accepts p x := mk_proposal x (proposal_hash p) (manifest p) (proposal_ordered p)
  (initial_accept_sent p) (skips_sent p) (is_validated p).
Definition with_sent p (sent : bool) (skips : Z) := mk_proposal (incoming_accepts p) (proposal_hash p)
  (manifest p) (proposal_ordered p) sent skips (is_validated p).
Definition with_validated p := mk_proposal (incoming_accepts p) (proposal_hash p)
  (manifest p) (proposal_ordered p) (initial_accept_sent p) (skips_sent p) true.

(** An accept sent for this proposal (not one attached to the manifest). *)
Definition validate_accept p a : outcome (SolidError P) unit :=
  let? _ := verify_signature a in
  let? leader := leader_for p (accept_skips a) in
  if decide (leader ≠ accept_leader_id a) then Err (InvalidAcceptLeader leader (accept_leader_id a))
  else if decide (accept_from a ∉ validators (m_content (manifest p))) then Err InvalidAcceptValidator
  else Ok tt.

Definition accepts_at p (skips : Z) : gmap P (ProposalAccept P) :=
  default ∅ (incoming_accepts p !! skips).

Definition accept_threshold_breached p (skips : Z) (t : AcceptThreshold) : bool :=
  is_exact_breach t (size (accepts_at p skips)) (length (proposal_ordered p)).

(** Adds an accept and says whether a proposal should be generated; accepts
    that are not valid are ignored. *)
Definition proposal_add_accept p a (t : AcceptThreshold) : outcome (SolidError P) (Proposal P S * bool) :=
  match validate_accept p a with
  | Panic msg => Panic msg
  | Err _ => Ok (p, false)
  | Ok _ =>
      let skips := accept_skips a in
      let added := accepts_at p skips !! accept_from a in
      let p' := with_accepts p
                  (<[skips := <[accept_from a := a]> (accepts_at p skips)]> (incoming_accepts p)) in
      Ok (p', bool_decide (added = None) && accept_threshold_breached p' skips t)
  end.

(** The values of a [BTreeMap] keyed by peers, in the order of the peers. *)
Definition peer_entry_le (x y : P * ProposalAccept P) : Prop := peer_le x.1 y.1.
#[export] Instance peer_entry_le_dec x y : Decision (peer_entry_le x y).
Proof. unfold peer_entry_le. apply _. Defined.
Definition accepts_for_skip p (skips : Z) : option (list (ProposalAccept P)) :=
  (λ by_peer, (merge_sort peer_entry_le (map_to_list by_peer)).*2) <$> incoming_accepts p !! skips.

Definition highest_skip_with_inverse p (t : AcceptThreshold) : option Z :=
  fst <$> List.find (λ kx : Z * gmap P (ProposalAccept P),
             inverse_exceeded t (size kx.2) (Nat.max (length (proposal_ordered p)) 1))
           (reverse (btree_iter (incoming_accepts p))).

Definition next_accept_skip p (t : AcceptThreshold) (skip : bool) : Z :=
  if negb (initial_accept_sent p) && bool_decide (skips_sent p = 0) then 0
  else
    let skips_sent_with_skip := if skip then wrap 64 (skips_sent p + 1) else skips_sent p in
    match highest_skip_with_inverse p t with
    | Some highest_with_inverse =>
        if decide (skips_sent_with_skip < highest_with_inverse) then highest_with_inverse
        else skips_sent_with_skip
    | None => skips_sent_with_skip
    end.

(** The loop over the accepts attached to the manifest. *)
Fixpoint check_accepts c (l : list (ProposalAccept P)) : outcome (SolidError P) unit :=
  match l with
  | [] => Ok tt
  | a :: rest =>
      let? _ := verify_signature a in
      if decide (accept_leader_id a ≠ leader_id c)
      then Err (InvalidAcceptLeader (leader_id c) (accept_leader_id a))
      else if decide (ph_hash (accept_proposal a) ≠ last_proposal_hash c)
      then Err InvalidAcceptProposalHash
      else check_accepts c rest
  end.

Definition validate_structure p (app : A) (t : AcceptThreshold) : outcome (SolidError P) unit :=
  let c := m_content (manifest p) in
  if negb (is_exceeded t (length (accepts c)) (length (proposal_ordered p)))
  then Err InsufficientAcceptsForProposal
  else if negb (manifest_verify (manifest p) (leader_id c)) then Err InvalidProposalSignature
  else
    let? _ := check_accepts c (accepts c) in
    if negb (app_validate_structure app c) then Err ProposalInvalidAppStructure else Ok tt.

Definition validate_contents p (app : A) (last_confirmed : Proposal P S) : outcome (SolidError P) unit :=
  let c := m_content (manifest p) in
  let lc := m_content (manifest last_confirmed) in
  if decide (proposal_hash last_confirmed ≠ last_proposal_hash c) then Err ProposalInvalidDecendent
  else
    let? leader := get_leader_for_skip lc (proposal_skips p) in
    if decide (leader ≠ leader_id c) then Err InvalidProposalLeader
    else if negb (app_validate_contents app c lc) then Err ProposalInvalidAppContent
    else if List.forallb (λ a, bool_decide (accept_from a ∈ validators lc)) (accepts c)
    then Ok tt else Err InvalidAcceptValidator.
End solid_proposal.
