(* ===== verification/SolidCache.v ===== *)
(** The proposal cache of the consensus library (pkg/solid/src/proposal/cache.rs)
    and what its walks along the parent links compute.

    The order in which a [HashMap] is iterated is a parameter ([MapOrder]).  The
    loops that follow parent links take fuel and return [None] when it runs
    out; the number of cached proposals plus one is enough ([decendent_total],
    [pending_loop_total]) because each step goes down one height. *)
From S2P Require Import Prelude SolidProposal.

(** The iteration order of a [HashMap]: some order of its keys, which writing to
    a value in place does not change. *)
Class MapOrder := {
  hm_keys : gset ProposalHash → list ProposalHash;
  hm_keys_perm X : hm_keys X ≡ₚ elements X;
}.
Definition hm_iter `{MapOrder} {V} (m : gmap ProposalHash V) : list (ProposalHash * V) :=
  omap (λ k, pair k <$> m !! k) (hm_keys (dom m)).

Lemma elem_hm_iter `{MapOrder} {V} (m : gmap ProposalHash V) k v :
  (k, v) ∈ hm_iter m ↔ m !! k = Some v.
Proof.
  unfold hm_iter. rewrite list_elem_of_omap. split.
  - intros (x & _ & Hx). destruct (m !! x) eqn:E; naive_solver.
  - intros Hk. exists k. rewrite hm_keys_perm, elem_of_elements, Hk. split; [|done].
    apply elem_of_dom. by eexists.
Qed.

(** [Iterator::max_by]: the last of the greatest elements. *)
Definition max_by {X} (gt : X → X → bool) (l : list X) : option X :=
  match l with
  | [] => None
  | x :: l => Some (foldl (λ m y, if gt m y then m else y) x l)
  end.

Lemma max_by_elem {X} (gt : X → X → bool) l x : max_by gt l = Some x → x ∈ l.
Proof.
  destruct l as [|y l]; [done|]. cbn. intros [= <-]. revert y.
  induction l as [|z l IH]; intros y; cbn; [by left|].
  destruct (gt y z).
  - specialize (IH y). rewrite !elem_of_cons in *. tauto.
  - right. apply IH.
Qed.

(** The maximum is not below any element for a key [f] that [gt] respects. *)
Lemma max_by_max {X} (gt : X → X → bool) (f : X → Z) l x :
  (∀ y z, gt y z = true → f z ≤ f y) → (∀ y z, gt y z = false → f y ≤ f z) →
  max_by gt l = Some x → ∀ y, y ∈ l → f y ≤ f x.
Proof.
  intros Ht Hf. destruct l as [|y l]; [done|]. cbn. intros [= <-].
  assert (∀ l y, f y ≤ f (foldl (λ m z, if gt m z then m else z) y l) ∧
                 ∀ z, z ∈ l → f z ≤ f (foldl (λ m z, if gt m z then m else z) y l)) as Hfold.
  { clear y l. induction l as [|z l IH]; intros y; cbn; [split; [lia|by intros ? []%elem_of_nil]|].
    destruct (gt y z) eqn:G; [destruct (IH y) as [I1 I2]|destruct (IH z) as [I1 I2]]; split.
    - done.
    - intros w [->|Hw]%elem_of_cons; [apply Ht in G; lia|by apply I2].
    - apply Hf in G. lia.
    - intros w [->|Hw]%elem_of_cons; [done|by apply I2]. }
  destruct (Hfold l y) as [H1 H2]. intros z [->|Hz]%elem_of_cons; [exact H1|by apply H2].
Qed.

Section proposal_cache.
Context {P PS St A : Type} `{!Peer P} `{!PeerSigner P PS} `{!Digests} `{!App A P St}
        `{!MapOrder}.
Notation Prop_ := (Proposal P St).
Notation E := (SolidError P).

Record ProposalCache := mk_proposal_cache {
  last_confirmed_proposal_hash : ProposalHash;
  proposals : gmap ProposalHash Prop_;
  cache_size : Z;
}.
Implicit Types (c : ProposalCache) (p q : Prop_) (h : ProposalHash).

Definition with_proposals c x := mk_proposal_cache (last_confirmed_proposal_hash c) x (cache_size c).

(** * Operations *)

Definition pc_new p (size : Z) : ProposalCache :=
  mk_proposal_cache (proposal_hash p) {[proposal_hash p := p]} size.
Definition pc_contains c h : bool := bool_decide (is_Some (proposals c !! h)).
Definition pc_insert c p : ProposalCache := with_proposals c (<[proposal_hash p := p]> (proposals c)).
Definition pc_get c h : option Prop_ := proposals c !! h.
(** Writing through the reference [get_mut] returns. *)
Definition pc_update c h (f : Prop_ → Prop_) : ProposalCache := with_proposals c (alter f h (proposals c)).
Definition pc_remove c h : ProposalCache := with_proposals c (delete h (proposals c)).

Definition last_confirmed_proposal c : outcome E Prop_ :=
  unwrap (proposals c !! last_confirmed_proposal_hash c)
    "called `Option::unwrap()` on a `None` value".
Definition pc_height c : outcome E Z :=
  let? p := last_confirmed_proposal c in Ok (proposal_height p).

Definition proposals_from c (from_height : Z) : list Prop_ :=
  filter (λ p, from_height ≤ proposal_height p) (hm_iter (proposals c)).*2.

Fixpoint confirmed_loop (fuel : nat) c (from_height : Z) p : option (list Prop_) :=
  match fuel with
  | O => None
  | S fuel =>
      if decide (from_height ≤ proposal_height p) then
        match proposals c !! last_hash p with
        | Some q => cons q <$> confirmed_loop fuel c from_height q
        | None => Some []
        end
      else Some []
  end.
Definition confirmed_proposals_from c (from_height : Z) : outcome E (option (list Prop_)) :=
  let? p := last_confirmed_proposal c in
  Ok (cons p <$> confirmed_loop (S (size (proposals c))) c from_height p).

(** Is [decendent_hash] reached from [p] by parent links that go down one
    height each? *)
Fixpoint decendent_loop (fuel : nat) c (decendent_hash : ProposalHash) p : option bool :=
  match fuel with
  | O => None
  | S fuel =>
      if decide (proposal_hash p = decendent_hash) then Some true
      else match proposals c !! last_hash p with
           | None => Some false
           | Some q =>
               if decide (wrap 64 (proposal_height q + 1) ≠ proposal_height p) then Some false
               else decendent_loop fuel c decendent_hash q
           end
  end.
Definition is_decendent c (decendent_hash parent_hash : ProposalHash) : bool :=
  match proposals c !! parent_hash with
  | None => false
  | Some p => default false (decendent_loop (S (size (proposals c))) c decendent_hash p)
  end.

Fixpoint decendents_loop (fuel : nat) c (decendent_hash : ProposalHash) p (acc : list Prop_)
  : option (list Prop_) :=
  match fuel with
  | O => None
  | S fuel =>
      if decide (proposal_hash p = decendent_hash) then Some acc
      else match proposals c !! last_hash p with
           | Some q => decendents_loop fuel c decendent_hash q (acc ++ [p])
           | None => Some []
           end
  end.
Definition decendents c (decendent_hash parent_hash : ProposalHash) : option (list Prop_) :=
  match proposals c !! parent_hash with
  | None => Some []
  | Some p => decendents_loop (S (size (proposals c))) c decendent_hash p []
  end.

(** The comparison of [max_by] on (height, skips): greater. *)
Definition position_gt p q : bool :=
  bool_decide (proposal_height q < proposal_height p ∨
               proposal_height p = proposal_height q ∧ proposal_skips q < proposal_skips p).

Definition candidates c (from_height : Z) : list Prop_ :=
  List.filter (λ p, bool_decide (from_height < proposal_height p) &&
                    is_decendent c (last_confirmed_proposal_hash c) (proposal_hash p))
    (hm_iter (proposals c)).*2.
Definition max_continuous_proposal c : outcome E (option Prop_) :=
  let? from_height := pc_height c in
  Ok (max_by position_gt (candidates c from_height)).

Fixpoint pending_loop (fuel : nat) c (target : Z) p : option (option Prop_) :=
  match fuel with
  | O => None
  | S fuel =>
      if decide (target < proposal_height p) then
        match proposals c !! last_hash p with
        | None => Some None
        | Some q => pending_loop fuel c target q
        end
      else Some (Some p)
  end.
Definition next_pending_proposal c (offset : Z) : outcome E (option Prop_) :=
  let? mp := max_continuous_proposal c in
  match mp with
  | None => Ok None
  | Some p =>
      let? height := pc_height c in
      let target := wrap 64 (wrap 64 (height + 1) + offset) in
      if decide (proposal_height p < target) then Ok None
      else Ok (default None (pending_loop (S (size (proposals c))) c target p))
  end.

(** Proposals that are too old, or that compete with the confirmed one. *)
Definition redundant c (confirmed_height : Z) p : bool :=
  if decide (proposal_height p < confirmed_height)
  then bool_decide (wrap 64 (proposal_height p + cache_size c) < confirmed_height)
  else if decide (confirmed_height < proposal_height p)
  then negb (is_decendent c (last_confirmed_proposal_hash c) (proposal_hash p))
  else bool_decide (proposal_hash p ≠ last_confirmed_proposal_hash c).
Definition purge c : ProposalCache * outcome E unit :=
  match pc_height c with
  | Ok confirmed_height =>
      let keys_to_remove :=
        (List.filter (λ kp : ProposalHash * Prop_, redundant c confirmed_height kp.2)
           (hm_iter (proposals c))).*1 in
      (with_proposals c (foldl (λ m k, delete k m) (proposals c) keys_to_remove), Ok tt)
  | Err e => (c, Err e)
  | Panic msg => (c, Panic msg)
  end.

Definition pc_confirm c h : ProposalCache * outcome E unit :=
  purge (mk_proposal_cache h (proposals c) (cache_size c)).

(** * Well-formed caches

    Every proposal is filed under the hash of its manifest, its validators are
    ordered as the manifest says, and its height leaves room for the two
    heights above it.  [wf_accepts] describes the accepts collected for it. *)
Record wf_manifest (m : Manifest P St) : Prop := {
  wm_height : 0 ≤ mc_height (m_content m) ∧ mc_height (m_content m) + 2 < 2 ^ 64;
  wm_validators : validators (m_content m) ≠ [];
}.

Definition wf_accepts p : Prop :=
  ∀ s x a, accepts_at p s !! x = Some a →
    accept_from a = x ∧ accept_skips a = s ∧ ph_hash (accept_proposal a) = proposal_hash p ∧
    validate_accept p a = Ok tt.

Record wf_proposal p : Prop := {
  wp_hash : app_hash (m_content (manifest p)) = proposal_hash p;
  wp_ordered : proposal_ordered p = ordered_validators (m_content (manifest p));
  wp_manifest : wf_manifest (manifest p);
  wp_accepts : wf_accepts p;
}.

Record wf_cache c : Prop := {
  wc_key h p : proposals c !! h = Some p → proposal_hash p = h ∧ wf_proposal p;
  wc_confirmed : is_Some (proposals c !! last_confirmed_proposal_hash c);
}.

(** The parent of [p]: one height lower and under the hash [p] names. *)
Definition link c p q : Prop :=
  proposals c !! last_hash p = Some q ∧ proposal_height q + 1 = proposal_height p.
Definition cached c p : Prop := proposals c !! proposal_hash p = Some p.

Definition below c p : gmap ProposalHash Prop_ :=
  filter (λ kx, proposal_height kx.2 < proposal_height p) (proposals c).

Section walks.
Context c (Hc : wf_cache c).

Lemma cached_of h p : proposals c !! h = Some p → cached c p ∧ proposal_hash p = h.
Proof. intros Hp. unfold cached. by destruct (wc_key _ Hc _ _ Hp) as [-> _]. Qed.

Lemma cached_wf p : cached c p → wf_proposal p.
Proof. intros Hp. apply (wc_key _ Hc _ _ Hp). Qed.

Lemma cached_height p : cached c p → 0 ≤ proposal_height p ∧ proposal_height p + 2 < 2 ^ 64.
Proof. intros Hp. apply wm_height, wp_manifest, cached_wf, Hp. Qed.

Lemma link_cached p q : link c p q → cached c q.
Proof. intros [Hq _]. by apply cached_of in Hq as [? _]. Qed.

Lemma links_cached p q : cached c p → rtc (link c) p q → cached c q.
Proof. intros Hp. induction 1 as [|p q r Hl _ IH]; [done|]. by apply IH, (link_cached p). Qed.

Lemma links_height p q : rtc (link c) p q → proposal_height q ≤ proposal_height p.
Proof. induction 1 as [|p q r [_ Hl] _ IH]; lia. Qed.

Lemma links_comparable p q r :
  rtc (link c) p q → rtc (link c) p r → rtc (link c) q r ∨ rtc (link c) r q.
Proof.
  induction 1 as [|p p' q Hl Hq IH]; intros Hr; [by left|].
  inversion Hr as [|? p'' ? Hl' Hr']; subst.
  - right. by apply rtc_l with p'.
  - destruct Hl as [H1 _], Hl' as [H2 _]. rewrite H1 in H2. injection H2 as <-. by apply IH.
Qed.

(** A chain has one proposal at each height. *)
Lemma links_unique p q r :
  rtc (link c) p q → rtc (link c) p r → proposal_height q = proposal_height r → q = r.
Proof.
  intros Hq Hr Hh. destruct (links_comparable _ _ _ Hq Hr) as [Hqr|Hqr];
    inversion Hqr as [|? x ? [_ Hl] Hx]; subst; try done; apply links_height in Hx; lia.
Qed.

Lemma below_size p q : link c p q → (size (below c q) < size (below c p))%nat.
Proof.
  intros Hl. pose proof (link_cached _ _ Hl) as Hq. destruct Hl as [_ Hl].
  apply map_subset_size. apply map_subset_alt. split.
  - apply map_subseteq_spec. intros k x. unfold below.
    rewrite !map_lookup_filter_Some. cbn. intros [? ?]. split; [done|lia].
  - exists (proposal_hash q). unfold below. split.
    + rewrite map_lookup_filter_None. right. cbn. intros x Hx. unfold cached in Hq.
      rewrite Hq in Hx. injection Hx as <-. lia.
    + exists q. rewrite map_lookup_filter_Some. split; [done|]. cbn. lia.
Qed.

Lemma below_le p : (size (below c p) ≤ size (proposals c))%nat.
Proof. apply map_subseteq_size, map_filter_subseteq. Qed.

Lemma step_link p q : cached c p → proposals c !! last_hash p = Some q →
  wrap 64 (proposal_height q + 1) = proposal_height p ↔ link c p q.
Proof.
  intros Hp Hq. destruct (cached_of _ _ Hq) as [Hc' _]. apply cached_height in Hc', Hp.
  rewrite wrap_small by (unfold in_width; lia). unfold link. tauto.
Qed.

Lemma decendent_loop_spec fuel d p :
  cached c p → (size (below c p) < fuel)%nat →
  ∃ b, decendent_loop fuel c d p = Some b ∧
    (b = true ↔ ∃ q, rtc (link c) p q ∧ proposal_hash q = d).
Proof.
  revert p. induction fuel as [|fuel IH]; intros p Hp Hf; [lia|]. cbn.
  case_decide as Hd; [exists true; split; [done|]; split; [by eexists|done]|].
  destruct (proposals c !! last_hash p) as [q|] eqn:Hq.
  - case_decide as Hw.
    + exists false. split; [done|]. split; [done|]. intros (r & Hr & Hrd).
      inversion Hr as [|? x ? Hl _]; subst; [done|]. destruct Hl as [Hx Hl].
      rewrite Hq in Hx. injection Hx as <-. by destruct Hw; apply step_link.
    + pose proof (proj1 (step_link _ _ Hp Hq) Hw) as Hl.
      destruct (IH q) as (b & Hb & Hs); [by eapply link_cached|pose proof (below_size _ _ Hl); lia|].
      exists b. split; [done|]. rewrite Hs. split; intros (r & Hr & Hrd).
      * exists r. split; [by apply rtc_l with q|done].
      * inversion Hr as [|? x ? [Hx _] Hr']; subst; [done|]. rewrite Hq in Hx. injection Hx as <-.
        by exists r.
  - exists false. split; [done|]. split; [done|]. intros (r & Hr & Hrd).
    inversion Hr as [|? x ? [Hx _] _]; subst; [done|]. by rewrite Hq in Hx.
Qed.

(** The loop of [is_decendent] ends within its fuel. *)
Lemma decendent_total d p : cached c p →
  is_Some (decendent_loop (S (size (proposals c))) c d p).
Proof.
  intros Hp. destruct (decendent_loop_spec (S (size (proposals c))) d p Hp) as (b & -> & _); [|done].
  pose proof (below_le p). lia.
Qed.

Lemma is_decendent_spec d p : cached c p →
  is_decendent c d (proposal_hash p) = true ↔ ∃ q, rtc (link c) p q ∧ proposal_hash q = d.
Proof.
  intros Hp. unfold is_decendent. rewrite Hp.
  destruct (decendent_loop_spec (S (size (proposals c))) d p Hp) as (b & -> & Hs); [|done].
  pose proof (below_le p). lia.
Qed.

(** The walk down a chain finds the proposal at the height it looks for. *)
Lemma pending_loop_spec fuel target p l :
  cached c p → (size (below c p) < fuel)%nat → rtc (link c) p l →
  proposal_height l ≤ target ≤ proposal_height p →
  ∃ r, pending_loop fuel c target p = Some (Some r) ∧ rtc (link c) p r ∧ rtc (link c) r l ∧
       proposal_height r = target.
Proof.
  revert p. induction fuel as [|fuel IH]; intros p Hp Hf Hl Ht; [lia|]. cbn.
  case_decide as Hd; [|exists p; split; [done|]; split; [done|]; split; [done|lia]].
  inversion Hl as [|? q ? Hlink Hl']; subst; [lia|]. pose proof Hlink as [Hq Hh]. rewrite Hq.
  destruct (IH q) as (r & Hr & H1 & H2 & H3);
    [by eapply link_cached|pose proof (below_size _ _ Hlink); lia|done|lia|].
  exists r. split_and!; try done. by apply rtc_l with q.
Qed.

Lemma confirmed_cached : ∃ l, last_confirmed_proposal c = Ok l ∧ cached c l ∧
  proposal_hash l = last_confirmed_proposal_hash c ∧ pc_height c = Ok (proposal_height l).
Proof.
  destruct (wc_confirmed _ Hc) as [l Hl]. exists l. destruct (cached_of _ _ Hl) as [? ?].
  unfold pc_height, last_confirmed_proposal. by rewrite Hl.
Qed.

Lemma elem_values p : p ∈ (hm_iter (proposals c)).*2 ↔ cached c p.
Proof.
  rewrite list_elem_of_fmap. split.
  - intros ([k q] & -> & Hk%elem_hm_iter). by apply cached_of in Hk as [? _].
  - intros Hp. exists (proposal_hash p, p). split; [done|]. by apply elem_hm_iter.
Qed.

(** Candidates are the cached proposals above the confirmed one from which
    parent links lead to it. *)
Lemma elem_candidates l p :
  last_confirmed_proposal c = Ok l →
  p ∈ candidates c (proposal_height l) ↔
  cached c p ∧ proposal_height l < proposal_height p ∧ rtc (link c) p l.
Proof.
  intros Hl. unfold candidates. rewrite elem_of_list_filterb, elem_values, andb_true_iff, bool_decide_eq_true.
  split; intros [Hp [Hh Hd]]; split_and!; try done.
  - apply is_decendent_spec in Hd as (q & Hq & Hqh); [|done].
    pose proof (links_cached _ _ Hp Hq) as Hqc. unfold cached in Hqc. rewrite Hqh in Hqc.
    unfold last_confirmed_proposal in Hl. rewrite Hqc in Hl. by injection Hl as <-.
  - apply is_decendent_spec; [done|]. exists l. split; [done|].
    destruct confirmed_cached as (l' & Hl' & _ & ? & _). rewrite Hl in Hl'. by injection Hl' as <-.
Qed.

Lemma position_gt_height p q :
  (position_gt p q = true → proposal_height q ≤ proposal_height p) ∧
  (position_gt p q = false → proposal_height p ≤ proposal_height q).
Proof. unfold position_gt. rewrite bool_decide_eq_true, bool_decide_eq_false. lia. Qed.

Lemma max_continuous_spec l :
  last_confirmed_proposal c = Ok l →
  ∃ r, max_continuous_proposal c = Ok r ∧
  match r with
  | Some top => cached c top ∧ rtc (link c) top l ∧ proposal_height l < proposal_height top ∧
      ∀ p, cached c p → rtc (link c) p l → proposal_height p ≤ proposal_height top
  | None => ∀ p, cached c p → rtc (link c) p l → proposal_height p = proposal_height l
  end.
Proof.
  intros Hl. unfold max_continuous_proposal, pc_height. rewrite Hl. cbn. eexists. split; [done|].
  destruct (max_by _ _) as [top|] eqn:Hm.
  - pose proof (max_by_elem _ _ _ Hm) as (? & ? & ?)%(elem_candidates l); [|done]. split_and!; try done.
    intros p Hp Hpl. destruct (decide (proposal_height l < proposal_height p)); [|lia].
    apply (max_by_max _ proposal_height _ _ (λ x y, proj1 (position_gt_height x y))
             (λ x y, proj2 (position_gt_height x y)) Hm).
    by apply (elem_candidates l).
  - intros p Hp Hpl. destruct (decide (proposal_height l < proposal_height p)) as [Hlt|].
    + assert (p ∈ candidates c (proposal_height l)) as Hin by by apply (elem_candidates l).
      destruct (candidates c (proposal_height l)); [by apply elem_of_nil in Hin|done].
    + pose proof (links_height _ _ Hpl). lia.
Qed.

(** [next_pending_proposal] is the proposal at the wanted height on the chain
    that leads from the highest candidate to the confirmed proposal. *)
Lemma next_pending_spec l o :
  last_confirmed_proposal c = Ok l → 0 ≤ o ≤ 1 →
  ∃ r, next_pending_proposal c o = Ok r ∧
  match r with
  | Some p => ∃ top, max_continuous_proposal c = Ok (Some top) ∧ cached c p ∧
      rtc (link c) top p ∧ rtc (link c) p l ∧ proposal_height p = proposal_height l + 1 + o
  | None => ∀ p, cached c p → rtc (link c) p l → proposal_height p < proposal_height l + 1 + o
  end.
Proof.
  intros Hl Ho. unfold next_pending_proposal.
  destruct (max_continuous_spec l Hl) as (r & Hr & Hs). rewrite Hr. cbn [outcome_bind].
  destruct confirmed_cached as (l' & Hl' & Hlc & _ & Hh). rewrite Hl in Hl'. injection Hl' as <-.
  pose proof (cached_height _ Hlc) as Hlh.
  destruct r as [top|]; [|eexists; split; [done|]; intros p Hp Hpl; rewrite (Hs p); [lia|done|done]].
  destruct Hs as (Ht & Htl & Hth & Hmax). rewrite Hh. cbn [outcome_bind].
  rewrite (wrap_small 64 (_ + 1)), (wrap_small 64 (_ + o)) by (unfold in_width; lia).
  case_decide as Hd.
  - eexists. split; [done|]. cbn. intros p Hp Hpl. specialize (Hmax p Hp Hpl). lia.
  - destruct (pending_loop_spec (S (size (proposals c))) (proposal_height l + 1 + o) top l Ht)
      as (p & -> & Hp1 & Hp2 & Hp3); [pose proof (below_le top); lia|done|lia|].
    eexists. split; [done|]. exists top. split_and!; try done. by apply (links_cached top).
Qed.

(** The proposals that are returned for the two offsets are parent and child. *)
Lemma next_pending_pair l p q :
  last_confirmed_proposal c = Ok l →
  next_pending_proposal c 0 = Ok (Some p) → next_pending_proposal c 1 = Ok (Some q) →
  last_hash p = proposal_hash l ∧ proposal_height p = proposal_height l + 1 ∧ cached c p ∧
  last_hash q = proposal_hash p ∧ proposal_height q = proposal_height l + 2 ∧ cached c q.
Proof.
  intros Hl N0 N1.
  destruct (next_pending_spec l 0 Hl) as (r0 & E0 & S0); [lia|]. rewrite N0 in E0. injection E0 as <-.
  destruct (next_pending_spec l 1 Hl) as (r1 & E1 & S1); [lia|]. rewrite N1 in E1. injection E1 as <-.
  destruct S0 as (top & Ht & Hpc & Htp & Hpl & Hph), S1 as (top' & Ht' & Hqc & Htq & Hql & Hqh).
  rewrite Ht in Ht'. injection Ht' as <-.
  inversion Hpl as [|? l' ? Hlk Hl']; subst; [lia|].
  inversion Hql as [|? p' ? Hqk Hp']; subst; [lia|].
  assert (l' = l) as ->.
  { apply (links_unique l'); [done|done|]. destruct Hlk as [_ Hlk]. lia. }
  assert (p' = p) as ->.
  { apply (links_unique top); [by apply rtc_r with q|done|]. destruct Hqk as [_ Hqk]. lia. }
  assert (∀ x y, link c x y → last_hash x = proposal_hash y) as Hlast.
  { intros x y [Hy _]. by apply cached_of in Hy as [_ ?]. }
  split_and!; try done; [by apply Hlast|lia|by apply Hlast|lia].
Qed.
End walks.

(** * Caches that differ in local bookkeeping

    Two proposals are similar when they are the same on the network: the flags
    and the collected accepts may differ.  The walks do not look at those. *)
Definition same_proposal p q : Prop :=
  proposal_hash p = proposal_hash q ∧ manifest p = manifest q.
Definition same_cache c1 c2 : Prop :=
  last_confirmed_proposal_hash c1 = last_confirmed_proposal_hash c2 ∧
  ∀ h, option_Forall2 same_proposal (proposals c1 !! h) (proposals c2 !! h).

#[export] Instance same_proposal_equiv : Equivalence same_proposal.
Proof. split; unfold same_proposal; [done|intros ??; naive_solver|intros ???; naive_solver congruence]. Qed.
#[export] Instance same_cache_equiv : Equivalence same_cache.
Proof.
  split.
  - intros c. split; [done|]. intros h. by apply option_Forall2_refl.
  - intros c1 c2 [? Hs]. split; [done|]. intros h. by symmetry.
  - intros c1 c2 c3 [T1 U1] [T2 U2]. split; [congruence|]. intros h. by rewrite U1.
Qed.

Lemma same_update c h f : (∀ p, same_proposal p (f p)) → same_cache c (pc_update c h f).
Proof.
  intros Hf. split; [done|]. intros h'. cbn. destruct (decide (h = h')) as [->|?].
  - rewrite lookup_alter_eq. destruct (proposals c !! h'); constructor. apply Hf.
  - rewrite lookup_alter_ne by done. reflexivity.
Qed.

Section similar.
Context c1 c2 (Hs : same_cache c1 c2).

Lemma same_dom : dom (proposals c1) = dom (proposals c2).
Proof.
  apply set_eq. intros h. rewrite !elem_of_dom.
  destruct (proj2 Hs h); [|done]. split; by eexists.
Qed.
Lemma same_size : size (proposals c1) = size (proposals c2).
Proof. by rewrite <-!size_dom, same_dom. Qed.

Lemma same_height p q : same_proposal p q →
  proposal_height p = proposal_height q ∧ proposal_skips p = proposal_skips q ∧ last_hash p = last_hash q.
Proof. intros [_ Hm]. unfold proposal_height, proposal_skips, last_hash. by rewrite Hm. Qed.

Lemma decendent_loop_same fuel d p q :
  same_proposal p q → decendent_loop fuel c1 d p = decendent_loop fuel c2 d q.
Proof.
  revert p q. induction fuel as [|fuel IH]; intros p q Hpq; [done|]. cbn.
  destruct (same_height _ _ Hpq) as (-> & _ & ->). destruct Hpq as [-> _].
  case_decide; [done|]. destruct (proj2 Hs (last_hash q)) as [p' q' Hpq'|]; [|done].
  destruct (same_height _ _ Hpq') as (-> & _ & _). case_decide; [done|]. by apply IH.
Qed.

Lemma is_decendent_same d h : is_decendent c1 d h = is_decendent c2 d h.
Proof.
  unfold is_decendent. rewrite same_size. destruct (proj2 Hs h); [|done].
  by rewrite (decendent_loop_same _ _ x y).
Qed.

Lemma values_same : Forall2 same_proposal (hm_iter (proposals c1)).*2 (hm_iter (proposals c2)).*2.
Proof.
  unfold hm_iter. rewrite same_dom. induction (hm_keys (dom (proposals c2))) as [|k ks IH]; [constructor|].
  cbn. destruct (proj2 Hs k); cbn; [by constructor|done].
Qed.

Lemma candidates_same n : Forall2 same_proposal (candidates c1 n) (candidates c2 n).
Proof.
  unfold candidates. rewrite (proj1 Hs). induction values_same as [|p q l k Hpq Hlk IH]; [constructor|]. cbn.
  destruct (same_height _ _ Hpq) as (-> & _). rewrite (proj1 Hpq), is_decendent_same.
  destruct (_ && _); [by constructor|done].
Qed.

Lemma position_gt_same p q p' q' :
  same_proposal p p' → same_proposal q q' → position_gt p q = position_gt p' q'.
Proof.
  unfold position_gt. by intros (-> & -> & _)%same_height (-> & -> & _)%same_height.
Qed.

Lemma max_by_same l k :
  Forall2 same_proposal l k → option_Forall2 same_proposal (max_by position_gt l) (max_by position_gt k).
Proof.
  destruct 1 as [|p q l k Hpq Hlk]; [constructor|]. cbn. constructor.
  revert p q Hpq. induction Hlk as [|x y l k Hxy Hlk IH]; intros p q Hpq; [done|]. cbn.
  apply IH. rewrite (position_gt_same p x q y) by done. by destruct (position_gt q y).
Qed.

Lemma pending_loop_same fuel t p q :
  same_proposal p q →
  option_Forall2 (option_Forall2 same_proposal) (pending_loop fuel c1 t p) (pending_loop fuel c2 t q).
Proof.
  revert p q. induction fuel as [|fuel IH]; intros p q Hpq; [constructor|]. cbn.
  destruct (same_height _ _ Hpq) as (-> & _ & ->). case_decide; [|by do 2 constructor].
  destruct (proj2 Hs (last_hash q)); [by apply IH|by do 2 constructor].
Qed.
End similar.

Lemma next_pending_same c1 c2 o r1 :
  wf_cache c1 → wf_cache c2 → same_cache c1 c2 → next_pending_proposal c1 o = Ok r1 →
  ∃ r2, next_pending_proposal c2 o = Ok r2 ∧ option_Forall2 same_proposal r1 r2.
Proof.
  intros Hc1 Hc2 Hs. unfold next_pending_proposal, max_continuous_proposal.
  destruct (confirmed_cached c1 Hc1) as (l1 & _ & Hl1 & Hh1 & ->).
  destruct (confirmed_cached c2 Hc2) as (l2 & _ & Hl2 & Hh2 & ->). cbn [outcome_bind].
  assert (same_proposal l1 l2) as Hl.
  { pose proof (proj2 Hs (last_confirmed_proposal_hash c1)) as Ho. rewrite <-Hh1 in Ho at 1.
    rewrite (proj1 Hs), <-Hh2, Hl1, Hl2 in Ho. by inversion Ho. }
  destruct (same_height _ _ Hl) as (-> & _).
  pose proof (max_by_same _ _ (candidates_same c1 c2 Hs (proposal_height l2))) as Hm.
  inversion Hm as [p q Hpq Hp Hq|Hp Hq]; [|intros [= <-]; eexists; split; [done|constructor]].
  destruct (same_height _ _ Hpq) as (-> & _). rewrite (same_size c1 c2 Hs).
  case_decide; (intros Hr; apply (inj Ok) in Hr; subst r1; eexists; split; [done|]); [constructor|].
  pose proof (pending_loop_same c1 c2 Hs (S (size (proposals c2)))
    (wrap 64 (wrap 64 (proposal_height l2 + 1) + o)) p q Hpq) as Hloop.
  revert Hloop. generalize (pending_loop (S (size (proposals c2))) c1), (pending_loop (S (size (proposals c2))) c2).
  intros f g Hloop. by destruct Hloop; [|constructor].
Qed.

(** * Updates keep the cache well formed *)

Lemma wf_pc_new p s : wf_proposal p → wf_cache (pc_new p s).
Proof.
  intros Hp. split; cbn.
  - intros h q [<- <-]%lookup_singleton_Some. done.
  - rewrite lookup_singleton_eq. by eexists.
Qed.

Lemma wf_pc_insert c p : wf_cache c → wf_proposal p → wf_cache (pc_insert c p).
Proof.
  intros [Hk Hl] Hp. split; cbn.
  - intros h q [[<- <-]|[_ Hq]]%lookup_insert_Some; [done|by apply Hk].
  - destruct (decide (proposal_hash p = last_confirmed_proposal_hash c)) as [->|?].
    + rewrite lookup_insert_eq. by eexists.
    + by rewrite lookup_insert_ne.
Qed.

Lemma wf_pc_update c h f :
  wf_cache c → (∀ p, proposals c !! h = Some p → wf_proposal (f p) ∧ proposal_hash (f p) = proposal_hash p) →
  wf_cache (pc_update c h f).
Proof.
  intros [Hk Hl] Hf. split; cbn.
  - intros h' q [(<- & p & Hp & ->)|[_ Hq]]%lookup_alter_Some; [|by apply Hk].
    destruct (Hf p Hp) as [? ->]. split; [|done]. by apply Hk.
  - destruct (decide (h = last_confirmed_proposal_hash c)) as [->|?].
    + rewrite lookup_alter_eq. destruct Hl as [l ->]. by eexists.
    + by rewrite lookup_alter_ne.
Qed.

Lemma wf_pc_remove c h : wf_cache c → h ≠ last_confirmed_proposal_hash c → wf_cache (pc_remove c h).
Proof.
  intros [Hk Hl] Hh. split; cbn.
  - intros h' q [_ Hq]%lookup_delete_Some. by apply Hk.
  - by rewrite lookup_delete_ne.
Qed.

Lemma lookup_deletes {V} (m : gmap ProposalHash V) ks k :
  foldl (λ m k, delete k m) m ks !! k = if decide (k ∈ ks) then None else m !! k.
Proof.
  revert m. induction ks as [|x ks IH]; intros m; cbn; [done|]. rewrite IH.
  repeat case_decide; try done; set_unfold; try tauto.
  - destruct (decide (x = k)) as [->|?]; [by rewrite lookup_delete_eq|]. naive_solver.
  - rewrite lookup_delete_ne; [done|]. naive_solver.
Qed.

(** Confirming a cached proposal keeps it and drops nothing but redundant
    proposals. *)
Lemma pc_confirm_spec c p :
  wf_cache c → cached c p →
  ∃ c', pc_confirm c (proposal_hash p) = (c', Ok tt) ∧ wf_cache c' ∧
    last_confirmed_proposal_hash c' = proposal_hash p ∧ cached c' p ∧
    cache_size c' = cache_size c ∧
    (∀ h, proposals c' !! h = proposals c !! h ∨ proposals c' !! h = None).
Proof.
  intros Hc Hp. unfold pc_confirm. set (c1 := mk_proposal_cache _ _ _).
  assert (wf_cache c1) as Hc1. { split; [apply (wc_key _ Hc)|]. by exists p. }
  destruct (confirmed_cached c1 Hc1) as (l & Hl & Hlc & Hlh & Hh). unfold purge. rewrite Hh.
  assert (l = p) as -> by (unfold cached in Hlc; rewrite Hlh in Hlc; cbn in Hlc; congruence).
  set (ks := (List.filter _ _).*1).
  assert (proposal_hash p ∉ ks) as Hnot.
  { unfold ks. rewrite list_elem_of_fmap. intros ([k q] & Hk & [Hin Hr]%elem_of_list_filterb).
    cbn in Hk, Hr. subst k. apply elem_hm_iter in Hin.
    unfold cached in Hp. cbn in Hin. rewrite Hp in Hin. injection Hin as <-. unfold redundant in Hr.
    rewrite !decide_False in Hr by lia. by apply bool_decide_eq_true in Hr. }
  eexists. split; [done|].
  assert (cached (with_proposals c1 (foldl (λ m k, delete k m) (proposals c1) ks)) p) as Hcp.
  { unfold cached. cbn. by rewrite lookup_deletes, decide_False. }
  split_and!; try done.
  - split; cbn; [|by exists p]. intros h q. rewrite lookup_deletes. case_decide; [done|].
    apply (wc_key _ Hc).
  - intros h. cbn. rewrite lookup_deletes. case_decide; [by right|by left].
Qed.
End proposal_cache.
Arguments ProposalCache P St {_}.
