(* ===== verification/SolidCore.v ===== *)
(** The core of the consensus library (pkg/solid/src/solid/core.rs and event.rs):
    receiving proposals and accepts, and the events they lead to.

    Each method is a [ST] computation on the core.  [add_accept] and
    [get_next_accept_event] call each other; [add_accept_rec] takes the depth of
    these calls as fuel and panics with "out of fuel" when it is used up, as does
    the loop of [validated_current_proposal_hash].  That neither happens is part
    of [solid_never_panics]. *)
From S2P Require Import Prelude SolidProposal SolidCache.

Inductive SolidEvent (P St : Type) :=
| Propose (last_proposal_hash : ProposalHash) (height skips : Z) (accepts : list (ProposalAccept P))
| Commit (manifest confirmed_by : Manifest P St)
| Accept (accept : ProposalAccept P)
| OutOfSync (height max_seen_height : Z)
| DuplicateProposal (proposal_hash : ProposalHash).
Arguments Propose {P St} _ _ _ _.
Arguments Commit {P St} _ _.
Arguments Accept {P St} _.
Arguments OutOfSync {P St} _ _.
Arguments DuplicateProposal {P St} _.

Record ProposalOrphan (P : Type) := mk_orphan {
  orphan_list : list (ProposalAccept P);
  first_seen : Z;
}.
Arguments mk_orphan {P} _ _.
Arguments orphan_list {P} _.
Arguments first_seen {P} _.

Section solid_core.
Context {P PS St A : Type} `{!Peer P} `{!PeerSigner P PS} `{!Digests} `{!App A P St}
        `{!MapOrder}.
Notation E := (SolidError P).
Notation Event := (SolidEvent P St).

Record SolidCore := mk_core {
  local_peer_signer : PS;
  core_proposals : ProposalCache P St;
  orphan_accepts : gmap ProposalHash (ProposalOrphan P);
  app : A;
  config : SolidConfig;
  max_height : Z;
}.
Implicit Types (core : SolidCore) (a : ProposalAccept P).
Notation M := (ST SolidCore E).

Definition with_core_proposals (f : ProposalCache P St → ProposalCache P St) core :=
  mk_core (local_peer_signer core) (f (core_proposals core)) (orphan_accepts core) (app core)
    (config core) (max_height core).
Definition with_orphans (f : gmap ProposalHash (ProposalOrphan P) → gmap ProposalHash (ProposalOrphan P)) core :=
  mk_core (local_peer_signer core) (core_proposals core) (f (orphan_accepts core)) (app core)
    (config core) (max_height core).
Definition with_max_height (h : Z) core :=
  mk_core (local_peer_signer core) (core_proposals core) (orphan_accepts core) (app core)
    (config core) h.

Definition core_threshold core : AcceptThreshold := accept_threshold (config core).
Definition local_peer core : P := signer_peer (local_peer_signer core).

(** ** Construction and reads *)

Definition with_last_confirmed (signer : PS) (last_confirmed : Manifest P St) (app : A)
    (config : SolidConfig) : SolidCore :=
  mk_core signer (pc_new (proposal_new last_confirmed) (max_proposal_history config)) ∅ app config
    (mc_height (m_content last_confirmed)).

Definition core_height core : outcome E Z := pc_height (core_proposals core).
Definition core_hash core : outcome E ProposalHash :=
  let? p := last_confirmed_proposal (core_proposals core) in Ok (proposal_hash p).
Definition core_exists core (h : ProposalHash) : bool := pc_contains (core_proposals core) h.

Definition is_out_of_sync core : outcome E bool :=
  let? height := core_height core in
  Ok (bool_decide (wrap 64 (height + 1) < max_height core)).

(** ** receive_proposal *)

Fixpoint add_orphans (t : AcceptThreshold) (p : Proposal P St) (l : list (ProposalAccept P))
  : outcome E (Proposal P St) :=
  match l with
  | [] => Ok p
  | a :: rest => let? r := proposal_add_accept p a t in add_orphans t r.1 rest
  end.

Definition receive_proposal (m : Manifest P St) : M unit :=
  let proposal := proposal_new m in
  let hash := proposal_hash proposal in
  let! _ := st_lift (λ core, validate_structure proposal (app core) (core_threshold core)) in
  let! exists_ := st_get (λ core, core_exists core hash) in
  if exists_ then λ core, (core, Err (ProposalAlreadyExists hash)) else
  let! height := st_lift core_height in
  if decide (proposal_height proposal ≤ height) then λ core, (core, Err ProposalHeightTooLow) else
  let! max := st_get max_height in
  let! _ := st_modify (if decide (max < proposal_height proposal)
                       then with_max_height (proposal_height proposal) else id) in
  let! orphan := st_get (λ core, orphan_accepts core !! hash) in
  let! _ := st_modify (with_orphans (delete hash)) in
  let! proposal := st_lift (λ core, add_orphans (core_threshold core) proposal
                              (default [] (orphan_list <$> orphan))) in
  st_modify (with_core_proposals (λ c, pc_insert c proposal)).

(** ** The current proposal *)

Definition highest_next_pending core : outcome E (option (Proposal P St)) :=
  let? last_confirmed := last_confirmed_proposal (core_proposals core) in
  let last_confirmed_highest_skip :=
    default 0 (highest_skip_with_inverse last_confirmed (core_threshold core)) in
  let? next := next_pending_proposal (core_proposals core) 0 in
  Ok (match next with
      | Some p =>
          if decide (proposal_skips p < last_confirmed_highest_skip ∨
                     proposal_skips p < skips_sent last_confirmed)
          then None else Some p
      | None => None
      end).

(** [is_validated || validate_contents(..).is_ok()] *)
Definition contents_ok core (p last_confirmed : Proposal P St) : outcome E bool :=
  if is_validated p then Ok true
  else match validate_contents p (app core) last_confirmed with
       | Ok _ => Ok true
       | Err _ => Ok false
       | Panic msg => Panic msg
       end.

Fixpoint current_hash_loop (fuel : nat) : M ProposalHash :=
  match fuel with
  | O => λ core, (core, Panic "out of fuel")
  | S fuel =>
      let! last_confirmed := st_lift (λ core, last_confirmed_proposal (core_proposals core)) in
      let! next := st_lift highest_next_pending in
      match next with
      | None => st_ret (proposal_hash last_confirmed)
      | Some p =>
          let! is_valid := st_lift (λ core, contents_ok core p last_confirmed) in
          if is_valid then st_ret (proposal_hash p)
          else
            let! _ := st_modify (with_core_proposals (λ c, pc_remove c (proposal_hash p))) in
            current_hash_loop fuel
      end
  end.
Definition validated_current_proposal_hash : M ProposalHash :=
  let! n := st_get (λ core, size (proposals (core_proposals core))) in
  current_hash_loop (S n).

Definition missing : string := "Proposal is current, but now missing from proposal cache".

Definition current_proposal : M (Proposal P St) :=
  let! hash := validated_current_proposal_hash in
  st_lift (λ core, unwrap (pc_get (core_proposals core) hash) missing).

(** The key of the current proposal with the proposal, marked as validated. *)
Definition validated_current_proposal : M (ProposalHash * Proposal P St) :=
  let! hash := validated_current_proposal_hash in
  let! p := st_lift (λ core, unwrap (pc_get (core_proposals core) hash) missing) in
  let! _ := st_modify (with_core_proposals (λ c, pc_update c hash with_validated)) in
  st_ret (hash, with_validated p).

(** ** Accepts *)

(** [get_next_accept_event], given the [add_accept] it calls. *)
Definition next_accept_event_with (add : ProposalAccept P → M (option Event)) (skip : bool)
  : M (option Event) :=
  let! threshold := st_get core_threshold in
  let! (hash, current) := validated_current_proposal in
  let skips := next_accept_skip current threshold skip in
  let proposal_header :=
    mk_proposal_header (proposal_hash current) (proposal_height current) (proposal_skips current) in
  let! signature := st_get (λ core, sig_data_sign proposal_header skips (local_peer_signer core)) in
  let! (hash, current) := validated_current_proposal in
  let! leader := st_lift (λ _, leader_for current skips) in
  let! from := st_get local_peer in
  let accept := mk_accept leader proposal_header skips from signature in
  let! _ := st_modify (with_core_proposals (λ c, pc_update c hash (λ p, with_sent p true skips))) in
  let! r := add accept in
  st_ret (match r with Some e => Some e | None => Some (Accept accept) end).

Section clock.
(** The time an orphan is first seen, and the time its age is taken. *)
Context (now now' : Z).

(** The branch for an accept whose proposal is not cached. *)
Definition add_orphan a : M (option Event) :=
  let hash := ph_hash (accept_proposal a) in
  let! orphan := st_get (λ core, orphan_accepts core !! hash) in
  let seen := match orphan with Some o => first_seen o | None => now end in
  let! _ := st_modify (with_orphans
              (<[hash := mk_orphan (default [] (orphan_list <$> orphan) ++ [a]) seen]>)) in
  let! timeout := st_get (λ core, missing_proposal_timeout (config core)) in
  let! (_, current) := validated_current_proposal in
  let height := ph_height (accept_proposal a) in
  let missing_more_than_one_proposal := bool_decide (wrap 64 (proposal_height current + 1) < height) in
  let proposal_first_seen_expired := bool_decide (timeout < saturating_sub now' seen) in
  let accept_is_greater :=
    bool_decide (proposal_height current < height ∨
                 proposal_skips current < ph_skips (accept_proposal a)) in
  if missing_more_than_one_proposal || (proposal_first_seen_expired && accept_is_greater) then
    let! own := st_lift core_height in
    st_ret (Some (OutOfSync own height))
  else st_ret None.

Fixpoint add_accept_rec (fuel : nat) a : M (option Event) :=
  match fuel with
  | O => λ core, (core, Panic "out of fuel")
  | S fuel =>
      let hash := ph_hash (accept_proposal a) in
      let skips := accept_skips a in
      let! height := st_lift core_height in
      if decide (ph_height (accept_proposal a) < height) then st_ret None else
      let! out_of_sync := st_lift is_out_of_sync in
      let! local := st_get local_peer in
      let! (_, current) := validated_current_proposal in
      let! found := st_get (λ core, pc_get (core_proposals core) hash) in
      match found with
      | Some p =>
          let! (p, breached) := st_lift (λ core, proposal_add_accept p a (core_threshold core)) in
          let! _ := st_modify (with_core_proposals (λ c, pc_update c hash (λ _, p))) in
          let! propose :=
            (if breached
             then let! leader := st_lift (λ _, leader_for p skips) in
                  st_ret (bool_decide (leader = local) && negb out_of_sync)
             else st_ret false) in
          if (propose : bool) then
            st_ret (Some (Propose hash (wrap 64 (proposal_height p + 1)) skips
                            (default [] (accepts_for_skip p skips))))
          else if decide (proposal_hash current = hash ∧ skips_sent p < skips) then
            let! _ := st_modify (with_core_proposals
                        (λ c, pc_update c hash (λ p, with_sent p (initial_accept_sent p) skips))) in
            next_accept_event_with (add_accept_rec fuel) false
          else st_ret None
      | None => add_orphan a
      end
  end.

(** An accept of a peer leads to an accept of our own, which leads no further. *)
Definition call_depth : nat := 3.
Definition add_accept a : M (option Event) := add_accept_rec call_depth a.
Definition get_next_accept_event (skip : bool) : M (option Event) :=
  next_accept_event_with add_accept skip.

(** The early exit for an accept of a cached proposal. *)
Definition check_known a core : outcome E unit :=
  match pc_get (core_proposals core) (ph_hash (accept_proposal a)) with
  | Some p => validate_accept p a
  | None => Ok tt
  end.

Definition receive_accept a : M (option Event) :=
  let! _ := st_lift (λ _, verify_signature a) in
  let! (_, current) := validated_current_proposal in
  let! height := st_lift core_height in
  let! _ := st_modify (if decide (height < ph_height (accept_proposal a))
                       then with_max_height (ph_height (accept_proposal a)) else id) in
  let! _ := st_lift (check_known a) in
  let! r := add_accept a in
  match r with
  | Some e => st_ret (Some e)
  | None =>
      let! (_, current') := validated_current_proposal in
      if decide (proposal_hash current ≠ proposal_hash current') then get_next_accept_event false
      else st_ret None
  end.

(** ** Events *)

Definition skip : M (option Event) :=
  let! out_of_sync := st_lift is_out_of_sync in
  if out_of_sync then st_ret None else get_next_accept_event true.

Definition st_confirm (h : ProposalHash) : M unit := λ core,
  let '(c, r) := pc_confirm (core_proposals core) h in (with_core_proposals (λ _, c) core, r).

(** The part of [next_event] after the commit: out of sync, or the first accept
    of the current proposal. *)
Definition next_event_idle : M (option Event) :=
  let! out_of_sync := st_lift is_out_of_sync in
  if out_of_sync then
    let! height := st_lift core_height in
    let! max := st_get max_height in
    st_ret (Some (OutOfSync height max))
  else
    let! (_, current) := validated_current_proposal in
    if negb (initial_accept_sent current) then get_next_accept_event false else st_ret None.

Definition next_event : M (option Event) :=
  let! next0 := st_lift (λ core, next_pending_proposal (core_proposals core) 0) in
  let! next1 := match next0 with
                | Some _ => st_lift (λ core, next_pending_proposal (core_proposals core) 1)
                | None => st_ret None
                end in
  match next0, next1 with
  | Some proposal, Some confirmed_by =>
      let! _ := st_confirm (app_hash (m_content (manifest proposal))) in
      st_ret (Some (Commit (manifest proposal) (manifest confirmed_by)))
  | _, _ => next_event_idle
  end.
End clock.
End solid_core.
Arguments SolidCore P PS St A {_}.
