(* ===== verification/SolidCoreSpec.v ===== *)
(** What each method of the consensus core does: the invariant of the core, the
    current proposal, and the specification of every method as a total
    computation that keeps the invariant. *)
From S2P Require Import Prelude SolidProposal SolidCache SolidCore.

Section solid_core_spec.
Context {P PS St A : Type} `{!Peer P} `{!PeerSigner P PS} `{!Digests} `{!App A P St}.
Context `{!SignerLaws P PS}.
Notation E := (SolidError P).
Notation Event := (SolidEvent P St).
Notation Core := (SolidCore P PS St A).
Implicit Types (p q l : Proposal P St) (c : ProposalCache P St) (core : Core).
Implicit Types (a : ProposalAccept P) (m : Manifest P St).

(** * Leaders and accepts *)

Lemma ordered_perm (mc : ManifestContent P St) : ordered_validators mc ≡ₚ validators mc.
Proof. apply merge_sort_Permutation. Qed.

Lemma leader_total (mc : ManifestContent P St) (skip : Z) :
  validators mc ≠ [] → ∃ v, get_leader_for_skip mc skip = Ok v ∧ v ∈ validators mc.
Proof.
  intros Hv. pose proof (ordered_perm mc) as Hp. unfold get_leader_for_skip, leader_of_order.
  destruct (ordered_validators mc) as [|v vs] eqn:E; [by apply Permutation_nil_l in Hp|].
  pose proof (Z.mod_pos_bound skip (Z.of_nat (length (v :: vs))) ltac:(cbn; lia)) as Hb.
  destruct (lookup_lt_is_Some_2 (v :: vs) (Z.to_nat (skip mod Z.of_nat (length (v :: vs))))) as [w Hw]; [lia|].
  rewrite Hw. exists w. split; [done|]. rewrite <-Hp. by eapply list_elem_of_lookup_2.
Qed.

Lemma leader_for_total p (skip : Z) : wf_proposal p → ∃ v, leader_for p skip = Ok v.
Proof. intros Hp. destruct (leader_total (m_content (manifest p)) skip) as (v & ? & _); [|by exists v]. apply Hp. Qed.

Lemma validate_accept_same p q a : manifest p = manifest q → validate_accept p a = validate_accept q a.
Proof. intros Hm. unfold validate_accept, leader_for. by rewrite Hm. Qed.

Lemma validate_accept_total p a : wf_proposal p → ∀ msg, validate_accept p a ≠ Panic msg.
Proof.
  intros Hp msg. unfold validate_accept. destruct (leader_for_total p (accept_skips a) Hp) as [v ->].
  unfold verify_signature. destruct (sig_data_verify _ _ _ _); cbn; [|done]. by repeat case_decide.
Qed.

Lemma accepts_at_insert p s x a y t :
  accepts_at (with_accepts p (<[s := <[x := a]> (accepts_at p s)]> (incoming_accepts p))) t !! y =
  if decide (s = t ∧ x = y) then Some a else accepts_at p t !! y.
Proof.
  unfold accepts_at at 1. cbn. destruct (decide (s = t)) as [->|Hst].
  - rewrite lookup_insert_eq. cbn. destruct (decide (x = y)) as [->|?].
    + rewrite lookup_insert_eq. by rewrite decide_True.
    + rewrite lookup_insert_ne by done. rewrite decide_False by tauto. done.
  - rewrite lookup_insert_ne by done. rewrite decide_False by tauto. done.
Qed.

(** Adding an accept of this proposal keeps the proposal well formed; it says
    that the threshold is breached only when the accepts are exactly as many. *)
Lemma proposal_add_accept_spec p a t :
  wf_proposal p → ph_hash (accept_proposal a) = proposal_hash p →
  ∃ p' b, proposal_add_accept p a t = Ok (p', b) ∧ wf_proposal p' ∧ same_proposal p p' ∧
    skips_sent p' = skips_sent p ∧ is_validated p' = is_validated p ∧ initial_accept_sent p' = initial_accept_sent p ∧
    (b = true → size (accepts_at p' (accept_skips a)) =
                threshold t (length (validators (m_content (manifest p))))).
Proof.
  intros Hp Ha. unfold proposal_add_accept. pose proof (validate_accept_total p a Hp) as Hno.
  destruct (validate_accept p a) as [[]|e|msg] eqn:Hv; [| |by destruct (Hno msg)].
  2:{ exists p, false. split_and!; done. }
  eexists _, _. split; [done|]. destruct Hp as [Hh Ho Hm Hacc]. split_and!; try done.
  - split; try done. intros s x b. rewrite accepts_at_insert. case_decide as Hd.
    + destruct Hd as [<- <-]. intros [= <-]. done.
    + intros Hb. apply (Hacc s x b Hb).
  - intros [_ Hb]%andb_true_iff. apply bool_decide_eq_true in Hb. rewrite <-Hb. cbn.
    by rewrite Ho, ordered_perm.
Qed.

Lemma add_orphans_spec t : ∀ (accs : list (ProposalAccept P)) p,
  wf_proposal p → (∀ a, a ∈ accs → ph_hash (accept_proposal a) = proposal_hash p) →
  ∃ p', add_orphans t p accs = Ok p' ∧ wf_proposal p' ∧ same_proposal p p' ∧ is_validated p' = is_validated p.
Proof.
  induction accs as [|a accs IH]; intros p Hp Ha; [by exists p|]. cbn.
  destruct (proposal_add_accept_spec p a t Hp) as (p1 & b & -> & Hp1 & Hs1 & _ & Hv1 & _ & _);
    [apply Ha; by left|]. cbn.
  destruct (IH p1 Hp1) as (p2 & -> & Hp2 & Hs2 & Hv2).
  { intros a' Ha'. rewrite <-(proj1 Hs1). apply Ha. by right. }
  exists p2. split_and!; [done..|by etrans|congruence].
Qed.

Lemma wf_proposal_new m : wf_manifest m → wf_proposal (proposal_new m).
Proof. intros Hm. split; [done..|]. intros s x a. unfold accepts_at. cbn. by rewrite !lookup_empty. Qed.

Lemma validate_contents_same p q l l' (app : A) :
  same_proposal p q → same_proposal l l' → validate_contents p app l = validate_contents q app l'.
Proof. intros [_ Hm] [Hh' Hm']. unfold validate_contents, proposal_skips. by rewrite Hm, Hh', Hm'. Qed.

Lemma validate_contents_total p l (app : A) : wf_proposal l → ∀ msg, validate_contents p app l ≠ Panic msg.
Proof.
  intros Hl msg. unfold validate_contents. case_decide; [done|].
  destruct (leader_total (m_content (manifest l)) (proposal_skips p)) as (v & -> & _); [apply Hl|]. cbn.
  repeat case_match; done.
Qed.

(** * The invariant of the core *)

Definition confirmed core : outcome E (Proposal P St) := last_confirmed_proposal (core_proposals core).

(** A proposal marked as validated is not above the confirmed one or has passed
    its validation against it. *)
Record core_inv core : Prop := {
  ci_cache : wf_cache (core_proposals core);
  ci_orphans h o a : orphan_accepts core !! h = Some o → a ∈ orphan_list o →
    ph_hash (accept_proposal a) = h;
  ci_validated p l : cached (core_proposals core) p → confirmed core = Ok l → is_validated p = true →
    proposal_height p ≤ proposal_height l ∨
    proposal_height p = proposal_height l + 1 ∧ validate_contents p (app core) l = Ok tt;
}.

(** What every method but the commit keeps: the identity of the node and the
    confirmed proposal; proposals are not invented. *)
Record evolves core core' : Prop := {
  ev_signer : local_peer_signer core' = local_peer_signer core;
  ev_app : app core' = app core;
  ev_config : config core' = config core;
  ev_confirmed : last_confirmed_proposal_hash (core_proposals core') =
                 last_confirmed_proposal_hash (core_proposals core);
  ev_proposals h p' : proposals (core_proposals core') !! h = Some p' →
    ∃ p, proposals (core_proposals core) !! h = Some p ∧ same_proposal p p';
  ev_sent h p p' : proposals (core_proposals core) !! h = Some p →
    proposals (core_proposals core') !! h = Some p' →
    initial_accept_sent p = true → initial_accept_sent p' = true;
}.

#[local] Instance evolves_refl : Reflexive evolves.
Proof. intros core. split; try done; [intros h p Hp; by exists p|]. intros h p p' Hp Hp'. by simplify_eq. Qed.
#[local] Instance evolves_trans : Transitive evolves.
Proof.
  intros x y z [S1 A1 C1 L1 P1 I1] [S2 A2 C2 L2 P2 I2]. split; [congruence..| |].
  - intros h p' (p & Hp & Hs)%P2. destruct (P1 h p Hp) as (p0 & Hp0 & Hs0). exists p0. split; [done|by etrans].
  - intros h p p' Hp Hp' Hi. destruct (P2 h p' Hp') as (q & Hq & _). by eapply I2, I1.
Qed.

Lemma evolves_confirmed core core' l' :
  evolves core core' → confirmed core' = Ok l' → ∃ l, confirmed core = Ok l ∧ same_proposal l l'.
Proof.
  intros He Hl. unfold confirmed, last_confirmed_proposal in *. rewrite (ev_confirmed _ _ He) in Hl.
  destruct (proposals (core_proposals core') !! _) as [x|] eqn:Hx; [|done]. cbn in Hl. injection Hl as ->.
  apply (ev_proposals _ _ He) in Hx as (l & -> & Hs). by exists l.
Qed.

Lemma confirmed_ok core : core_inv core → ∃ l, confirmed core = Ok l ∧ cached (core_proposals core) l ∧
  proposal_hash l = last_confirmed_proposal_hash (core_proposals core) ∧
  core_height core = Ok (proposal_height l) ∧ wf_proposal l.
Proof.
  intros Hi. destruct (confirmed_cached _ (ci_cache _ Hi)) as (l & ? & Hc & ? & ?).
  exists l. split_and!; try done. by apply (cached_wf _ (ci_cache _ Hi)).
Qed.

(** Writing to the local bookkeeping of one cached proposal. *)
Lemma update_inv core h (f : Proposal P St → Proposal P St) :
  core_inv core →
  (∀ p, proposals (core_proposals core) !! h = Some p → wf_proposal (f p) ∧ same_proposal p (f p)) →
  (∀ p, proposals (core_proposals core) !! h = Some p → initial_accept_sent p = true → initial_accept_sent (f p) = true) →
  (∀ p l, proposals (core_proposals core) !! h = Some p → confirmed core = Ok l →
     is_validated (f p) = true → is_validated p = true ∨ proposal_height p ≤ proposal_height l ∨
     proposal_height p = proposal_height l + 1 ∧ validate_contents p (app core) l = Ok tt) →
  core_inv (with_core_proposals (λ c, pc_update c h f) core) ∧
  evolves core (with_core_proposals (λ c, pc_update c h f) core).
Proof.
  intros [Hc Ho Hv] Hf Hsent Hval. set (core' := with_core_proposals _ core).
  assert (evolves core core') as He.
  { split; [done..| |].
    - intros h' p'. cbn. intros [(<- & p & Hp & ->)|[_ Hp]]%lookup_alter_Some; [|by exists p'].
      exists p. split; [done|]. by apply Hf.
    - intros h' p p'. cbn. intros Hp [(<- & q & Hq & ->)|[_ Hq]]%lookup_alter_Some; simplify_eq; [|done]. by apply Hsent. }
  split; [|done]. split.
  - apply wf_pc_update; [done|]. intros p Hp. destruct (Hf p Hp) as [? [? _]]. done.
  - done.
  - intros p' l' Hp' Hl' Hval'. destruct (evolves_confirmed _ _ _ He Hl') as (l & Hl & Hs).
    destruct (same_height _ _ Hs) as (<- & _).
    unfold cached in Hp'. cbn in Hp'. apply lookup_alter_Some in Hp' as [(Hh & p & Hp & ->)|[_ Hp]].
    + rewrite <-Hh in Hp. destruct (Hf p Hp) as [_ Hsp]. destruct (same_height _ _ Hsp) as (<- & _).
      rewrite <-(validate_contents_same p (f p) l l') by done.
      destruct (Hval p l Hp Hl Hval') as [Hpv|Hpv]; [|done].
      apply Hv; [|done|done]. by apply (cached_of _ Hc h).
    + rewrite <-(validate_contents_same p' p' l l') by done. by apply Hv.
Qed.

Lemma remove_inv core h :
  core_inv core → h ≠ last_confirmed_proposal_hash (core_proposals core) →
  core_inv (with_core_proposals (λ c, pc_remove c h) core) ∧
  evolves core (with_core_proposals (λ c, pc_remove c h) core).
Proof.
  intros [Hc Ho Hv] Hh. set (core' := with_core_proposals _ core).
  assert (evolves core core') as He.
  { split; [done..| |].
    - intros h' p'. cbn. intros [_ Hp]%lookup_delete_Some. by exists p'.
    - intros h' p p'. cbn. intros Hp [_ Hp']%lookup_delete_Some. by simplify_eq. }
  split; [|done]. split; [by apply wf_pc_remove|done|].
  intros p l' Hp Hl' Hval. destruct (evolves_confirmed _ _ _ He Hl') as (l & Hl & Hs).
  destruct (same_height _ _ Hs) as (<- & _).
  rewrite <-(validate_contents_same p p l l') by done. apply Hv; [|done|done].
  unfold cached in Hp. cbn in Hp. by apply lookup_delete_Some in Hp as [_ ?].
Qed.

(** * The current proposal *)

Section methods.
Context `{!MapOrder}.

Lemma highest_next_pending_spec core l :
  core_inv core → confirmed core = Ok l →
  ∃ r, highest_next_pending core = Ok r ∧
    ∀ p, r = Some p → cached (core_proposals core) p ∧ proposal_height p = proposal_height l + 1.
Proof.
  intros Hi Hl. unfold highest_next_pending. unfold confirmed in Hl. rewrite Hl. cbn [outcome_bind].
  destruct (next_pending_spec _ (ci_cache _ Hi) l 0 Hl) as (r & -> & Hr); [lia|]. cbn [outcome_bind].
  eexists. split; [done|]. intros p Hp. destruct r as [q|]; [|done]. case_decide; [done|].
  injection Hp as ->. destruct Hr as (top & _ & Hc & _ & _ & Hh). split; [done|lia].
Qed.

(** The loop ends at [h] without a further step. *)
Definition settled core (h : ProposalHash) : Prop :=
  ∀ fuel, current_hash_loop (S fuel) core = (core, Ok h).

Lemma current_loop_spec fuel core :
  core_inv core → (size (proposals (core_proposals core)) < fuel)%nat →
  returns (current_hash_loop fuel) core (λ h core',
    core_inv core' ∧ evolves core core' ∧ settled core' h ∧ orphan_accepts core' = orphan_accepts core ∧
    proposals (core_proposals core') ⊆ proposals (core_proposals core) ∧
    ∃ p l, proposals (core_proposals core') !! h = Some p ∧ confirmed core' = Ok l ∧
      (p = l ∧ highest_next_pending core' = Ok None ∨
       highest_next_pending core' = Ok (Some p) ∧ contents_ok core' p l = Ok true)).
Proof.
  revert core. induction fuel as [|fuel IH]; intros core Hi Hf; [lia|]. cbn [current_hash_loop].
  destruct (confirmed_ok core Hi) as (l & Hl & Hlc & Hlh & _ & Hwl).
  destruct (highest_next_pending_spec core l Hi Hl) as (r & Hr & Hp).
  st_read Hl. st_read Hr. destruct r as [p|].
  2:{ apply returns_ret. split_and!; try done.
      - intros n. cbn. unfold st_bind, st_ret, st_lift. unfold confirmed in Hl.
        by rewrite Hl, Hr.
      - exists l, l. split_and!; try done. by left. }
  destruct (Hp p eq_refl) as [Hpc Hph].
  assert (∃ b, contents_ok core p l = Ok b) as [b Hb].
  { unfold contents_ok. destruct (is_validated p); [by eexists|].
    pose proof (validate_contents_total p l (app core) Hwl) as Hn.
    destruct (validate_contents p (app core) l) as [?|?|msg]; [by eexists..|by destruct (Hn msg)]. }
  st_read Hb. destruct b.
  - apply returns_ret. split_and!; try done.
    + intros n. cbn. unfold st_bind, st_ret, st_lift. unfold confirmed in Hl. by rewrite Hl, Hr, Hb.
    + exists p, l. split_and!; try done. by right.
  - assert (proposal_hash p ≠ last_confirmed_proposal_hash (core_proposals core)) as Hne.
    { rewrite <-Hlh. intros Heq. unfold cached in Hpc, Hlc. rewrite Heq, Hlc in Hpc. injection Hpc as <-. lia. }
    destruct (remove_inv core _ Hi Hne) as [Hi' He'].
    st_pure. st_call (IH _ Hi').
    + cbn. unfold cached in Hpc. rewrite map_size_delete_Some by (by rewrite Hpc).
      assert (size (proposals (core_proposals core)) ≠ 0%nat); [|lia].
      intros Hemp%map_size_empty_inv. by rewrite Hemp, lookup_empty in Hpc.
    + intros h core' (? & ? & ? & Ho & Hsub & ?). split_and!; try done; [by etrans|].
      etrans; [exact Hsub|]. cbn. apply delete_subseteq.
Qed.

Lemma highest_next_pending_same core core' l l' r :
  core_inv core → core_inv core' → same_cache (core_proposals core) (core_proposals core') →
  confirmed core = Ok l → confirmed core' = Ok l' → config core' = config core →
  highest_skip_with_inverse l' (core_threshold core) = highest_skip_with_inverse l (core_threshold core) →
  skips_sent l' = skips_sent l →
  highest_next_pending core = Ok r →
  ∃ r', highest_next_pending core' = Ok r' ∧ option_Forall2 same_proposal r r'.
Proof.
  intros Hi Hi' Hs Hl Hl' Hcfg Hh Hk. unfold highest_next_pending, confirmed in *. rewrite Hl, Hl'.
  cbn [outcome_bind]. unfold core_threshold in *. rewrite Hcfg, Hh, Hk.
  destruct (next_pending_spec _ (ci_cache _ Hi) l 0 Hl) as (n & Hn & _); [lia|]. rewrite Hn.
  destruct (next_pending_same _ _ 0 n (ci_cache _ Hi) (ci_cache _ Hi') Hs Hn) as (n' & -> & Hnn).
  cbn [outcome_bind]. intros [= <-]. eexists. split; [done|].
  destruct Hnn as [p q Hpq|]; [|constructor]. destruct (same_height _ _ Hpq) as (_ & -> & _).
  by case_decide; constructor.
Qed.

(** What a call of [validated_current_proposal] leaves. *)
Record current core core' (h : ProposalHash) p : Prop := {
  cu_inv : core_inv core';
  cu_evolves : evolves core core';
  cu_found : proposals (core_proposals core') !! h = Some p;
  cu_hash : proposal_hash p = h;
  cu_validated : is_validated p = true;
  cu_settled : settled core' h;
  cu_orphans : orphan_accepts core' = orphan_accepts core;
  cu_only k q' : proposals (core_proposals core') !! k = Some q' →
    ∃ q, proposals (core_proposals core) !! k = Some q ∧ (q' = q ∨ q' = with_validated q);
}.

Lemma with_validated_idemp p : is_validated p = true → with_validated p = p.
Proof. destruct p. cbn. by intros ->. Qed.

Lemma validated_current_spec core :
  core_inv core →
  returns validated_current_proposal core (λ hp core', current core core' hp.1 hp.2).
Proof.
  intros Hi. unfold validated_current_proposal, validated_current_proposal_hash. st_pure.
  st_call current_loop_spec; [done|lia|].
  intros h core1 (Hi1 & He1 & Hset & Ho & Hsub & p & l & Hp & Hl & Hcur).
  st_pure. eapply returns_lift; [unfold pc_get; by rewrite Hp|]. st_pure. cbn [fst snd].
  destruct (cached_of _ (ci_cache _ Hi1) _ _ Hp) as [Hpc Hph].
  destruct (confirmed_ok core1 Hi1) as (l1 & Hl1 & Hlc & Hlh & _). rewrite Hl in Hl1. injection Hl1 as <-.
  destruct (update_inv core1 h with_validated Hi1) as [Hi2 He2].
  { intros q Hq. split; [|done]. apply (wc_key _ (ci_cache _ Hi1)) in Hq as [_ []]. by split. }
  { done. }
  { intros q l' Hq Hl' _. rewrite Hl in Hl'. injection Hl' as <-. rewrite Hp in Hq. injection Hq as <-.
    destruct Hcur as [[-> _]|[Hn Hok]]; [right; left; lia|].
    unfold contents_ok in Hok. destruct (is_validated p); [by left|right; right].
    destruct (validate_contents p (app core1) l) as [[]|?|?]; try done. split; [|done].
    destruct (highest_next_pending_spec core1 l Hi1 Hl) as (r & Hr & Hrp). rewrite Hn in Hr.
    injection Hr as <-. by apply Hrp. }
  set (core2 := with_core_proposals _ core1) in *.
  assert (proposals (core_proposals core2) !! h = Some (with_validated p)) as Hp2.
  { cbn. rewrite lookup_alter_eq, Hp. done. }
  split; try done.
  - by etrans.
  - destruct (confirmed_ok core2 Hi2) as (l2 & Hl2 & Hl2c & Hl2h & _ & Hwl2).
    destruct (highest_next_pending_spec core1 l Hi1 Hl) as (r & Hr & _).
    assert (l2 = l ∨ l2 = with_validated l) as Hl2'.
    { unfold cached in Hl2c, Hlc. rewrite Hl2h in Hl2c. cbn in Hl2c. rewrite Hlh in Hlc.
      apply lookup_alter_Some in Hl2c as [(_ & x & Hx & ->)|[_ Hx]]; rewrite Hlc in Hx; naive_solver. }
    destruct (highest_next_pending_same core1 core2 l l2 r) as (r' & Hr' & Hrr); try done.
    { by apply same_update. }
    { by destruct Hl2' as [->| ->]. }
    { by destruct Hl2' as [->| ->]. }
    intros n. cbn [current_hash_loop]. unfold st_bind, st_ret, st_lift. unfold confirmed in Hl2. rewrite Hl2, Hr'.
    destruct Hcur as [[-> Hn]|[Hn Hok]]; rewrite Hn in Hr; injection Hr as <-; inversion Hrr as [? q Hpq|].
    + f_equal. f_equal. destruct Hl2' as [->| ->]; done.
    + assert (q = with_validated p) as ->.
      { destruct (highest_next_pending_spec core2 l2 Hi2 Hl2) as (r2 & Hr2 & Hq). subst r'. rewrite Hr' in Hr2.
        injection Hr2 as <-. destruct (Hq q eq_refl) as [Hqc _]. unfold cached in Hqc.
        rewrite <-(proj1 Hpq), Hph, Hp2 in Hqc. by injection Hqc as <-. }
      cbn. by rewrite Hph.
  - intros k q' Hq'. cbn in Hq'. apply lookup_alter_Some in Hq' as [(_ & q & Hq & ->)|[_ Hq]].
    + exists q. split; [|by right]. by eapply lookup_weaken.
    + exists q'. split; [|by left]. by eapply lookup_weaken.
Qed.

(** A second call changes nothing. *)
Lemma validated_current_again core core' h p :
  current core core' h p → returns validated_current_proposal core' (λ hp core'', hp = (h, p) ∧ core'' = core').
Proof.
  intros [Hi He Hf Hh Hv Hs _ _]. unfold validated_current_proposal, validated_current_proposal_hash.
  st_pure. eexists _, _. split; [apply Hs|]. st_pure. eapply returns_lift; [unfold pc_get; by rewrite Hf|].
  st_pure. rewrite with_validated_idemp by done. split; [done|].
  destruct core' as [s [lc ps sz] o ap cfg mh]. unfold with_core_proposals, pc_update, with_proposals. cbn in *.
  f_equal. f_equal. apply map_eq. intros k. destruct (decide (h = k)) as [<-|?].
  - rewrite lookup_alter_eq, Hf. cbn. by rewrite with_validated_idemp.
  - by rewrite lookup_alter_ne.
Qed.

(** * The events *)

(** An accept this node sends is for the confirmed proposal or for one that
    passed its validation, names the leader of its skip, and is signed. *)
Definition accept_ok core a : Prop :=
  ∃ p l, cached (core_proposals core) p ∧ confirmed core = Ok l ∧
    accept_proposal a = mk_proposal_header (proposal_hash p) (proposal_height p) (proposal_skips p) ∧
    leader_for p (accept_skips a) = Ok (accept_leader_id a) ∧
    accept_from a = local_peer core ∧ verify_signature a = Ok tt ∧
    (proposal_height p ≤ proposal_height l ∨
     proposal_height p = proposal_height l + 1 ∧ validate_contents p (app core) l = Ok tt).

(** A request to propose on top of [p]: this node is the leader of that skip and
    holds the threshold of valid accepts, of different validators. *)
Definition propose_ok core (h : ProposalHash) (height skips : Z) (accs : list (ProposalAccept P)) : Prop :=
  ∃ p, cached (core_proposals core) p ∧ proposal_hash p = h ∧ height = proposal_height p + 1 ∧
    leader_for p skips = Ok (local_peer core) ∧ NoDup (accept_from <$> accs) ∧
    length accs = threshold (core_threshold core) (length (validators (m_content (manifest p)))) ∧
    ∀ a, a ∈ accs → accept_skips a = skips ∧ ph_hash (accept_proposal a) = h ∧ validate_accept p a = Ok tt.

Definition event_ok core (e : Event) : Prop :=
  match e with
  | Propose h height skips accs => propose_ok core h height skips accs
  | Accept a => accept_ok core a
  | OutOfSync height max_seen => core_height core = Ok height ∧ height ≤ max_seen
  | Commit _ _ | DuplicateProposal _ => False
  end.

(** Events stay justified by an earlier state of the core. *)
Lemma event_ok_evolves core core' e : evolves core core' → event_ok core' e → event_ok core e.
Proof.
  intros He. pose proof He as [Hs Ha Hcfg _ Hev _].
  assert (∀ p', cached (core_proposals core') p' →
            ∃ p, cached (core_proposals core) p ∧ same_proposal p p') as Hc.
  { intros p' (p & Hp & Hpp)%Hev. exists p. split; [|done]. unfold cached. by rewrite (proj1 Hpp). }
  destruct e as [h n s accs|? ?|a|n k|?]; cbn; try done.
  - intros (p' & Hp' & Hh & Hn & Hl & Hd & Hlen & Hall). destruct (Hc p' Hp') as (p & Hp & Hpp).
    destruct (same_height _ _ Hpp) as (Hhe & _). destruct Hpp as [Hph Hpm]. exists p.
    unfold leader_for, local_peer, core_threshold in *. rewrite Hpm, Hph, Hhe, <-Hs, <-Hcfg.
    split_and!; try done. intros a Hin. rewrite (validate_accept_same p p') by done. by apply Hall.
  - intros (p' & l' & Hp' & Hl' & Hhd & Hld & Hf & Hv & Hor). destruct (Hc p' Hp') as (p & Hp & Hpp).
    destruct (evolves_confirmed _ _ _ He Hl') as (l & Hl & Hll). exists p, l.
    rewrite (validate_contents_same p p' l l' (app core)) by done. rewrite <-Ha.
    destruct (same_height _ _ Hpp) as (-> & -> & _). destruct (same_height _ _ Hll) as (-> & _).
    destruct Hpp as [-> Hpm]. unfold leader_for, local_peer in *. rewrite Hpm, <-Hs. done.
  - intros [Hh Hle]. split; [|done]. unfold core_height, pc_height in *.
    apply outcome_bind_ok in Hh as (l' & Hl' & [= Hn]). destruct (evolves_confirmed _ _ _ He Hl') as (l & Hl & Hs').
    unfold confirmed in Hl. rewrite Hl. cbn. destruct (same_height _ _ Hs') as (-> & _). by rewrite Hn.
Qed.

(** The current proposal has had its first accept. *)
Definition marked core (h : ProposalHash) : Prop :=
  ∀ p, proposals (core_proposals core) !! h = Some p → initial_accept_sent p = true.
Lemma marked_evolves core core' h : evolves core core' → marked core h → marked core' h.
Proof.
  intros He Hm p' Hp'. destruct (ev_proposals _ _ He h p' Hp') as (p & Hp & _). by eapply (ev_sent _ _ He), Hm.
Qed.
Definition marks core core' : Prop :=
  ∀ core1 hp, validated_current_proposal core = (core1, Ok hp) → marked core' hp.1.

(** What the methods that handle accepts promise. *)
Definition handled core (r : option Event) core' : Prop :=
  core_inv core' ∧ evolves core core' ∧ ∀ e, r = Some e → event_ok core e.

Lemma handled_trans core core1 r core2 : evolves core core1 → handled core1 r core2 → handled core r core2.
Proof.
  intros He (? & ? & Hev). split_and!; [done|by etrans|].
  intros e Hr. by apply (event_ok_evolves core core1), Hev.
Qed.

Lemma handled_none core core' : core_inv core' → evolves core core' → handled core None core'.
Proof. done. Qed.

Lemma current_height core core' h p l :
  current core core' h p → confirmed core' = Ok l →
  proposal_height p ≤ proposal_height l ∨
  proposal_height p = proposal_height l + 1 ∧ validate_contents p (app core') l = Ok tt.
Proof.
  intros Hc Hl. apply (ci_validated _ (cu_inv _ _ _ _ Hc)); [|done|apply Hc].
  unfold cached. rewrite (cu_hash _ _ _ _ Hc). apply Hc.
Qed.

Lemma sorted_accepts p s x :
  accepts_for_skip p s = Some x → wf_proposal p →
  NoDup (accept_from <$> x) ∧ length x = size (accepts_at p s) ∧
  ∀ a, a ∈ x → accept_skips a = s ∧ ph_hash (accept_proposal a) = proposal_hash p ∧ validate_accept p a = Ok tt.
Proof.
  unfold accepts_for_skip. destruct (incoming_accepts p !! s) as [by_peer|] eqn:Hs; [|done].
  intros [= <-] Hp. assert (accepts_at p s = by_peer) as Hat by (unfold accepts_at; by rewrite Hs).
  assert (∀ k a, (k, a) ∈ merge_sort peer_entry_le (map_to_list by_peer) → accepts_at p s !! k = Some a) as Hin.
  { intros k a. rewrite merge_sort_Permutation, elem_of_map_to_list, Hat. done. }
  split_and!.
  - assert (accept_from <$> (merge_sort peer_entry_le (map_to_list by_peer)).*2 =
            (merge_sort peer_entry_le (map_to_list by_peer)).*1) as ->.
    { rewrite <-list_fmap_compose. apply list_fmap_ext. intros i [k a] Hi%list_elem_of_lookup_2. cbn.
      by apply (wp_accepts _ Hp s k a), Hin. }
    rewrite merge_sort_Permutation. apply NoDup_fst_map_to_list.
  - by rewrite Hat, length_fmap, merge_sort_Permutation, length_map_to_list.
  - intros a ([k b] & -> & Ha%Hin)%list_elem_of_fmap. cbn. apply (wp_accepts _ Hp s k b) in Ha. naive_solver.
Qed.

(** A proposal that just reached the threshold justifies a new one. *)
Lemma breached_propose core p (s : Z) :
  cached (core_proposals core) p → wf_proposal p → leader_for p s = Ok (local_peer core) →
  size (accepts_at p s) = threshold (core_threshold core) (length (validators (m_content (manifest p)))) →
  propose_ok core (proposal_hash p) (wrap 64 (proposal_height p + 1)) s (default [] (accepts_for_skip p s)).
Proof.
  intros Hc Hp Hl Hs. pose proof (wm_height _ (wp_manifest _ Hp)) as Hh. exists p.
  rewrite wrap_small by (unfold in_width, proposal_height; lia).
  destruct (accepts_for_skip p s) as [accs|] eqn:Ha.
  - destruct (sorted_accepts _ _ _ Ha Hp) as (? & Hlen & ?). cbn. split_and!; try done. by rewrite Hlen.
  - exfalso. unfold accepts_for_skip in Ha. apply fmap_None in Ha. unfold accepts_at in Hs.
    rewrite Ha in Hs. cbn in Hs. rewrite map_size_empty in Hs. unfold threshold in Hs.
    destruct (core_threshold core); lia.
Qed.

Section timed.
Context (now now' : Z).

Lemma add_orphan_spec a core ht :
  core_inv core → core_height core = Ok ht → ht ≤ ph_height (accept_proposal a) →
  returns (add_orphan now now' a) core (handled core).
Proof.
  intros Hi HH Hle. unfold add_orphan. st_pure. set (core1 := with_orphans _ core).
  assert (core_inv core1) as Hi1.
  { destruct Hi as [Hc Ho Hv]. split; [done| |done]. intros h o b. cbn.
    intros [[<- <-]|[_ Hb]]%lookup_insert_Some Hin; [|by apply (Ho h o)]. cbn in Hin.
    apply elem_of_app in Hin as [Hin|Hin]; [|by apply list_elem_of_singleton in Hin as ->].
    destruct (orphan_accepts core !! _) as [o|] eqn:Ho'; [by apply (Ho _ o)|by apply elem_of_nil in Hin]. }
  assert (evolves core core1) as He1.
  { split; try done; [intros h p Hp; by exists p|]. intros h p p' Hp Hp'. cbn in Hp'. by simplify_eq. }
  st_call validated_current_spec; [done|]. intros [h p] core2 Hcur. cbn [fst snd] in Hcur.
  pose proof (cu_evolves _ _ _ _ Hcur) as He2. pose proof (cu_inv _ _ _ _ Hcur) as Hi2.
  assert (evolves core core2) as He by by etrans.
  destruct (_ || _); [|apply returns_ret; by apply handled_none].
  destruct (confirmed_ok core2 Hi2) as (l & Hl & _ & _ & Hh & _).
  st_read Hh. st_pure. split_and!; [done..|]. intros e [= <-]. cbn.
  destruct (evolves_confirmed _ _ _ He Hl) as (l0 & Hl0 & Hs). destruct (same_height _ _ Hs) as (<- & _).
  unfold core_height, pc_height in *. unfold confirmed in Hl0. rewrite Hl0 in *. cbn in HH. injection HH as <-. done.
Qed.

(** [own core a]: answering [a] does not raise the skips that were sent. *)
Definition own core a : Prop :=
  ∀ p, proposals (core_proposals core) !! ph_hash (accept_proposal a) = Some p → accept_skips a ≤ skips_sent p.

Lemma add_accept_step fuel a core :
  core_inv core →
  own core a ∨ (∀ core1, core_inv core1 →
    returns (next_accept_event_with (add_accept_rec now now' fuel) false) core1 (handled core1)) →
  returns (add_accept_rec now now' (S fuel) a) core (handled core).
Proof.
  intros Hi Hown. cbn [add_accept_rec]. destruct (confirmed_ok core Hi) as (l & Hl & Hlc & _ & Hh & Hwl).
  st_read Hh. case_decide as Hlow; [st_pure; by apply handled_none|].
  st_pure. eapply returns_lift; [unfold is_out_of_sync; by rewrite Hh|]. st_pure.
  st_call validated_current_spec; [done|]. intros [h cur] core1 Hcur. cbn [fst snd] in Hcur.
  pose proof (cu_evolves _ _ _ _ Hcur) as He1. pose proof (cu_inv _ _ _ _ Hcur) as Hi1. st_pure.
  destruct (pc_get _ _) as [p|] eqn:Hp.
  2:{ eapply returns_mono; [eapply (add_orphan_spec a core1 (proposal_height l))|]; [done| |lia|].
      - destruct (confirmed_ok core1 Hi1) as (l1 & Hl1 & _ & _ & -> & _).
        destruct (evolves_confirmed _ _ _ He1 Hl1) as (l0 & Hl0 & Hs). rewrite Hl in Hl0. injection Hl0 as <-.
        by destruct (same_height _ _ Hs) as (-> & _).
      - intros r core2. by apply handled_trans. }
  unfold pc_get in Hp. destruct (wc_key _ (ci_cache _ Hi1) _ _ Hp) as [Hph Hpw].
  destruct (proposal_add_accept_spec p a (core_threshold core1) Hpw)
    as (p' & b & Hadd & Hpw' & Hsp & Hsent & Hval & Hini & Hb); [done|].
  st_read Hadd. st_pure. set (core2 := with_core_proposals _ core1).
  assert (core_inv core2 ∧ evolves core1 core2) as [Hi2 He2].
  { apply update_inv; [done| | |].
    - intros q Hq. rewrite Hp in Hq. injection Hq as <-. done.
    - intros q Hq. rewrite Hp in Hq. injection Hq as <-. congruence.
    - intros q l' Hq _ Hqv. rewrite Hp in Hq. injection Hq as <-. left. congruence. }
  assert (evolves core core2) as He by by etrans.
  assert (proposals (core_proposals core2) !! ph_hash (accept_proposal a) = Some p') as Hp2.
  { cbn. by rewrite lookup_alter_eq, Hp. }
  apply returns_mono with (λ (x : bool) core2', core2' = core2 ∧
    (x = true → b = true ∧ leader_for p' (accept_skips a) = Ok (local_peer core))).
  { destruct b; [|by st_pure]. destruct (leader_for_total p' (accept_skips a) Hpw') as [v Hv].
    st_read Hv. st_pure. split; [done|]. intros [Hx _]%andb_true_iff. apply bool_decide_eq_true in Hx as ->.
    done. }
  intros x core2' [-> Hx]. destruct x.
  - destruct (Hx eq_refl) as [-> Hlead]. st_pure. split_and!; [done..|]. intros e [= <-].
    apply (event_ok_evolves core core2); [done|]. cbn. rewrite <-Hph, (proj1 Hsp).
    apply breached_propose; [|done| |].
    + unfold cached. by rewrite <-(proj1 Hsp), Hph.
    + unfold local_peer in *. by rewrite (ev_signer _ _ He).
    + rewrite <-(proj2 Hsp). by apply Hb.
  - case_decide as Hd; [|by st_pure; apply handled_none].
    destruct Hown as [Hown|Hrec].
    { exfalso. destruct (cu_only _ _ _ _ Hcur _ _ Hp) as (q & Hq & Hqq). specialize (Hown q Hq).
      assert (skips_sent p = skips_sent q) by (by destruct Hqq as [->| ->]). lia. }
    st_pure. set (core3 := with_core_proposals _ core2).
    assert (core_inv core3 ∧ evolves core2 core3) as [Hi3 He3].
    { apply update_inv; [done| | |].
      - intros q Hq. rewrite Hp2 in Hq. injection Hq as <-. split; [|done]. destruct Hpw'. by split.
      - done.
      - intros q l' Hq _ Hqv. by left. }
    eapply returns_mono; [by apply Hrec|]. intros r core4. apply handled_trans. by etrans.
Qed.

Lemma next_accept_event_spec (add : ProposalAccept P → ST Core E (option Event)) (skip : bool) core :
  (∀ core1 a, core_inv core1 → own core1 a → returns (add a) core1 (handled core1)) →
  core_inv core → returns (next_accept_event_with add skip) core (λ r core', handled core r core' ∧ marks core core' ∧ is_Some r).
Proof.
  intros Hadd Hi. unfold next_accept_event_with. st_pure.
  destruct (validated_current_spec core Hi) as (core1 & [h cur] & Hvrun & Hcur).
  exists core1, (h, cur). split; [exact Hvrun|]. cbn [fst snd] in Hcur. st_pure.
  set (skips := next_accept_skip cur (core_threshold core) skip).
  set (header := mk_proposal_header _ _ _).
  set (sig := sig_data_sign header skips (local_peer_signer core1)).
  st_call validated_current_again; [exact Hcur|]. intros hp ? [-> ->].
  pose proof Hcur as [Hi1 He1 Hf Hh _ _ _ _].
  destruct (wc_key _ (ci_cache _ Hi1) _ _ Hf) as [_ Hw].
  destruct (leader_for_total cur skips Hw) as [leader Hlead]. st_read Hlead. st_pure.
  set (a := mk_accept leader header skips (local_peer core1) sig).
  set (core2 := with_core_proposals _ core1).
  assert (core_inv core2 ∧ evolves core1 core2) as [Hi2 He2].
  { apply update_inv; [done| | |].
    - intros q Hq. rewrite Hf in Hq. injection Hq as <-. split; [|done]. destruct Hw. by split.
    - done.
    - intros q l' Hq _ Hqv. by left. }
  assert (evolves core core2) as He by by etrans.
  assert (own core2 a) as Hown.
  { intros p Hp. cbn in Hp. rewrite Hh, lookup_alter_eq, Hf in Hp. injection Hp as <-. cbn. lia. }
  assert (event_ok core (Accept a)) as Hacc.
  { apply (event_ok_evolves core core1); [done|].
    destruct (confirmed_ok core1 Hi1) as (l & Hl & _). exists cur, l. cbn. split_and!; try done.
    - unfold cached. by rewrite Hh.
    - unfold verify_signature, sig_data_verify. cbn. unfold sig, sig_data_sign, local_peer.
      by rewrite sign_verifies.
    - by apply (current_height core core1 h). }
  st_call Hadd; [done|done|]. intros r core3 Hr. st_pure.
  destruct (handled_trans _ _ _ _ He Hr) as (? & ? & Hev). split; [split_and!; [done..|]|split; [|by destruct r]]; cycle 1.
  { intros core1' hp Hv'. rewrite Hvrun in Hv'. injection Hv' as <- <-. cbn [fst].
    apply (marked_evolves core2); [apply Hr|]. intros q Hq. cbn in Hq. rewrite lookup_alter_eq, Hf in Hq.
    by injection Hq as <-. }
  intros e He'. destruct r as [e'|]; injection He' as <-; [by apply Hev|done].
Qed.

Lemma add_own_spec fuel core a : core_inv core → own core a →
  returns (add_accept_rec now now' (S fuel) a) core (handled core).
Proof. intros Hi Ho. apply add_accept_step; [done|by left]. Qed.

(** The calls of [add_accept] and [get_next_accept_event] nest no deeper than
    twice. *)
Lemma add_accept_rec_spec fuel core a : core_inv core →
  returns (add_accept_rec now now' (S (S fuel)) a) core (handled core).
Proof.
  intros Hi. apply add_accept_step; [done|]. right. intros core1 Hi1.
  eapply returns_mono; [apply next_accept_event_spec; [|done]; intros; by apply add_own_spec|]. by intros r core2 [? _].
Qed.

Lemma get_next_accept_event_spec core (skip : bool) : core_inv core →
  returns (get_next_accept_event now now' skip) core (λ r core', handled core r core' ∧ marks core core' ∧ is_Some r).
Proof. apply next_accept_event_spec. intros. by apply add_own_spec. Qed.

(** * The methods of the core *)

Lemma skip_spec core : core_inv core → returns (SolidCore.skip now now') core (handled core).
Proof.
  intros Hi. unfold SolidCore.skip. destruct (confirmed_ok core Hi) as (l & _ & _ & _ & Hh & _).
  st_pure. eapply returns_lift; [unfold is_out_of_sync; by rewrite Hh|].
  case_bool_decide; [st_pure; by apply handled_none|].
  st_call get_next_accept_event_spec; [done|]. by intros r core' [? _].
Qed.

Lemma max_height_inv core h : core_inv core →
  core_inv (with_max_height h core) ∧ evolves core (with_max_height h core).
Proof.
  intros [Hc Ho Hv]. split; [by split|]. split; try done; [intros k p Hp; by exists p|].
  intros k p p' Hp Hp'. cbn in Hp'. by simplify_eq.
Qed.

(** The result of a method that may fail: it does not panic, and the core is
    still in order when it fails. *)
Definition served core (x : Core * outcome E (option Event)) : Prop :=
  match x with
  | (core', Ok r) => handled core r core'
  | (core', Err _) => core_inv core' ∧ evolves core core'
  | (_, Panic _) => False
  end.

Lemma returns_served (M : ST Core E (option Event)) core core1 :
  evolves core core1 → returns M core1 (handled core1) → served core (M core1).
Proof. intros He (core2 & r & -> & Hr). by apply (handled_trans core core1). Qed.

Lemma receive_accept_spec core a : core_inv core → served core (receive_accept now now' a core).
Proof.
  intros Hi. unfold receive_accept.
  destruct (verify_signature a) as [[]|e|msg] eqn:Hv; [| |unfold verify_signature in Hv; by case_match].
  2:{ done. }
  rewrite (st_bind_run _ _ core core tt) by done.
  destruct (validated_current_spec core Hi) as (core1 & [h cur] & Hrun & Hcur).
  rewrite (st_bind_run _ _ _ _ _ Hrun). pose proof (cu_inv _ _ _ _ Hcur) as Hi1.
  destruct (confirmed_ok core1 Hi1) as (l & _ & _ & _ & Hh & _).
  rewrite (st_bind_run _ _ core1 core1 (proposal_height l)) by (unfold st_lift; by rewrite Hh).
  erewrite st_bind_run by done. set (core2 := (if decide _ then _ else _) core1).
  assert (core_inv core2 ∧ evolves core1 core2) as [Hi2 He2].
  { unfold core2. case_decide; [by apply max_height_inv|done]. }
  assert (evolves core core2) as He. { etrans; [|done]. apply Hcur. }
  assert (∀ msg, check_known a core2 ≠ Panic msg) as Hnp.
  { unfold check_known. destruct (pc_get _ _) as [p|] eqn:Hp; [|done]. apply validate_accept_total.
    by apply (wc_key _ (ci_cache _ Hi2)) in Hp as [_ ?]. }
  destruct (check_known a core2) as [[]|e|msg] eqn:Hchk; [| |by destruct (Hnp msg)].
  2:{ unfold st_bind at 1, st_lift at 1. by rewrite Hchk. }
  rewrite (st_bind_run _ _ core2 core2 tt) by (unfold st_lift; by rewrite Hchk).
  apply (returns_served _ _ _ He).
  st_call add_accept_rec_spec; [done|]. intros [e|] core3 Hr; st_pure; [done|].
  destruct Hr as (Hi3 & He3 & _). st_call validated_current_spec; [done|].
  intros [h' cur'] core4 Hcur'. cbn [fst snd] in Hcur'. pose proof Hcur' as [Hi4 He4 _ _ _ _ _ _].
  case_decide; [|st_pure; apply handled_none; [done|by etrans]].
  st_call get_next_accept_event_spec; [done|]. intros r core5 [Hr _]. revert Hr. apply handled_trans. by etrans.
Qed.

(** [child m m']: [m'] extends [m] in the chain. *)
Definition child m m' : Prop :=
  last_proposal_hash (m_content m') = app_hash (m_content m) ∧
  mc_height (m_content m') = mc_height (m_content m) + 1.

(** A commit advances the confirmed proposal to a child of it, which itself has
    a child. *)
Definition committed core m confirmed_by core' : Prop :=
  core_inv core' ∧ local_peer_signer core' = local_peer_signer core ∧ app core' = app core ∧
  config core' = config core ∧
  ∃ l l', confirmed core = Ok l ∧ confirmed core' = Ok l' ∧ manifest l' = m ∧
    child (manifest l) m ∧ child m confirmed_by.

Lemma st_confirm_spec core l p :
  core_inv core → confirmed core = Ok l → cached (core_proposals core) p →
  proposal_height p = proposal_height l + 1 →
  returns (st_confirm (app_hash (m_content (manifest p)))) core (λ _ core',
    core_inv core' ∧ local_peer_signer core' = local_peer_signer core ∧ app core' = app core ∧
    config core' = config core ∧ confirmed core' = Ok p ∧
    proposals (core_proposals core') ⊆ proposals (core_proposals core)).
Proof.
  intros Hi Hl Hp Hh. pose proof Hi as [Hc Ho Hv].
  rewrite (wp_hash _ (cached_wf _ Hc _ Hp)).
  destruct (pc_confirm_spec _ p Hc Hp) as (c' & Hrun & Hc' & Hlc & Hp' & _ & Hsub).
  set (core' := with_core_proposals (λ _, c') core).
  assert (confirmed core' = Ok p) as Hconf.
  { unfold confirmed, last_confirmed_proposal. cbn. by rewrite Hlc, Hp'. }
  exists core', tt. split; [unfold st_confirm; by rewrite Hrun|]. split_and!; try done; cycle 1.
  { apply map_subseteq_spec. intros k q Hk. cbn in Hk. destruct (Hsub k) as [Hq|Hq]; congruence. }
  split; [done|done|]. intros q l' Hq Hl' Hqv. rewrite Hconf in Hl'. injection Hl' as <-. left.
  destruct (Hv q l) as [?|[? _]]; try done; [|lia|lia]. unfold cached in *. cbn in Hq.
  destruct (Hsub (proposal_hash q)) as [Hsq|Hsq]; congruence.
Qed.

Definition advanced core (r : option Event) core' : Prop :=
  match r with Some (Commit m cb) => committed core m cb core' | _ => handled core r core' end.

Lemma handled_advanced core r core' : handled core r core' → advanced core r core'.
Proof. intros Hr. destruct r as [[]|]; try done. destruct Hr as (_ & _ & Hev). by destruct (Hev _ eq_refl). Qed.

(** The proposals whose first accept is still to be sent, and the ones above the
    confirmed proposal: what [next_event] can still work on. *)
Definition unsent core : gset ProposalHash :=
  dom (filter (λ kp, initial_accept_sent kp.2 = false) (proposals (core_proposals core))).
Definition above (h : Z) core : gset ProposalHash :=
  dom (filter (λ kp, h < proposal_height kp.2) (proposals (core_proposals core))).
Definition work core : nat :=
  size (unsent core) + match core_height core with Ok h => size (above h core) | _ => O end.

Lemma elem_of_unsent core h :
  h ∈ unsent core ↔ ∃ p, proposals (core_proposals core) !! h = Some p ∧ initial_accept_sent p = false.
Proof. unfold unsent. rewrite elem_of_dom. unfold is_Some. setoid_rewrite map_lookup_filter_Some. naive_solver. Qed.
Lemma elem_of_above z core h :
  h ∈ above z core ↔ ∃ p, proposals (core_proposals core) !! h = Some p ∧ z < proposal_height p.
Proof. unfold above. rewrite elem_of_dom. unfold is_Some. setoid_rewrite map_lookup_filter_Some. naive_solver. Qed.

Lemma evolves_work core core' :
  core_inv core → core_inv core' → evolves core core' → unsent core' ⊆ unsent core ∧ (work core' ≤ work core)%nat ∧
  ((∃ h, h ∈ unsent core ∧ h ∉ unsent core') → (work core' < work core)%nat).
Proof.
  intros Hi Hi' He. assert (unsent core' ⊆ unsent core) as Hu.
  { intros h. rewrite !elem_of_unsent. intros (p' & Hp' & Hs'). destruct (ev_proposals _ _ He h p' Hp') as (p & Hp & _).
    exists p. split; [done|]. destruct (initial_accept_sent p) eqn:Hs; [|done].
    by rewrite (ev_sent _ _ He h p p' Hp Hp' Hs) in Hs'. }
  destruct (confirmed_ok core' Hi') as (l' & Hl' & _ & _ & Hh' & _).
  destruct (evolves_confirmed _ _ _ He Hl') as (l & Hl & Hs). destruct (confirmed_ok core Hi) as (l1 & Hl1 & _ & _ & Hh & _).
  rewrite Hl in Hl1. injection Hl1 as <-. destruct (same_height _ _ Hs) as (Hlh & _).
  assert (above (proposal_height l') core' ⊆ above (proposal_height l) core) as Ha.
  { intros h. rewrite !elem_of_above. intros (p' & Hp' & Hlt). destruct (ev_proposals _ _ He h p' Hp') as (p & Hp & Hpp).
    exists p. split; [done|]. destruct (same_height _ _ Hpp) as (Heq & _). lia. }
  unfold work. rewrite Hh, Hh'. apply subseteq_size in Ha. split_and!; [done| |].
  - apply subseteq_size in Hu. lia.
  - intros (h & Hin & Hout). assert (unsent core' ⊂ unsent core) as Hlt%subset_size by set_solver. lia.
Qed.

(** An event that is neither a commit nor a report of being out of sync is an
    accept, or a proposal on top of it, that was due. *)
Definition progress core (r : option Event) core' : Prop :=
  match r with
  | Some (Commit _ _) | Some (Accept _) | Some (Propose _ _ _ _) => (work core' < work core)%nat
  | Some (DuplicateProposal _) => False
  | Some (OutOfSync _ _) | None => True
  end.

Lemma next_event_idle_progress core :
  core_inv core → returns (next_event_idle now now') core (λ r core', handled core r core' ∧ progress core r core').
Proof.
  intros Hi. destruct (confirmed_ok core Hi) as (l & Hl & _ & Hlh & Hh & Hwl). unfold next_event_idle.
  st_pure. eapply returns_lift; [unfold is_out_of_sync; by rewrite Hh|]. case_bool_decide as Ho.
  - st_read Hh. st_pure. split; [|done]. split_and!; [done..|]. intros e [= <-]. cbn. split; [done|].
    pose proof (wm_height _ (wp_manifest _ Hwl)). unfold proposal_height in *.
    rewrite wrap_small in Ho by (unfold in_width; lia). lia.
  - st_call validated_current_spec; [done|]. intros [h cur] core1 Hcur. cbn [fst snd] in Hcur.
    pose proof Hcur as [Hi1 He1 Hf _ _ _ _ Honly].
    destruct (initial_accept_sent cur) eqn:Hsent; cbn [negb]; [by st_pure|].
    st_call get_next_accept_event_spec; [done|]. intros r core2 [Hr [Hm _]].
    pose proof (handled_trans _ _ _ _ He1 Hr) as Hr'. split; [done|]. destruct Hr' as (Hi2 & He2 & Hev).
    assert (work core2 < work core)%nat as Hlt.
    { destruct (evolves_work core core2 Hi Hi2 He2) as (_ & _ & Hw). apply Hw. exists h.
      destruct (validated_current_again core core1 h cur Hcur) as (c & hp & Hrun & -> & ->). split.
      - apply elem_of_unsent. destruct (Honly h cur Hf) as (q & Hq & Hqq). exists q. split; [done|].
        by destruct Hqq as [->| ->].
      - intros (p & Hp & Hfalse)%elem_of_unsent. specialize (Hm _ _ Hrun p Hp). congruence. }
    destruct r as [e|]; [|done]. specialize (Hev e eq_refl). by destruct e.
Qed.
Lemma next_event_idle_spec core : core_inv core → returns (next_event_idle now now') core (handled core).
Proof. intros Hi. eapply returns_mono; [by apply next_event_idle_progress|]. by intros r core' [? _]. Qed.
Lemma commit_work core core' l p :
  core_inv core → core_inv core' → confirmed core = Ok l → confirmed core' = Ok p → cached (core_proposals core) p →
  proposal_height l < proposal_height p → proposals (core_proposals core') ⊆ proposals (core_proposals core) →
  (work core' < work core)%nat.
Proof.
  intros Hi Hi' Hl Hp Hc Hlt Hsub.
  destruct (confirmed_ok core Hi) as (l0 & Hl0 & _ & _ & Hh & _). rewrite Hl in Hl0. injection Hl0 as <-.
  destruct (confirmed_ok core' Hi') as (p0 & Hp0 & _ & _ & Hh' & _). rewrite Hp in Hp0. injection Hp0 as <-.
  assert (∀ h q, proposals (core_proposals core') !! h = Some q → proposals (core_proposals core) !! h = Some q) as Hs.
  { intros h q Hq. by eapply lookup_weaken. }
  unfold work. rewrite Hh, Hh'.
  assert (unsent core' ⊆ unsent core) as Hu%subseteq_size.
  { intros h. rewrite !elem_of_unsent. intros (q & Hq & ?). exists q. split; [by apply Hs|done]. }
  assert (above (proposal_height p) core' ⊂ above (proposal_height l) core) as Ha%subset_size; [|lia].
  split.
  - intros h. rewrite !elem_of_above. intros (q & Hq & ?). exists q. split; [by apply Hs|lia].
  - intros Hall. specialize (Hall (proposal_hash p)). rewrite !elem_of_above in Hall.
    destruct Hall as (q & Hq%Hs & Hgt); [by exists p|]. unfold cached in Hc. rewrite Hc in Hq. injection Hq as <-. lia.
Qed.

Lemma next_event_progress core :
  core_inv core → returns (next_event now now') core (λ r core', advanced core r core' ∧ progress core r core').
Proof.
  intros Hi. unfold next_event. destruct (confirmed_ok core Hi) as (l & Hl & _ & Hlh & Hh & Hwl).
  pose proof (ci_cache _ Hi) as Hc.
  destruct (next_pending_spec _ Hc l 0 Hl) as (r0 & Hr0 & _); [lia|].
  destruct (next_pending_spec _ Hc l 1 Hl) as (r1 & Hr1 & _); [lia|].
  st_read Hr0. apply returns_bind.
  apply returns_mono with (λ r core', core' = core ∧ r = match r0 with Some _ => r1 | None => None end).
  { destruct r0; [by eapply returns_lift; [exact Hr1|]|by apply returns_ret]. }
  intros r core' [-> ->].
  assert (returns (next_event_idle now now') core (λ r core', advanced core r core' ∧ progress core r core')) as Hrest.
  { eapply returns_mono; [by apply next_event_idle_progress|]. intros r core' [? ?]. split; [by apply handled_advanced|done]. }
  destruct r0 as [p|]; [|exact Hrest]. destruct r1 as [q|]; [|exact Hrest].
  destruct (next_pending_pair _ Hc l p q Hl Hr0 Hr1) as (Hpl & Hph & Hpc & Hqp & Hqh & _).
  st_call (st_confirm_spec core l p); [done..|].
  intros _ core' (Hi' & Hs' & Ha' & Hc' & Hconf & Hsub). st_pure. split; cycle 1.
  { apply (commit_work core core' l p); try done. lia. }
  split_and!; try done. exists l, p.
  pose proof (wp_hash _ (cached_wf _ Hc _ Hpc)) as Hpa. pose proof (wp_hash _ Hwl) as Hla.
  unfold last_hash, proposal_height in *. split_and!; try done; split; [congruence|lia|congruence|lia].
Qed.
Lemma next_event_spec core : core_inv core → returns (next_event now now') core (advanced core).
Proof. intros Hi. eapply returns_mono; [by apply next_event_progress|]. by intros r core' [? _]. Qed.
End timed.

(** * Receiving a proposal *)

Lemma validate_structure_total p (ap : A) t msg : validate_structure p ap t ≠ Panic msg.
Proof.
  unfold validate_structure. do 2 (case_match; [done|]). intros Hb.
  assert (∀ (mc : ManifestContent P St) accs msg, check_accepts mc accs ≠ Panic msg) as Hca.
  { intros mc. induction accs as [|a accs IH]; intros msg'; cbn; [done|]. unfold verify_signature.
    destruct (sig_data_verify _ _ _ _); cbn; [|done]. do 2 (case_decide; [done|]). apply IH. }
  destruct (check_accepts _ _) as [[]|?|msg'] eqn:Hc; cbn in Hb; [by case_match|done|by apply Hca in Hc].
Qed.

(** A failed call changes nothing; otherwise the proposal is cached beside the
    others, with the accepts that came before it. *)
Definition received core m (x : Core * outcome E unit) : Prop :=
  match x with
  | (core', Ok _) => core_inv core' ∧ local_peer_signer core' = local_peer_signer core ∧
      app core' = app core ∧ config core' = config core ∧ confirmed core' = confirmed core ∧
      max_height core' = Z.max (max_height core) (mc_height (m_content m)) ∧
      validate_structure (proposal_new m) (app core) (core_threshold core) = Ok tt ∧
      ∃ p, manifest p = m ∧ proposals (core_proposals core') =
             <[app_hash (m_content m) := p]> (proposals (core_proposals core))
  | (core', Err _) => core' = core
  | (_, Panic _) => False
  end.

(** Caching a new proposal. *)
Lemma insert_inv core p :
  core_inv core → wf_proposal p → is_validated p = false →
  proposals (core_proposals core) !! proposal_hash p = None →
  let core' := with_core_proposals (λ c, pc_insert c p) core in
  core_inv core' ∧ confirmed core' = confirmed core.
Proof.
  intros [Hc Ho Hv] Hp Hval Hnew core'.
  assert (confirmed core' = confirmed core) as Hconf.
  { unfold confirmed, last_confirmed_proposal. cbn. destruct (wc_confirmed _ Hc) as [l Hl].
    rewrite lookup_insert_ne; [done|]. intros Heq. by rewrite Heq, Hl in Hnew. }
  split; [|done]. split; [by apply wf_pc_insert|done|]. rewrite Hconf.
  intros q l Hq Hl Hqv. unfold cached in Hq. cbn in Hq.
  apply lookup_insert_Some in Hq as [[_ <-]|[_ Hq]]; [congruence|by apply Hv].
Qed.

Lemma receive_proposal_spec core m : core_inv core → wf_manifest m → received core m (receive_proposal m core).
Proof.
  intros Hi Hm. unfold receive_proposal. set (p := proposal_new m).
  pose proof (wf_proposal_new m Hm) as Hp. fold p in Hp.
  pose proof (validate_structure_total p (app core) (core_threshold core)) as Hnp.
  destruct (validate_structure p (app core) (core_threshold core)) as [[]|e|msg] eqn:Hv; [| |by destruct (Hnp msg)].
  2:{ unfold st_bind at 1, st_lift at 1. by rewrite Hv. }
  rewrite (st_bind_run _ _ core core tt) by (unfold st_lift; by rewrite Hv).
  erewrite st_bind_run by done. destruct (core_exists core (proposal_hash p)) eqn:Hex; [done|].
  destruct (confirmed_ok core Hi) as (l & Hl & Hlc & Hlh & Hh & _).
  rewrite (st_bind_run _ _ core core (proposal_height l)) by (unfold st_lift; by rewrite Hh).
  case_decide as Hlow; [done|].
  set (mh := Z.max (max_height core) (proposal_height p)).
  rewrite (st_bind_run _ _ core core (max_height core)) by done.
  rewrite (st_bind_run _ _ core (with_max_height mh core) tt).
  2:{ unfold st_modify, mh. case_decide; [by rewrite Z.max_r by lia|]. rewrite Z.max_l by lia. by destruct core. }
  destruct (max_height_inv core mh Hi) as [Hi1 He1].
  do 2 (erewrite st_bind_run by done). set (os := default [] _). set (core2 := with_orphans _ _).
  assert (core_inv core2) as Hi2.
  { destruct Hi1 as [Hc1 Ho1 Hv1]. split; [done| |done]. cbn.
    intros h o a [_ Ho]%lookup_delete_Some. by apply Ho1. }
  destruct (add_orphans_spec (core_threshold core2) os p Hp) as (p' & Hadd & Hpw & Hps & Hpv).
  { intros a. unfold os. cbn. destruct (orphan_accepts core !! _) as [o|] eqn:Ho; [|by intros []%elem_of_nil].
    by apply (ci_orphans _ Hi). }
  rewrite (st_bind_run _ _ core2 core2 p') by (unfold st_lift; by rewrite Hadd).
  destruct (insert_inv core2 p' Hi2 Hpw) as [Hi3 Hconf]; [by rewrite Hpv| |].
  { rewrite <-(proj1 Hps). cbn. apply eq_None_not_Some. intros Hs.
    unfold core_exists, pc_contains in Hex. by apply bool_decide_eq_false in Hex. }
  cbn. split_and!; try done. exists p'. rewrite <-(proj2 Hps), <-(proj1 Hps). done.
Qed.
End methods.
End solid_core_spec.
