(* ===== verification/SolidWitness.v ===== *)
(** The consensus library on a concrete network of four validators: the theorems
    applied to it, and the proposals that pass checks they should not pass. *)
From S2P Require Import Prelude SolidProposal SolidCache SolidCore SolidCoreSpec SolidProps.
From S2P Require Import SolidQuorum.

(** * Stand-ins

    A peer is a number, a signature is the signer followed by the message, the
    digests and the hash of a manifest are readable encodings. *)
#[export] Instance toy_peer : Peer Z := {|
  peer_le := Z.le;
  peer_verify p sig msg := bool_decide (sig = p :: msg);
  to_u256 := wrap 256;
|}.
#[export] Instance toy_signer : PeerSigner Z Z := {| signer_sign s msg := s :: msg; signer_peer s := s |}.
#[export] Instance toy_signer_laws : SignerLaws Z Z.
Proof. constructor. intros s m. by apply bool_decide_eq_true. Qed.
#[export] Instance toy_digests : Digests := {| sha256 x := x; keccak x := x |}.
#[export] Instance toy_order : MapOrder := {| hm_keys X := elements X; hm_keys_perm X := Permutation_refl _ |}.

Definition toy_hash (c : ManifestContent Z Z) : list Z :=
  mc_height c :: mc_skips c :: leader_id c :: mc_state c :: Z.of_nat (length (validators c)) ::
  validators c ++ Z.of_nat (length (accepts c)) :: (accept_from <$> accepts c) ++ last_proposal_hash c.
#[export] Instance toy_app : App unit Z Z := {|
  app_hash := toy_hash;
  app_validate_structure _ _ := true;
  app_validate_contents _ _ _ := true;
|}.

(** A manifest on top of [prev], proposed by [leader] with accepts of [from]. *)
Definition toy_accept (prev : Manifest Z Z) (leader skips from : Z) : ProposalAccept Z :=
  let header := mk_proposal_header (toy_hash (m_content prev)) (mc_height (m_content prev))
                  (mc_skips (m_content prev)) in
  mk_accept leader header skips from (sig_data_sign header skips from).
Definition toy_manifest (prev : Manifest Z Z) (leader state : Z) (vs from : list Z) : Manifest Z Z :=
  let c := mk_manifest_content (toy_hash (m_content prev)) 0 (mc_height (m_content prev) + 1) leader state vs
             (toy_accept prev leader 0 <$> from) in
  mk_manifest c (content_sign c leader).

Definition four : list Z := [1; 2; 3; 4].
Definition m0 : Manifest Z Z := mk_manifest (mk_manifest_content ph_genesis 0 0 1 0 four []) [].
Definition m1 : Manifest Z Z := toy_manifest m0 1 10 four [1; 2; 3].
Definition m1' : Manifest Z Z := toy_manifest m0 1 11 four [2; 3; 4].
Definition m2 : Manifest Z Z := toy_manifest m1 1 20 four [1; 2; 4].
Notation Core := (SolidCore Z Z Z unit).
Notation Event := (SolidEvent Z Z).
Definition core0 : Core := with_last_confirmed 1 m0 () config_default.
Definition core1 : Core := (receive_proposal m1 core0).1.
Definition core2 : Core := (receive_proposal m2 core1).1.
Notation reach := (solid_reach (P := Z) (PS := Z) (St := Z) (A := unit) 1 m0 () config_default).

Lemma wf_toy (h : Z) (vs : list Z) (m : Manifest Z Z) :
  mc_height (m_content m) = h → validators (m_content m) = vs → 0 ≤ h < 10 → vs ≠ [] → wf_manifest m.
Proof. intros <- <- ? ?. split; [|done]. lia. Qed.

Lemma reach0 : reach core0 [].
Proof. apply sr_start. by apply (wf_toy 0 four). Qed.
Lemma reach1 : reach core1 [].
Proof. apply sr_proposal; [apply reach0|]. by apply (wf_toy 1 four). Qed.
Lemma reach2 : reach core2 [].
Proof. apply sr_proposal; [apply reach1|]. by apply (wf_toy 2 four). Qed.

(** The chain theorem on a run with one commit. *)
Lemma solid_commits_chain_witness :
  let r := next_event 0 0 core2 in
  commits ([] ++ emitted r.2) = [(m1, m2)] ∧ core_height r.1 = Ok 1.
Proof.
  split; [vm_compute; reflexivity|].
  destruct (solid_commits_chain 1 m0 () config_default _ _ (sr_next _ _ _ _ core2 [] 0 0 reach2)) as (_ & _ & ->).
  vm_compute. reflexivity.
Defined.


Lemma found_manifest (core : Core) h p :
  pc_get (core_proposals core) h = Some p →
  manifest p = default m0 (manifest <$> pc_get (core_proposals core) h).
Proof. by intros ->. Qed.

(** The first accept of the node. *)
Definition own_accept : ProposalAccept Z := toy_accept m0 1 0 1.
Lemma own_accept_sent : emits core0 (Accept own_accept).
Proof. exists toy_order, 0, 0. left. vm_compute. reflexivity. Qed.

Lemma sent_accept_is_valid_witness : validate_accept (proposal_new m0) own_accept = Ok tt.
Proof.
  destruct (sent_accept_is_valid 1 m0 () config_default core0 [] own_accept reach0 own_accept_sent)
    as (p & l & Hp & _ & _ & Hv).
  assert (manifest p = m0) as Hm.
  { rewrite (found_manifest _ _ _ Hp). vm_compute. reflexivity. }
  apply Hv; rewrite Hm; [by left|done].
Defined.

(** The accepts of 2 and 3 bring the node over the threshold. *)
Definition core0a : Core := (next_event 0 0 core0).1.
Definition core0b : Core := (receive_accept 0 0 (toy_accept m0 1 0 2) core0a).1.
Definition collected : list (ProposalAccept Z) := toy_accept m0 1 0 <$> [1; 2; 3].
Lemma core0b_proposes : emits core0b (Propose (toy_hash (m_content m0)) 1 0 collected).
Proof. exists toy_order, 0, 0. right. right. exists (toy_accept m0 1 0 3). vm_compute. reflexivity. Qed.
Lemma core0b_reach : ∃ log, reach core0b log.
Proof. eexists. apply sr_accept, sr_next, reach0. Qed.

Lemma proposed_is_valid_witness :
  validate_structure (proposal_new m1) () MoreThanTwoThirds = Ok tt.
Proof.
  destruct core0b_reach as [log Hr].
  destruct (proposed_is_valid 1 m0 () config_default core0b log _ _ _ _ Hr core0b_proposes)
    as (p & Hp & _ & Hv).
  assert (manifest p = m0) as Hm.
  { rewrite (found_manifest _ _ _ Hp). vm_compute. reflexivity. }
  rewrite Hm in Hv. apply (Hv 10 four); reflexivity.
Defined.

Lemma leaders_rotate_witness :
  (λ i, get_leader_for_skip (m_content m0) (Z.of_nat i)) <$> seq 6 4 ≡ₚ Ok <$> four.
Proof. exact (proj1 (leaders_rotate (m_content m0) 6 ltac:(discriminate))). Defined.


(** * Missing checks *)

(** One validator counted three times. Neither validation of a proposal looks
    for two accepts of one validator: a proposal with three copies of the accept
    of validator 4 passes both, in a network of four whose threshold is three. *)
Theorem one_voter_makes_a_quorum :
  let p := proposal_new (toy_manifest m0 1 10 four [4; 4; 4]) in
  threshold MoreThanTwoThirds (length four) = 3%nat ∧ voters p = [4; 4; 4] ∧
  validate_structure p () MoreThanTwoThirds = Ok tt ∧
  validate_contents p () (proposal_new m0) = Ok tt.
Proof. vm_compute. done. Qed.

(** Two proposals of a stranger: 9 is no validator, but its proposals name
    itself as leader and only validator. *)
Definition s1 : Manifest Z Z := toy_manifest m0 9 66 [9] [9].
Definition s2 : Manifest Z Z := toy_manifest s1 9 67 [9] [9].
Definition core_s1 : Core := (receive_proposal s1 core0).1.
Definition core_s2 : Core := (receive_proposal s2 core_s1).1.

(** A stranger's proposal is committed. [next_event] commits a proposal as soon
    as a child of it is known, before any call of [validate_contents]: two
    proposals of a peer that is no validator are received without error and the
    first is committed, although its validation against the confirmed proposal
    fails. *)
Theorem stranger_is_committed :
  (∃ log, reach core_s2 log) ∧ (9 ∉ four) ∧
  (receive_proposal s1 core0).2 = Ok tt ∧ (receive_proposal s2 core_s1).2 = Ok tt ∧
  validate_contents (proposal_new s1) () (proposal_new m0) = Err InvalidProposalLeader ∧
  (next_event 0 0 core_s2).2 = Ok (Some (Commit s1 s2)).
Proof.
  split.
  - exists []. apply sr_proposal; [apply sr_proposal; [apply reach0|]|];
      [by apply (wf_toy 1 [9])|by apply (wf_toy 2 [9])].
  - split; [by apply (bool_decide_unpack (9 ∉ four))|]. vm_compute. done.
Qed.

(** A proposal that does not extend the confirmed one and names no validators. *)
Definition e1 : Manifest Z Z := toy_manifest m2 9 66 [] [9].

(** A proposal without validators stops the node. Its structure is valid with
    the single accept of its sender, and it is cached while its parent is
    unknown; an accept for it asks for the leader among no validators, a
    remainder by zero. *)
Theorem empty_validators_panic :
  let core := (receive_proposal e1 core0).1 in
  (receive_proposal e1 core0).2 = Ok tt ∧
  (receive_accept 0 0 (toy_accept e1 9 0 9) core).2 =
    Panic "attempt to calculate the remainder with a divisor of zero".
Proof. vm_compute. done. Qed.
