(* ===== verification/SolidStream.v ===== *)
(** The event stream of the consensus library (pkg/solid/src: solid/mod.rs,
    solid/shared.rs, solid/stream.rs, util/time.rs): the loop that drains the core
    into a queue of events, the timers for skips and for reports of being out of
    sync, and the stream that hands the events out.

    Wall clock times and instants are in nanoseconds; the durations of the
    configuration are in milliseconds.  Each iteration of the loop reads the
    clocks anew.  The waker of the stream is a flag, the notification of the tick
    worker a permit. *)
From S2P Require Import Prelude SolidProposal SolidCache SolidCore SolidCoreSpec SolidProps.

(** * Timestamps (time.rs) *)

Definition MILLI : Z := 10 ^ 6.
Definition i64_MIN : Z := - 2 ^ 63.
Definition i64_MAX : Z := 2 ^ 63 - 1.
Definition wrap_i64 (x : Z) : Z := wrap 64 (x + 2 ^ 63) - 2 ^ 63.
(** The milliseconds a [DateTime] can hold (years -262143 to 262142). *)
Definition MIN_MILLIS : Z := -8334601228800000.
Definition MAX_MILLIS : Z := 8210266876799999.

Definition no_value : string := "called `Option::unwrap()` on a `None` value".
Definition encode_time (time : option Z) : Z :=
  match time with None => i64_MIN | Some x => x / MILLI end.
Definition decode_time {E} (millis : Z) : outcome E (option Z) :=
  if decide (millis = i64_MIN) then Ok None
  else if decide (MIN_MILLIS ≤ millis ≤ MAX_MILLIS) then Ok (Some (millis * MILLI))
  else Panic no_value.
(** [fetch_add]: the new value, and the previous one, decoded. *)
Definition fetch_add {E} (old millis : Z) : Z * outcome E (option Z) :=
  if decide (old = i64_MIN) then (old, Ok None) else (wrap_i64 (old + millis), decode_time old).

(** [chrono::Duration::from_std(..).unwrap()] and [DateTime + Duration]. *)
Definition from_std {E} (millis : Z) : outcome E Z :=
  if decide (millis ≤ i64_MAX) then Ok millis else Panic "called `Result::unwrap()` on an `Err` value".
Definition datetime_add {E} (now millis : Z) : outcome E Z :=
  let t := now + millis * MILLI in
  if decide (MIN_MILLIS ≤ t / MILLI ≤ MAX_MILLIS) then Ok t else Panic "`DateTime + TimeDelta` overflowed".

(** * The shared state (shared.rs) *)

(** The clocks as one iteration reads them: twice by the core, the wall clock, and
    twice the monotonic clock. *)
Record Readings := mk_readings {
  at_core : Z;
  at_core' : Z;
  at_utc : Z;
  at_instant : Z;
  at_instant' : Z;
}.

Section solid_stream.
Context {P PS St A : Type} `{!Peer P} `{!PeerSigner P PS} `{!Digests} `{!App A P St}.
Context `{!MapOrder}.
Notation E := (SolidError P).
Notation Event := (SolidEvent P St).
Notation Core := (SolidCore P PS St A).

Record Solid := mk_solid {
  s_signer : PS;
  s_config : SolidConfig;
  s_core : Core;
  s_events : list Event;
  s_skip_timeout : Z;
  s_out_of_sync : option Z;
  s_waker : bool;
  s_woken : bool;
  s_permit : bool;
}.
Notation M := (ST Solid E).
Implicit Types (s : Solid) (e : Event).

Definition with_core (c : Core) s :=
  mk_solid (s_signer s) (s_config s) c (s_events s) (s_skip_timeout s) (s_out_of_sync s) (s_waker s) (s_woken s) (s_permit s).
Definition with_events (l : list Event) s :=
  mk_solid (s_signer s) (s_config s) (s_core s) l (s_skip_timeout s) (s_out_of_sync s) (s_waker s) (s_woken s) (s_permit s).
Definition with_out_of_sync (t : option Z) s :=
  mk_solid (s_signer s) (s_config s) (s_core s) (s_events s) (s_skip_timeout s) t (s_waker s) (s_woken s) (s_permit s).
(** [skip_timeout.store] and [ticker.tick()]. *)
Definition with_skip (t : Z) s :=
  mk_solid (s_signer s) (s_config s) (s_core s) (s_events s) t (s_out_of_sync s) (s_waker s) (s_woken s) true.
Definition with_waker (waker woken : bool) s :=
  mk_solid (s_signer s) (s_config s) (s_core s) (s_events s) (s_skip_timeout s) (s_out_of_sync s) waker woken (s_permit s).

(** [send_event]: under the lock of the queue, then under that of the waker. *)
Definition push_section (e : Event) s : Solid := with_events (s_events s ++ [e]) s.
Definition wake_section s : Solid := if s_waker s then with_waker false true s else s.
Definition send_event (e : Event) : M unit :=
  let! _ := st_modify (push_section e) in
  st_modify wake_section.

(** A method of the core, called under its lock. *)
Definition on_core {X} (m : ST Core E X) : M X := λ s,
  let '(c, r) := m (s_core s) in (with_core c s, r).

Definition reset_skip_timeout (now : Z) : M unit :=
  let! d := st_lift (λ s, from_std (skip_timeout (s_config s))) in
  let! t := st_lift (λ _, datetime_add now d) in
  st_modify (with_skip (encode_time (Some t))).
Definition clear_skip_timeout : M unit := st_modify (with_skip (encode_time None)).

(** * The stream (stream.rs) *)

Definition poll_next (s : Solid) : Solid * option Event :=
  match s_events s with
  | e :: l => (with_events l s, Some e)
  | [] => (with_waker true false s, None)
  end.

(** * The loop (mod.rs) *)

Section loop.
Context (clock : nat → Readings).

(** The branch for a report of being out of sync, which ends the loop. *)
Definition report_out_of_sync (r : Readings) (e : Event) : M unit :=
  let! _ := clear_skip_timeout in
  let! timeout := st_get s_out_of_sync in
  if decide (is_Some (timeout ≫= λ t, if decide (t > at_instant r) then Some tt else None)) then st_ret tt
  else
    let! _ := st_modify (λ s,
      with_out_of_sync (Some (at_instant' r + out_of_sync_timeout (s_config s) * MILLI)) s) in
    send_event e.

Fixpoint next_event_loop (fuel i : nat) : M unit :=
  match fuel with
  | O => λ s, (s, Panic "out of fuel")
  | S fuel =>
      let r := clock i in
      let! event := on_core (next_event (at_core r) (at_core' r)) in
      match event with
      | None => st_ret tt
      | Some e =>
          match e with
          | OutOfSync _ _ => report_out_of_sync r e
          | Commit _ _ =>
              let! _ := reset_skip_timeout (at_utc r) in
              let! _ := send_event e in
              next_event_loop fuel (S i)
          | Propose _ _ _ _ =>
              let! _ := clear_skip_timeout in
              let! _ := send_event e in
              next_event_loop fuel (S i)
          | Accept a =>
              let! _ := st_modify (with_out_of_sync None) in
              let! _ := reset_skip_timeout (at_utc r) in
              let! local := st_get (λ s, signer_peer (s_signer s)) in
              if decide (accept_leader_id a = local) then st_ret tt
              else
                let! _ := send_event e in
                next_event_loop fuel (S i)
          | DuplicateProposal _ =>
              let! _ := send_event e in
              next_event_loop fuel (S i)
          end
      end
  end.
(** Each event that lets the loop go on uses up a pending proposal or a first accept. *)
Definition solid_next_event : M unit :=
  let! n := st_get (λ s, size (proposals (core_proposals (s_core s)))) in
  next_event_loop (S (2 * n)) 0.

Definition solid_receive_proposal (m : Manifest P St) : M unit :=
  let! _ := on_core (receive_proposal m) in
  solid_next_event.
End loop.

Definition solid_receive_accept (now now' : Z) (a : ProposalAccept P) : M unit :=
  let! event := on_core (receive_accept now now' a) in
  match event with Some e => send_event e | None => st_ret tt end.

Definition solid_with_last_confirmed (signer : PS) (validators : list P) (manifest : Manifest P St) (app : A)
    (config : SolidConfig) : outcome E Solid :=
  if decide (validators = []) then Panic "Must have at least one validator"
  else Ok (mk_solid signer config (with_last_confirmed signer manifest app config) [] (encode_time None) None
             false false false).

(** [genesis]: the state is the default of the application. *)
Definition solid_genesis (signer : PS) (state : St) (validators : list P) (app : A) (config : SolidConfig)
  : outcome E Solid :=
  let? manifest := manifest_genesis state validators in
  solid_with_last_confirmed signer validators manifest app config.

Definition solid_reset (now : Z) (manifest : Manifest P St) (app : A) : M unit :=
  let! _ := st_modify (λ s, with_core (with_last_confirmed (s_signer s) manifest app (s_config s)) s) in
  let! _ := st_modify (with_events []) in
  reset_skip_timeout now.

(** [TickWorkerTick::tick]: the time of the next tick; its end moves the timeout. *)
Definition advance_skip_timeout : M (option Z) :=
  let! add := st_lift (λ s, from_std (skip_timeout (s_config s))) in
  let! _ := (λ s, let '(t, r) := fetch_add (s_skip_timeout s) add in
    (mk_solid (s_signer s) (s_config s) (s_core s) (s_events s) t (s_out_of_sync s) (s_waker s) (s_woken s)
       (s_permit s), r)) in
  st_lift (λ s, decode_time (s_skip_timeout s)).
Definition solid_tick (now core_now core_now' : Z) : M (option Z) :=
  let! skip_timeout' := st_lift (λ s, decode_time (s_skip_timeout s)) in
  match skip_timeout' with
  | None => st_ret None
  | Some t =>
      if decide (t > now) then st_ret (Some t)
      else
        let! event := on_core (skip core_now core_now') in
        let! _ := match event with Some e => send_event e | None => st_ret tt end in
        advance_skip_timeout
  end.

(** Reads. *)
Definition solid_height s : outcome E Z := core_height (s_core s).
Definition solid_hash s : outcome E ProposalHash := core_hash (s_core s).
Definition solid_max_height s : Z := max_height (s_core s).
Definition solid_is_out_of_sync s : outcome E bool := is_out_of_sync (s_core s).
Definition solid_exists s (h : ProposalHash) : bool := core_exists (s_core s) h.
Definition solid_confirmed_proposals_from s (i : Z) : outcome E (option (list (Manifest P St))) :=
  let? l := confirmed_proposals_from (core_proposals (s_core s)) i in Ok (option_map (λ l, manifest <$> (l : list (Proposal P St))) l).
Definition solid_get_proposal s (h : ProposalHash) : option (Manifest P St) :=
  manifest <$> pc_get (core_proposals (s_core s)) h.
Definition solid_current_proposal : M (Manifest P St) :=
  let! p := on_core current_proposal in st_ret (manifest p).
Definition solid_decendents s (decendent_hash parent_hash : ProposalHash) : option (list (Manifest P St)) :=
  option_map (λ l, manifest <$> (l : list (Proposal P St))) (decendents (core_proposals (s_core s)) decendent_hash parent_hash).
End solid_stream.
Arguments Solid P PS St A {_}.
