(* ===== verification/SolidStreamProps.v ===== *)
(** The event stream of the consensus library: the loop ends, the stream hands out
    the chain of commits, ticks catch up with the clock, reports of being out of
    sync are throttled, and no wake-up is lost. *)
From S2P Require Import Prelude SolidProposal SolidCache SolidCore SolidCoreSpec SolidProps.
From S2P Require Import SolidStream.

Section stream_props.
Context {P PS St A : Type} `{!Peer P} `{!PeerSigner P PS} `{!Digests} `{!App A P St}.
Context `{!SignerLaws P PS} `{!MapOrder}.
Notation E := (SolidError P).
Notation Event := (SolidEvent P St).
Notation Core := (SolidCore P PS St A).
Notation Solid := (Solid P PS St A).
Implicit Types (s : Solid) (e : Event) (core : Core) (clock : nat → Readings).

(** Clocks and timeouts that chrono can represent. *)
Record clock_ok (cfg : SolidConfig) clock : Prop := {
  ck_timeout : skip_timeout cfg ≤ i64_MAX;
  ck_range i : MIN_MILLIS ≤ (at_utc (clock i) + skip_timeout cfg * MILLI) / MILLI ≤ MAX_MILLIS;
}.

Lemma reset_run cfg clock i s :
  clock_ok cfg clock → s_config s = cfg →
  ∃ t, reset_skip_timeout (at_utc (clock i)) s = (with_skip t s, Ok tt).
Proof.
  intros [Ht Hr] Hc. unfold reset_skip_timeout, from_std, datetime_add, st_lift, st_modify. unfold st_bind at 1.
  rewrite Hc, decide_True by done. unfold st_bind at 1. rewrite decide_True by apply Hr. by eexists.
Qed.

Lemma send_run e s :
  ∃ s', send_event e s = (s', Ok tt) ∧ s_events s' = s_events s ++ [e] ∧ s_core s' = s_core s ∧
    s_signer s' = s_signer s ∧ s_config s' = s_config s ∧ s_skip_timeout s' = s_skip_timeout s ∧
    s_out_of_sync s' = s_out_of_sync s.
Proof.
  unfold send_event, st_modify, st_bind. eexists. split; [done|]. unfold wake_section. cbn. by destruct (s_waker s).
Qed.

(** * The loop *)

(** The events after which the loop stops. *)
Definition stops (local : P) e : Prop :=
  match e with
  | OutOfSync _ _ => True
  | Accept a => accept_leader_id a = local
  | _ => False
  end.
#[local] Instance stops_dec local e : Decision (stops local e).
Proof. destruct e; cbn; apply _. Defined.

(** [log] are the events of calls of [next_event] one after the other, up to the
    first that has none or whose event stops the loop. *)
Inductive drained (local : P) clock : nat → Core → list Event → Core → Prop :=
| dr_none i core core' :
    next_event (at_core (clock i)) (at_core' (clock i)) core = (core', Ok None) → drained local clock i core [] core'
| dr_stop i core core' e :
    next_event (at_core (clock i)) (at_core' (clock i)) core = (core', Ok (Some e)) → stops local e →
    drained local clock i core [e] core'
| dr_go i core core1 core' e log :
    next_event (at_core (clock i)) (at_core' (clock i)) core = (core1, Ok (Some e)) → ¬ stops local e →
    drained local clock (S i) core1 log core' → drained local clock i core (e :: log) core'.

Lemma advanced_inv core r core' : advanced core r core' → core_inv core'.
Proof. destruct r as [[]|]; by intros (? & _). Qed.

(** What the queue shows of a run: all events, but maybe the one that ends it. *)
Definition shown (local : P) (log sent : list Event) : Prop :=
  sent = log ∨ ∃ e, stops local e ∧ log = sent ++ [e].
Lemma shown_cons local e log sent : shown local log sent → shown local (e :: log) (e :: sent).
Proof. intros [->|(x & Hx & ->)]; [by left|right]. by exists x. Qed.

Lemma loop_spec cfg clock local fuel i s :
  clock_ok cfg clock → s_config s = cfg → signer_peer (s_signer s) = local → core_inv (s_core s) →
  (work (s_core s) < fuel)%nat →
  ∃ s' log sent, next_event_loop clock fuel i s = (s', Ok tt) ∧
    drained local clock i (s_core s) log (s_core s') ∧ s_events s' = s_events s ++ sent ∧ shown local log sent ∧
    s_signer s' = s_signer s ∧ s_config s' = s_config s ∧ (length log ≤ fuel)%nat.
Proof.
  intros Hck. revert i s. induction fuel as [|fuel IH]; intros i s Hc Hl Hi Hf; [lia|]. cbn [next_event_loop].
  destruct (next_event_progress (at_core (clock i)) (at_core' (clock i)) (s_core s) Hi) as (core1 & r & Hrun & Hadv & Hpr).
  set (s1 := with_core core1 s).
  assert (on_core (next_event (at_core (clock i)) (at_core' (clock i))) s = (s1, Ok r)) as Hon
    by (unfold on_core; by rewrite Hrun).
  rewrite (st_bind_run _ _ _ _ _ Hon). pose proof (advanced_inv _ _ _ Hadv) as Hi1.
  (* the rest of the loop, from a state with this core *)
  assert (∀ e s2, s_core s2 = core1 → s_events s2 = s_events s → s_signer s2 = s_signer s → s_config s2 = s_config s →
    (work core1 < work (s_core s))%nat → r = Some e → ¬ stops local e →
    ∃ s' log sent, (let! _ := send_event e in next_event_loop clock fuel (S i)) s2 = (s', Ok tt) ∧
      drained local clock i (s_core s) log (s_core s') ∧ s_events s' = s_events s ++ sent ∧ shown local log sent ∧
      s_signer s' = s_signer s ∧ s_config s' = s_config s ∧ (length log ≤ S fuel)%nat) as Hgo.
  { intros e s2 Hc2 He2 Hs2 Hg2 Hlt -> Hns. destruct (send_run e s2) as (s3 & Hsend & He3 & Hc3 & Hs3 & Hg3 & _).
    rewrite (st_bind_run _ _ _ _ _ Hsend). destruct (IH (S i) s3) as (s' & log & sent & Hr' & Hd & Hev & Hsh & Hs' & Hg' & Hn).
    - congruence.
    - congruence.
    - by rewrite Hc3, Hc2.
    - rewrite Hc3, Hc2. lia.
    - exists s', (e :: log), (e :: sent). rewrite Hc3, Hc2 in Hd. split_and!; [done| | |by apply shown_cons|congruence|congruence|cbn; lia].
      + by eapply dr_go.
      + by rewrite Hev, He3, He2, <-app_assoc. }
  destruct r as [[h n k accs|m cb|a|n k|h]|]; cbn [progress] in Hpr; cbv beta iota.
  - unfold clear_skip_timeout. erewrite st_bind_run by done. apply Hgo; try done. by intros [].
  - destruct (reset_run cfg clock i s1 Hck Hc) as [t Ht]. rewrite (st_bind_run _ _ _ _ _ Ht). apply Hgo; try done. by intros [].
  - erewrite st_bind_run by done. destruct (reset_run cfg clock i (with_out_of_sync None s1) Hck Hc) as [t Ht].
    rewrite (st_bind_run _ _ _ _ _ Ht). erewrite st_bind_run by done. cbn [with_skip s_signer s1 with_out_of_sync with_core].
    rewrite Hl. case_decide as Hlead; [|by apply Hgo].
    eexists _, [Accept a], []. split_and!; [done|by eapply dr_stop|by rewrite app_nil_r| |done|done|cbn; lia].
    right. by exists (Accept a).
  - unfold report_out_of_sync, clear_skip_timeout. erewrite st_bind_run by done. erewrite st_bind_run by done.
    case_decide.
    + eexists _, [OutOfSync n k], []. split_and!; [done|by eapply dr_stop|by rewrite app_nil_r| |done|done|cbn; lia].
      right. by exists (OutOfSync n k).
    + erewrite st_bind_run by done. set (s2 := with_out_of_sync _ _).
      destruct (send_run (OutOfSync n k) s2) as (s3 & -> & He3 & Hc3 & Hs3 & Hg3 & _).
      exists s3, [OutOfSync n k], [OutOfSync n k]. split_and!; [done| |done|by left|by rewrite Hs3|by rewrite Hg3|cbn; lia].
      rewrite Hc3. by eapply dr_stop.
  - done.
  - eexists s1, [], []. split_and!; [done|by apply dr_none|by rewrite app_nil_r|by left|done|done|cbn; lia].
Qed.

Lemma work_bound core : (work core ≤ 2 * size (proposals (core_proposals core)))%nat.
Proof.
  assert (∀ (Q : ProposalHash * Proposal P St → Prop) `{!∀ x, Decision (Q x)} (m : gmap ProposalHash (Proposal P St)),
    (size (dom (filter Q m)) ≤ size m)%nat) as Hs.
  { intros Q HQ m. rewrite <-size_dom. apply subseteq_size, dom_filter_subseteq. }
  unfold work. pose proof (Hs _ _ (proposals (core_proposals core)) : (size (unsent core) ≤ _)%nat).
  destruct (core_height core) as [h| |]; [|lia..].
  pose proof (Hs _ _ (proposals (core_proposals core)) : (size (above h core) ≤ _)%nat). lia.
Qed.

(** The loop ends. With clocks that chrono can represent [next_event] drains a core
    in order without a panic: the core is asked again and again until it has no
    event, or reports that it is out of sync, or sends an accept to itself as
    leader; after at most one event more than twice the number of proposals. Every event
    but that last one is queued, in order. *)
Theorem next_event_loop_ends clock s :
  clock_ok (s_config s) clock → core_inv (s_core s) →
  ∃ s' log sent, solid_next_event clock s = (s', Ok tt) ∧
    drained (signer_peer (s_signer s)) clock 0 (s_core s) log (s_core s') ∧
    s_events s' = s_events s ++ sent ∧ shown (signer_peer (s_signer s)) log sent ∧
    (length log ≤ S (2 * size (proposals (core_proposals (s_core s)))))%nat.
Proof.
  intros Hck Hi. unfold solid_next_event. erewrite st_bind_run by done.
  destruct (loop_spec (s_config s) clock _ (S (2 * size (proposals (core_proposals (s_core s))))) 0 s Hck eq_refl eq_refl Hi)
    as (s' & log & sent & ? & ? & ? & ? & _ & _ & ?); [pose proof (work_bound (s_core s)); lia|]. by exists s', log, sent.
Qed.

(** * The stream *)

Lemma drained_reach signer start ap cfg local clock i core log core' l :
  drained local clock i core log core' → solid_reach signer start ap cfg core l →
  solid_reach signer start ap cfg core' (l ++ log).
Proof.
  intros Hd. revert l. induction Hd as [i core core' Hr|i core core' e Hr _|i core core1 core' e log Hr _ _ IH]; intros l Hl.
  - pose proof (sr_next _ _ _ _ core l (at_core (clock i)) (at_core' (clock i)) Hl) as Hn. by rewrite Hr in Hn.
  - pose proof (sr_next _ _ _ _ core l (at_core (clock i)) (at_core' (clock i)) Hl) as Hn. by rewrite Hr in Hn.
  - pose proof (sr_next _ _ _ _ core l (at_core (clock i)) (at_core' (clock i)) Hl) as Hn. rewrite Hr in Hn.
    replace (l ++ e :: log) with ((l ++ [e]) ++ log) by (by rewrite <-app_assoc). by apply IH.
Qed.

Lemma shown_commits local log sent : shown local log sent → commits log = commits sent.
Proof. intros [->|(e & He & ->)]; [done|]. rewrite commits_app. destruct e; try done; cbn; by rewrite app_nil_r. Qed.

(** The calls on a [Solid], each section under the lock of the core at a time, and
    the events handed out. *)
Inductive stream_reach (signer : PS) (start : Manifest P St) (ap : A) (cfg : SolidConfig)
  : Solid → list Event → Prop :=
| sm_start validators s :
    wf_manifest start → solid_with_last_confirmed signer validators start ap cfg = Ok s →
    stream_reach signer start ap cfg s []
| sm_proposal s out m :
    stream_reach signer start ap cfg s out → wf_manifest m →
    stream_reach signer start ap cfg (on_core (receive_proposal m) s).1 out
| sm_next s out clock :
    stream_reach signer start ap cfg s out → clock_ok cfg clock →
    stream_reach signer start ap cfg (solid_next_event clock s).1 out
| sm_accept s out now now' a :
    stream_reach signer start ap cfg s out →
    stream_reach signer start ap cfg (solid_receive_accept now now' a s).1 out
| sm_tick s out now core_now core_now' :
    stream_reach signer start ap cfg s out →
    stream_reach signer start ap cfg (solid_tick now core_now core_now' s).1 out
| sm_poll s out :
    stream_reach signer start ap cfg s out →
    stream_reach signer start ap cfg (poll_next s).1 (out ++ option_list (poll_next s).2).

Record stream_inv (signer : PS) (start : Manifest P St) (ap : A) (cfg : SolidConfig) s (out : list Event) : Prop := {
  si_signer : s_signer s = signer;
  si_config : s_config s = cfg;
  si_log : ∃ log, solid_reach signer start ap cfg (s_core s) log ∧ commits (out ++ s_events s) = commits log;
}.

(** Queueing what a method of the core returned. *)
Lemma queue_run core (r : option Event) s :
  ∃ s', (match r with Some e => send_event e | None => st_ret tt end) (with_core core s) = (s', Ok tt) ∧
    s_core s' = core ∧ s_events s' = s_events s ++ emitted (Ok r) ∧ s_signer s' = s_signer s ∧
    s_config s' = s_config s ∧ s_skip_timeout s' = s_skip_timeout s.
Proof.
  destruct r as [e|].
  - destruct (send_run e (with_core core s)) as (s' & -> & He & Hc & Hs & Hg & Ht & _). by exists s'.
  - exists (with_core core s). cbn. by rewrite app_nil_r.
Qed.

(** A tick before the timeout changes nothing; after it, it calls [skip] and moves
    the timeout. *)
Lemma tick_skips now cnow cnow' s t :
  core_inv (s_core s) → decode_time (E := E) (s_skip_timeout s) = Ok (Some t) → t ≤ now →
  ∃ s1 core r, skip cnow cnow' (s_core s) = (core, Ok r) ∧ handled (s_core s) r core ∧
    solid_tick now cnow cnow' s = advance_skip_timeout s1 ∧
    s_core s1 = core ∧ s_events s1 = s_events s ++ emitted (Ok r) ∧ s_signer s1 = s_signer s ∧ s_config s1 = s_config s ∧
    s_skip_timeout s1 = s_skip_timeout s.
Proof.
  intros Hi Hd Hle. destruct (skip_spec cnow cnow' (s_core s) Hi) as (core & r & Hrun & Hh).
  destruct (queue_run core r s) as (s1 & Hq & Hc & He & Hs & Hg & Ht). exists s1, core, r. split_and!; try done.
  unfold solid_tick. rewrite (st_bind_run _ _ s s (Some t)) by (unfold st_lift; by rewrite Hd). cbv beta iota.
  rewrite decide_False by lia.
  rewrite (st_bind_run _ _ s (with_core core s) r) by (unfold on_core; by rewrite Hrun).
  by rewrite (st_bind_run _ _ _ _ _ Hq).
Qed.
Lemma advance_keeps s :
  let s' := (advance_skip_timeout s).1 in
  s_core s' = s_core s ∧ s_events s' = s_events s ∧ s_signer s' = s_signer s ∧ s_config s' = s_config s.
Proof.
  destruct (advance_skip_timeout s) as [s' r] eqn:Hrun. cbn. revert Hrun. unfold advance_skip_timeout, st_bind, st_lift.
  destruct (from_std _); [|by intros [= <- _]..].
  destruct (fetch_add (s_skip_timeout s) _) as [t' [x|?|?]]; by intros [= <- _].
Qed.
Lemma tick_cases now cnow cnow' s :
  core_inv (s_core s) →
  (solid_tick now cnow cnow' s).1 = s ∨
  ∃ s' core r, skip cnow cnow' (s_core s) = (core, Ok r) ∧ (solid_tick now cnow cnow' s).1 = s' ∧
    s_core s' = core ∧ s_events s' = s_events s ++ emitted (Ok r) ∧ s_signer s' = s_signer s ∧ s_config s' = s_config s.
Proof.
  intros Hi. destruct (decode_time (E := E) (s_skip_timeout s)) as [[t|]|e|msg] eqn:Hd.
  2-4: left; unfold solid_tick, st_bind, st_lift; by rewrite Hd.
  destruct (decide (t > now)) as [Hgt|Hle].
  { left. unfold solid_tick, st_bind, st_lift. rewrite Hd. by rewrite decide_True. }
  destruct (tick_skips now cnow cnow' s t Hi Hd) as (s1 & core & r & Hrun & _ & -> & Hc & He & Hs & Hg & _); [lia|].
  right. destruct (advance_keeps s1) as (? & ? & ? & ?). eexists _, core, r. split_and!; [done|done|congruence..].
Qed.

Lemma stream_reach_inv signer start ap cfg s out :
  stream_reach signer start ap cfg s out → stream_inv signer start ap cfg s out.
Proof.
  induction 1 as [vs s Hw Hs|s out m _ IH Hw|s out clock _ IH Hck|s out now now' a _ IH|s out now cn cn' _ IH|s out _ IH].
  - unfold solid_with_last_confirmed in Hs. case_decide; [done|]. injection Hs as <-. split; [done|done|].
    exists []. split; [by apply sr_start|done].
  - destruct IH as [Hs Hc (log & Hr & Hl)]. unfold on_core. destruct (receive_proposal m (s_core s)) as [core r] eqn:Hrun.
    split; [done|done|]. exists log. split; [|done]. cbn. pose proof (sr_proposal _ _ _ _ _ _ m Hr Hw) as Hn. by rewrite Hrun in Hn.
  - destruct IH as [Hs Hc (log & Hr & Hl)]. pose proof (ri_core _ _ _ _ _ _ (reach_inv _ _ _ _ _ _ Hr)) as Hi.
    unfold solid_next_event. erewrite st_bind_run by done.
    destruct (loop_spec cfg clock (signer_peer signer) (S (2 * size (proposals (core_proposals (s_core s))))) 0 s)
      as (s' & log' & sent & -> & Hd & He & Hsh & Hs' & Hg' & _); [done|done|by rewrite Hs|done|pose proof (work_bound (s_core s)); lia|].
    split; cbn [fst]; [congruence|congruence|]. exists (log ++ log'). split; [by eapply drained_reach|].
    rewrite He, app_assoc, !commits_app, (shown_commits _ _ _ Hsh), <-Hl, commits_app. done.
  - destruct IH as [Hs Hc (log & Hr & Hl)]. pose proof (ri_core _ _ _ _ _ _ (reach_inv _ _ _ _ _ _ Hr)) as Hi.
    pose proof (sr_accept _ _ _ _ _ _ now now' a Hr) as Hn. pose proof (receive_accept_spec now now' (s_core s) a Hi) as Hsv.
    unfold solid_receive_accept. unfold st_bind at 1, on_core at 1.
    destruct (receive_accept now now' a (s_core s)) as [core [r|e|msg]]; [| |done].
    + destruct (queue_run core r s) as (s' & -> & Hc' & He & Hs' & Hg & _). cbn [fst snd] in *.
      split; [congruence|congruence|]. exists (log ++ emitted (Ok r)). rewrite Hc'. split; [done|].
      rewrite He, app_assoc, !commits_app, <-Hl, commits_app. done.
    + cbn [fst snd emitted] in *. split; [done|done|]. exists log. rewrite app_nil_r in Hn. done.
  - destruct IH as [Hs Hc (log & Hr & Hl)]. pose proof (ri_core _ _ _ _ _ _ (reach_inv _ _ _ _ _ _ Hr)) as Hi.
    destruct (tick_cases now cn cn' s Hi) as [->|(s' & core & r & Hrun & -> & Hc' & He & Hs' & Hg)]; [split; [done..|by exists log]|].
    pose proof (sr_skip _ _ _ _ _ _ cn cn' Hr) as Hn. rewrite Hrun in Hn. cbn [fst snd] in Hn.
    split; [congruence|congruence|]. exists (log ++ emitted (Ok r)). rewrite Hc'. split; [done|].
    rewrite He, app_assoc, !commits_app, <-Hl, commits_app. done.
  - destruct IH as [Hs Hc (log & Hr & Hl)]. unfold poll_next. destruct (s_events s) as [|e l] eqn:He.
    + split; [done|done|]. exists log. cbn [fst snd option_list with_waker s_core s_events]. split; [done|]. by rewrite He, app_nil_r.
    + split; [done|done|]. exists log. cbn [fst snd option_list with_events s_core s_events]. split; [done|].
      by rewrite <-app_assoc.
Qed.

(** C26: The stream is the chain. However proposals, accepts, ticks and polls interleave,
    the commits handed out so far are a chain of manifests from the starting one,
    each extending the one before; together with those still in the queue they
    end in the proposal that the core has confirmed: none is lost, repeated or out
    of order. *)
Theorem stream_delivers_chain signer start ap cfg s out :
  stream_reach signer start ap cfg s out →
  let seen := commits (out ++ s_events s) in
  hash_chain start seen ∧ commits out `prefix_of` seen ∧
  solid_hash s = Ok (app_hash (m_content (chain_end start seen))) ∧
  solid_height s = Ok (mc_height (m_content start) + Z.of_nat (length seen)).
Proof.
  intros [_ _ (log & Hr & Hl)]%stream_reach_inv seen. unfold seen. rewrite Hl.
  destruct (run_chain _ _ _ _ _ _ (reach_inv _ _ _ _ _ _ Hr)) as (Hc & Hh & Hn). split_and!; [done| |done|done].
  rewrite <-Hl, commits_app. by apply prefix_app_r.
Qed.

(** * Skips *)

(** The computations that leave [max_height] alone. *)
Definition keeps {X} (m : ST Core E X) : Prop := ∀ core, max_height (m core).1 = max_height core.
Lemma keeps_bind {X Y} (m : ST Core E X) (f : X → ST Core E Y) : keeps m → (∀ x, keeps (f x)) → keeps (st_bind m f).
Proof.
  intros Hm Hf core. specialize (Hm core). unfold st_bind. destruct (m core) as [c [x|?|?]]; cbn in *; [|done..].
  by rewrite Hf.
Qed.
Lemma keeps_ret {X} (x : X) : keeps (st_ret x).
Proof. done. Qed.
Lemma keeps_lift {X} (f : Core → outcome E X) : keeps (st_lift f).
Proof. done. Qed.
Lemma keeps_get {X} (f : Core → X) : keeps (st_get f).
Proof. done. Qed.
Lemma keeps_proposals f : keeps (st_modify (with_core_proposals f)).
Proof. done. Qed.
Lemma keeps_orphans f : keeps (st_modify (with_orphans f)).
Proof. done. Qed.
Ltac keep := repeat lazymatch goal with
  | |- keeps (st_ret _) => apply keeps_ret
  | |- keeps (st_lift _) => apply keeps_lift
  | |- keeps (st_get _) => apply keeps_get
  | |- keeps (st_modify (with_core_proposals _)) => apply keeps_proposals
  | |- keeps (st_modify (with_orphans _)) => apply keeps_orphans
  | |- keeps (st_bind _ _) => apply keeps_bind; [|intros ?]
  | |- keeps (match _ with _ => _ end) => first [case_decide | case_match]
  | |- keeps (λ _, (_, Panic _)) => done
  end.

Lemma current_keeps : keeps validated_current_proposal.
Proof.
  unfold validated_current_proposal, validated_current_proposal_hash. keep.
  match goal with |- keeps (current_hash_loop (S ?n)) => generalize (S n) end.
  intros k. induction k as [|k IH]; cbn [current_hash_loop]; keep; exact IH.
Qed.
Lemma next_accept_keeps (add : ProposalAccept P → ST Core E (option Event)) b :
  (∀ a, keeps (add a)) → keeps (next_accept_event_with add b).
Proof. intros Ha. unfold next_accept_event_with. keep; try apply current_keeps. apply Ha. Qed.
Lemma add_accept_keeps now now' fuel a : keeps (add_accept_rec now now' fuel a).
Proof.
  revert a. induction fuel as [|fuel IH]; intros a; cbn [add_accept_rec]; unfold add_orphan; keep;
    try apply current_keeps; by apply next_accept_keeps.
Qed.
Lemma skip_keeps now now' : keeps (skip now now').
Proof.
  unfold skip, get_next_accept_event, add_accept. keep. apply next_accept_keeps. intros a. apply add_accept_keeps.
Qed.

Lemma evolves_height core core' : core_inv core → core_inv core' → evolves core core' → core_height core' = core_height core.
Proof.
  intros Hi Hi' He. destruct (confirmed_ok core' Hi') as (l' & Hl' & _ & _ & Hh' & _).
  destruct (confirmed_ok core Hi) as (l1 & Hl1 & _ & _ & Hh & _).
  destruct (evolves_confirmed _ _ _ He Hl') as (l & Hl & Hs). rewrite Hl in Hl1. injection Hl1 as <-.
  destruct (same_height _ _ Hs) as (Heq & _). by rewrite Hh, Hh', Heq.
Qed.

(** A node in sync answers [skip] with an event and stays in sync. *)
Lemma skip_in_sync now now' core :
  core_inv core → is_out_of_sync core = Ok false →
  ∃ core' e, skip now now' core = (core', Ok (Some e)) ∧ core_inv core' ∧ is_out_of_sync core' = Ok false.
Proof.
  intros Hi Ho. destruct (skip_spec now now' core Hi) as (core' & r & Hrun & Hi' & He & _).
  pose proof (skip_keeps now now' core) as Hm. rewrite Hrun in Hm. cbn [fst] in Hm.
  assert (is_Some r) as [e ->].
  { unfold skip in Hrun. rewrite (st_bind_run _ _ core core false) in Hrun by (unfold st_lift; by rewrite Ho).
    destruct (get_next_accept_event_spec now now' core true Hi) as (c & x & Hx & _ & _ & Hs). rewrite Hx in Hrun. congruence. }
  exists core', e. split_and!; [done|done|]. unfold is_out_of_sync in *. by rewrite (evolves_height core core'), Hm.
Qed.

Lemma wrap_i64_small x : i64_MIN ≤ x ≤ i64_MAX → wrap_i64 x = x.
Proof. unfold wrap_i64, i64_MIN, i64_MAX. intros Hx. rewrite wrap_small by (unfold in_width; lia). lia. Qed.
Lemma decode_in_range d : MIN_MILLIS ≤ d ≤ MAX_MILLIS → decode_time (E := E) d = Ok (Some (d * MILLI)).
Proof.
  unfold decode_time, MIN_MILLIS, MAX_MILLIS, i64_MIN. intros Hd. rewrite decide_False by lia. by rewrite decide_True.
Qed.

(** The ticks of the background worker, at the given times. *)
Fixpoint ticks (l : list (Z * Z * Z)) : ST Solid E unit :=
  match l with
  | [] => st_ret tt
  | (now, cnow, cnow') :: l => let! _ := solid_tick now cnow cnow' in ticks l
  end.

Lemma tick_step now cnow cnow' s d :
  let k := skip_timeout (s_config s) in
  core_inv (s_core s) → is_out_of_sync (s_core s) = Ok false → s_skip_timeout s = d →
  0 < k → MIN_MILLIS ≤ d → d ≤ MAX_MILLIS → now / MILLI + k ≤ MAX_MILLIS →
  ∃ s' x, solid_tick now cnow cnow' s = (s', Ok x) ∧ core_inv (s_core s') ∧ is_out_of_sync (s_core s') = Ok false ∧
    s_config s' = s_config s ∧
    if decide (d ≤ now / MILLI)
    then s_skip_timeout s' = d + k ∧ length (s_events s') = S (length (s_events s))
    else s' = s.
Proof.
  intros k Hi Ho Hd Hk Hlo Hhi Hnow. pose proof (Z.mul_div_le now MILLI ltac:(unfold MILLI; lia)) as Hml.
  pose proof (Z.mul_succ_div_gt now MILLI ltac:(unfold MILLI; lia)) as Hmg.
  case_decide as Hle.
  - destruct (tick_skips now cnow cnow' s (d * MILLI) Hi) as (s1 & core & r & Hrun & _ & -> & Hc & He & Hs & Hg & Ht);
      [by rewrite Hd, decode_in_range|unfold MILLI in *; lia|].
    destruct (skip_in_sync cnow cnow' (s_core s) Hi Ho) as (core' & e & Hrun' & Hi' & Ho').
    rewrite Hrun in Hrun'. injection Hrun' as <- ->. unfold advance_skip_timeout, from_std. unfold st_bind at 1, st_lift at 1.
    rewrite Hg. fold k. assert (k ≤ i64_MAX) by (unfold i64_MAX, MAX_MILLIS, MIN_MILLIS in *; lia).
    rewrite decide_True by done. unfold st_bind, fetch_add. rewrite Ht, Hd.
    rewrite decide_False by (unfold i64_MIN, MIN_MILLIS in *; lia). rewrite decode_in_range by lia.
    rewrite wrap_i64_small by (unfold i64_MAX, i64_MIN, MAX_MILLIS, MIN_MILLIS in *; lia).
    unfold st_lift. cbn [s_skip_timeout]. rewrite decode_in_range by lia.
    eexists _, _. split; [done|]. cbn. rewrite Hc. split_and!; [done|done|done|done|]. rewrite He, length_app. cbn. lia.
  - eexists s, _. split; [|done]. unfold solid_tick, st_bind, st_lift. rewrite Hd, decode_in_range by done.
    rewrite decide_True; [done|]. unfold MILLI in *. lia.
Qed.

(** C27: Silence leads to skips, one for each interval. While a node in sync receives
    nothing, its worker, ticking at whatever times up to [T], moves the timeout by
    whole intervals, queues exactly one event for each of them and never one before
    its time; and when it keeps ticking at [T] it stops with a timeout in the
    future, after as many events as intervals have passed, in a burst if it was
    suspended. *)
Theorem silence_skips s d l T :
  let k := skip_timeout (s_config s) in
  core_inv (s_core s) → is_out_of_sync (s_core s) = Ok false → s_skip_timeout s = d → 0 < k →
  MIN_MILLIS ≤ d ≤ MAX_MILLIS → T / MILLI + k ≤ MAX_MILLIS → Forall (λ t, t.1.1 ≤ T) l →
  ∃ s' m, ticks l s = (s', Ok tt) ∧ s_skip_timeout s' = d + Z.of_nat m * k ∧
    length (s_events s') = (length (s_events s) + m)%nat ∧ (m = 0%nat ∨ d + (Z.of_nat m - 1) * k ≤ T / MILLI) ∧
    (Forall (λ t, t.1.1 = T) l → m = length l ∨ d + Z.of_nat m * k > T / MILLI).
Proof.
  intros k. revert s d k. induction l as [|[[now cn] cn'] l IH]; intros s d k Hi Ho Hd Hk [Hlo Hhi] HT Hl.
  { exists s, 0%nat. cbn. split_and!; [done|lia|lia|by left|by left]. }
  apply Forall_cons in Hl as [Hnow Hl]. cbn in Hnow. pose proof (Z.div_le_mono now T MILLI ltac:(unfold MILLI; lia) Hnow).
  destruct (tick_step now cn cn' s d Hi Ho Hd Hk Hlo Hhi ltac:(lia)) as (s1 & x & Hrun & Hi1 & Ho1 & Hc1 & Hst).
  cbn [ticks]. rewrite (st_bind_run _ _ _ _ _ Hrun). case_decide as Hle.
  - destruct Hst as [Hd1 He1].
    destruct (IH s1 (d + k)) as (s' & m & Hr & Hd' & He' & Hb & Hex); rewrite ?Hc1; try done; [unfold k in *; lia|].
    rewrite Hc1 in Hd', Hb, Hex. fold k in Hd', Hb, Hex. exists s', (S m). split_and!; [done|lia|lia|right; lia|].
    intros [_ Hall]%Forall_cons. destruct (Hex Hall) as [->|Hgt]; [by left|right; lia].
  - subst s1. destruct (IH s d) as (s' & m & Hr & Hd' & He' & Hb & Hex); try done. fold k in Hd', Hb, Hex.
    exists s', m. split_and!; [done|done|done|done|]. intros [Heq _]%Forall_cons. cbn in Heq. subst now.
    right. lia.
Qed.

(** * Wake-ups *)

(** The consumer of the stream and the senders, a locked section at a time: [n]
    senders have pushed and are about to wake; [parked], whether the consumer
    waits for its waker. *)
Inductive wake_step : Solid * nat * bool → Solid * nat * bool → Prop :=
| wk_push s n parked e : wake_step (s, n, parked) (push_section e s, S n, parked)
| wk_wake s n parked : wake_step (s, S n, parked) (wake_section s, n, parked)
| wk_poll s n parked :
    (parked = true → s_woken s = true) →
    wake_step (s, n, parked) ((poll_next s).1, n, bool_decide ((poll_next s).2 = None)).

Definition wake_inv (x : Solid * nat * bool) : Prop :=
  let '(s, n, parked) := x in
  parked = true → s_woken s = true ∨ s_waker s = true ∧ (s_events s = [] ∨ (0 < n)%nat).

Lemma wake_step_inv x y : wake_inv x → wake_step x y → wake_inv y.
Proof.
  intros Hi Hs. destruct Hs as [s n parked e|s n parked|s n parked _]; cbn in *.
  - intros Hp. destruct (Hi Hp) as [?|[? _]]; [by left|right]. split; [done|right; lia].
  - intros Hp. unfold wake_section. destruct (s_waker s) eqn:Hw; [by left|]. destruct (Hi Hp) as [?|[? _]]; [by left|congruence].
  - unfold poll_next. destruct (s_events s) as [|e l] eqn:He; cbn -[bool_decide]; [auto|]. intros Hb%bool_decide_eq_true. done.
Qed.

(** C28: No wake-up is lost. However senders and the consumer interleave, a consumer
    that waits while an event is queued has been woken, or a sender that has pushed
    its event is about to wake it; and when it is polled again it gets the event. *)
Theorem no_lost_wakeup s s' n :
  rtc wake_step (s, 0%nat, false) (s', n, true) → s_events s' ≠ [] →
  (s_woken s' = true ∨ (0 < n)%nat ∧ s_woken (wake_section s') = true) ∧ is_Some (poll_next s').2.
Proof.
  intros Hr Hne. assert (wake_inv (s', n, true)) as Hi.
  { assert (∀ x y, rtc wake_step x y → wake_inv x → wake_inv y) as Hstep.
    { induction 1 as [|x y z Hs _ IH]; [done|]. intros Hx. by eapply IH, wake_step_inv. }
    by apply (Hstep _ _ Hr). }
  split.
  - destruct (Hi eq_refl) as [?|[Hw [?|?]]]; [by left|done|right]. split; [done|]. unfold wake_section. by rewrite Hw.
  - unfold poll_next. destruct (s_events s'); [done|]. by eexists.
Qed.
End stream_props.
