(* ===== verification/SolidStreamWitness.v ===== *)
(** The event stream of validator 1 of the network of SolidWitness.v. *)
From S2P Require Import Prelude SolidProposal SolidCache SolidCore SolidCoreSpec SolidProps.
From S2P Require Import SolidWitness SolidStream SolidStreamProps.

Notation Stream := (Solid Z Z Z unit).

(** All clocks stand at one second. *)
Definition ex_clock (_ : nat) : Readings := mk_readings 0 0 (10 ^ 9) (10 ^ 9) (10 ^ 9).
Definition stream0 : Stream := mk_solid 1 config_default core0 [] (encode_time None) None false false false.
Definition stream2 : Stream := (on_core (receive_proposal m2) (on_core (receive_proposal m1) stream0).1).1.

Lemma ex_clock_ok : clock_ok config_default ex_clock.
Proof. split; [by vm_compute|]. intros i. by split; vm_compute. Qed.
Lemma core_inv_of core log : reach core log → core_inv core.
Proof. intros Hr. by eapply ri_core, reach_inv. Qed.

Lemma next_event_loop_ends_witness :
  ∃ s', solid_next_event ex_clock stream2 = (s', Ok tt) ∧ commits (s_events s') = [(m1, m2)].
Proof.
  destruct (next_event_loop_ends ex_clock stream2 ex_clock_ok (core_inv_of core2 [] reach2))
    as (s' & log & sent & Hr & _).
  exists s'. split; [exact Hr|]. assert (s' = (solid_next_event ex_clock stream2).1) as -> by (by rewrite Hr).
  vm_compute. reflexivity.
Defined.

Definition stream_reached := stream_reach (P := Z) (PS := Z) (St := Z) (A := unit) 1 m0 () config_default.
Lemma stream2_reached : stream_reached stream2 [].
Proof.
  apply sm_proposal; [apply sm_proposal; [|by apply (wf_toy 1 four)]|by apply (wf_toy 2 four)].
  by apply (sm_start _ _ _ _ four); [apply (wf_toy 0 four)|].
Qed.

Lemma stream_delivers_chain_witness :
  let s := (solid_next_event ex_clock stream2).1 in
  commits ([] ++ s_events s) = [(m1, m2)] ∧ solid_height s = Ok 1.
Proof.
  split; [vm_compute; reflexivity|].
  destruct (stream_delivers_chain 1 m0 () config_default _ _
    (sm_next _ _ _ _ _ _ ex_clock stream2_reached ex_clock_ok)) as (_ & _ & _ & ->).
  vm_compute. reflexivity.
Defined.

(** A timeout set for the tenth second, found by a worker at the twenty-fifth: four
    intervals of five seconds have passed. *)
Definition stream_late : Stream := mk_solid 1 config_default core0 [] 10000 None false false false.
Definition late : Z := 25 * 10 ^ 9.
Lemma silence_skips_witness :
  ∃ s', ticks (replicate 6 (late, 0, 0)) stream_late = (s', Ok tt) ∧ s_skip_timeout s' = 30000 ∧
    length (s_events s') = 4%nat.
Proof.
  destruct (silence_skips stream_late 10000 (replicate 6 (late, 0, 0)) late) as (s' & m & Hr & Hd & He & Hb & Hex).
  - exact (core_inv_of core0 [] reach0).
  - by vm_compute.
  - done.
  - by vm_compute.
  - by split; vm_compute.
  - by vm_compute.
  - by apply Forall_replicate.
  - exists s'. split; [exact Hr|]. specialize (Hex ltac:(by apply Forall_replicate)).
    assert (m = 4%nat) as ->; [|by split].
    cbn [skip_timeout s_config stream_late config_default] in *.
    assert (late / MILLI = 25000) as Hl by (by vm_compute). rewrite Hl in *. rewrite length_replicate in Hex. lia.
Defined.

Lemma no_lost_wakeup_witness :
  let s := push_section (DuplicateProposal [] : Event) (with_waker true false stream0) in
  s_woken (wake_section s) = true ∧ is_Some (poll_next s).2.
Proof.
  destruct (no_lost_wakeup stream0 (push_section (DuplicateProposal [] : Event) (with_waker true false stream0)) 1)
    as [[Hw|[_ Hw]] Hp].
  - eapply rtc_l; [by apply wk_poll|]. eapply rtc_l; [apply (wk_push _ _ _ (DuplicateProposal []))|]. apply rtc_refl.
  - done.
  - done.
  - done.
Defined.

(** Reports of being out of sync are throttled in the loop only: two accepts for
    unknown proposals, received at the same time, queue two reports, although the
    configuration asks for a minute between them. *)
Definition ahead : Manifest Z Z := toy_manifest m2 1 30 four [1; 2; 3].
Theorem accepts_bypass_throttle :
  out_of_sync_timeout config_default = 60000 ∧
  let s := (solid_receive_accept 0 0 (toy_accept ahead 1 0 2) stream0).1 in
  let s' := (solid_receive_accept 0 0 (toy_accept ahead 1 0 3) s).1 in
  s_events s' = [OutOfSync 0 3; OutOfSync 0 3].
Proof. split; [done|]. vm_compute. reflexivity. Qed.
