(* ===== verification/Doomslug.v ===== *)
(** Approvals and the Doomslug block-production gadget (pkg/doomslug/src:
    approval.rs, doomslug.rs, error.rs, types.rs).

    Heights are [u64], stakes [u128]; sums wrap as in a release build, where
    [debug_assert!] is absent.  A [Duration] is a number of nanoseconds, an
    [Instant] a point on the monotonic clock in nanoseconds (its range, 2^63
    seconds, is not modelled); readings of the clocks are arguments. *)
From S2P Require Import Prelude Element Crypto.

(** * Approvals (approval.rs) *)

Inductive ApprovalInner :=
| Endorsement (h : CryptoHash)
| Skip (height : Z).

#[export] Instance approval_inner_eq_dec : EqDecision ApprovalInner.
Proof. solve_decision. Defined.
#[export] Instance approval_inner_countable : Countable ApprovalInner.
Proof.
  refine (inj_countable'
    (λ i, match i with Endorsement h => inl h | Skip z => inr z end)
    (λ s, match s with inl h => Endorsement h | inr z => Skip z end) _).
  by intros [].
Defined.

Record ApprovalContent := mk_content { ac_inner : ApprovalInner; ac_target_height : Z }.
Record Approval := mk_approval { ap_content : ApprovalContent; ap_signature : Signature }.
Record ApprovalValidated := mk_validated {
  av_content : ApprovalContent;
  av_signature : Signature;
  av_validator : Address;
}.
Record ApprovalStake := mk_stake {
  as_validator : Address;
  as_stake_this_epoch : Z;
  as_stake_next_epoch : Z;
}.

Definition inner_new (parent_hash : CryptoHash) (parent_height target_height : Z) : ApprovalInner :=
  if decide (target_height = wrap 64 (parent_height + 1)) then Endorsement parent_hash else Skip parent_height.
Definition content_new (parent_hash : CryptoHash) (parent_height target_height : Z) : ApprovalContent :=
  mk_content (inner_new parent_hash parent_height target_height) target_height.
Definition new_endorsement (parent_hash : CryptoHash) (target_height : Z) : ApprovalContent :=
  mk_content (Endorsement parent_hash) target_height.

(** [borsh::to_vec]: the tag of the variant, its field, the height; integers are
    little endian. *)
Definition content_serialize (c : ApprovalContent) : list Z :=
  match ac_inner c with
  | Endorsement h => 0 :: h
  | Skip height => 1 :: Z_to_little_endian 8 8 height
  end ++ Z_to_little_endian 8 8 (ac_target_height c).

Inductive DoomslugError := InvalidSignature.

Section approvals.
Context `{CryptoLib}.

(** The arm for skips is [todo!()]. *)
Definition content_hash {E} (c : ApprovalContent) : outcome E CryptoHash :=
  match ac_inner c with
  | Endorsement h => Ok (keccak256 (be_bytes 32 (ac_target_height c) ++ h))
  | Skip _ => Panic "not yet implemented"
  end.
Definition to_approval {E} (c : ApprovalContent) (peer : PeerIdSigner) : outcome E Approval :=
  let? h := content_hash c in
  Ok (mk_approval c (signer_sign peer h)).
Definition to_approval_validated {E} (c : ApprovalContent) (peer : PeerIdSigner)
  : outcome E ApprovalValidated :=
  let? h := content_hash c in
  Ok (mk_validated c (signer_sign peer h) (peer_id peer)).

(** [TryFrom<Approval>]. *)
Definition validate_approval (msg : Approval) : outcome DoomslugError ApprovalValidated :=
  let? h := content_hash (ap_content msg) in
  let? r := signature_verify (ap_signature msg) h in
  let? v := ok_or r InvalidSignature in
  Ok (mk_validated (ap_content msg) (ap_signature msg) v).
End approvals.

(** * Configuration and constants (doomslug.rs) *)

Definition MAX_TIMER_ITERS : nat := 20.
Definition MAX_HEIGHTS_AHEAD_TO_STORE_APPROVALS : Z := 10000.
Definition MAX_HEIGHTS_BEFORE_TO_STORE_APPROVALS : Z := 20.
Definition MAX_HISTORY_SIZE : nat := 1000.

Inductive DoomslugThresholdMode := NoApprovals | TwoThirds.
#[export] Instance threshold_mode_eq_dec : EqDecision DoomslugThresholdMode.
Proof. solve_decision. Defined.

Inductive DoomslugBlockProductionReadiness := NotReady | ReadySince (when : Z).
#[export] Instance readiness_eq_dec : EqDecision DoomslugBlockProductionReadiness.
Proof. solve_decision. Defined.

(** * The timer *)

(** [Duration::MAX]: 2^64 - 1 seconds and 999999999 nanoseconds. *)
Definition duration_max : Z := 2 ^ 64 * 10 ^ 9 - 1.

Record DoomslugTimer := mk_timer {
  t_started : Z;
  t_last_endorsement_sent : Z;
  t_height : Z;
  t_endorsement_delay : Z;
  t_min_delay : Z;
  t_delay_step : Z;
  t_max_delay : Z;
}.

Definition get_delay {E} (t : DoomslugTimer) (n : Z) : outcome E Z :=
  let n32 := if decide (n ≤ u32_max) then n else u32_max in
  let steps := t_delay_step t * saturating_sub n32 2 in
  if decide (duration_max < steps) then Panic "overflow when multiplying duration by scalar"
  else if decide (duration_max < t_min_delay t + steps) then Panic "overflow when adding durations"
  else Ok (Z.min (t_max_delay t) (t_min_delay t + steps)).

(** * One tracker per block that is approved *)

Record DoomslugApprovalsTracker := mk_tracker {
  witness : gmap Address (ApprovalValidated * Z);
  account_id_to_stakes : gmap Address (Z * Z);
  total_stake_this_epoch : Z;
  approved_stake_this_epoch : Z;
  total_stake_next_epoch : Z;
  approved_stake_next_epoch : Z;
  time_passed_threshold : option Z;
  tk_threshold_mode : DoomslugThresholdMode;
}.

Definition tracker_new (stakes : gmap Address (Z * Z)) (mode : DoomslugThresholdMode)
  : DoomslugApprovalsTracker :=
  mk_tracker ∅ stakes
    (wrap 128 (map_sum (λ _ s, s.1) stakes)) 0
    (wrap 128 (map_sum (λ _ s, s.2) stakes)) 0
    None mode.

(** [account_id_to_stakes.get(v).map_or((0, 0), |x| *x)]. *)
Definition stakes_of (stakes : gmap Address (Z * Z)) (v : Address) : Z * Z := default (0, 0) (stakes !! v).

Definition enough_stake (tr : DoomslugApprovalsTracker) : bool :=
  (bool_decide (approved_stake_this_epoch tr > wrap 128 (total_stake_this_epoch tr * 2) / 3)
   && (bool_decide (approved_stake_next_epoch tr > wrap 128 (total_stake_next_epoch tr * 2) / 3)
       || bool_decide (total_stake_next_epoch tr = 0)))
  || bool_decide (tk_threshold_mode tr = NoApprovals).

Definition get_block_production_readiness (tr : DoomslugApprovalsTracker) (now : Z)
  : DoomslugApprovalsTracker * DoomslugBlockProductionReadiness :=
  if enough_stake tr then
    let since := default now (time_passed_threshold tr) in
    (mk_tracker (witness tr) (account_id_to_stakes tr)
       (total_stake_this_epoch tr) (approved_stake_this_epoch tr)
       (total_stake_next_epoch tr) (approved_stake_next_epoch tr)
       (Some since) (tk_threshold_mode tr),
     ReadySince since)
  else (tr, NotReady).

Definition tracker_process_approval (tr : DoomslugApprovalsTracker) (now utc : Z) (approval : ApprovalValidated)
  : DoomslugApprovalsTracker * DoomslugBlockProductionReadiness :=
  let v := av_validator approval in
  let tr :=
    match witness tr !! v with
    | Some _ => tr
    | None =>
        let stakes := stakes_of (account_id_to_stakes tr) v in
        mk_tracker (<[v := (approval, utc)]> (witness tr)) (account_id_to_stakes tr)
          (total_stake_this_epoch tr) (wrap 128 (approved_stake_this_epoch tr + stakes.1))
          (total_stake_next_epoch tr) (wrap 128 (approved_stake_next_epoch tr + stakes.2))
          (time_passed_threshold tr) (tk_threshold_mode tr)
    end in
  get_block_production_readiness tr now.

Definition withdraw_approval (tr : DoomslugApprovalsTracker) (v : Address) : DoomslugApprovalsTracker :=
  match witness tr !! v with
  | None => tr
  | Some (approval, _) =>
      let stakes := stakes_of (account_id_to_stakes tr) (av_validator approval) in
      mk_tracker (delete v (witness tr)) (account_id_to_stakes tr)
        (total_stake_this_epoch tr) (wrap 128 (approved_stake_this_epoch tr - stakes.1))
        (total_stake_next_epoch tr) (wrap 128 (approved_stake_next_epoch tr - stakes.2))
        (time_passed_threshold tr) (tk_threshold_mode tr)
  end.

Definition get_witnesses (tr : DoomslugApprovalsTracker) : list (Address * Z) :=
  (λ w, (w.1, w.2.2)) <$> map_to_list (witness tr).

(** * The trackers of one height *)

Record DoomslugApprovalsTrackersAtHeight := mk_trackers {
  approval_trackers : gmap ApprovalInner DoomslugApprovalsTracker;
  last_approval_per_account : gmap Address ApprovalInner;
}.
Definition trackers_new : DoomslugApprovalsTrackersAtHeight := mk_trackers ∅ ∅.

(** The first part of [process_approval]: the account's earlier approval. *)
Definition withdraw_last (t : DoomslugApprovalsTrackersAtHeight) (v : Address)
  : DoomslugApprovalsTrackersAtHeight :=
  match last_approval_per_account t !! v with
  | None => t
  | Some last_parent =>
      match approval_trackers t !! last_parent with
      | None => t
      | Some x =>
          let x := withdraw_approval x v in
          mk_trackers
            (if decide (witness x = ∅) then delete last_parent (approval_trackers t)
             else <[last_parent := x]> (approval_trackers t))
            (last_approval_per_account t)
      end
  end.

(** The stakes of those that are not slashed; a later entry replaces an earlier
    one of the same validator, as [collect] does. *)
Definition active_stakes (stakes : list (ApprovalStake * bool)) : gmap Address (Z * Z) :=
  foldl (λ m p, if (p : ApprovalStake * bool).2 then m
                else <[as_validator p.1 := (as_stake_this_epoch p.1, as_stake_next_epoch p.1)]> m) ∅ stakes.

Definition trackers_process_approval {E} (now utc : Z) (approval : ApprovalValidated)
    (stakes : list (ApprovalStake * bool)) (threshold_mode : DoomslugThresholdMode)
  : ST DoomslugApprovalsTrackersAtHeight E DoomslugBlockProductionReadiness := λ t,
  let v := av_validator approval in
  let inner := ac_inner (av_content approval) in
  let t := withdraw_last t v in
  let id_to_stakes := active_stakes stakes in
  if decide (size id_to_stakes ≠ length stakes)
  then (t, Panic "assertion `left == right` failed")
  else if decide (id_to_stakes !! v = None) then (t, Ok NotReady)
  else
    let tr := default (tracker_new id_to_stakes threshold_mode) (approval_trackers t !! inner) in
    let '(tr, ready) := tracker_process_approval tr now utc approval in
    (mk_trackers (<[inner := tr]> (approval_trackers t)) (<[v := inner]> (last_approval_per_account t)), Ok ready).

Record ApprovalAtHeightStatus := mk_status {
  st_approvals : gmap Address (ApprovalInner * Z);
  st_ready_at : option Z;
}.

(** [chrono::Duration::from_std(d).unwrap_or(days(1))]: at most [i64::MAX]
    milliseconds. *)
Definition chrono_from_std (d : Z) : Z :=
  if decide (d ≤ (2 ^ 63 - 1) * 10 ^ 6) then d else 86400 * 10 ^ 9.

(** [status], read at [utc] on the wall clock and at [now] on the monotonic one:
    [elapsed] is 0 for an instant in the future. *)
Definition trackers_status (t : DoomslugApprovalsTrackersAtHeight) (now utc : Z) : ApprovalAtHeightStatus :=
  let approvals :=
    foldl (λ m a, <[(a : Address * (ApprovalInner * Z)).1 := a.2]> m) ∅
      (mjoin ((λ p, (λ w : Address * Z, (w.1, (p.1, w.2))) <$> get_witnesses p.2) <$>
        map_to_list (approval_trackers t))) in
  let times := omap (λ p : ApprovalInner * _, time_passed_threshold p.2) (map_to_list (approval_trackers t)) in
  mk_status approvals
    (match times with
     | [] => None
     | x :: l => Some (utc - chrono_from_std (saturating_sub now (foldl Z.min x l)))
     end).

(** * Doomslug *)

Record ApprovalHistoryEntry := mk_history {
  he_parent_height : Z;
  he_target_height : Z;
  he_approval_creation_time : Z;
  he_timer_started_ago_millis : Z;
  he_expected_delay_millis : Z;
}.

Record Doomslug := mk_doomslug {
  approval_tracking : gmap Z DoomslugApprovalsTrackersAtHeight;
  largest_sent_target_height : Z;
  largest_final_height : Z;
  largest_threshold_approvals_height : Z;
  largest_approval_target_height : Z;
  tip_block_hash : CryptoHash;
  tip_height : Z;
  endorsement_pending : bool;
  timer : DoomslugTimer;
  ds_threshold_mode : DoomslugThresholdMode;
  history : list ApprovalHistoryEntry;
}.

(** The field updates the code makes. *)
Definition set_approval_tracking (d : Doomslug) x : Doomslug :=
  mk_doomslug x (largest_sent_target_height d) (largest_final_height d)
    (largest_threshold_approvals_height d) (largest_approval_target_height d)
    (tip_block_hash d) (tip_height d) (endorsement_pending d) (timer d) (ds_threshold_mode d) (history d).
Definition set_largest_sent (d : Doomslug) x : Doomslug :=
  mk_doomslug (approval_tracking d) x (largest_final_height d)
    (largest_threshold_approvals_height d) (largest_approval_target_height d)
    (tip_block_hash d) (tip_height d) (endorsement_pending d) (timer d) (ds_threshold_mode d) (history d).
Definition set_largest_seen (d : Doomslug) threshold target : Doomslug :=
  mk_doomslug (approval_tracking d) (largest_sent_target_height d) (largest_final_height d)
    threshold target (tip_block_hash d) (tip_height d) (endorsement_pending d) (timer d)
    (ds_threshold_mode d) (history d).
Definition set_timer (d : Doomslug) pending t : Doomslug :=
  mk_doomslug (approval_tracking d) (largest_sent_target_height d) (largest_final_height d)
    (largest_threshold_approvals_height d) (largest_approval_target_height d)
    (tip_block_hash d) (tip_height d) pending t (ds_threshold_mode d) (history d).
Definition set_history (d : Doomslug) x : Doomslug :=
  mk_doomslug (approval_tracking d) (largest_sent_target_height d) (largest_final_height d)
    (largest_threshold_approvals_height d) (largest_approval_target_height d)
    (tip_block_hash d) (tip_height d) (endorsement_pending d) (timer d) (ds_threshold_mode d) x.

(** [new], called at [now]. *)
Definition doomslug_new (now largest_sent_target_height endorsement_delay min_delay delay_step max_delay : Z)
    (threshold_mode : DoomslugThresholdMode) : Doomslug :=
  mk_doomslug ∅ largest_sent_target_height 0 0 0 hash_default 0 false
    (mk_timer now now 0 endorsement_delay min_delay delay_step max_delay) threshold_mode [].

(** [while self.history.len() >= MAX_HISTORY_SIZE { pop_front }]. *)
Fixpoint pop_while_full (l : list ApprovalHistoryEntry) : list ApprovalHistoryEntry :=
  match l with
  | [] => []
  | _ :: l' => if decide (MAX_HISTORY_SIZE ≤ length l)%nat then pop_while_full l' else l
  end.
Definition update_history (d : Doomslug) (entry : ApprovalHistoryEntry) : Doomslug :=
  set_history d (pop_while_full (history d) ++ [entry]).

Definition create_approval (d : Doomslug) (target_height : Z) : option ApprovalContent :=
  Some (content_new (tip_block_hash d) (tip_height d) target_height).

(** What the clocks show when a history entry is made: the wall clock and the
    monotonic one. *)
Record Clock := mk_clock { clk_utc : Z; clk_instant : Z }.
(** [elapsed().as_millis() as u64] *)
Definition elapsed_millis (c : Clock) (since : Z) : Z :=
  wrap 64 (saturating_sub (clk_instant c) since / 10 ^ 6).

(** The part of an iteration of [process_timer] that endorses the tip. *)
Definition timer_endorse (cur_time : Z) (clk : Clock) (d : Doomslug) : Doomslug * list ApprovalContent :=
  let t := timer d in
  if endorsement_pending d && bool_decide (t_last_endorsement_sent t + t_endorsement_delay t ≤ cur_time) then
    let '(d, ret) :=
      if decide (largest_sent_target_height d ≤ tip_height d) then
        let target := wrap 64 (tip_height d + 1) in
        let d := set_largest_sent d target in
        (update_history d
           (mk_history (tip_height d) target (clk_utc clk) (elapsed_millis clk (t_last_endorsement_sent t))
              (wrap 64 (t_endorsement_delay t / 10 ^ 6))),
         option_list (create_approval d target))
      else (d, []) in
    (set_timer d false
       (mk_timer (t_started t) cur_time (t_height t) (t_endorsement_delay t) (t_min_delay t)
          (t_delay_step t) (t_max_delay t)), ret)
  else (d, []).

(** The part that runs when no block came for [skip_delay]. *)
Definition timer_skip (skip_delay : Z) (clk : Clock) (d : Doomslug) : Doomslug * list ApprovalContent :=
  let t := timer d in
  let target := wrap 64 (t_height t + 1) in
  let d := set_largest_sent d (Z.max target (largest_sent_target_height d)) in
  let ret := option_list (create_approval d target) in
  let d := update_history d
    (mk_history (tip_height d) target (clk_utc clk) (elapsed_millis clk (t_started t))
       (wrap 64 (skip_delay / 10 ^ 6))) in
  (set_timer d (endorsement_pending d)
     (mk_timer (t_started t + skip_delay) (t_last_endorsement_sent t) target (t_endorsement_delay t)
        (t_min_delay t) (t_delay_step t) (t_max_delay t)), ret).

(** The loop; [clk i] is what the clocks show at the [i]-th history entry. *)
Fixpoint timer_loop {E} (iters : nat) (cur_time : Z) (clk : nat → Clock)
  : ST Doomslug E (list ApprovalContent) := λ d,
  match iters with
  | O => (d, Ok [])
  | S iters =>
      match get_delay (timer d) (saturating_sub (t_height (timer d)) (largest_final_height d)) with
      | Err e => (d, Err e)
      | Panic m => (d, Panic m)
      | Ok skip_delay =>
          let '(d, ret1) := timer_endorse cur_time (clk 0%nat) d in
          if decide (t_started (timer d) + skip_delay ≤ cur_time) then
            let '(d, ret2) := timer_skip skip_delay (clk 1%nat) d in
            let '(d, rest) := timer_loop iters cur_time (λ i, clk (2 + i)%nat) d in
            (d, let? rest := rest in Ok (ret1 ++ ret2 ++ rest))
          else (d, Ok ret1)
      end
  end.
Definition process_timer {E} (cur_time : Z) (clk : nat → Clock) : ST Doomslug E (list ApprovalContent) :=
  timer_loop MAX_TIMER_ITERS cur_time clk.

(** The approvals and stakes of a block, position by position. *)
Definition approved_stake (proj : Z * Z * bool → Z) (approvals : list (option bool))
    (stakes : list (Z * Z * bool)) : Z :=
  wrap 128 (foldr Z.add 0
    ((λ p : option bool * (Z * Z * bool), if p.1 then proj p.2 else 0) <$>
      List.filter (λ p, negb p.2.2) (zip approvals stakes))).

Definition can_approved_block_be_produced (mode : DoomslugThresholdMode) (approvals : list (option bool))
    (stakes : list (Z * Z * bool)) : bool :=
  if decide (mode = NoApprovals) then true
  else
    let threshold1 := wrap 128 (wrap 128 (foldr Z.add 0 ((λ s, s.1.1) <$> stakes)) * 2) / 3 in
    let threshold2 := wrap 128 (wrap 128 (foldr Z.add 0 ((λ s, s.1.2) <$> stakes)) * 2) / 3 in
    let approved_stake1 := approved_stake (λ s, s.1.1) approvals stakes in
    let approved_stake2 := approved_stake (λ s, s.1.2) approvals stakes in
    (bool_decide (approved_stake1 > threshold1) || bool_decide (threshold1 = 0))
    && (bool_decide (approved_stake2 > threshold2) || bool_decide (threshold2 = 0)).

Definition get_witness (d : Doomslug) (prev_hash : CryptoHash) (parent_height target_height : Z)
  : gmap Address (ApprovalValidated * Z) :=
  let hash_or_height := inner_new prev_hash parent_height target_height in
  match approval_tracking d !! target_height with
  | Some t => match approval_trackers t !! hash_or_height with None => ∅ | Some tr => witness tr end
  | None => ∅
  end.

Definition on_block (now : Z) (block_hash : CryptoHash) (height last_final_height : Z) (d : Doomslug) : Doomslug :=
  let t := timer d in
  mk_doomslug
    (filter (λ p : Z * _, p.1 > saturating_sub height MAX_HEIGHTS_BEFORE_TO_STORE_APPROVALS
       ∧ p.1 ≤ wrap 64 (height + MAX_HEIGHTS_AHEAD_TO_STORE_APPROVALS)) (approval_tracking d))
    (largest_sent_target_height d) last_final_height
    (largest_threshold_approvals_height d) (largest_approval_target_height d)
    block_hash height true
    (mk_timer now (t_last_endorsement_sent t) (wrap 64 (height + 1)) (t_endorsement_delay t)
       (t_min_delay t) (t_delay_step t) (t_max_delay t))
    (ds_threshold_mode d) (history d).

Definition on_approval_internal {E} (now utc : Z) (approval : ApprovalValidated)
    (stakes : list (ApprovalStake * bool)) : ST Doomslug E DoomslugBlockProductionReadiness := λ d,
  let h := ac_target_height (av_content approval) in
  let t := default trackers_new (approval_tracking d !! h) in
  let '(t, r) := trackers_process_approval now utc approval stakes (ds_threshold_mode d) t in
  let d := set_approval_tracking d (<[h := t]> (approval_tracking d)) in
  match r with
  | Ok ready =>
      let target := if decide (h > largest_approval_target_height d) then h else largest_approval_target_height d in
      let threshold :=
        if decide (ready ≠ NotReady ∧ h > largest_threshold_approvals_height d) then h
        else largest_threshold_approvals_height d in
      (set_largest_seen d threshold target, Ok ready)
  | Err e => (d, Err e)
  | Panic m => (d, Panic m)
  end.

Definition on_approval {E} (now utc : Z) (approval : ApprovalValidated)
    (stakes : list (ApprovalStake * bool)) : ST Doomslug E unit := λ d,
  let h := ac_target_height (av_content approval) in
  if decide (h < tip_height d ∨ h > wrap 64 (tip_height d + MAX_HEIGHTS_AHEAD_TO_STORE_APPROVALS))
  then (d, Ok tt)
  else (let! _ := on_approval_internal now utc approval stakes in st_ret tt) d.

Definition approval_status_at_height (d : Doomslug) (height now utc : Z) : ApprovalAtHeightStatus :=
  match approval_tracking d !! height with
  | Some t => trackers_status t now utc
  | None => mk_status ∅ None
  end.

Definition ready_to_produce_block {E} (now target_height : Z) (has_enough_chunks : bool)
  : ST Doomslug E bool := λ d,
  let hash_or_height := inner_new (tip_block_hash d) (tip_height d) target_height in
  match approval_tracking d !! target_height with
  | None => (d, Ok false)
  | Some t =>
      match approval_trackers t !! hash_or_height with
      | None => (d, Ok false)
      | Some tr =>
          let '(tr, readiness) := get_block_production_readiness tr now in
          let d := set_approval_tracking d
            (<[target_height := mk_trackers (<[hash_or_height := tr]> (approval_trackers t))
                 (last_approval_per_account t)]> (approval_tracking d)) in
          match readiness with
          | NotReady => (d, Ok false)
          | ReadySince when =>
              if has_enough_chunks then (d, Ok true)
              else
                (d, let? delay := get_delay (timer d)
                        (saturating_sub (t_height (timer d)) (largest_final_height d)) in
                    Ok (bool_decide (now > when + delay / 6)))
          end
      end
  end.
