(* ===== verification/DoomslugSpec.v ===== *)
(** Invariants of the Doomslug state: what every operation of Doomslug.v keeps. *)
From S2P Require Import Prelude Element Crypto Doomslug.

(** Summing the stakes of the members of [W], or, over all stakes, those whose
    owner is in [W]. *)
Lemma map_sum_restrict {K A B} `{Countable K} (g : B → Z) (d : B) (W : gmap K A) (m : gmap K B) :
  g d = 0 →
  map_sum (λ k _, g (default d (m !! k))) W = map_sum (λ k s, if W !! k then g s else 0) m.
Proof.
  intros Hd. induction W as [|k a W Hk IH] using map_ind.
  - rewrite map_sum_empty. symmetry. transitivity (map_sum (λ _ (_ : B), 0) m).
    + apply map_sum_ext. intros ???. by rewrite lookup_empty.
    + clear. induction m as [|k a m Hk IH] using map_ind; [done|]. by rewrite map_sum_insert.
  - rewrite map_sum_insert, IH by done. destruct (m !! k) as [s|] eqn:Hm; simpl.
    + rewrite (map_sum_delete _ m k s), (map_sum_delete (λ k0 _, _) m k s) by done.
      rewrite Hk, lookup_insert_eq. rewrite Z.add_0_l. f_equal. apply map_sum_ext.
      intros k' s' Hk'. destruct (decide (k' = k)) as [->|]; [by rewrite lookup_delete_eq in Hk'|].
      by rewrite lookup_insert_ne.
    + rewrite Hd. apply map_sum_ext. intros k' s' Hk'.
      destruct (decide (k' = k)) as [->|]; [congruence|]. by rewrite lookup_insert_ne.
Qed.

(** * One tracker *)

(** Stakes whose totals can be doubled within 128 bits. *)
Record small_stakes (m : gmap Address (Z * Z)) : Prop := {
  stakes_nonneg a s : m !! a = Some s → 0 ≤ s.1 ∧ 0 ≤ s.2;
  stakes_this : map_sum (λ _ s, s.1) m < 2 ^ 127;
  stakes_next : map_sum (λ _ s, s.2) m < 2 ^ 127;
}.

Definition witness_sum (g : Z * Z → Z) (tr : DoomslugApprovalsTracker) : Z :=
  map_sum (λ a _, g (stakes_of (account_id_to_stakes tr) a)) (witness tr).

Record tracker_ok (mode : DoomslugThresholdMode) (tr : DoomslugApprovalsTracker) : Prop := {
  tk_small : small_stakes (account_id_to_stakes tr);
  tk_mode : tk_threshold_mode tr = mode;
  tk_total_this : total_stake_this_epoch tr = map_sum (λ _ s, s.1) (account_id_to_stakes tr);
  tk_total_next : total_stake_next_epoch tr = map_sum (λ _ s, s.2) (account_id_to_stakes tr);
  tk_approved_this : approved_stake_this_epoch tr = witness_sum fst tr;
  tk_approved_next : approved_stake_next_epoch tr = witness_sum snd tr;
  tk_keys a w : witness tr !! a = Some w → av_validator w.1 = a;
}.

(** The stakes of any set of accounts are between 0 and the total. *)
Lemma members_bounds {A : Type} (g : Z * Z → Z) (m : gmap Address (Z * Z)) (W : gmap Address A) :
  g (0, 0) = 0 → (∀ a s, m !! a = Some s → 0 ≤ g s) →
  0 ≤ map_sum (λ a _, g (stakes_of m a)) W ≤ map_sum (λ _ s, g s) m.
Proof.
  intros Hz Hg. unfold stakes_of. rewrite (map_sum_restrict g (0, 0)) by done. split.
  - apply map_sum_nonneg. intros a s Hs. destruct (W !! a); [by eapply Hg|done].
  - apply map_sum_le. intros a s Hs. destruct (W !! a); [done|by eapply Hg].
Qed.

Section small.
Context (m : gmap Address (Z * Z)) (Hm : small_stakes m).

Lemma members_small {A : Type} (g : Z * Z → Z) (W : gmap Address A) :
  g = fst ∨ g = snd → 0 ≤ map_sum (λ a _, g (stakes_of m a)) W < 2 ^ 127.
Proof.
  intros Hg. destruct Hm as [Hn H1 H2].
  destruct (members_bounds g m W) as [Hl Hu]; [by destruct Hg as [->| ->]|..|].
  - intros a s Hs. destruct (Hn a s Hs). by destruct Hg as [->| ->].
  - destruct Hg as [->| ->]; lia.
Qed.
Lemma total_small g : g = fst ∨ g = snd → 0 ≤ map_sum (λ _ (s : Z * Z), g s) m < 2 ^ 127.
Proof.
  intros Hg. destruct Hm as [Hn H1 H2]. split; [|by destruct Hg as [->| ->]].
  apply map_sum_nonneg. intros a s Hs. destruct (Hn a s Hs). by destruct Hg as [->| ->].
Qed.
End small.

Lemma width_127 x : 0 ≤ x < 2 ^ 127 → wrap 128 x = x.
Proof. intros ?. apply wrap_small. unfold in_width. lia. Qed.

Lemma tracker_new_ok mode m : small_stakes m → tracker_ok mode (tracker_new m mode).
Proof.
  intros Hm. unfold tracker_new. split; cbn; try done.
  - apply width_127. by apply (total_small m Hm fst); left.
  - apply width_127. by apply (total_small m Hm snd); right.
Qed.

Lemma readiness_ok mode tr now : tracker_ok mode tr → tracker_ok mode (get_block_production_readiness tr now).1.
Proof. intros Ht. unfold get_block_production_readiness. destruct (enough_stake tr); [|done]. by destruct Ht; split. Qed.
Lemma readiness_witness tr now : witness (get_block_production_readiness tr now).1 = witness tr.
Proof. unfold get_block_production_readiness. by destruct (enough_stake tr). Qed.
Lemma readiness_stakes tr now :
  account_id_to_stakes (get_block_production_readiness tr now).1 = account_id_to_stakes tr.
Proof. unfold get_block_production_readiness. by destruct (enough_stake tr). Qed.

Lemma tracker_process_ok mode tr now utc ap :
  tracker_ok mode tr → tracker_ok mode (tracker_process_approval tr now utc ap).1.
Proof.
  intros Ht. unfold tracker_process_approval. apply readiness_ok.
  destruct (witness tr !! av_validator ap) as [w|] eqn:Hw; [done|].
  destruct Ht as [Hs Hm Htt Htn Hat Han Hk]. split; cbn; try done.
  - rewrite Hat. unfold witness_sum. cbn. rewrite map_sum_insert, Z.add_comm by done.
    pose proof (members_small _ Hs fst (<[av_validator ap := (ap, utc)]> (witness tr)) (or_introl eq_refl)) as Hb.
    rewrite map_sum_insert in Hb by done. by apply width_127.
  - rewrite Han. unfold witness_sum. cbn. rewrite map_sum_insert, Z.add_comm by done.
    pose proof (members_small _ Hs snd (<[av_validator ap := (ap, utc)]> (witness tr)) (or_intror eq_refl)) as Hb.
    rewrite map_sum_insert in Hb by done. by apply width_127.
  - intros a w [[<- <-]|[? Ha]]%lookup_insert_Some; [done|by apply Hk].
Qed.
Lemma tracker_process_witness tr now utc ap :
  witness tr !! av_validator ap = None →
  witness (tracker_process_approval tr now utc ap).1 = <[av_validator ap := (ap, utc)]> (witness tr).
Proof. intros Hw. unfold tracker_process_approval. rewrite readiness_witness. by rewrite Hw. Qed.
Lemma tracker_process_stakes tr now utc ap :
  account_id_to_stakes (tracker_process_approval tr now utc ap).1 = account_id_to_stakes tr.
Proof. unfold tracker_process_approval. rewrite readiness_stakes. by destruct (witness tr !! _). Qed.

Lemma withdraw_witness tr v : witness (withdraw_approval tr v) = delete v (witness tr).
Proof.
  unfold withdraw_approval. destruct (witness tr !! v) as [[w u]|] eqn:Hw; [done|].
  by rewrite delete_id.
Qed.
Lemma withdraw_stakes tr v : account_id_to_stakes (withdraw_approval tr v) = account_id_to_stakes tr.
Proof. unfold withdraw_approval. by destruct (witness tr !! v) as [[]|]. Qed.
Lemma withdraw_ok mode tr v : tracker_ok mode tr → tracker_ok mode (withdraw_approval tr v).
Proof.
  intros Ht. unfold withdraw_approval. destruct (witness tr !! v) as [[w u]|] eqn:Hw; [|done].
  destruct Ht as [Hs Hm Htt Htn Hat Han Hk]. pose proof (Hk _ _ Hw) as Hv. cbn in Hv. rewrite Hv.
  split; cbn; try done.
  - rewrite Hat. unfold witness_sum. cbn. rewrite (map_sum_delete _ _ _ _ Hw).
    rewrite Z.add_simpl_l. apply width_127. by apply (members_small _ Hs fst); left.
  - rewrite Han. unfold witness_sum. cbn. rewrite (map_sum_delete _ _ _ _ Hw).
    rewrite Z.add_simpl_l. apply width_127. by apply (members_small _ Hs snd); right.
  - intros a w' [? Ha]%lookup_delete_Some. by apply Hk.
Qed.

(** * The trackers of one height *)

Notation stake_list := (list (ApprovalStake * bool)).
Notation approval_log := (list (ApprovalValidated * stake_list)).

(** The approvals given to [on_approval] are in [log]: every tracker counts with
    stakes that came with one of them, and every witness is one of them, filed
    under its height, its kind and its validator, and the last of its account. *)
Record tracker_from (log : approval_log) (h : Z) (X : ApprovalInner) (tr : DoomslugApprovalsTracker) : Prop := {
  tf_stakes : ∃ ap stakes, (ap, stakes) ∈ log ∧ ac_target_height (av_content ap) = h ∧
    account_id_to_stakes tr = active_stakes stakes;
  tf_witness a w : witness tr !! a = Some w →
    av_content w.1 = mk_content X h ∧ ∃ stakes, (w.1, stakes) ∈ log;
}.

Record trackers_ok (mode : DoomslugThresholdMode) (log : approval_log) (h : Z)
    (t : DoomslugApprovalsTrackersAtHeight) : Prop := {
  ts_tracker X tr : approval_trackers t !! X = Some tr → tracker_ok mode tr;
  ts_from X tr : approval_trackers t !! X = Some tr → tracker_from log h X tr;
  ts_last X tr a w : approval_trackers t !! X = Some tr → witness tr !! a = Some w →
    last_approval_per_account t !! a = Some X;
}.

(** The approval of account [a] that is kept. *)
Definition recorded (t : DoomslugApprovalsTrackersAtHeight) (a : Address) : option (ApprovalValidated * Z) :=
  last_approval_per_account t !! a ≫= λ X, approval_trackers t !! X ≫= λ tr, witness tr !! a.

Lemma recorded_witness mode log h t X tr a w :
  trackers_ok mode log h t → approval_trackers t !! X = Some tr → witness tr !! a = Some w →
  recorded t a = Some w.
Proof. intros Ht HX Hw. unfold recorded. rewrite (ts_last _ _ _ _ Ht _ _ _ _ HX Hw). cbn. by rewrite HX. Qed.

(** Conversely what is recorded is a witness of the tracker of its kind. *)
Lemma recorded_inv mode log h t a w :
  trackers_ok mode log h t → recorded t a = Some w →
  ∃ tr, approval_trackers t !! ac_inner (av_content w.1) = Some tr ∧ witness tr !! a = Some w.
Proof.
  intros Ht (X & HX & (tr & Htr & Hw)%bind_Some)%bind_Some. exists tr.
  by destruct (tf_witness _ _ _ _ (ts_from _ _ _ _ Ht _ _ Htr) _ _ Hw) as [-> _].
Qed.

Lemma trackers_new_ok mode log h : trackers_ok mode log h trackers_new.
Proof. by split; intros ? ?; cbn; rewrite lookup_empty. Qed.

Lemma tracker_from_mono log log' h X tr : log ⊆ log' → tracker_from log h X tr → tracker_from log' h X tr.
Proof. intros Hl [Hs Hw]. split; [naive_solver|]. intros a w Ha. destruct (Hw a w Ha). naive_solver. Qed.
Lemma trackers_ok_mono mode log log' h t : log ⊆ log' → trackers_ok mode log h t → trackers_ok mode log' h t.
Proof. intros Hl [Ht Hf Hla]. split; eauto using tracker_from_mono. Qed.

(** Withdrawing leaves no witness of the account and nothing else changes. *)
Lemma withdraw_last_lookup mode log h t v X tr :
  trackers_ok mode log h t → approval_trackers (withdraw_last t v) !! X = Some tr →
  ∃ tr0, approval_trackers t !! X = Some tr0 ∧ witness tr = delete v (witness tr0) ∧
    account_id_to_stakes tr = account_id_to_stakes tr0 ∧ tracker_ok mode tr.
Proof.
  intros Ht. unfold withdraw_last.
  assert (∀ tr0, approval_trackers t !! X = Some tr0 → last_approval_per_account t !! v ≠ Some X →
    witness tr0 = delete v (witness tr0)) as Hne.
  { intros tr0 Htr Hv. symmetry. apply delete_id. apply eq_None_not_Some. intros [w Hw].
    apply Hv. by eapply (ts_last _ _ _ _ Ht). }
  destruct (last_approval_per_account t !! v) as [Y|] eqn:HY.
  2: { intros HX. exists tr. split_and!; eauto using ts_tracker. }
  destruct (approval_trackers t !! Y) as [y|] eqn:Hy.
  2: { intros HX. exists tr. split_and!; [done|apply Hne; congruence|done|by eapply ts_tracker]. }
  cbn. case_decide as Hemp.
  - intros [HXY HX]%lookup_delete_Some. exists tr. split_and!; [done|apply Hne; congruence|done|by eapply ts_tracker].
  - intros [[<- <-]|[HXY HX]]%lookup_insert_Some.
    + exists y. split_and!; [done|apply withdraw_witness|apply withdraw_stakes|].
      apply withdraw_ok. by eapply ts_tracker.
    + exists tr. split_and!; [done|apply Hne; congruence|done|by eapply ts_tracker].
Qed.

Lemma withdraw_last_last t v : last_approval_per_account (withdraw_last t v) = last_approval_per_account t.
Proof. unfold withdraw_last. by repeat case_match. Qed.

Lemma withdraw_last_ok mode log h t v : trackers_ok mode log h t → trackers_ok mode log h (withdraw_last t v).
Proof.
  intros Ht. split.
  - intros X tr HX. by destruct (withdraw_last_lookup _ _ _ _ _ _ _ Ht HX) as (? & _ & _ & _ & ?).
  - intros X tr HX. destruct (withdraw_last_lookup _ _ _ _ _ _ _ Ht HX) as (tr0 & H0 & Hw & Hs & _).
    destruct (ts_from _ _ _ _ Ht _ _ H0) as [Hfs Hfw]. split; [by rewrite Hs|].
    intros a w. rewrite Hw. intros [_ ?]%lookup_delete_Some. by eapply Hfw.
  - intros X tr a w HX. destruct (withdraw_last_lookup _ _ _ _ _ _ _ Ht HX) as (tr0 & H0 & Hw & _ & _).
    rewrite Hw, withdraw_last_last. intros [_ ?]%lookup_delete_Some. by eapply ts_last.
Qed.

Lemma withdraw_last_other mode log h t v a : trackers_ok mode log h t → a ≠ v →
  recorded (withdraw_last t v) a = recorded t a.
Proof.
  intros Ht Hav. unfold recorded. rewrite withdraw_last_last.
  destruct (last_approval_per_account t !! a) as [X|] eqn:HX; [|done]. cbn. unfold withdraw_last.
  destruct (last_approval_per_account t !! v) as [Y|] eqn:HY; [|done].
  destruct (approval_trackers t !! Y) as [y|] eqn:Hy; [|done]. cbn.
  destruct (decide (X = Y)) as [->|Hne].
  - rewrite Hy. cbn. assert (witness y !! a = delete v (witness y) !! a) as -> by (by rewrite lookup_delete_ne).
    rewrite <-withdraw_witness. case_decide as Hemp.
    + rewrite lookup_delete_eq, Hemp. cbn. by rewrite lookup_empty.
    + by rewrite lookup_insert_eq.
  - case_decide; [by rewrite lookup_delete_ne|by rewrite lookup_insert_ne].
Qed.

Lemma withdraw_last_self mode log h t v : trackers_ok mode log h t → recorded (withdraw_last t v) v = None.
Proof.
  intros Ht. destruct (recorded (withdraw_last t v) v) as [w|] eqn:Hr; [|done].
  destruct (recorded_inv _ _ _ _ _ _ (withdraw_last_ok _ _ _ _ v Ht) Hr) as (tr & HX & Hw).
  destruct (withdraw_last_lookup _ _ _ _ _ _ _ Ht HX) as (tr0 & _ & Hd & _).
  by rewrite Hd, lookup_delete_eq in Hw.
Qed.

(** Filing an approval of an account without a witness. *)
Section file.
Context (mode : DoomslugThresholdMode) (log : approval_log) (h : Z) (t : DoomslugApprovalsTrackersAtHeight).
Context (Ht : trackers_ok mode log h t) (now utc : Z) (ap : ApprovalValidated) (stakes : stake_list).
Context (Hh : ac_target_height (av_content ap) = h) (Hlog : (ap, stakes) ∈ log).
Context (Hsm : small_stakes (active_stakes stakes)).
Context (Hnone : ∀ X tr, approval_trackers t !! X = Some tr → witness tr !! av_validator ap = None).

Let X := ac_inner (av_content ap).
Let tr0 := default (tracker_new (active_stakes stakes) mode) (approval_trackers t !! X).
Let tr1 := (tracker_process_approval tr0 now utc ap).1.
Let t1 := mk_trackers (<[X := tr1]> (approval_trackers t)) (<[av_validator ap := X]> (last_approval_per_account t)).

Lemma file_tr0 : tracker_ok mode tr0 ∧ tracker_from log h X tr0 ∧ witness tr0 !! av_validator ap = None.
Proof.
  unfold tr0. destruct (approval_trackers t !! X) as [tr|] eqn:HX; cbn [default from_option id].
  - split_and!; [by eapply ts_tracker|by eapply ts_from|by eapply Hnone].
  - split_and!; [by apply tracker_new_ok|..|apply lookup_empty]. split; [|by intros ??; cbn; rewrite lookup_empty].
    by exists ap, stakes.
Qed.

Lemma file_witness : witness tr1 = <[av_validator ap := (ap, utc)]> (witness tr0).
Proof. destruct file_tr0 as (_ & _ & Hw). by apply tracker_process_witness. Qed.

Lemma file_ok : trackers_ok mode log h t1.
Proof.
  destruct file_tr0 as (H0 & [Hfs Hfw] & Hw). unfold t1. split; cbn.
  - intros Y tr [[<- <-]|[? HY]]%lookup_insert_Some; [by apply tracker_process_ok|by eapply ts_tracker].
  - intros Y tr [[<- <-]|[? HY]]%lookup_insert_Some; [|by eapply ts_from]. split.
    + unfold tr1. by rewrite tracker_process_stakes.
    + intros a w. rewrite file_witness. intros [[<- <-]|[? ?]]%lookup_insert_Some; [|by eapply Hfw].
      split; [|naive_solver]. cbn. subst h. by destruct (av_content ap).
  - intros Y tr a w [[<- <-]|[? HY]]%lookup_insert_Some.
    + rewrite file_witness. intros [[<- <-]|[Hav Ha]]%lookup_insert_Some; [by rewrite lookup_insert_eq|].
      rewrite lookup_insert_ne by done. unfold tr0 in Ha. destruct (approval_trackers t !! X) as [tr|] eqn:HX.
      * by eapply (ts_last _ _ _ _ Ht).
      * cbn in Ha. by rewrite lookup_empty in Ha.
    + intros Ha. destruct (decide (a = av_validator ap)) as [->|].
      * by rewrite (Hnone _ _ HY) in Ha.
      * rewrite lookup_insert_ne by done. by eapply (ts_last _ _ _ _ Ht).
Qed.

Lemma file_recorded a :
  recorded t1 a = if decide (a = av_validator ap) then Some (ap, utc) else recorded t a.
Proof.
  case_decide as Ha; unfold recorded, t1; cbn; [subst a; rewrite lookup_insert_eq; cbn|].
  - rewrite lookup_insert_eq. cbn. by rewrite file_witness, lookup_insert_eq.
  - rewrite lookup_insert_ne by done. destruct (last_approval_per_account t !! a) as [Y|]; [|done]. cbn.
    destruct (decide (Y = X)) as [->|]; [|by rewrite lookup_insert_ne].
    rewrite lookup_insert_eq. cbn. rewrite file_witness, lookup_insert_ne by done. unfold tr0.
    destruct (approval_trackers t !! X); [done|]. cbn. by rewrite lookup_empty.
Qed.
End file.

(** [process_approval] at one height: the account's approval is replaced, or
    dropped when the account has no stake; the others stay. *)
Lemma trackers_process_ok {E} mode log h t now utc ap stakes :
  trackers_ok mode log h t → ac_target_height (av_content ap) = h → (ap, stakes) ∈ log →
  small_stakes (active_stakes stakes) → size (active_stakes stakes) = length stakes →
  returns (trackers_process_approval (E := E) now utc ap stakes mode) t (λ _ t',
    trackers_ok mode log h t' ∧
    ∀ a, recorded t' a =
      if decide (a = av_validator ap)
      then (if active_stakes stakes !! av_validator ap then Some (ap, utc) else None)
      else recorded t a).
Proof.
  intros Ht Hh Hlog Hsm Hsz. unfold returns, trackers_process_approval.
  pose proof (withdraw_last_ok _ _ _ _ (av_validator ap) Ht) as Hw. rewrite decide_False by (rewrite Hsz; tauto).
  case_decide as Hst.
  - do 2 eexists. split; [done|]. split; [done|]. intros a. rewrite Hst.
    case_decide as Ha; [subst a; by eapply withdraw_last_self|by eapply withdraw_last_other].
  - assert (∀ X tr, approval_trackers (withdraw_last t (av_validator ap)) !! X = Some tr →
      witness tr !! av_validator ap = None) as Hnone.
    { intros X tr HX. destruct (withdraw_last_lookup _ _ _ _ _ _ _ Ht HX) as (? & _ & -> & _).
      apply lookup_delete_eq. }
    pose proof (file_ok _ _ _ _ Hw now utc ap stakes Hh Hlog Hsm Hnone) as Hok.
    pose proof (file_recorded _ _ _ _ Hw now utc ap stakes Hh Hlog Hsm Hnone) as Hrec.
    destruct (tracker_process_approval _ _ _ _) as [tr ready]. cbn in Hok, Hrec.
    do 2 eexists. split; [done|]. split; [done|]. intros a. rewrite Hrec.
    destruct (active_stakes stakes !! av_validator ap); [|done].
    case_decide; [done|by eapply withdraw_last_other].
Qed.

(** When an entry is slashed, or two entries name one validator, the assertion fails. *)
Lemma trackers_process_panics {E} mode t now utc ap stakes :
  size (active_stakes stakes) ≠ length stakes →
  (trackers_process_approval (E := E) now utc ap stakes mode t).2 = Panic "assertion `left == right` failed".
Proof. intros Hsz. unfold trackers_process_approval. by rewrite decide_True. Qed.

(** The stakes that pass the assertion: none slashed, validators distinct. *)
Lemma active_stakes_spec stakes :
  size (active_stakes stakes) = length stakes ↔
  NoDup (as_validator ∘ fst <$> stakes) ∧ Forall (λ p, p.2 = false) stakes.
Proof.
  unfold active_stakes. induction stakes as [|[s b] l IH] using rev_ind; [split; [by split; constructor|done]|].
  rewrite foldl_snoc, fmap_app, length_app, Forall_app, Forall_singleton, NoDup_app. cbn.
  set (m := foldl _ _ l) in *.
  assert (dom m ⊆ list_to_set (as_validator ∘ fst <$> l) ∧ (Forall (λ p, p.2 = false) l →
    list_to_set (as_validator ∘ fst <$> l) ⊆ dom m)) as [Hd1 Hd2].
  { unfold m. clear. induction l as [|[s b] l [IH1 IH2]] using rev_ind; [set_solver|].
    rewrite foldl_snoc, fmap_app, list_to_set_app_L, Forall_app, Forall_singleton. destruct b; cbn; set_solver. }
  assert (size m ≤ length l)%nat as Hle.
  { unfold m. clear. induction l as [|[s b] l IH] using rev_ind; [done|].
    rewrite foldl_snoc, length_app. destruct b; cbn; [lia|]. rewrite map_size_insert. case_match; cbn; lia. }
  destruct b; cbn.
  - split; [lia|naive_solver].
  - rewrite map_size_insert. destruct (m !! as_validator s) eqn:Hs; cbn.
    + split; [lia|]. intros ((Hnd & Hn & _) & Hf & _). exfalso.
      apply elem_of_dom_2, Hd1, elem_of_list_to_set in Hs. apply (Hn (as_validator s)); [done|by left].
    + rewrite Nat.add_1_r. split.
      * intros Hsz. destruct IH as [IH _]. destruct IH as [Hnd Hf]; [lia|]. split_and!; [done| |..|done|done].
        -- intros x Hx ->%list_elem_of_singleton. apply not_elem_of_dom in Hs. apply Hs, (Hd2 Hf).
           by apply elem_of_list_to_set.
        -- apply NoDup_singleton.
      * intros ((Hnd & _ & _) & Hf & _). f_equal. tauto.
Qed.
