(* ===== verification/DoomslugProps.v ===== *)
(** The runs of a Doomslug instance and what holds in all of them: approvals are
    kept one per height and account, blocks need two thirds of the stake,
    endorsements are never sent below an earlier approval, memory is bounded and
    silence leads to skips. *)
From S2P Require Import Prelude Element Crypto Doomslug DoomslugSpec.

(** * Runs *)

(** An instance with what was given to it and what it has sent so far. *)
Record ds_run := mk_run {
  run_ds : Doomslug;
  run_log : approval_log;
  run_sent : list ApprovalContent;
}.

(** Calls that return: blocks and approvals of any 64-bit heights below 2^63,
    stakes whose totals are below 2^127. *)
Inductive ds_step : ds_run → ds_run → Prop :=
| step_block d log sent now block_hash height last_final :
    0 ≤ height < 2 ^ 63 →
    ds_step (mk_run d log sent) (mk_run (on_block now block_hash height last_final d) log sent)
| step_approval d d' log sent now utc ap stakes :
    0 ≤ ac_target_height (av_content ap) → small_stakes (active_stakes stakes) →
    on_approval (E := Empty_set) now utc ap stakes d = (d', Ok tt) →
    ds_step (mk_run d log sent) (mk_run d' ((ap, stakes) :: log) sent)
| step_timer d d' log sent cur_time clk ret :
    t_height (timer d) < 2 ^ 63 →
    process_timer (E := Empty_set) cur_time clk d = (d', Ok ret) →
    ds_step (mk_run d log sent) (mk_run d' log (sent ++ ret))
| step_ready d d' log sent now target chunks b :
    ready_to_produce_block (E := Empty_set) now target chunks d = (d', Ok b) →
    ds_step (mk_run d log sent) (mk_run d' log sent).

Definition ds_reach (mode : DoomslugThresholdMode) (r : ds_run) : Prop :=
  ∃ now largest e mi st ma,
    rtc ds_step (mk_run (doomslug_new now largest e mi st ma mode) [] []) r.

(** * The approvals that are kept *)

(** [d] tracks the approvals of [log] in a window around its tip. *)
Record tracking_inv (mode : DoomslugThresholdMode) (log : approval_log) (d : Doomslug) : Prop := {
  ti_mode : ds_threshold_mode d = mode;
  ti_tip : 0 ≤ tip_height d < 2 ^ 63;
  ti_window h t : approval_tracking d !! h = Some t → 0 ≤ h ∧ tip_height d - 20 < h ≤ tip_height d + 10000;
  ti_trackers h t : approval_tracking d !! h = Some t → trackers_ok mode log h t;
}.

(** Two states that differ at most outside the approvals. *)
Definition same_tracking (d d' : Doomslug) : Prop :=
  approval_tracking d' = approval_tracking d ∧ tip_height d' = tip_height d ∧
  tip_block_hash d' = tip_block_hash d ∧ ds_threshold_mode d' = ds_threshold_mode d.
#[export] Instance same_tracking_preorder : PreOrder same_tracking.
Proof. unfold same_tracking. split; [done|]. intros ???. naive_solver congruence. Qed.

Lemma tracking_frame mode log d d' : same_tracking d d' → tracking_inv mode log d → tracking_inv mode log d'.
Proof. intros (Ht & Hh & _ & Hm) [? ? ? ?]. split; rewrite ?Ht, ?Hh, ?Hm; done. Qed.

Lemma tracking_block mode log d now bh height lf :
  0 ≤ height < 2 ^ 63 → tracking_inv mode log d → tracking_inv mode log (on_block now bh height lf d).
Proof.
  intros Hh [Hm Ht Hw Hk]. unfold on_block. split; cbn [ds_threshold_mode tip_height approval_tracking]; try done.
  - intros h t [Hl [H1 H2]]%map_lookup_filter_Some. destruct (Hw _ _ Hl). cbn in H1, H2.
    unfold MAX_HEIGHTS_AHEAD_TO_STORE_APPROVALS in H2. rewrite wrap_small in H2 by (unfold in_width; lia).
    unfold saturating_sub, MAX_HEIGHTS_BEFORE_TO_STORE_APPROVALS in H1. lia.
  - intros h t [Hl _]%map_lookup_filter_Some. by apply Hk.
Qed.

(** The approval of [a] for [h] that an instance keeps. *)
Definition ds_recorded (d : Doomslug) (h : Z) (a : Address) : option (ApprovalValidated * Z) :=
  approval_tracking d !! h ≫= λ t, recorded t a.

Definition in_window (d : Doomslug) (h : Z) : Prop := tip_height d ≤ h ≤ tip_height d + 10000.
#[export] Instance in_window_dec d h : Decision (in_window d h).
Proof. unfold in_window. apply _. Defined.

(** What [on_approval] does to the approvals, when the stakes pass the assertion. *)
Definition filed (d : Doomslug) (ap : ApprovalValidated) (stakes : stake_list) (utc h : Z) (a : Address)
  : option (ApprovalValidated * Z) :=
  if decide (in_window d (ac_target_height (av_content ap)) ∧
             h = ac_target_height (av_content ap) ∧ a = av_validator ap)
  then (if active_stakes stakes !! a then Some (ap, utc) else None)
  else ds_recorded d h a.

Lemma on_approval_outside {E} d now utc ap stakes :
  0 ≤ tip_height d < 2 ^ 63 → ¬ in_window d (ac_target_height (av_content ap)) →
  on_approval (E := E) now utc ap stakes d = (d, Ok tt).
Proof.
  unfold in_window, on_approval, MAX_HEIGHTS_AHEAD_TO_STORE_APPROVALS. intros Ht Hn.
  rewrite wrap_small by (unfold in_width; lia). rewrite decide_True by lia. done.
Qed.

Lemma on_approval_inside {E} mode log d now utc ap stakes :
  tracking_inv mode log d → in_window d (ac_target_height (av_content ap)) →
  small_stakes (active_stakes stakes) → size (active_stakes stakes) = length stakes →
  returns (on_approval (E := E) now utc ap stakes) d (λ _ d',
    tracking_inv mode ((ap, stakes) :: log) d' ∧ timer d' = timer d ∧
    largest_sent_target_height d' = largest_sent_target_height d ∧ endorsement_pending d' = endorsement_pending d ∧
    tip_height d' = tip_height d ∧ history d' = history d ∧
    ∀ h a, ds_recorded d' h a = filed d ap stakes utc h a).
Proof.
  intros Hi Hw Hsm Hsz. unfold returns, on_approval, MAX_HEIGHTS_AHEAD_TO_STORE_APPROVALS.
  destruct Hi as [Hm Ht Hwin Hk]. unfold in_window in Hw.
  rewrite wrap_small by (unfold in_width; lia). rewrite decide_False by lia.
  set (hh := ac_target_height (av_content ap)) in *. unfold st_bind, st_ret, on_approval_internal. fold hh.
  assert (trackers_ok mode ((ap, stakes) :: log) hh (default trackers_new (approval_tracking d !! hh))) as Hok.
  { destruct (approval_tracking d !! hh) as [t|] eqn:Hl; [|apply trackers_new_ok]. cbn.
    apply (trackers_ok_mono _ log); [set_solver|by apply Hk]. }
  edestruct (trackers_process_ok (E := E) mode ((ap, stakes) :: log) hh _ now utc ap stakes Hok)
    as (t' & ready & Hrun & Hok' & Hrec); [done|by left|done|done|].
  rewrite Hm, Hrun. do 2 eexists. split; [done|]. split_and!; try done.
  - split; cbn [set_largest_seen set_approval_tracking approval_tracking ds_threshold_mode tip_height]; try done.
    + intros h t [[<- <-]|[? Hl]]%lookup_insert_Some; [lia|by eapply Hwin].
    + intros h t [[<- <-]|[? Hl]]%lookup_insert_Some; [done|].
      apply (trackers_ok_mono _ log); [set_solver|by apply Hk].
  - intros h a. unfold ds_recorded, filed. cbn [set_largest_seen set_approval_tracking approval_tracking]. fold hh.
    destruct (decide (h = hh)) as [->|Hne].
    + rewrite lookup_insert_eq. cbn. rewrite Hrec. unfold ds_recorded.
      destruct (decide (a = av_validator ap)) as [->|Ha].
      * by rewrite decide_True by done.
      * rewrite decide_False by naive_solver. by destruct (approval_tracking d !! hh).
    + rewrite lookup_insert_ne by done. by rewrite decide_False by naive_solver.
Qed.

Lemma ready_inside {E} mode log d now target chunks d' b :
  tracking_inv mode log d → ready_to_produce_block (E := E) now target chunks d = (d', Ok b) →
  tracking_inv mode log d' ∧ timer d' = timer d ∧
  largest_sent_target_height d' = largest_sent_target_height d ∧ endorsement_pending d' = endorsement_pending d ∧
  tip_height d' = tip_height d ∧ history d' = history d.
Proof.
  intros Hi. unfold ready_to_produce_block.
  destruct (approval_tracking d !! target) as [t|] eqn:Ht; [|by intros [= <- _]].
  destruct (approval_trackers t !! _) as [tr|] eqn:Htr; [|by intros [= <- _]].
  pose proof (readiness_ok mode tr now) as Hro. pose proof (readiness_witness tr now) as Hrw.
  pose proof (readiness_stakes tr now) as Hrs.
  destruct (get_block_production_readiness tr now) as [tr' r]. cbn in Hro, Hrw, Hrs. intros Hrun.
  match type of Hrun with context [set_approval_tracking ?d ?x] => set (d1 := set_approval_tracking d x) in Hrun end.
  assert (d' = d1) as -> by (repeat case_match; simplify_eq; done). clear Hrun.
  split_and!; [|done..]. destruct Hi as [Hm Htip Hwin Hk]. split; [done|done| |];
    intros h t'; cbn; intros [[<- <-]|[? Hl]]%lookup_insert_Some; eauto.
  destruct (Hk _ _ Ht) as [Ht1 Hf1 Hl1]. split; cbn.
  - intros X x [[<- <-]|[? HX]]%lookup_insert_Some; eauto.
  - intros X x [[<- <-]|[? HX]]%lookup_insert_Some; eauto.
    destruct (Hf1 _ _ Htr) as [? ?]. split; [by rewrite Hrs|by rewrite Hrw].
  - intros X x a w [[<- <-]|[? HX]]%lookup_insert_Some; eauto. rewrite Hrw. eauto.
Qed.

(** * The timer *)

Definition is_endorsement (c : ApprovalContent) : Prop :=
  match ac_inner c with Endorsement _ => True | Skip _ => False end.

(** An endorsement targets a height above all approvals sent before it. *)
Definition endorsements_fresh (sent : list ApprovalContent) : Prop :=
  ∀ l1 c l2, sent = l1 ++ c :: l2 → is_endorsement c →
    ∀ c', c' ∈ l1 → ac_target_height c' < ac_target_height c.

Lemma fresh_nil : endorsements_fresh [].
Proof. intros l1 c l2 Heq. by destruct l1. Qed.
Lemma fresh_snoc sent c :
  endorsements_fresh sent →
  (is_endorsement c → ∀ c', c' ∈ sent → ac_target_height c' < ac_target_height c) →
  endorsements_fresh (sent ++ [c]).
Proof.
  intros Hs Hc l1 x l2 Heq He. destruct l2 as [|y l2 _] using rev_ind.
  - apply app_inj_tail in Heq as [-> ->]. by apply Hc.
  - rewrite app_comm_cons, app_assoc in Heq. apply app_inj_tail in Heq as [-> ->]. by eapply Hs.
Qed.

Record sending_inv (sent : list ApprovalContent) (d : Doomslug) : Prop := {
  si_tip : 0 ≤ tip_height d < 2 ^ 63;
  si_height : (t_height (timer d) = tip_height d ∧ sent = [] ∧ endorsement_pending d = false) ∨
              tip_height d < t_height (timer d);
  si_largest c : c ∈ sent → ac_target_height c ≤ largest_sent_target_height d;
  si_fresh : endorsements_fresh sent;
  si_history : (length (history d) ≤ MAX_HISTORY_SIZE)%nat;
}.

Lemma pop_while_full_short l : (length (pop_while_full l) < MAX_HISTORY_SIZE)%nat.
Proof. induction l as [|x l IH]; cbn [pop_while_full]; [unfold MAX_HISTORY_SIZE; cbn; lia|]. case_decide; [done|lia]. Qed.
Lemma update_history_length d e : (length (history (update_history d e)) ≤ MAX_HISTORY_SIZE)%nat.
Proof.
  unfold update_history. cbn [history set_history]. rewrite length_app. pose proof (pop_while_full_short (history d)).
  cbn [length]. lia.
Qed.

Lemma timer_endorse_frame cur clk d : same_tracking d (timer_endorse cur clk d).1.
Proof. unfold timer_endorse, same_tracking. repeat case_match; simplify_eq; cbn; done. Qed.
Lemma timer_skip_frame delay clk d : same_tracking d (timer_skip delay clk d).1.
Proof. done. Qed.

Lemma timer_endorse_sending cur clk d sent :
  sending_inv sent d → sending_inv (sent ++ (timer_endorse cur clk d).2) (timer_endorse cur clk d).1.
Proof.
  intros Hi. assert (sending_inv (sent ++ []) d) as Hno by (by rewrite app_nil_r).
  destruct Hi as [Htip Hh Hl Hf Hhist]. unfold timer_endorse.
  destruct (endorsement_pending d) eqn:Hp; cbn [andb]; [|done].
  case_bool_decide; [|done]. destruct Hh as [(_ & _ & ?)|Hh]; [congruence|].
  case_decide as Hle; cbn [fst snd]; [|rewrite app_nil_r; split; cbn; auto].
  rewrite wrap_small by (unfold in_width; lia). split.
  - done.
  - right. done.
  - cbn. intros c [Hc| ->%list_elem_of_singleton]%elem_of_app; [|done]. specialize (Hl c Hc). lia.
  - apply fresh_snoc; [done|]. intros _ c' Hc'. cbn. specialize (Hl c' Hc'). lia.
  - apply update_history_length.
Qed.

Lemma timer_skip_sending delay clk d sent :
  t_height (timer d) + 1 < 2 ^ 64 → sending_inv sent d →
  sending_inv (sent ++ (timer_skip delay clk d).2) (timer_skip delay clk d).1.
Proof.
  intros Hb [Htip Hh Hl Hf Hhist]. unfold timer_skip. cbn [fst snd].
  rewrite wrap_small by (unfold in_width; lia). split.
  - done.
  - right. cbn. lia.
  - cbn. intros c [Hc| ->%list_elem_of_singleton]%elem_of_app; [specialize (Hl c Hc)|cbn]; lia.
  - apply fresh_snoc; [done|]. intros He c' Hc'. exfalso.
    destruct Hh as [(_ & -> & _)|Hh]; [by apply elem_of_nil in Hc'|].
    unfold is_endorsement, content_new, inner_new in He. cbn in He.
    rewrite wrap_small in He by (unfold in_width; lia). rewrite decide_False in He by lia. done.
  - apply update_history_length.
Qed.

Lemma timer_endorse_timer cur clk d :
  let t := timer d in let t' := timer (timer_endorse cur clk d).1 in
  t_started t' = t_started t ∧ t_height t' = t_height t ∧ t_endorsement_delay t' = t_endorsement_delay t ∧
  t_min_delay t' = t_min_delay t ∧ t_delay_step t' = t_delay_step t ∧ t_max_delay t' = t_max_delay t ∧
  largest_final_height (timer_endorse cur clk d).1 = largest_final_height d.
Proof. unfold timer_endorse, same_tracking. repeat case_match; simplify_eq; cbn; done. Qed.

Lemma timer_loop_sending {E} n cur clk d d' ret sent :
  t_height (timer d) + Z.of_nat n < 2 ^ 64 → sending_inv sent d →
  timer_loop (E := E) n cur clk d = (d', Ok ret) → same_tracking d d' ∧ sending_inv (sent ++ ret) d'.
Proof.
  revert clk d ret sent. induction n as [|n IH]; intros clk d ret sent Hb Hi; cbn [timer_loop].
  { intros [= <- <-]. by rewrite app_nil_r. }
  destruct (get_delay _ _) as [delay| |]; [|done|done].
  pose proof (timer_endorse_frame cur (clk 0%nat) d) as Hf1.
  pose proof (timer_endorse_sending cur (clk 0%nat) d sent Hi) as Hi1.
  destruct (timer_endorse_timer cur (clk 0%nat) d) as (_ & Hh1 & _).
  destruct (timer_endorse cur (clk 0%nat) d) as [d1 r1]. cbn [fst snd] in Hf1, Hi1, Hh1.
  case_decide; [|by intros [= <- <-]].
  assert (t_height (timer d1) + 1 < 2 ^ 64) as Hb1 by lia.
  pose proof (timer_skip_frame delay (clk 1%nat) d1) as Hf2.
  pose proof (timer_skip_sending delay (clk 1%nat) d1 _ Hb1 Hi1) as Hi2.
  assert (t_height (timer (timer_skip delay (clk 1%nat) d1).1) = t_height (timer d1) + 1) as Hh2.
  { cbn. apply wrap_small. unfold in_width. destruct Hi1 as [? [[? ?]|?] _ _ _]; lia. }
  destruct (timer_skip delay (clk 1%nat) d1) as [d2 r2]. cbn [fst snd] in Hf2, Hi2, Hh2.
  destruct (timer_loop n cur _ d2) as [d3 [rest| |]] eqn:Hrun; cbn; [|done|done]. intros [= <- <-].
  rewrite <-app_assoc in Hi2. apply (λ Hlt, IH _ _ _ _ Hlt Hi2) in Hrun as [Hf3 Hi3]; [|lia].
  split; [by do 2 (etransitivity; [done|])|]. by rewrite <-!app_assoc in Hi3.
Qed.

(** * Reachable states *)

Record run_inv (mode : DoomslugThresholdMode) (r : ds_run) : Prop := {
  ri_tracking : tracking_inv mode (run_log r) (run_ds r);
  ri_sending : sending_inv (run_sent r) (run_ds r);
}.

Lemma sending_frame sent d d' :
  timer d' = timer d → largest_sent_target_height d' = largest_sent_target_height d →
  endorsement_pending d' = endorsement_pending d → tip_height d' = tip_height d → history d' = history d →
  sending_inv sent d → sending_inv sent d'.
Proof. intros Ht Hl Hp Htip Hh [? ? ? ? ?]. by split; rewrite ?Ht, ?Hl, ?Hp, ?Htip, ?Hh. Qed.

Lemma on_approval_returned d now utc ap stakes d' :
  0 ≤ tip_height d < 2 ^ 63 → in_window d (ac_target_height (av_content ap)) →
  on_approval (E := Empty_set) now utc ap stakes d = (d', Ok tt) → size (active_stakes stakes) = length stakes.
Proof.
  intros Ht Hw Hrun. destruct (decide (size (active_stakes stakes) = length stakes)) as [|Hne]; [done|].
  exfalso. revert Hrun. unfold on_approval, on_approval_internal, st_bind, MAX_HEIGHTS_AHEAD_TO_STORE_APPROVALS.
  unfold in_window in Hw. rewrite wrap_small by (unfold in_width; lia). rewrite decide_False by lia.
  pose proof (trackers_process_panics (E := Empty_set) (ds_threshold_mode d)
    (default trackers_new (approval_tracking d !! ac_target_height (av_content ap))) now utc ap stakes Hne) as Hp.
  destruct (trackers_process_approval _ _ _ _ _ _) as [t r]. cbn in Hp. by subst r.
Qed.

Lemma step_inv mode r r' : ds_step r r' → run_inv mode r → run_inv mode r'.
Proof.
  intros Hs [Ht Hi]. destruct Hs as [d log sent now bh height lf Hh|d d' log sent now utc ap stakes Htg Hsm Hrun
    |d d' log sent cur clk ret Hb Hrun|d d' log sent now target chunks b Hrun];
    cbn [run_ds run_log run_sent] in *.
  - split; [by apply tracking_block|]. destruct Hi as [? ? ? ? ?]. split; cbn; try done.
    right. rewrite wrap_small by (unfold in_width; lia). lia.
  - destruct (decide (in_window d (ac_target_height (av_content ap)))) as [Hw|Hw].
    + pose proof (on_approval_returned _ _ _ _ _ _ (ti_tip _ _ _ Ht) Hw Hrun) as Hsz.
      edestruct (returns_elim _ _ _ _ _ (on_approval_inside _ _ _ now utc ap stakes Ht Hw Hsm Hsz) Hrun)
        as (? & ? & ? & ? & ? & ? & _). split; [done|by eapply sending_frame].
    + rewrite on_approval_outside in Hrun by (done || apply Ht). simplify_eq.
      destruct Ht as [? ? ? Hk]. split; [|done].
      split; try done. intros h t Hl. apply (trackers_ok_mono _ log); [set_solver|eauto].
  - eapply timer_loop_sending in Hrun as [Hf Hi']; [|unfold MAX_TIMER_ITERS; lia|done].
    split; [by eapply tracking_frame|done].
  - edestruct (ready_inside _ _ _ _ _ _ _ _ Ht Hrun) as (? & ? & ? & ? & ? & ?).
    split; [done|by eapply sending_frame].
Qed.

Lemma ds_reach_inv mode r : ds_reach mode r → run_inv mode r.
Proof.
  intros (now & largest & e & mi & st & ma & Hr).
  assert (run_inv mode (mk_run (doomslug_new now largest e mi st ma mode) [] [])) as H0.
  { split; [|split; cbn; try done; [by left|set_solver|apply fresh_nil|lia]].
    split; cbn; try done; intros ??; by rewrite lookup_empty. }
  remember (mk_run _ _ _) as r0 eqn:Hr0. clear Hr0. induction Hr as [|r0 r1 r2 Hs _ IH]; [done|].
  apply IH. by eapply step_inv.
Qed.

(** * Refinement: one approval per height and account, the last one *)

(** What an instance promises: for every height of a window around the tip and
    every account, the last approval received. *)
Notation approvals := (Z → Address → option (ApprovalValidated * Z)).
Inductive approvals_step (tip : Z) (kept : approvals) : Z → approvals → Prop :=
| approvals_block tip' kept' :
    (∀ h a, kept' h a = if decide (saturating_sub tip' 20 < h ≤ tip' + 10000) then kept h a else None) →
    approvals_step tip kept tip' kept'
| approvals_file kept' ap utc (staked : bool) :
    tip ≤ ac_target_height (av_content ap) ≤ tip + 10000 →
    (∀ h a, kept' h a =
       if decide (h = ac_target_height (av_content ap) ∧ a = av_validator ap)
       then (if staked then Some (ap, utc) else None) else kept h a) →
    approvals_step tip kept tip kept'
| approvals_same kept' : (∀ h a, kept' h a = kept h a) → approvals_step tip kept tip kept'.

Lemma ready_recorded {E} now target chunks d d' b :
  ready_to_produce_block (E := E) now target chunks d = (d', Ok b) →
  tip_height d' = tip_height d ∧ ∀ h a, ds_recorded d' h a = ds_recorded d h a.
Proof.
  unfold ready_to_produce_block.
  destruct (approval_tracking d !! target) as [t|] eqn:Ht; [|by intros [= <- _]].
  destruct (approval_trackers t !! _) as [tr|] eqn:Htr; [|by intros [= <- _]].
  pose proof (readiness_witness tr now) as Hrw.
  destruct (get_block_production_readiness tr now) as [tr' r]. cbn in Hrw. intros Hrun.
  match type of Hrun with context [set_approval_tracking ?d ?x] => set (d1 := set_approval_tracking d x) in Hrun end.
  assert (d' = d1) as -> by (repeat case_match; simplify_eq; done). split; [done|].
  intros h a. unfold ds_recorded, d1. cbn. destruct (decide (h = target)) as [->|]; [|by rewrite lookup_insert_ne].
  rewrite lookup_insert_eq, Ht. cbn. unfold recorded. cbn.
  destruct (last_approval_per_account t !! a) as [Y|]; [|done]. cbn.
  set (X := inner_new _ _ _) in *. destruct (decide (Y = X)) as [->|]; [|by rewrite lookup_insert_ne].
  rewrite lookup_insert_eq, Htr. cbn. by rewrite Hrw.
Qed.

Lemma get_witness_recorded mode log d ph p target a w :
  tracking_inv mode log d →
  get_witness d ph p target !! a = Some w ↔
  ds_recorded d target a = Some w ∧ ac_inner (av_content w.1) = inner_new ph p target.
Proof.
  intros Hi. unfold get_witness, ds_recorded.
  destruct (approval_tracking d !! target) as [t|] eqn:Ht; cbn; [|rewrite lookup_empty; naive_solver].
  pose proof (ti_trackers _ _ _ Hi _ _ Ht) as Hok. split.
  - destruct (approval_trackers t !! _) as [tr|] eqn:Htr; [|by rewrite lookup_empty].
    intros Hw. split; [by eapply recorded_witness|].
    by destruct (tf_witness _ _ _ _ (ts_from _ _ _ _ Hok _ _ Htr) _ _ Hw) as [-> _].
  - intros [Hr Hin]. destruct (recorded_inv _ _ _ _ _ _ Hok Hr) as (tr & Htr & Hw).
    rewrite <-Hin. by rewrite Htr.
Qed.


(** * Safety *)

Lemma above_two_thirds t a : a > t * 2 / 3 ↔ 2 * t < 3 * a.
Proof. pose proof (Z.mod_pos_bound (t * 2) 3). pose proof (Z.div_mod (t * 2) 3). lia. Qed.

(** A block is ready only with the approval of more than two thirds of the stake:
    if [ready_to_produce_block] says so in the production mode, then the accounts
    with a recorded approval of this parent for this height, each received for
    it, hold more than two thirds of the stakes that came with some approval for
    the height, in this epoch and in the next one unless that has no stake. *)
Theorem ready_needs_two_thirds r now target chunks d' :
  ds_reach TwoThirds r →
  ready_to_produce_block (E := Empty_set) now target chunks (run_ds r) = (d', Ok true) →
  let W := get_witness (run_ds r) (tip_block_hash (run_ds r)) (tip_height (run_ds r)) target in
  ∃ ap stakes, (ap, stakes) ∈ run_log r ∧ ac_target_height (av_content ap) = target ∧
    let this := map_sum (λ _ s, s.1) (active_stakes stakes) in
    let next := map_sum (λ _ s, s.2) (active_stakes stakes) in
    2 * this < 3 * map_sum (λ a _, (stakes_of (active_stakes stakes) a).1) W ∧
    (next = 0 ∨ 2 * next < 3 * map_sum (λ a _, (stakes_of (active_stakes stakes) a).2) W) ∧
    ∀ a w, W !! a = Some w → av_validator w.1 = a ∧
      av_content w.1 = content_new (tip_block_hash (run_ds r)) (tip_height (run_ds r)) target ∧
      ∃ stakes', (w.1, stakes') ∈ run_log r.
Proof.
  intros [Ht _]%ds_reach_inv. unfold ready_to_produce_block, get_witness.
  destruct (approval_tracking (run_ds r) !! target) as [t|] eqn:Hl; [|done].
  pose proof (ti_trackers _ _ _ Ht _ _ Hl) as Hok.
  destruct (approval_trackers t !! _) as [tr|] eqn:Htr; [|done]. cbn.
  destruct (ts_from _ _ _ _ Hok _ _ Htr) as [(ap & stakes & Hin & Htg & Hst) Hwit].
  destruct (ts_tracker _ _ _ _ Hok _ _ Htr) as [Hsm Hm Htt Htn Hat Han Hk].
  unfold get_block_production_readiness. destruct (enough_stake tr) eqn:He; [|done]. intros _.
  exists ap, stakes. unfold witness_sum in *. rewrite Hst in *. split_and!; [done|done|..].
  - unfold enough_stake in He. rewrite Hm, Hat, Htt in He.
    rewrite wrap_small in He by (pose proof (total_small _ Hsm fst (or_introl eq_refl)); unfold in_width; lia).
    apply orb_true_iff in He as [[He _]%andb_true_iff|He]; apply bool_decide_eq_true in He; [|done].
    by apply above_two_thirds.
  - unfold enough_stake in He. rewrite Hm, Han, Htn in He.
    rewrite (wrap_small 128 (map_sum (λ _ s, s.2) _ * 2)) in He
      by (pose proof (total_small _ Hsm snd (or_intror eq_refl)); unfold in_width; lia).
    apply orb_true_iff in He as [[_ He]%andb_true_iff|He]; [|by apply bool_decide_eq_true in He].
    apply orb_true_iff in He as [He|He]; apply bool_decide_eq_true in He; [right|by left].
    by apply above_two_thirds.
  - intros a w Hw. split; [by eapply Hk|]. by apply Hwit in Hw.
Qed.

(** Once an instance has sent an approval for a height, it never sends an
    endorsement for that height or a lower one: every endorsement's target
    exceeds the targets of all approvals sent before. *)
Theorem endorsements_exceed_sent mode r : ds_reach mode r → endorsements_fresh (run_sent r).
Proof. intros [_ Hi]%ds_reach_inv. apply Hi. Qed.

(** The memory of an instance is bounded whatever it receives: it tracks at most
    10020 heights, all between 20 below and 10000 above its tip, and at most
    1000 history entries. *)
Theorem doomslug_bounded mode r :
  ds_reach mode r →
  let d := run_ds r in
  (∀ h t, approval_tracking d !! h = Some t → tip_height d - 20 < h ≤ tip_height d + 10000) ∧
  (size (approval_tracking d) ≤ 10020)%nat ∧ (length (history d) ≤ 1000)%nat.
Proof.
  intros [Ht Hi]%ds_reach_inv. cbn. split_and!; [by intros h t [? ?]%(ti_window _ _ _ Ht)| |apply Hi].
  rewrite <-size_dom.
  trans (size (list_to_set (C := gset Z) (seqZ (tip_height (run_ds r) - 19) 10020))).
  - apply subseteq_size. intros h [t [_ Hh]%(ti_window _ _ _ Ht)]%elem_of_dom.
    apply elem_of_list_to_set, elem_of_seqZ. lia.
  - rewrite size_list_to_set by apply NoDup_seqZ. by rewrite length_seqZ.
Qed.

(** * Liveness *)

(** A configuration whose delays stay within the range of a [Duration]. *)
Definition config_ok (t : DoomslugTimer) : Prop :=
  0 ≤ t_min_delay t ∧ 0 ≤ t_delay_step t ∧ t_min_delay t + t_delay_step t * 2 ^ 32 ≤ duration_max.

Definition same_config (t t' : DoomslugTimer) : Prop :=
  t_min_delay t' = t_min_delay t ∧ t_delay_step t' = t_delay_step t ∧ t_max_delay t' = t_max_delay t.

Lemma get_delay_ok {E} t n : config_ok t → ∃ delay, get_delay (E := E) t n = Ok delay ∧ delay ≤ t_max_delay t.
Proof.
  intros (Hm & Hs & Hb). unfold get_delay. set (n32 := if decide (n ≤ u32_max) then n else u32_max).
  assert (0 ≤ saturating_sub n32 2 ≤ 2 ^ 32) as Hn.
  { unfold saturating_sub, n32, u32_max. case_decide; lia. }
  assert (0 ≤ t_delay_step t * saturating_sub n32 2 ≤ t_delay_step t * 2 ^ 32) by nia.
  rewrite !decide_False by lia. eexists. split; [done|]. lia.
Qed.

(** One call: it returns, sends an approval for every height the timer passes,
    and passes one when [max_delay] has gone by since the timer started. *)
Lemma timer_loop_progress {E} n cur clk d :
  config_ok (timer d) → 0 ≤ t_height (timer d) → t_height (timer d) + Z.of_nat n < 2 ^ 64 →
  returns (timer_loop (E := E) n cur clk) d (λ ret d',
    let t := timer d in let t' := timer d' in
    same_config t t' ∧ t_height t ≤ t_height t' ≤ t_height t + Z.of_nat n ∧
    t_started t' ≤ t_started t + (t_height t' - t_height t) * t_max_delay t ∧
    (∀ i, t_height t < i ≤ t_height t' → ∃ c, c ∈ ret ∧ ac_target_height c = i) ∧
    ((0 < n)%nat → t_started t + t_max_delay t ≤ cur → t_height t < t_height t')).
Proof.
  revert clk d. induction n as [|n IH]; intros clk d Hc H0 Hb; unfold returns; cbn [timer_loop].
  { do 2 eexists. split; [done|]. cbn. split_and!; try done; try lia. }
  destruct (get_delay_ok (E := E) (timer d) (saturating_sub (t_height (timer d)) (largest_final_height d)) Hc)
    as (delay & -> & Hd).
  destruct (timer_endorse_timer cur (clk 0%nat) d) as (Hs1 & Hh1 & _ & Hmin & Hst & Hma & _).
  destruct (timer_endorse cur (clk 0%nat) d) as [d1 r1]. cbn [fst] in *.
  rewrite Hs1. case_decide as Hcur.
  2: { do 2 eexists. split; [done|]. cbn. rewrite Hh1, Hs1. split_and!; try done; lia. }
  unfold timer_skip. set (d2 := set_timer _ _ _).
  assert (t_height (timer d2) = t_height (timer d) + 1) as Hh2.
  { cbn. rewrite Hh1. apply wrap_small. unfold in_width. lia. }
  assert (t_started (timer d2) = t_started (timer d) + delay ∧ same_config (timer d) (timer d2)) as [Hs2 Hc2].
  { unfold same_config. cbn. by rewrite Hs1. }
  assert (config_ok (timer d2)) as Hok2.
  { destruct Hc2 as (E1 & E2 & _). unfold config_ok. by rewrite E1, E2. }
  edestruct (IH (λ i, clk (2 + i)%nat) d2 Hok2) as (d3 & rest & Hrun & Hc3 & Hh3 & Hs3 & Hall & _); [lia..|].
  rewrite Hrun. do 2 eexists. split; [done|]. destruct Hc2 as (E1 & E2 & E3), Hc3 as (F1 & F2 & F3). cbn.
  rewrite E3 in Hs3. split_and!; unfold same_config; try lia.
  intros i Hi. destruct (decide (i = t_height (timer d) + 1)) as [->|].
  - eexists (content_new _ _ _). split; [apply elem_of_app; right; by left|]. cbn. rewrite Hh1.
    apply wrap_small. unfold in_width. lia.
  - destruct (Hall i) as (c & Hc' & <-); [lia|]. exists c. split; [|done]. apply elem_of_app; right. by right.
Qed.

(** Calls of [process_timer] at the given times, with no block in between. *)
Fixpoint run_timers {E} (times : list (Z * (nat → Clock))) : ST Doomslug E (list ApprovalContent) :=
  match times with
  | [] => st_ret []
  | (cur, clk) :: times =>
      let! ret := process_timer cur clk in
      let! rest := run_timers times in
      st_ret (ret ++ rest)
  end.

(** [max_delay] further for every call. *)
Fixpoint silent (start delay : Z) (times : list (Z * (nat → Clock))) : Prop :=
  match times with
  | [] => True
  | (cur, _) :: times => start + delay ≤ cur ∧ silent (start + delay) delay times
  end.

Lemma run_timers_progress {E} times d h0 s0 :
  config_ok (timer d) → 0 ≤ h0 → 0 ≤ t_max_delay (timer d) →
  h0 ≤ t_height (timer d) → t_height (timer d) + 20 * Z.of_nat (length times) < 2 ^ 64 →
  t_started (timer d) ≤ s0 + (t_height (timer d) - h0) * t_max_delay (timer d) →
  silent s0 (t_max_delay (timer d)) times →
  returns (run_timers (E := E) times) d (λ ret d',
    ∀ i, t_height (timer d) < i ≤ h0 + Z.of_nat (length times) → ∃ c, c ∈ ret ∧ ac_target_height c = i).
Proof.
  revert d h0 s0. induction times as [|[cur clk] times IH]; intros d h0 s0 Hc H0 Hma Hh Hb Hs Hsil.
  { cbn [run_timers]. st_pure. cbn. intros i Hi. lia. }
  destruct Hsil as [Hcur Hsil]. cbn [length] in *. cbn [run_timers]. st_pure.
  eapply returns_mono; [apply timer_loop_progress; [done|lia|unfold MAX_TIMER_ITERS; lia]|]. cbn.
  intros ret d' ((E1 & E2 & E3) & Hh' & Hs' & Hall & Hprog). unfold MAX_TIMER_ITERS in *. st_pure.
  set (h1 := h0 + 1).
  assert (h1 ≤ t_height (timer d')) as Hge.
  { destruct (decide (h1 ≤ t_height (timer d))); [lia|].
    assert (t_height (timer d) = h0) as Heq by lia. rewrite Heq, Z.sub_diag in Hs. lia. }
  assert (config_ok (timer d')) as Hc' by (unfold config_ok; by rewrite E1, E2).
  eapply returns_mono.
  - apply (IH d' h1 (s0 + t_max_delay (timer d))); rewrite ?E3; try done; try lia.
  - cbn. intros rest d'' Hrest. st_pure. intros i Hi.
    destruct (decide (i ≤ t_height (timer d'))).
    + destruct (Hall i) as (c & Hc1 & <-); [lia|]. exists c. split; [|done]. apply elem_of_app. by left.
    + destruct (Hrest i) as (c & Hc1 & <-); [lia|]. exists c. split; [|done]. apply elem_of_app. by right.
Qed.

(** Silence leads to skips: as long as no block arrives, every further [max_delay]
    at which the timer is processed brings an approval for one more height, so
    that after [n] such calls the approvals for the next [n] heights have been
    sent, none of the calls panicking. *)
Theorem silence_leads_to_approvals times d :
  config_ok (timer d) → 0 ≤ t_max_delay (timer d) → 0 ≤ t_height (timer d) →
  t_height (timer d) + 20 * Z.of_nat (length times) < 2 ^ 64 →
  silent (t_started (timer d)) (t_max_delay (timer d)) times →
  ∃ d' sent, run_timers (E := Empty_set) times d = (d', Ok sent) ∧
    ∀ i, t_height (timer d) < i ≤ t_height (timer d) + Z.of_nat (length times) →
      ∃ c, c ∈ sent ∧ ac_target_height c = i.
Proof.
  intros Hc Hma H0 Hb Hs.
  destruct (run_timers_progress (E := Empty_set) times d (t_height (timer d)) (t_started (timer d)))
    as (d' & sent & Hrun & Hall); try done; [lia|]. by exists d', sent.
Qed.

(** * Readiness and the check of a finished block *)

Definition stake_triples (stakes : stake_list) : list (Z * Z * bool) :=
  (λ p, (as_stake_this_epoch p.1, as_stake_next_epoch p.1, p.2)) <$> stakes.
(** The approvals of a block in the order of the stakes. *)
Definition approvals_of {A} (W : gmap Address A) (stakes : stake_list) : list (option bool) :=
  (λ p, if W !! as_validator p.1 then Some true else None) <$> stakes.

Lemma sum_snoc l z : foldr Z.add 0 (l ++ [z]) = z + foldr Z.add 0 l.
Proof. induction l as [|x l IH]; cbn; [done|]. rewrite IH. lia. Qed.

(** A sum over the active stakes is the sum over the list. *)
Lemma active_stakes_sum (f : Address → Z * Z → Z) stakes :
  NoDup (as_validator ∘ fst <$> stakes) → Forall (λ p, p.2 = false) stakes →
  map_sum f (active_stakes stakes) =
  foldr Z.add 0 ((λ p, f (as_validator p.1) (as_stake_this_epoch p.1, as_stake_next_epoch p.1)) <$> stakes).
Proof.
  induction stakes as [|[s b] l IH] using rev_ind; intros Hnd Hf; [done|].
  unfold active_stakes in *. rewrite foldl_snoc. rewrite fmap_app, NoDup_app in Hnd.
  destruct Hnd as (Hnd & Hn & _). rewrite Forall_app, Forall_singleton in Hf. destruct Hf as [Hf Hb]. cbn in Hb. subst b. cbn.
  rewrite map_sum_insert, IH by
    (done || (apply not_elem_of_dom; intros Hin; apply (Hn (as_validator s)); [|by left];
     revert Hin; clear -l; induction l as [|[s' b'] l IHl] using rev_ind; [set_solver|];
     rewrite foldl_snoc, fmap_app; destruct b'; set_solver)).
  rewrite fmap_app. symmetry. apply sum_snoc.
Qed.

Lemma zip_fmap_self {A B C} (f : A → B) (g : A → C) l : zip (f <$> l) (g <$> l) = (λ x, (f x, g x)) <$> l.
Proof. induction l as [|x l IH]; [done|]. cbn. by f_equal. Qed.

Lemma approved_stake_sum {A : Type} (W : gmap Address A) stakes (g : Z * Z → Z) :
  Forall (λ p, p.2 = false) stakes →
  approved_stake (λ s, g s.1) (approvals_of W stakes) (stake_triples stakes) =
  wrap 128 (foldr Z.add 0 ((λ p, if W !! as_validator p.1
    then g (as_stake_this_epoch p.1, as_stake_next_epoch p.1) else 0) <$> stakes)).
Proof.
  intros Hf. unfold approved_stake, approvals_of, stake_triples. rewrite zip_fmap_self. do 2 f_equal.
  induction Hf as [|[s b] l Hb Hf IH]; [done|]. cbn in Hb. subst b. cbn. rewrite IH.
  by destruct (W !! as_validator s).
Qed.

(** A tracker that counts with some stakes is ready exactly when a block with its
    witnesses' approvals passes [can_approved_block_be_produced] for the same
    stakes, provided the stakes are worth at least two units. *)
Theorem readiness_agrees mode tr now stakes :
  tracker_ok mode tr → account_id_to_stakes tr = active_stakes stakes →
  NoDup (as_validator ∘ fst <$> stakes) → Forall (λ p, p.2 = false) stakes →
  2 ≤ total_stake_this_epoch tr → total_stake_next_epoch tr ≠ 1 →
  can_approved_block_be_produced mode (approvals_of (witness tr) stakes) (stake_triples stakes) =
  bool_decide ((get_block_production_readiness tr now).2 ≠ NotReady).
Proof.
  intros [Hsm Hm Htt Htn Hat Han _] Hst Hnd Hf H2 H1.
  assert (bool_decide ((get_block_production_readiness tr now).2 ≠ NotReady) = enough_stake tr) as ->.
  { unfold get_block_production_readiness. destruct (enough_stake tr); cbn; by case_bool_decide. }
  unfold can_approved_block_be_produced, enough_stake. rewrite Hm. destruct mode.
  { rewrite decide_True by done. by rewrite orb_true_r. }
  rewrite decide_False by done. rewrite (bool_decide_eq_false_2 (TwoThirds = NoApprovals)), orb_false_r by done.
  pose proof (members_small _ Hsm fst (witness tr) (or_introl eq_refl)) as Hb1.
  pose proof (members_small _ Hsm snd (witness tr) (or_intror eq_refl)) as Hb2.
  pose proof (total_small _ Hsm fst (or_introl eq_refl)) as Hc1.
  pose proof (total_small _ Hsm snd (or_intror eq_refl)) as Hc2.
  assert (∀ g : Z * Z → Z, foldr Z.add 0 ((λ s, g s.1) <$> stake_triples stakes) =
    map_sum (λ _ s, g s) (account_id_to_stakes tr)) as Htot.
  { intros g. rewrite Hst, active_stakes_sum by done. unfold stake_triples. by rewrite <-list_fmap_compose. }
  assert (∀ g : Z * Z → Z, g (0, 0) = 0 →
    approved_stake (λ s, g s.1) (approvals_of (witness tr) stakes) (stake_triples stakes) =
    wrap 128 (witness_sum g tr)) as Hap.
  { intros g Hg. rewrite approved_stake_sum by done. f_equal. unfold witness_sum, stakes_of.
    rewrite (map_sum_restrict g (0, 0)) by done. by rewrite Hst, active_stakes_sum by done. }
  rewrite (Htot fst), (Htot snd), (Hap fst), (Hap snd) by done. unfold witness_sum in *.
  rewrite Hat, Han, Htt, Htn in *. rewrite !(width_127 (map_sum _ _)) by done.
  rewrite !(wrap_small 128) by (unfold in_width; lia). f_equal.
  - rewrite (bool_decide_eq_false_2 (_ * 2 / 3 = 0)); [apply orb_false_r|].
    assert (1 ≤ map_sum (λ _ s, s.1) (account_id_to_stakes tr) * 2 / 3) by (apply Z.div_le_lower_bound; lia). lia.
  - f_equal. apply bool_decide_ext. split; [|intros ->; done]. intros Hz.
    destruct (decide (2 ≤ map_sum (λ _ s, s.2) (account_id_to_stakes tr))); [|lia].
    assert (1 ≤ map_sum (λ _ s, s.2) (account_id_to_stakes tr) * 2 / 3) by (apply Z.div_le_lower_bound; lia). lia.
Qed.

(** A block whose stakes are worth one unit needs no approval at all, although
    the tracker of such stakes is never ready without one. *)
Example unit_stake_needs_no_approval :
  can_approved_block_be_produced TwoThirds [None] [(1, 0, false)] = true.
Proof. done. Qed.

(** * Errors *)

Section errors.
Context `{CryptoLaws}.

(** Signing and validating approvals. The approval of an endorsement that a peer
    signs is validated to that peer's address; a skip can be neither signed nor
    validated: both panic, whoever sent it, as the hash of a skip is not
    implemented. *)
Theorem approval_sign_validate (c : ApprovalContent) (sk : SecretKey) :
  match ac_inner c with
  | Endorsement _ => ∃ a, to_approval (E := DoomslugError) c (signer_new sk) = Ok a ∧
      validate_approval a = Ok (mk_validated c (ap_signature a) (peer_id (signer_new sk))) ∧
      to_approval_validated (E := DoomslugError) c (signer_new sk) =
        Ok (mk_validated c (ap_signature a) (peer_id (signer_new sk)))
  | Skip _ =>
      to_approval (E := DoomslugError) c (signer_new sk) = Panic "not yet implemented" ∧
      ∀ sig, validate_approval (mk_approval c sig) = Panic "not yet implemented"
  end.
Proof.
  unfold to_approval, to_approval_validated, validate_approval, content_hash. cbn.
  destruct (ac_inner c) as [h|h] eqn:Hc; [|done].
  eexists. split; [done|]. cbn. rewrite Hc. cbn. by rewrite signature_verify_sign.
Qed.
End errors.

(** [on_approval] panics exactly when the approval is in the window and the stakes
    name a slashed validator or one validator twice. *)
Theorem slashed_stakes_panic d now utc ap stakes :
  0 ≤ tip_height d < 2 ^ 63 →
  (on_approval (E := Empty_set) now utc ap stakes d).2 =
    if decide (in_window d (ac_target_height (av_content ap)) ∧
               ¬ (NoDup (as_validator ∘ fst <$> stakes) ∧ Forall (λ p, p.2 = false) stakes))
    then Panic "assertion `left == right` failed" else Ok tt.
Proof.
  intros Ht. destruct (decide (in_window d (ac_target_height (av_content ap)))) as [Hw|Hw].
  2: { rewrite on_approval_outside by done. by rewrite decide_False by tauto. }
  unfold on_approval, on_approval_internal, st_bind, st_ret, MAX_HEIGHTS_AHEAD_TO_STORE_APPROVALS.
  pose proof Hw as Hw'. unfold in_window in Hw'.
  rewrite wrap_small by (unfold in_width; lia). rewrite decide_False by lia.
  pose proof (active_stakes_spec stakes) as Hspec. unfold trackers_process_approval.
  destruct (decide (size (active_stakes stakes) = length stakes)) as [Hs|Hs].
  - rewrite (decide_False (P := _ ≠ _)) by tauto. rewrite (decide_False (P := _ ∧ _)) by tauto.
    case_decide; [done|]. by destruct (tracker_process_approval _ _ _ _).
  - rewrite (decide_True (P := _ ≠ _)) by done. by rewrite decide_True by tauto.
Qed.
