(* ===== verification/DoomslugWitness.v ===== *)
(** Concrete runs of a Doomslug instance, which show that the hypotheses of the
    theorems of DoomslugProps.v can hold. *)
From S2P Require Import Prelude Element Crypto Doomslug DoomslugSpec DoomslugProps.

(** One validator holds the stake of both epochs. *)
Definition ex_stakes : stake_list := [(mk_stake [7] 3 5, false)].
Definition ex_approval : ApprovalValidated := mk_validated (mk_content (Endorsement hash_default) 1) [] [7].
Definition ex_ds : Doomslug := doomslug_new 0 0 1 10 2 100 TwoThirds.
Definition ex_ds1 : Doomslug := (on_approval (E := Empty_set) 5 50 ex_approval ex_stakes ex_ds).1.
Definition ex_run1 : ds_run := mk_run ex_ds1 [(ex_approval, ex_stakes)] [].

Lemma ex_stakes_small : small_stakes (active_stakes ex_stakes).
Proof.
  split; [|done|done].
  assert (map_Forall (λ _ s, 0 ≤ s.1 ∧ 0 ≤ s.2) (active_stakes ex_stakes)) as Hall by (by apply (bool_decide_unpack (map_Forall _ _))).
  exact Hall.
Qed.

Lemma ex_step1 : ds_step (mk_run ex_ds [] []) ex_run1.
Proof. apply (step_approval _ _ _ _ 5 50); [done|apply ex_stakes_small|reflexivity]. Qed.
Lemma ex_reach0 : ds_reach TwoThirds (mk_run ex_ds [] []).
Proof. by exists 0, 0, 1, 10, 2, 100. Qed.
Lemma ex_reach1 : ds_reach TwoThirds ex_run1.
Proof. exists 0, 0, 1, 10, 2, 100. apply rtc_once, ex_step1. Qed.


Lemma ready_needs_two_thirds_witness :
  ∃ ap stakes, (ap, stakes) ∈ run_log ex_run1 ∧ ac_target_height (av_content ap) = 1.
Proof.
  destruct (ready_needs_two_thirds ex_run1 6 1 true (ready_to_produce_block (E := Empty_set) 6 1 true ex_ds1).1)
    as (ap & stakes & Hin & Ht & _); [apply ex_reach1|reflexivity|]. by exists ap, stakes.
Defined.

(** The endorsement of a block, then a skip after a silence. *)
Definition ex_clk : nat → Clock := λ _, mk_clock 0 0.
Definition ex_ds2 : Doomslug := on_block 10 [1] 1 0 ex_ds1.
Definition ex_ds3 : Doomslug := (process_timer (E := Empty_set) 30 ex_clk ex_ds2).1.
Definition ex_sent : list ApprovalContent :=
  [mk_content (Endorsement [1]) 2; mk_content (Skip 1) 3].

Lemma ex_reach3 : ds_reach TwoThirds (mk_run ex_ds3 [(ex_approval, ex_stakes)] ex_sent).
Proof.
  exists 0, 0, 1, 10, 2, 100. eapply rtc_l; [apply ex_step1|].
  eapply rtc_l; [apply (step_block _ _ _ 10 [1] 1 0); lia|].
  apply rtc_once. apply (step_timer _ _ _ [] 30 ex_clk ex_sent); [done|reflexivity].
Qed.

Lemma endorsements_exceed_sent_witness : endorsements_fresh ex_sent.
Proof. exact (endorsements_exceed_sent TwoThirds _ ex_reach3). Defined.

Lemma doomslug_bounded_witness : (size (approval_tracking ex_ds3) ≤ 10020)%nat.
Proof. exact (proj1 (proj2 (doomslug_bounded TwoThirds _ ex_reach3))). Defined.

Lemma silence_leads_to_approvals_witness :
  ∃ d' sent, run_timers (E := Empty_set) [(100, ex_clk); (200, ex_clk)] ex_ds = (d', Ok sent) ∧
    ∃ c, c ∈ sent ∧ ac_target_height c = 2.
Proof.
  destruct (silence_leads_to_approvals [(100, ex_clk); (200, ex_clk)] ex_ds) as (d' & sent & Hrun & Hall).
  - split; [done|]. split; done.
  - done.
  - done.
  - done.
  - cbn. lia.
  - exists d', sent. split; [exact Hrun|]. apply Hall. cbn. lia.
Defined.

Definition ex_tracker : DoomslugApprovalsTracker :=
  (tracker_process_approval (tracker_new (active_stakes ex_stakes) TwoThirds) 5 50 ex_approval).1.
Lemma readiness_agrees_witness :
  can_approved_block_be_produced TwoThirds (approvals_of (witness ex_tracker) ex_stakes) (stake_triples ex_stakes)
  = true.
Proof.
  rewrite (readiness_agrees TwoThirds ex_tracker 6 ex_stakes); [reflexivity|..].
  - apply tracker_process_ok, tracker_new_ok, ex_stakes_small.
  - reflexivity.
  - apply NoDup_singleton.
  - by apply Forall_singleton.
  - by apply (bool_decide_unpack (_ ≤ _)).
  - by apply (bool_decide_unpack (_ ≠ _)).
Defined.

Lemma slashed_stakes_panic_witness :
  (on_approval (E := Empty_set) 5 50 ex_approval [(mk_stake [7] 3 5, true)] ex_ds).2 =
  Panic "assertion `left == right` failed".
Proof.
  rewrite (slashed_stakes_panic ex_ds 5 50 ex_approval [(mk_stake [7] 3 5, true)]); [|split; done].
  apply decide_True. split; [split; done|]. intros [_ Hf]. rewrite Forall_singleton in Hf. done.
Defined.

(** With the stand-in signature library, an endorsement and a skip. *)
Lemma approval_sign_validate_witness :
  (∃ a, to_approval (H := toy_crypto) (E := DoomslugError) (mk_content (Endorsement hash_default) 1) (signer_new (H := toy_crypto) true) = Ok a) ∧
  to_approval (H := toy_crypto) (E := DoomslugError) (mk_content (Skip 4) 5) (signer_new (H := toy_crypto) true) =
    Panic "not yet implemented".
Proof.
  pose proof (approval_sign_validate (H := toy_crypto) (H0 := toy_crypto_laws)) as Ht. split.
  - destruct (Ht (mk_content (Endorsement hash_default) 1) true) as (a & Ha & _). by exists a.
  - exact (proj1 (Ht (mk_content (Skip 4) 5) true)).
Defined.
