(* ===== verification/Pool.v ===== *)
(** A pool of values handed out as guards (pkg/primitives/src/pool.rs).

    The pool's mutex guards its values and its queue of waiters; the waiters'
    channels are outside it, so a receiver can go away at any time, also while a
    guard is being returned.  [get] and the destructor of a guard are therefore a
    step relation over the values, the waiters, the channels, the guards in use
    and the destructor that holds the lock. *)
From S2P Require Import Prelude.

(** The channel of a waiter: the receiver is alive, with at most the one guard
    that is ever sent, or gone. *)
Inductive Chan (T : Type) := Open (queued : option T) | Closed.
Arguments Open {T} _.
Arguments Closed {T}.

(** Where the destructor that holds the lock is: before [pop_front], between the
    [is_closed] of a sender and its [send], or, after a failed [send], in the
    destructor of the guard that the error carries, which waits for the lock. *)
Inductive DropAt := AtLoop | Sending (sender : nat) | Relocking.

Record PoolState (T : Type) := mk_pool {
  pool_values : list T;
  pool_waiters : list nat;
  pool_chans : gmap nat (Chan T);
  pool_guards : list T;
  pool_lock : option (T * DropAt);
}.
Arguments mk_pool {T} _ _ _ _ _.
Arguments pool_values {T} _.
Arguments pool_waiters {T} _.
Arguments pool_chans {T} _.
Arguments pool_guards {T} _.
Arguments pool_lock {T} _.

Definition pool_new {T} (values : list T) : PoolState T := mk_pool values [] ∅ [] None.

(** [get], up to the wait: the front value as a guard, or a new waiter named [id]. *)
Definition pool_get {T} (id : nat) (p : PoolState T) : PoolState T :=
  match pool_values p with
  | v :: values => mk_pool values (pool_waiters p) (pool_chans p) (v :: pool_guards p) (pool_lock p)
  | [] => mk_pool [] (pool_waiters p ++ [id]) (<[id := Open None]> (pool_chans p)) (pool_guards p) (pool_lock p)
  end.

(** One step of the destructor that returns [v]: an iteration of the loop up to
    [is_closed], the [send], or the end of the loop. *)
Definition drop_step {T} (v : T) (at_ : DropAt) (p : PoolState T) : option (PoolState T) :=
  match at_ with
  | AtLoop =>
      match pool_waiters p with
      | sender :: waiters =>
          let at_' := match pool_chans p !! sender with Some (Open _) => Sending sender | _ => AtLoop end in
          Some (mk_pool (pool_values p) waiters (pool_chans p) (pool_guards p) (Some (v, at_')))
      | [] => Some (mk_pool (pool_values p ++ [v]) [] (pool_chans p) (pool_guards p) None)
      end
  | Sending sender =>
      match pool_chans p !! sender with
      | Some (Open _) =>
          Some (mk_pool (pool_values p) (pool_waiters p) (<[sender := Open (Some v)]> (pool_chans p))
                  (pool_guards p) None)
      | _ => Some (mk_pool (pool_values p) (pool_waiters p) (pool_chans p) (pool_guards p) (Some (v, Relocking)))
      end
  | Relocking => None
  end.

Inductive pool_step {T} : PoolState T → PoolState T → Prop :=
| step_get p id : pool_lock p = None → pool_chans p !! id = None → pool_step p (pool_get id p)
| step_recv p id v :
    pool_chans p !! id = Some (Open (Some v)) →
    pool_step p (mk_pool (pool_values p) (pool_waiters p) (<[id := Closed]> (pool_chans p))
                   (v :: pool_guards p) (pool_lock p))
| step_cancel p id q :
    (** the caller of [get] is dropped; a guard in its channel is left to its destructor *)
    pool_chans p !! id = Some (Open q) →
    pool_step p (mk_pool (pool_values p) (pool_waiters p) (<[id := Closed]> (pool_chans p))
                   (option_list q ++ pool_guards p) (pool_lock p))
| step_drop p l1 v l2 :
    pool_lock p = None → pool_guards p = l1 ++ v :: l2 →
    pool_step p (mk_pool (pool_values p) (pool_waiters p) (pool_chans p) (l1 ++ l2) (Some (v, AtLoop)))
| step_destructor p p' v at_ :
    pool_lock p = Some (v, at_) → drop_step v at_ p = Some p' → pool_step p p'.

Definition pool_reach {T} (values : list T) (p : PoolState T) : Prop := rtc pool_step (pool_new values) p.

(** * Invariants *)

Section pool.
Context {T : Type}.
Implicit Types p : PoolState T.

(** The values that sit in channels. *)
Definition queued (m : gmap nat (Chan T)) : list T :=
  omap (λ x, match x.2 with Open q => q | Closed => None end) (map_to_list m).
Definition all_values p : list T :=
  pool_values p ++ pool_guards p ++ queued (pool_chans p) ++ option_list (fst <$> pool_lock p).

Record pool_inv p : Prop := {
  pi_idle : pool_values p = [] ∨ pool_waiters p = [];
  pi_waiters id : id ∈ pool_waiters p → pool_chans p !! id = Some (Open None) ∨ pool_chans p !! id = Some Closed;
  pi_nodup : NoDup (pool_waiters p);
  pi_sending v id : pool_lock p = Some (v, Sending id) →
    id ∉ pool_waiters p ∧ (pool_chans p !! id = Some (Open None) ∨ pool_chans p !! id = Some Closed);
}.

Lemma queued_insert m id c :
  queued (<[id := c]> m) ≡ₚ option_list (match c with Open q => q | Closed => None end) ++ queued (delete id m).
Proof.
  unfold queued. rewrite <-insert_delete_eq.
  rewrite map_to_list_insert by apply lookup_delete_eq. cbn. by destruct c as [[v|]|].
Qed.
Lemma queued_delete m id c :
  m !! id = Some c → queued m ≡ₚ option_list (match c with Open q => q | Closed => None end) ++ queued (delete id m).
Proof. intros Hm. rewrite <-queued_insert. by rewrite insert_id. Qed.
Lemma queued_delete_none m id : m !! id = None → queued (delete id m) = queued m.
Proof. intros Hm. by rewrite delete_id. Qed.

(** No step loses or duplicates a value. *)
Lemma step_conserves p p' : pool_inv p → pool_step p p' → all_values p' ≡ₚ all_values p.
Proof.
  intros Hi Hs. unfold all_values. destruct Hs as [p id Hl Hid|p id v Hc|p id q Hc|p l1 v l2 Hl Hg|p p' v at_ Hl Hd].
  - unfold pool_get. rewrite Hl. destruct (pool_values p) as [|v vs]; cbn.
    + rewrite queued_insert. cbn. by rewrite queued_delete_none.
    + solve_Permutation.
  - cbn. rewrite queued_insert, (queued_delete (pool_chans p) _ _ Hc). cbn. solve_Permutation.
  - cbn. rewrite queued_insert, (queued_delete (pool_chans p) _ _ Hc). cbn. solve_Permutation.
  - cbn. rewrite Hl, Hg. cbn. solve_Permutation.
  - rewrite Hl. destruct at_ as [|id|]; cbn in Hd.
    + destruct (pool_waiters p) as [|id ws]; simplify_eq/=; [solve_Permutation|done].
    + destruct (pi_sending _ Hi v id Hl) as [_ [Hc|Hc]]; rewrite Hc in Hd; simplify_eq/=; [|done].
      rewrite queued_insert, (queued_delete (pool_chans p) _ _ Hc). cbn. solve_Permutation.
    + done.
Qed.

Lemma step_keeps p p' : pool_step p p' → pool_inv p → pool_inv p'.
Proof.
  intros Hs [Hidle Hw Hnd Hsend].
  destruct Hs as [p id Hl Hid|p id v Hc|p id q Hc|p l1 v l2 Hl Hg|p p' v at_ Hl Hd].
  - unfold pool_get. destruct (pool_values p) as [|v vs] eqn:Hv.
    + assert (id ∉ pool_waiters p) as Hni by (intros Hin; destruct (Hw id Hin); congruence).
      split; cbn; rewrite ?Hl; try done.
      * by left.
      * intros i [Hin| ->%list_elem_of_singleton]%elem_of_app; [|left; by rewrite lookup_insert_eq].
        rewrite lookup_insert_ne by set_solver. auto.
      * apply NoDup_app. split_and!; [done|set_solver|apply NoDup_singleton].
    + destruct Hidle as [?|Hws]; [done|]. split; cbn; rewrite ?Hl, ?Hws; try done; [by right|set_solver|constructor].
  - assert (id ∉ pool_waiters p) by (intros Hin; destruct (Hw id Hin); congruence).
    split; cbn; try done.
    + intros i Hin. rewrite lookup_insert_ne by set_solver. auto.
    + intros w i Hi. destruct (Hsend w i Hi) as [? Hc']. split; [done|].
      destruct (decide (i = id)) as [->|]; [by destruct Hc'; congruence|]. by rewrite lookup_insert_ne.
  - split; cbn; try done.
    + intros i Hin. destruct (decide (i = id)) as [->|]; [right; by rewrite lookup_insert_eq|].
      rewrite lookup_insert_ne by done. auto.
    + intros w i Hi. destruct (Hsend w i Hi) as [? Hc']. split; [done|].
      destruct (decide (i = id)) as [->|]; [right; by rewrite lookup_insert_eq|]. by rewrite lookup_insert_ne.
  - split; cbn; try done.
  - destruct at_ as [|id|]; cbn in Hd; [destruct (pool_waiters p) as [|id ws] eqn:Hws| |done]; simplify_eq/=.
    + split; cbn; rewrite ?Hws; try done; by right.
    + apply NoDup_cons in Hnd as [Hni Hnd]. destruct Hidle as [Hidle|]; [|done].
      split; cbn; try done.
      * by left.
      * intros i Hin. apply Hw. by right.
      * destruct (Hw id) as [Hc|Hc]; [by left|..]; rewrite Hc; intros w i ?; simplify_eq. by rewrite Hc; auto.
    + destruct (Hsend v id Hl) as [Hni Hc]. destruct Hc as [Hc|Hc]; rewrite Hc in Hd; simplify_eq.
      * split; cbn; try done. intros i Hin. rewrite lookup_insert_ne by set_solver. auto.
      * split; cbn; try done.
Qed.

Lemma pool_reach_inv values p : pool_reach values p → pool_inv p ∧ all_values p ≡ₚ values.
Proof.
  intros Hr. assert (pool_inv (pool_new values)) as H0.
  { split; cbn; try done; [by right|set_solver|constructor]. }
  assert (all_values (pool_new values) ≡ₚ values) as H1 by (unfold all_values, queued; cbn; by rewrite app_nil_r).
  unfold pool_reach in Hr. revert H0 H1. generalize (pool_new values) as p0, Hr. clear Hr.
  intros p0 Hr. induction Hr as [|p0 p1 p2 Hs _ IH]; [done|]. intros Hi Hp. apply IH.
  - by eapply step_keeps.
  - etransitivity; [by apply step_conserves|done].
Qed.

(** Whatever the callers do, also when they give up while waiting, no value of
    the pool is lost or handed out twice: the free ones, those in guards, in
    channels and in a destructor are together those the pool was made with; and
    nobody waits while a value is free. *)
Theorem pool_conserves values p :
  pool_reach values p → all_values p ≡ₚ values ∧ (pool_values p = [] ∨ pool_waiters p = []).
Proof. intros [Hi Hp]%pool_reach_inv. split; [done|apply Hi]. Qed.

(** The effect of returning [v]: the closed waiters at the front are dropped. *)
Fixpoint hand_over (v : T) (waiters : list nat) p : PoolState T :=
  match waiters with
  | [] => mk_pool (pool_values p ++ [v]) [] (pool_chans p) (pool_guards p) None
  | id :: waiters =>
      match pool_chans p !! id with
      | Some (Open _) =>
          mk_pool (pool_values p) waiters (<[id := Open (Some v)]> (pool_chans p)) (pool_guards p) None
      | _ => hand_over v waiters p
      end
  end.

(** A destructor that no receiver disturbs ends, and gives the value to the
    waiter that has waited longest among those still there, or back to the pool
    when there is none. *)
Theorem drop_hands_over p v :
  pool_lock p = Some (v, AtLoop) → rtc pool_step p (hand_over v (pool_waiters p) p).
Proof.
  destruct p as [vs ws chans gs lock]. cbn [pool_lock pool_waiters]. intros ->.
  assert (∀ l ws', rtc pool_step (mk_pool vs l chans gs (Some (v, AtLoop)))
    (hand_over v l (mk_pool vs ws' chans gs (Some (v, AtLoop))))) as Hgen; [|by apply Hgen].
  intros l ws'. induction l as [|id l IH]; cbn [hand_over pool_chans].
  { apply rtc_once. by apply (step_destructor _ _ v AtLoop). }
  destruct (chans !! id) as [[q|]|] eqn:Hc;
    (eapply rtc_l; [apply (step_destructor _ _ v AtLoop); [done|cbn; by rewrite Hc]|]); [|done|done].
  apply rtc_once. apply (step_destructor _ _ v (Sending id)); [done|]. cbn. by rewrite Hc.
Qed.

(** A receiver that goes away between [is_closed] and [send] makes the pool
    unusable for good: the guard that [send] gives back is dropped while the lock
    is held, its destructor waits for that lock, and from then on no value is
    handed out or returned. *)
Theorem failed_send_deadlocks p p' v id :
  pool_lock p = Some (v, Sending id) → pool_chans p !! id = Some Closed →
  pool_step p (mk_pool (pool_values p) (pool_waiters p) (pool_chans p) (pool_guards p) (Some (v, Relocking))) ∧
  (rtc pool_step (mk_pool (pool_values p) (pool_waiters p) (pool_chans p) (pool_guards p) (Some (v, Relocking))) p' →
   pool_lock p' = Some (v, Relocking) ∧ pool_values p' = pool_values p ∧ pool_waiters p' = pool_waiters p).
Proof.
  intros Hl Hc. split.
  - apply (step_destructor _ _ v (Sending id)); [done|]. cbn. by rewrite Hc.
  - set (q := mk_pool _ _ _ _ _). intros Hr.
    assert (pool_lock q = Some (v, Relocking) ∧ pool_values q = pool_values p ∧ pool_waiters q = pool_waiters p)
      as Hq by done. clearbody q. revert Hq. induction Hr as [|a b c Hs _ IH]; [done|].
    intros (Ha & Hv & Hw). apply IH. destruct Hs; cbn; try done; try congruence. by simplify_eq.
Qed.
End pool.

(** The deadlock can be reached with one value, one waiter and one guard. *)
Definition stuck_pool : PoolState Z := mk_pool [] [] {[ 1%nat := Closed ]} [] (Some (5, Sending 1)).
Lemma stuck_pool_reach : pool_reach [5] stuck_pool.
Proof.
  eapply rtc_l; [apply (step_get _ 0%nat); done|].
  eapply rtc_l; [apply (step_get _ 1%nat); done|].
  eapply rtc_l; [apply (step_drop _ [] 5 []); done|].
  eapply rtc_l; [by apply (step_destructor _ _ 5 AtLoop)|].
  apply rtc_once.
  exact (step_cancel (mk_pool [] [] {[ 1%nat := Open None ]} [] (Some (5, Sending 1))) 1%nat None eq_refl).
Qed.

Lemma pool_conserves_witness : all_values stuck_pool ≡ₚ [5].
Proof. exact (proj1 (pool_conserves [5] stuck_pool stuck_pool_reach)). Defined.
Lemma drop_hands_over_witness :
  rtc pool_step (mk_pool [] [1%nat] {[ 1%nat := Open None ]} [] (Some (5, AtLoop)))
    (mk_pool [] [] {[ 1%nat := Open (Some 5) ]} [] None).
Proof. exact (drop_hands_over (mk_pool [] [1%nat] {[ 1%nat := Open None ]} [] (Some (5, AtLoop))) 5 eq_refl). Defined.
Lemma failed_send_deadlocks_witness :
  pool_step stuck_pool (mk_pool [] [] {[ 1%nat := Closed ]} [] (Some (5, Relocking))).
Proof. exact (proj1 (failed_send_deadlocks stuck_pool stuck_pool 5 1 eq_refl eq_refl)). Defined.
