(* ===== verification/Batch.v ===== *)
(** Batching of asynchronous calls (pkg/primitives/src/batch.rs).

    Callers append an item and a channel to a queue behind a mutex and one of them
    spawns the scheduler task, which sleeps, takes the queue, runs the processor
    and answers the callers.  Each critical section of the code is a function; the
    interleavings of the callers with the scheduler are a step relation.  Times
    are in nanoseconds; a oneshot channel is the name of its receiver. *)
From S2P Require Import Prelude.

Section batch.
Context {Item R Er : Type}.

Inductive BatchError := TaskDropped | ProcessorError (e : Er).
Definition ProcessResult : Type := (R + BatchError)%type.

Record BatchConfig := mk_batch_config { batch_delay_ms : Z; min_interval_ms : Z }.
Definition batch_config_default : BatchConfig := mk_batch_config 10 100.

Record BatchQueue := mk_queue {
  bq_items : list (Item * nat);
  next_execution : option Z;
  last_execution : option Z;
  processing : bool;
}.
Definition queue_new : BatchQueue := mk_queue [] None None false.

(** [Duration::from_millis] *)
Definition millis (ms : Z) : Z := ms * 10 ^ 6.

(** * The critical sections *)

(** [call]: the item is queued; the result says whether to spawn a scheduler. *)
Definition call_section (cfg : BatchConfig) (now : Z) (item : Item) (tx : nat) (q : BatchQueue)
  : BatchQueue * bool :=
  let items := bq_items q ++ [(item, tx)] in
  match next_execution q, processing q with
  | None, false =>
      let next_time :=
        match last_execution q with
        | Some last_exec => Z.max (last_exec + millis (min_interval_ms cfg)) (now + millis (batch_delay_ms cfg))
        | None => now + millis (batch_delay_ms cfg)
        end in
      (mk_queue items (Some next_time) (last_execution q) (processing q), true)
  | _, _ => (mk_queue items (next_execution q) (last_execution q) (processing q), false)
  end.

(** [schedule_next_batch] computes how long to sleep, *)
Definition wait_section (now : Z) (q : BatchQueue) : option Z :=
  match next_execution q with
  | Some next_time => Some (if decide (next_time > now) then next_time - now else 0)
  | None => None
  end.
(** takes the items, *)
Definition take_section (q : BatchQueue) : BatchQueue * list (Item * nat) :=
  (mk_queue [] None (last_execution q) true, bq_items q).

(** answers the callers, *)
Definition answer_of (r : list R + Er) (i : nat) : ProcessResult :=
  match r with
  | inl results => match results !! i with Some x => inl x | None => inr TaskDropped end
  | inr e => inr (ProcessorError e)
  end.
Definition send_all (items : list (Item * nat)) (r : list R + Er) : list (nat * ProcessResult) :=
  imap (λ i it, (it.2, answer_of r i)) items.

(** and sets the time of the next batch: [now1] is read for [last_execution],
    [now2] for [now] and [now3] for [elapsed]. *)
Definition done_section (now1 now2 now3 : Z) (q : BatchQueue) : BatchQueue * bool :=
  match bq_items q, next_execution q with
  | _ :: _, None =>
      let min_next := now1 + millis (saturating_sub now3 now1 / 10 ^ 6) in
      (mk_queue (bq_items q) (Some (Z.max min_next now2)) (Some now1) false, true)
  | _, _ => (mk_queue (bq_items q) (next_execution q) (Some now1) false, false)
  end.

(** * The scheduler task *)

Inductive Sched := SStart | SSleep (wake : Z) | SRun (items : list (Item * nat)) | SDone.

(** The clock readings of a step and the processor, which may panic. *)
Record Env := mk_env {
  env_now1 : Z; env_now2 : Z; env_now3 : Z;
  process_batch : list Item → outcome Er (list R);
}.

(** One step: the queue, where the task is next (if it goes on), the answers. *)
Definition task_step (env : Env) (pc : Sched) (q : BatchQueue)
  : BatchQueue * option Sched * list (nat * ProcessResult) :=
  match pc with
  | SStart =>
      match wait_section (env_now1 env) q with
      | None => (q, None, [])
      | Some d => (q, Some (SSleep (env_now1 env + d)), [])
      end
  | SSleep _ =>
      let '(q, items) := take_section q in
      (q, Some (match items with [] => SDone | _ => SRun items end), [])
  | SRun items =>
      match process_batch env items.*1 with
      | Ok results => (q, Some SDone, send_all items (inl results))
      | Err e => (q, Some SDone, send_all items (inr e))
      | Panic _ => (q, None, send_all items (inl []))
      end
  | SDone =>
      let '(q, again) := done_section (env_now1 env) (env_now2 env) (env_now3 env) q in
      (q, if again then Some SStart else None, [])
  end.

(** * Interleavings *)

(** The queue, the running scheduler tasks, the answers received, the batches
    processed so far with their outcomes, and the number of calls made. *)
Record Batch := mk_batch {
  b_config : BatchConfig;
  b_queue : BatchQueue;
  b_tasks : list Sched;
  b_answers : gmap nat ProcessResult;
  b_log : list (list (Item * nat) * (list R + Er));
  b_calls : nat;
}.
Definition batch_new (cfg : BatchConfig) : Batch := mk_batch cfg queue_new [] ∅ [] 0.

Definition batch_call (now : Z) (item : Item) (b : Batch) : Batch :=
  let '(q, spawn) := call_section (b_config b) now item (b_calls b) (b_queue b) in
  mk_batch (b_config b) q (b_tasks b ++ if spawn then [SStart] else []) (b_answers b) (b_log b) (S (b_calls b)).
Definition update_config (cfg : BatchConfig) (b : Batch) : Batch :=
  mk_batch cfg (b_queue b) (b_tasks b) (b_answers b) (b_log b) (b_calls b).

Definition record_answers (l : list (nat * ProcessResult)) (m : gmap nat ProcessResult) : gmap nat ProcessResult :=
  list_to_map l ∪ m.
Definition logged (env : Env) (pc : Sched) : list (list (Item * nat) * (list R + Er)) :=
  match pc with
  | SRun items =>
      match process_batch env items.*1 with Ok rs => [(items, inl rs)] | Err e => [(items, inr e)] | Panic _ => [] end
  | _ => []
  end.

(** The task at position [length l1] makes a step. *)
Definition batch_task (env : Env) (l1 : list Sched) (pc : Sched) (l2 : list Sched) (b : Batch) : Batch :=
  let '(q, pc', answers) := task_step env pc (b_queue b) in
  mk_batch (b_config b) q (l1 ++ option_list pc' ++ l2) (record_answers answers (b_answers b))
    (b_log b ++ logged env pc) (b_calls b).

Definition panics (env : Env) (pc : Sched) : bool :=
  match pc with
  | SRun items => match process_batch env items.*1 with Panic _ => true | _ => false end
  | _ => false
  end.
(** A sleeping task goes on once its time has come. *)
Definition awake (env : Env) (pc : Sched) : Prop := match pc with SSleep wake => wake ≤ env_now1 env | _ => True end.

(** [n] counts the steps of scheduler tasks; no processor panics. *)
Inductive batch_steps : nat → Batch → Batch → Prop :=
| steps_refl b : batch_steps 0 b b
| steps_call n b b' now item : batch_steps n (batch_call now item b) b' → batch_steps n b b'
| steps_config n b b' cfg : batch_steps n (update_config cfg b) b' → batch_steps n b b'
| steps_task n b b' env l1 pc l2 :
    b_tasks b = l1 ++ pc :: l2 → awake env pc → panics env pc = false →
    batch_steps n (batch_task env l1 pc l2 b) b' → batch_steps (S n) b b'.

Definition batch_reach (b : Batch) : Prop := ∃ cfg n, batch_steps n (batch_new cfg) b.

(** * The invariant *)

Definition running (l : list Sched) : list nat :=
  mjoin ((λ pc, match pc with SRun items => items.*2 | _ => [] end) <$> l).
(** The callers that wait for an answer. *)
Definition waiting (b : Batch) : list nat := (bq_items (b_queue b)).*2 ++ running (b_tasks b).

Definition one_scheduler (b : Batch) : Prop :=
  let q := b_queue b in
  match b_tasks b with
  | [] => next_execution q = None ∧ processing q = false ∧ bq_items q = []
  | [SStart] | [SSleep _] => is_Some (next_execution q) ∧ processing q = false
  | [SRun _] | [SDone] => next_execution q = None ∧ processing q = true
  | _ => False
  end.

Record batch_inv (b : Batch) : Prop := {
  bi_one : one_scheduler b;
  bi_nodup : NoDup (waiting b);
  bi_calls id : id ∈ waiting b ∨ is_Some (b_answers b !! id) ↔ (id < b_calls b)%nat;
  bi_once id : id ∈ waiting b → b_answers b !! id = None;
  bi_answers id r : b_answers b !! id = Some r →
    ∃ items res i item, (items, res) ∈ b_log b ∧ items !! i = Some (item, id) ∧ r = answer_of res i;
}.

Lemma waiting_task b l1 pc l2 : b_tasks b = l1 ++ pc :: l2 → one_scheduler b → l1 = [] ∧ l2 = [] ∧ b_tasks b = [pc].
Proof.
  intros Hb. unfold one_scheduler. rewrite Hb. destruct l1 as [|x l1]; cbn.
  - destruct l2 as [|y l2]; [done|]. by destruct pc.
  - destruct l1; cbn; by destruct x.
Qed.

Lemma running_app l1 l2 : running (l1 ++ l2) = running l1 ++ running l2.
Proof. unfold running. by rewrite fmap_app, join_app. Qed.

(** A call adds its caller to those that wait. *)
Lemma call_waiting now item b : waiting (batch_call now item b) ≡ₚ b_calls b :: waiting b.
Proof.
  unfold batch_call, call_section, waiting.
  destruct (next_execution (b_queue b)), (processing (b_queue b)); cbn [bq_items b_queue b_tasks fst snd];
    rewrite fmap_app, running_app; cbn; rewrite ?app_nil_r; solve_Permutation.
Qed.

Lemma call_inv now item b : batch_inv b → batch_inv (batch_call now item b).
Proof.
  intros [Ho Hnd Hc Hon Ha]. pose proof (call_waiting now item b) as Hw.
  assert (b_calls b ∉ waiting b) as Hfresh.
  { intros Hin. assert (b_calls b < b_calls b)%nat; [apply Hc; by left|lia]. }
  assert (b_answers b !! b_calls b = None) as Hnone.
  { apply eq_None_not_Some. intros Hs. assert (b_calls b < b_calls b)%nat; [apply Hc; by right|lia]. }
  assert (b_calls (batch_call now item b) = S (b_calls b) ∧ b_answers (batch_call now item b) = b_answers b ∧
    b_log (batch_call now item b) = b_log b) as (Hcalls & Hans & Hlog).
  { unfold batch_call. by destruct (call_section _ _ _ _ _). }
  split; rewrite ?Hcalls, ?Hans, ?Hlog; try done.
  - unfold one_scheduler, batch_call, call_section in *.
    destruct (next_execution (b_queue b)), (processing (b_queue b)); cbn; rewrite ?app_nil_r;
      destruct (b_tasks b) as [|[] []]; cbn in *; naive_solver.
  - rewrite Hw. by constructor.
  - intros id. rewrite Hw, elem_of_cons. rewrite (Nat.lt_succ_r id), Nat.le_lteq, <-Hc. naive_solver.
  - intros id. rewrite Hw, elem_of_cons. naive_solver.
Qed.

Lemma send_all_lookup (items : list (Item * nat)) (r : list R + Er) i item id :
  NoDup items.*2 → items !! i = Some (item, id) → list_to_map (M := gmap nat _) (send_all items r) !! id = Some (answer_of r i).
Proof.
  intros Hnd Hi. apply elem_of_list_to_map_1.
  - unfold send_all. rewrite fmap_imap. pose proof (imap_const snd items) as He. unfold const in He. by setoid_rewrite He.
  - apply list_elem_of_lookup. exists i. unfold send_all. rewrite list_lookup_imap, Hi. done.
Qed.
Lemma send_all_inv (items : list (Item * nat)) (r : list R + Er) id x :
  list_to_map (M := gmap nat _) (send_all items r) !! id = Some x →
  ∃ i item, items !! i = Some (item, id) ∧ x = answer_of r i.
Proof.
  intros Hin%elem_of_list_to_map_2. apply list_elem_of_lookup in Hin as [i Hi]. unfold send_all in Hi.
  rewrite list_lookup_imap in Hi. destruct (items !! i) as [[item id']|] eqn:He; cbn in Hi; [|done].
  simplify_eq. eauto.
Qed.

(** The batch is processed and its callers are answered. *)
Lemma run_task_inv env b items :
  panics env (SRun items) = false → b_tasks b = [SRun items] → batch_inv b →
  batch_inv (batch_task env [] (SRun items) [] b).
Proof.
  intros Hp Hb [Ho Hnd Hc Hon Ha]. unfold batch_task.
  assert (waiting b = (bq_items (b_queue b)).*2 ++ running [SRun items]) as Hwb by (unfold waiting; by rewrite Hb).
  unfold one_scheduler in Ho. rewrite Hb in Ho. cbn [task_step logged].
  cbn in Hp, Hwb. rewrite app_nil_r in Hwb. rewrite Hwb in *. apply NoDup_app in Hnd as (Hnd1 & Hdis & Hnd2).
  assert (∃ res, task_step env (SRun items) (b_queue b) = (b_queue b, Some SDone, send_all items res) ∧
    logged env (SRun items) = [(items, res)]) as (res & Hst & Hlog).
  { cbn. destruct (process_batch env items.*1); [by eexists|by eexists|done]. }
  cbn in Hst, Hlog. rewrite Hst, Hlog.
  split; unfold one_scheduler, waiting, record_answers; cbn [b_tasks b_queue b_calls b_answers b_log running mjoin];
    cbn; rewrite ?app_nil_r; try done.
  + intros id. rewrite <-Hc, elem_of_app, lookup_union_is_Some.
    assert (is_Some (list_to_map (M := gmap nat _) (send_all items res) !! id) ↔ id ∈ items.*2) as ->; [|tauto].
    split.
    * intros [x (i & item & Hi & _)%send_all_inv]. apply list_elem_of_fmap. exists (item, id). split; [done|].
      by eapply list_elem_of_lookup_2.
    * intros ([item id'] & -> & [i Hi]%list_elem_of_lookup)%list_elem_of_fmap. cbn. eexists. by eapply send_all_lookup.
  + intros id Hin. apply lookup_union_None. split; [|apply Hon; apply elem_of_app; by left].
    apply eq_None_not_Some. intros [x (i & item & Hi & _)%send_all_inv]. apply (Hdis id Hin).
    apply list_elem_of_fmap. exists (item, id). split; [done|]. by eapply list_elem_of_lookup_2.
  + intros id r [(i & item & Hi & ->)%send_all_inv|[_ Hold]]%lookup_union_Some_raw.
    * exists items, res, i, item. split_and!; [apply elem_of_app; right; by left|done|done].
    * destruct (Ha _ _ Hold) as (items' & res' & i & item & Hl & ? & ?).
      exists items', res', i, item. split_and!; [apply elem_of_app; by left|done|done].
Qed.

(** The steps of the only task. *)
Lemma task_inv env b pc :
  panics env pc = false → b_tasks b = [pc] → batch_inv b → batch_inv (batch_task env [] pc [] b).
Proof.
  intros Hp Hb Hinv. pose proof Hinv as [Ho Hnd Hc Hon Ha].
  assert (waiting b = (bq_items (b_queue b)).*2 ++ running [pc]) as Hwb by (unfold waiting; by rewrite Hb).
  unfold one_scheduler in Ho. rewrite Hb in Ho.
  destruct pc as [|wake|items|]; [| |by apply run_task_inv|]; unfold batch_task; cbn [task_step logged]; clear Hinv.
  - unfold wait_section. destruct Ho as [[t Ht] Hpr]. rewrite Ht.
    split; unfold one_scheduler, waiting, record_answers in *; cbn in *; rewrite ?Hb, ?app_nil_r, ?(left_id_L ∅ (∪)) in *; eauto.
  - unfold take_section.
    set (pc' := match bq_items (b_queue b) with [] => SDone | _ => _ end).
    set (b' := mk_batch _ _ _ _ _ _).
    assert (waiting b' = waiting b) as Hw.
    { rewrite Hwb. unfold b', waiting, pc'. cbn. rewrite !app_nil_r.
      destruct (bq_items (b_queue b)) eqn:Hi; cbn; by rewrite ?app_nil_r. }
    split; rewrite ?Hw; unfold b', record_answers in *; cbn [b_calls b_answers b_log]; rewrite ?app_nil_r;
      cbn [list_to_map foldr]; rewrite ?(left_id_L ∅ (∪)); eauto.
    unfold one_scheduler, pc'. cbn. by destruct (bq_items (b_queue b)).
  - unfold done_section. destruct Ho as [Hn Hpr]. rewrite Hn.
    destruct (bq_items (b_queue b)) as [|it l] eqn:Hi;
      split; unfold one_scheduler, waiting, record_answers in *; cbn in *; rewrite ?Hb, ?Hi, ?app_nil_r in *;
      cbn in *; rewrite ?app_nil_r, ?(left_id_L ∅ (∪)) in *; eauto.
Qed.

Lemma steps_inv n b b' : batch_steps n b b' → batch_inv b → batch_inv b'.
Proof.
  induction 1 as [b|n b b' now item _ IH|n b b' cfg _ IH|n b b' env l1 pc l2 Hb _ Hp _ IH]; intros Hi; [done|..].
  - apply IH. by apply call_inv.
  - apply IH. by destruct Hi; split.
  - apply IH. destruct (waiting_task _ _ _ _ Hb (bi_one _ Hi)) as (-> & -> & ?). by apply task_inv.
Qed.

Lemma new_inv cfg : batch_inv (batch_new cfg).
Proof.
  split; [done|constructor|..]; cbn.
  - intros id. rewrite lookup_empty. split; [|lia]. by intros [?%elem_of_nil|[? ?]].
  - by intros id ?%elem_of_nil.
  - intros id r. by rewrite lookup_empty.
Qed.
Lemma reach_batch_inv b : batch_reach b → batch_inv b.
Proof. intros (cfg & n & Hs). eapply steps_inv; [done|apply new_inv]. Qed.

(** * Properties *)


(** How many steps of the scheduler are left until [id] is answered. *)
Definition rank (id : nat) (b : Batch) : nat :=
  if decide (id ∈ waiting b) then
    match b_tasks b with
    | [SStart] => 3 | [SSleep _] => 2 | [SDone] => 4
    | [SRun items] => if decide (id ∈ items.*2) then 1 else 5
    | _ => 0
    end
  else 0.

Lemma call_rank now item b id : batch_inv b → id ∈ waiting b →
  id ∈ waiting (batch_call now item b) ∧ rank id (batch_call now item b) = rank id b.
Proof.
  intros Hi Hin. assert (id ∈ waiting (batch_call now item b)) as Hin'.
  { rewrite call_waiting. by right. }
  split; [done|]. unfold rank. rewrite !decide_True by done.
  unfold batch_call, call_section. destruct Hi as [Ho _ _ _ _]. unfold one_scheduler in Ho.
  destruct (next_execution (b_queue b)) eqn:Hn; [|destruct (processing (b_queue b)) eqn:Hp]; cbn; rewrite ?app_nil_r; [done|done|].
  destruct (b_tasks b) as [|[] []] eqn:Ht; try done; try naive_solver.
  destruct Ho as (_ & _ & Hit). unfold waiting in Hin. rewrite Hit, Ht in Hin. by apply elem_of_nil in Hin.
Qed.

Lemma task_rank env b pc id :
  panics env pc = false → b_tasks b = [pc] → batch_inv b → id ∈ waiting b →
  let b' := batch_task env [] pc [] b in
  is_Some (b_answers b' !! id) ∨ (id ∈ waiting b' ∧ S (rank id b') = rank id b).
Proof.
  intros Hp Hb Hi Hin b'. pose proof (task_inv env b pc Hp Hb Hi) as Hi'. fold b' in Hi'.
  assert (b_calls b' = b_calls b) as Hcalls.
  { unfold b', batch_task. by destruct (task_step env pc (b_queue b)) as [[q o] l]. }
  destruct (decide (id ∈ waiting b')) as [Hin'|Hout].
  2: { left. assert (id < b_calls b')%nat as Hlt by (rewrite Hcalls; apply (bi_calls _ Hi); by left).
       apply (bi_calls _ Hi') in Hlt. tauto. }
  right. split; [done|]. unfold rank. rewrite !decide_True by done. rewrite Hb.
  destruct Hi as [Ho Hnd _ _ _]. unfold one_scheduler in Ho. rewrite Hb in Ho.
  unfold waiting in Hin, Hnd. rewrite Hb in Hin, Hnd.
  unfold b', waiting, batch_task in *. destruct pc as [|wake|items|]; cbn in *.
  - unfold wait_section in *. destruct Ho as [[t Ht] _]. by rewrite Ht in *.
  - destruct (bq_items (b_queue b)) as [|it l] eqn:Hit; cbn in *; [by apply elem_of_nil in Hin|].
    rewrite decide_True; [done|]. by rewrite app_nil_r in Hin.
  - rewrite app_nil_r in Hnd. apply NoDup_app in Hnd as (_ & Hdis & _).
    destruct (process_batch env items.*1); cbn in *; rewrite ?app_nil_r in *; [..|done];
      (rewrite decide_False; [done|by apply Hdis]).
  - unfold done_section in *. destruct Ho as [Hn _]. rewrite Hn in *.
    destruct (bq_items (b_queue b)) as [|it l] eqn:Hit; cbn in *; [|done].
    rewrite ?Hit in Hin'. cbn in Hin'. by apply elem_of_nil in Hin'.
Qed.

Lemma answers_kept n b b' id : batch_steps n b b' → batch_inv b → is_Some (b_answers b !! id) → is_Some (b_answers b' !! id).
Proof.
  induction 1 as [b|n b b' now item _ IH|n b b' cfg _ IH|n b b' env l1 pc l2 Hb _ Hp _ IH]; intros Hi Hs; [done|..].
  - apply IH; [by apply call_inv|]. unfold batch_call. by destruct (call_section _ _ _ _ _).
  - apply IH; [|done]. by destruct Hi; split.
  - destruct (waiting_task _ _ _ _ Hb (bi_one _ Hi)) as (-> & -> & ?). apply IH; [by apply task_inv|].
    unfold batch_task. destruct (task_step _ _ _) as [[q o] l]. cbn. apply lookup_union_is_Some. by right.
Qed.

Lemma rank_bound n b b' id : batch_steps n b b' → batch_inv b → id ∈ waiting b →
  (rank id b ≤ n)%nat → is_Some (b_answers b' !! id).
Proof.
  assert (∀ b, batch_inv b → id ∈ waiting b → (1 ≤ rank id b)%nat) as Hpos.
  { intros b0 [Ho _ _ _ _] Hin. unfold rank. rewrite decide_True by done. unfold one_scheduler in Ho.
    unfold waiting in Hin. destruct (b_tasks b0) as [|[] []]; try lia; try done; [|case_decide; lia].
    destruct Ho as (_ & _ & Hq). rewrite Hq in Hin. by apply elem_of_nil in Hin. }
  induction 1 as [b|n b b' now item _ IH|n b b' cfg _ IH|n b b' env l1 pc l2 Hb _ Hp Hs IH]; intros Hi Hin Hr.
  - pose proof (Hpos b Hi Hin). lia.
  - destruct (call_rank now item b id Hi Hin) as [Hin' Hr']. apply IH; [by apply call_inv|done|by rewrite Hr'].
  - apply IH; [by destruct Hi; split|done|done].
  - destruct (waiting_task _ _ _ _ Hb (bi_one _ Hi)) as (-> & -> & Ht).
    destruct (task_rank env b pc id Hp Ht Hi Hin) as [Hs'|[Hin' Hr']].
    + eapply answers_kept; [done|by apply task_inv|done].
    + apply IH; [by apply task_inv|done|lia].
Qed.


(** A processor that panics stops the batch for good: its callers are told that
    the task was dropped, but [processing] stays set, so that no later caller ever
    gets a scheduler or an answer. *)
Theorem processor_panic_wedges env b b' items n :
  batch_reach b → b_tasks b = [SRun items] → panics env (SRun items) = true →
  let b1 := batch_task env [] (SRun items) [] b in
  (∀ id, id ∈ items.*2 → b_answers b1 !! id = Some (inr TaskDropped)) ∧
  (batch_steps n b1 b' → n = 0%nat ∧ ∀ id, (b_calls b1 ≤ id < b_calls b')%nat → b_answers b' !! id = None).
Proof.
  intros Hi%reach_batch_inv Hb Hp. cbn zeta.
  assert (∀ id, (b_calls b ≤ id)%nat → b_answers b !! id = None) as Hnone.
  { intros id Hid. apply eq_None_not_Some. intros Hs. assert (id < b_calls b)%nat; [apply (bi_calls _ Hi); by right|lia]. }
  destruct Hi as [Ho Hnd Hc Hon _]. unfold one_scheduler in Ho. rewrite Hb in Ho. destruct Ho as [Hn Hpr].
  unfold waiting in *. rewrite Hb in *. cbn in Hnd, Hp. rewrite app_nil_r in Hnd.
  apply NoDup_app in Hnd as (_ & _ & Hnd). unfold batch_task. cbn [task_step].
  destruct (process_batch env items.*1) as [| |m]; [done|done|]. cbn. split.
  - intros id ([item id'] & -> & [i Hi]%list_elem_of_lookup)%list_elem_of_fmap.
    apply lookup_union_Some_l. exact (send_all_lookup items (inl []) i item _ Hnd Hi).
  - set (b1 := mk_batch _ _ _ _ _ _). intros Hs.
    assert (b_tasks b1 = [] ∧ next_execution (b_queue b1) = None ∧ processing (b_queue b1) = true ∧
      ∀ id, (b_calls b ≤ id)%nat → b_answers b1 !! id = None) as Hst.
    { split_and!; try done. intros id Hid. apply lookup_union_None. split; [|by apply Hnone].
      apply eq_None_not_Some. intros [x (i & item & Hi & _)%send_all_inv].
      assert (id < b_calls b)%nat; [|lia]. apply Hc. left. apply elem_of_app. right. cbn. rewrite app_nil_r.
      apply list_elem_of_fmap. exists (item, id). split; [done|]. by eapply list_elem_of_lookup_2. }
    change (n = 0%nat ∧ ∀ id, (b_calls b ≤ id < b_calls b')%nat → b_answers b' !! id = None).
    clearbody b1. revert Hst. induction Hs as [b1|n b1 b' now item _ IH|n b1 b' cfg _ IH|n b1 b' env' l1 pc l2 Hb1 _ _ _ _].
    + intros (_ & _ & _ & Hst). split; [done|]. intros id [? _]. by apply Hst.
    + intros (Ht & Hne & Hpr' & Hst). apply IH. unfold batch_call, call_section. rewrite Hne, Hpr'. cbn.
      by rewrite Ht.
    + intros Hst. by apply IH.
    + intros (Ht & _). rewrite Ht in Hb1. by destruct l1.
Qed.

(** The throttle. A batch that a call schedules starts no earlier than
    [min_interval_ms] after the last one; a batch that follows because items
    arrived during processing is due at once: its time is not after the clock
    reading that ends the previous batch, whatever the configured interval. *)
Theorem batch_throttle cfg now item tx q now1 now2 now3 :
  (∀ last t, last_execution q = Some last → processing q = false → next_execution q = None →
     next_execution (call_section cfg now item tx q).1 = Some t → last + millis (min_interval_ms cfg) ≤ t) ∧
  (now1 ≤ now2 ≤ now3 → (done_section now1 now2 now3 q).2 = true →
     ∃ t, next_execution (done_section now1 now2 now3 q).1 = Some t ∧ t ≤ now3 ∧
       wait_section now3 (done_section now1 now2 now3 q).1 = Some 0).
Proof.
  split.
  - intros last t Hl Hp Hn. unfold call_section. rewrite Hn, Hp, Hl. cbn. intros [= <-]. lia.
  - intros Hnow. unfold done_section, wait_section, millis.
    destruct (bq_items q) as [|it l]; [by destruct (next_execution q)|].
    destruct (next_execution q); [done|]. intros _. eexists. split; [done|]. cbn [fst next_execution].
    pose proof (Z.mul_div_le (saturating_sub now3 now1) (10 ^ 6)) as Hd. unfold saturating_sub in *.
    split; [lia|]. rewrite decide_False by lia. done.
Qed.
End batch.
Arguments BatchError : clear implicits.
Arguments ProcessResult : clear implicits.
Arguments BatchQueue : clear implicits.
Arguments Sched : clear implicits.
Arguments Env : clear implicits.
Arguments Batch : clear implicits.

(** * A run with two callers *)

Definition ex_env : Env Z Z string := mk_env 20000000 20000000 20000000 (λ l, Ok ((λ x, x * 2) <$> l)).
Definition ex_panic_env : Env Z Z string := mk_env 20000000 20000000 20000000 (λ _, Panic "processor").
Definition ex_b2 : Batch Z Z string := batch_call 5 4 (batch_call 0 3 (batch_new batch_config_default)).
Definition ex_b3 : Batch Z Z string := batch_task ex_env [] SStart [] ex_b2.
Definition ex_b4 : Batch Z Z string := batch_task ex_env [] (SSleep 20000000) [] ex_b3.

Lemma ex_b4_steps : batch_steps 2 (batch_new batch_config_default) ex_b4.
Proof.
  apply (steps_call _ _ _ 0 3), (steps_call _ _ _ 5 4).
  apply (steps_task _ _ _ ex_env [] SStart []); [done|done|done|].
  apply (steps_task _ _ _ ex_env [] (SSleep 20000000) []); [done|done|done|]. apply steps_refl.
Qed.
Lemma ex_b4_reach : batch_reach ex_b4.
Proof. exists batch_config_default, 2%nat. apply ex_b4_steps. Qed.
Lemma ex_b2_reach : batch_reach ex_b2.
Proof. exists batch_config_default, 0%nat. apply (steps_call _ _ _ 0 3), (steps_call _ _ _ 5 4), steps_refl. Qed.



Lemma processor_panic_wedges_witness :
  b_answers (batch_task ex_panic_env [] (SRun [(3, 0%nat); (4, 1%nat)]) [] ex_b4) !! 1%nat = Some (inr TaskDropped).
Proof.
  apply (proj1 (processor_panic_wedges ex_panic_env ex_b4 ex_b4 [(3, 0%nat); (4, 1%nat)] 0 ex_b4_reach eq_refl eq_refl)).
  cbn. set_solver.
Defined.

(** With an interval of 100 ms, the second of two batches starts right away. *)
Lemma batch_throttle_witness :
  ∃ t, next_execution (done_section 0 0 0 (mk_queue [(3, 0%nat)] None None true)).1 = Some t ∧ t ≤ 0.
Proof.
  destruct (proj2 (batch_throttle batch_config_default 0 3 0 (mk_queue [(3, 0%nat)] None None true) 0 0 0))
    as (t & Ht & Hle & _); [lia|reflexivity|]. by exists t.
Defined.
