(* ===== verification/Workers.v ===== *)
(** Retrying of fallible operations (pkg/primitives/src/retry.rs) and the
    background worker that ticks when it is due or woken (tick_worker.rs). *)
From S2P Require Import Prelude.

(** * Retry *)

Section retry.
Context {T Er : Type}.

(** [operation] is what its [i]-th call returns.  The handler's calls are the
    errors it was given; every failed attempt is followed by one sleep. *)
Record Retry := mk_retry {
  retry_operation : nat → outcome Er T;
  retry_delay : Z;
  error_handler : bool;
}.
Definition retry (operation : nat → outcome Er T) : Retry := mk_retry operation (1000 * 10 ^ 6) false.
Definition on_error (r : Retry) : Retry := mk_retry (retry_operation r) (retry_delay r) true.
Definition set_retry_delay (r : Retry) (delay : Z) : Retry := mk_retry (retry_operation r) delay (error_handler r).

(** What a run leaves: the errors the handler saw and the time slept. *)
Record Trace := mk_trace { handled_errors : list Er; slept : Z }.
Definition trace_error (r : Retry) (e : Er) (t : Trace) : Trace :=
  mk_trace (if error_handler r then e :: handled_errors t else handled_errors t) (slept t + retry_delay r).

Fixpoint exec_from (r : Retry) (i attempts : nat) (last_error : option Er) : outcome Er T * Trace :=
  match attempts with
  | O => (match last_error with
          | Some e => Err e
          | None => Panic "called Option::unwrap() on a None value"
          end, mk_trace [] 0)
  | S attempts =>
      match retry_operation r i with
      | Ok v => (Ok v, mk_trace [] 0)
      | Panic m => (Panic m, mk_trace [] 0)
      | Err e => let '(res, t) := exec_from r (S i) attempts (Some e) in (res, trace_error r e t)
      end
  end.
Definition exec (r : Retry) (attempts : nat) : outcome Er T * Trace := exec_from r 0 attempts None.

(** The loop without a bound, for [fuel] rounds; [None]: still running. *)
Fixpoint exec_forever_from (r : Retry) (i fuel : nat) : option (outcome Er T * Trace) :=
  match fuel with
  | O => None
  | S fuel =>
      match retry_operation r i with
      | Ok v => Some (Ok v, mk_trace [] 0)
      | Panic m => Some (Panic m, mk_trace [] 0)
      | Err e =>
          match exec_forever_from r (S i) fuel with
          | Some (res, t) => Some (res, trace_error r e t)
          | None => None
          end
      end
  end.
Definition exec_forever (r : Retry) (fuel : nat) : option (outcome Er T * Trace) := exec_forever_from r 0 fuel.
Definition retry_forever (operation : nat → outcome Er T) (delay : Z) (fuel : nat) :=
  exec_forever (set_retry_delay (retry operation) delay) fuel.

(** The trace of [k] failures. *)
Definition failures (r : Retry) (errors : list Er) : Trace :=
  mk_trace (if error_handler r then errors else []) (Z.of_nat (length errors) * retry_delay r).

Lemma trace_failures r e l : trace_error r e (failures r l) = failures r (e :: l).
Proof. unfold trace_error, failures. cbn [handled_errors slept length]. destruct (error_handler r); f_equal; lia. Qed.

(** The calls from [i] fail with [errors], in order. *)
Definition fails (r : Retry) (i : nat) (errors : list Er) : Prop :=
  ∀ k e, errors !! k = Some e → retry_operation r (i + k) = Err e.

Lemma fails_cons r i e l : fails r i (e :: l) ↔ retry_operation r i = Err e ∧ fails r (S i) l.
Proof.
  unfold fails. split.
  - intros Hf. split; [rewrite <-(Nat.add_0_r i); by apply Hf|].
    intros k x Hk. rewrite Nat.add_succ_comm. by apply Hf.
  - intros [H0 Hf] [|k] x Hk; cbn in Hk; [simplify_eq; by rewrite Nat.add_0_r|].
    rewrite <-Nat.add_succ_comm. by apply Hf.
Qed.

Lemma exec_fails r i l n last :
  fails r i l →
  exec_from r i (length l + n) last =
  let '(res, t) := exec_from r (i + length l) n (match list.last l with Some e => Some e | None => last end) in
  (res, foldr (trace_error r) t l).
Proof.
  revert i last. induction l as [|e l IH]; intros i lst Hf.
  - cbn. rewrite Nat.add_0_r. by destruct (exec_from r i n lst).
  - apply fails_cons in Hf as [H0 Hf]. cbn [length Nat.add exec_from]. rewrite H0, (IH _ _ Hf), Nat.add_succ_comm.
    rewrite last_cons. cbn [foldr]. destruct (list.last l); by destruct (exec_from r _ n _).
Qed.

Lemma forever_fails r i l n :
  fails r i l →
  exec_forever_from r i (length l + n) =
  match exec_forever_from r (i + length l) n with
  | Some (res, t) => Some (res, foldr (trace_error r) t l)
  | None => None
  end.
Proof.
  revert i. induction l as [|e l IH]; intros i Hf.
  - cbn. rewrite Nat.add_0_r. by destruct (exec_forever_from r i n) as [[]|].
  - apply fails_cons in Hf as [H0 Hf]. cbn [length Nat.add exec_forever_from]. rewrite H0, (IH _ Hf), Nat.add_succ_comm.
    by destruct (exec_forever_from r _ n) as [[]|].
Qed.

Lemma foldr_failures r l : foldr (trace_error r) (mk_trace [] 0) l = failures r l.
Proof.
  induction l as [|e l IH]; cbn [foldr]; [|by rewrite IH, trace_failures].
  unfold failures. by destruct (error_handler r).
Qed.

(** [exec] makes at most the given number of attempts: it returns the first
    success with the handler called and a sleep taken for each failure before it,
    or, when all attempts fail, the last error; with no attempts it panics.
    [exec_forever] returns the same first success, whenever it comes, and never
    returns when there is none. *)
Theorem retry_spec (r : Retry) (errors : list Er) :
  fails r 0 errors →
  (∀ v extra, retry_operation r (length errors) = Ok v →
     exec r (length errors + S extra) = (Ok v, failures r errors) ∧
     exec_forever r (length errors + S extra) = Some (Ok v, failures r errors)) ∧
  exec r (length errors) =
    (match list.last errors with Some e => Err e | None => Panic "called Option::unwrap() on a None value" end,
     failures r errors) ∧
  exec_forever r (length errors) = None.
Proof.
  intros Hf. split_and!.
  - intros v extra Hv. split.
    + unfold exec. rewrite exec_fails by done. cbn [exec_from Nat.add]. rewrite Hv. by rewrite foldr_failures.
    + unfold exec_forever. rewrite forever_fails by done. cbn [exec_forever_from Nat.add]. rewrite Hv.
      by rewrite foldr_failures.
  - unfold exec. replace (length errors) with (length errors + 0)%nat at 1 by lia.
    rewrite exec_fails by done. cbn. rewrite foldr_failures. by destruct (list.last errors).
  - unfold exec_forever. replace (length errors) with (length errors + 0)%nat by lia. by rewrite forever_fails.
Qed.
End retry.

Definition ex_retry : Retry (T := Z) (Er := string) :=
  on_error (retry (λ i, if decide (i < 2)%nat then Err "offline" else Ok 7)).
Lemma retry_spec_witness :
  exec ex_retry 5 = (Ok 7, mk_trace ["offline"; "offline"] (2000 * 10 ^ 6)) ∧
  exec ex_retry 2 = (Err "offline", mk_trace ["offline"; "offline"] (2000 * 10 ^ 6)).
Proof.
  destruct (retry_spec ex_retry ["offline"; "offline"]) as (Hok & Herr & _).
  - intros [|[|k]] e Hk; cbn in Hk; by simplify_eq.
  - split; [exact (proj1 (Hok 7 2%nat eq_refl))|exact Herr].
Defined.

(** * The tick worker *)

(** Where the background task is: before the check of the shutdown flag, in
    [tick], waiting for a notification (until a deadline, if there is one). *)
Inductive WorkerAt := WCheck | WTick | WWait (deadline : option Z) | WExit.

(** The atomics, the permit of the [Notify], the spawned tasks, the ticks begun. *)
Record TickWorker := mk_worker {
  is_running : bool;
  shutdown : bool;
  permit : bool;
  tasks : list WorkerAt;
  ticks : nat;
}.
Definition worker_new : TickWorker := mk_worker false false false [] 0.

(** [notify_one] with at most one task to wake stores a permit. *)
Definition worker_tick (w : TickWorker) : TickWorker :=
  mk_worker (is_running w) (shutdown w) true (tasks w) (ticks w).
Definition worker_run (w : TickWorker) : TickWorker :=
  if is_running w then worker_tick w
  else mk_worker true (shutdown w) (permit w) (tasks w ++ [WCheck]) (ticks w).
Definition worker_shutdown (w : TickWorker) : TickWorker :=
  mk_worker false true true (tasks w) (ticks w).

(** A step of the background task at time [now]; [next] is what [tick] returns.
    [None]: it has to wait. *)
Definition background_step (now : Z) (next : option Z) (pc : WorkerAt) (w : TickWorker)
  : option (WorkerAt * TickWorker) :=
  match pc with
  | WCheck =>
      if shutdown w then Some (WExit, w)
      else Some (WTick, mk_worker (is_running w) (shutdown w) (permit w) (tasks w) (S (ticks w)))
  | WTick =>
      match next with
      | Some when => Some (if decide (when > now) then WWait (Some when) else WCheck, w)
      | None => Some (WWait None, w)
      end
  | WWait deadline =>
      match deadline with
      | Some when => if decide (when ≤ now) then Some (WCheck, w)
                     else if permit w then Some (WCheck, mk_worker (is_running w) (shutdown w) false (tasks w) (ticks w))
                     else None
      | None => if permit w then Some (WCheck, mk_worker (is_running w) (shutdown w) false (tasks w) (ticks w)) else None
      end
  | WExit => None
  end.

(** [n] counts the steps of the task; the handle runs and ticks until it is
    dropped, which shuts the worker down and ends its use. *)
Inductive worker_steps : nat → TickWorker → TickWorker → Prop :=
| ws_refl w : worker_steps 0 w w
| ws_run n w w' : shutdown w = false → worker_steps n (worker_run w) w' → worker_steps n w w'
| ws_tick n w w' : shutdown w = false → worker_steps n (worker_tick w) w' → worker_steps n w w'
| ws_drop n w w' : shutdown w = false → worker_steps n (worker_shutdown w) w' → worker_steps n w w'
| ws_task n w w' now next l1 pc l2 pc' w1 :
    tasks w = l1 ++ pc :: l2 → background_step now next pc w = Some (pc', w1) →
    worker_steps n (mk_worker (is_running w1) (shutdown w1) (permit w1) (l1 ++ pc' :: l2) (ticks w1)) w' →
    worker_steps (S n) w w'.

(** One task while the handle is in use; a task that is told to stop cannot wait. *)
Definition worker_inv (w : TickWorker) : Prop :=
  match tasks w with
  | [] => is_running w = false
  | [pc] => (shutdown w = false → is_running w = true ∧ pc ≠ WExit) ∧
            (shutdown w = true → permit w = true ∨ pc = WCheck ∨ pc = WExit)
  | _ => False
  end.

Lemma worker_step_inv now next l1 pc l2 pc' w w1 :
  worker_inv w → tasks w = l1 ++ pc :: l2 → background_step now next pc w = Some (pc', w1) →
  l1 = [] ∧ l2 = [] ∧
  worker_inv (mk_worker (is_running w1) (shutdown w1) (permit w1) (l1 ++ pc' :: l2) (ticks w1)).
Proof.
  intros Hi Ht Hs. unfold worker_inv in Hi. rewrite Ht in Hi.
  assert (l1 = [] ∧ l2 = []) as [-> ->].
  { destruct l1 as [|x l1]; cbn in Hi; [by destruct l2|by destruct l1]. }
  split_and!; [done..|]. unfold worker_inv. cbn in *. destruct Hi as [H1 H2].
  unfold background_step in Hs. destruct pc as [| |d|].
  - destruct (shutdown w) eqn:Hsd; simplify_eq; cbn; rewrite ?Hsd; naive_solver.
  - destruct next; simplify_eq; cbn; [case_decide|]; naive_solver.
  - destruct d; repeat case_match; simplify_eq; cbn; naive_solver.
  - done.
Qed.

Lemma worker_steps_inv n w w' : worker_steps n w w' → worker_inv w → worker_inv w'.
Proof.
  induction 1 as [w|n w w' Hs _ IH|n w w' Hs _ IH|n w w' Hs _ IH|n w w' now next l1 pc l2 pc' w1 Ht Hst _ IH];
    intros Hi; [done|apply IH; unfold worker_inv in *..|].
  - unfold worker_run. destruct (is_running w) eqn:Hr; cbn; rewrite ?Hs.
    + destruct (tasks w) as [|pc []]; naive_solver.
    + destruct (tasks w) as [|pc []]; cbn; naive_solver.
  - cbn. destruct (tasks w) as [|pc []]; naive_solver.
  - cbn. destruct (tasks w) as [|pc []]; naive_solver.
  - apply IH. by edestruct (worker_step_inv now next l1 pc l2 pc' w w1) as (_ & _ & ?).
Qed.

Definition worker_rank (w : TickWorker) : nat :=
  match tasks w with
  | [WTick] => 3 | [WWait _] => 2 | [WCheck] => 1
  | _ => 0
  end.

(** A step of the task brings it closer to its next check, or begins a tick, or
    ends the task. *)
Lemma worker_step_rank now next pc pc' w w1 :
  tasks w = [pc] → background_step now next pc w = Some (pc', w1) →
  let w2 := mk_worker (is_running w1) (shutdown w1) (permit w1) [pc'] (ticks w1) in
  shutdown w2 = shutdown w ∧
  (if shutdown w then (worker_rank w2 < worker_rank w)%nat
   else (worker_rank w2 < worker_rank w ∧ ticks w2 = ticks w)%nat ∨ ticks w2 = S (ticks w)).
Proof.
  intros Ht Hs. unfold worker_rank. rewrite Ht. cbn.
  assert (shutdown w1 = shutdown w ∧ (pc = WCheck ∧ pc' = WTick ∧ ticks w1 = S (ticks w) ∧ shutdown w = false ∨
    pc = WCheck ∧ pc' = WExit ∧ shutdown w = true ∨
    ticks w1 = ticks w ∧ (pc = WTick ∧ (pc' = WCheck ∨ ∃ d, pc' = WWait d) ∨ (∃ d, pc = WWait d) ∧ pc' = WCheck))).
  { unfold background_step in Hs. destruct pc as [| |d|].
    - destruct (shutdown w) eqn:Hsd; simplify_eq; cbn; naive_solver.
    - destruct next; [case_decide|]; simplify_eq; naive_solver.
    - destruct d; repeat case_match; simplify_eq; naive_solver.
    - done. }
  destruct H as (-> & [(-> & -> & -> & ->)|[(-> & -> & ->)|(-> & Hpc)]]); (split; [done|]); [by right|lia|].
  assert (worker_rank (mk_worker (is_running w1) (shutdown w) (permit w1) [pc'] (ticks w)) < worker_rank w)%nat as Hlt.
  { unfold worker_rank. rewrite Ht. destruct Hpc as [(-> & [->|[d ->]])|([d ->] & ->)]; cbn; lia. }
  unfold worker_rank in Hlt. rewrite Ht in Hlt. cbn in Hlt. destruct (shutdown w); [done|by left].
Qed.

Lemma enabled_step now next pc w :
  tasks w = [pc] → pc ≠ WExit → permit w = true ∨ pc = WCheck → is_Some (background_step now next pc w).
Proof. intros _ Hne Hp. unfold background_step. destruct pc as [| |[]|]; repeat case_match; naive_solver. Qed.

Lemma shutdown_kept n w w' : worker_steps n w w' → shutdown w = true → shutdown w' = true.
Proof.
  induction 1 as [w|? ? ? Hs|? ? ? Hs|? ? ? Hs|n w w' now next l1 pc l2 pc' w1 Ht Hst _ IH]; intros; try congruence.
  apply IH. cbn. unfold background_step in Hst. destruct pc as [| |[]|]; repeat case_match; simplify_eq; done.
Qed.

(** After shutdown only the task moves, and its rank falls. *)
Lemma shutdown_rank n w w' pc :
  worker_steps n w w' → worker_inv w → shutdown w = true → tasks w = [pc] →
  ∃ pc', tasks w' = [pc'] ∧ (worker_rank w' + n ≤ worker_rank w)%nat.
Proof.
  intros Hn. revert pc.
  induction Hn as [w|n w w' Hs _ IH|n w w' Hs _ IH|n w w' Hs _ IH|n w w' now next l1 pc l2 pc' w1 Ht Hst Hn IH];
    intros pc0 Hi Hsd Ht0; try congruence; [eexists; split; [done|lia]|].
  edestruct (worker_step_inv now next l1 pc l2 pc' w w1) as (-> & -> & Hi'); [done..|].
  destruct (worker_step_rank now next pc pc' w w1 Ht Hst) as [Hsd1 Hr1]. rewrite Hsd in *.
  destruct (IH pc') as (pc2 & ? & Hr); [done|done|done|]. exists pc2. split; [done|]. cbn [app] in Hr. lia.
Qed.

(** Before it, a run of the task that begins no tick lowers its rank. *)
Lemma running_rank n w w' pc :
  worker_steps n w w' → worker_inv w → shutdown w = false → tasks w = [pc] →
  shutdown w' = true ∨ (ticks w < ticks w')%nat ∨
  (ticks w ≤ ticks w' ∧ worker_rank w' + n ≤ worker_rank w ∧ 1 ≤ worker_rank w')%nat.
Proof.
  intros Hn. revert pc.
  induction Hn as [w|n w w' Hs Hn IH|n w w' Hs Hn IH|n w w' Hs Hn IH|n w w' now next l1 pc l2 pc' w1 Ht Hst Hn IH];
    intros pc0 Hi Hsd Ht0.
  - right; right. unfold worker_rank, worker_inv in *. rewrite Ht0 in *. destruct pc0; try lia. naive_solver.
  - assert (worker_inv (worker_run w)) as Hi1 by (eapply (worker_steps_inv 0); [by apply ws_run, ws_refl|done]).
    assert (is_running w = true) as Hr by (unfold worker_inv in Hi; rewrite Ht0 in Hi; naive_solver).
    revert IH Hi1. unfold worker_run. rewrite Hr. intros IH Hi1. by eapply IH.
  - assert (worker_inv (worker_tick w)) as Hi1 by (eapply (worker_steps_inv 0); [by apply ws_tick, ws_refl|done]).
    by eapply IH.
  - left. by eapply shutdown_kept.
  - edestruct (worker_step_inv now next l1 pc l2 pc' w w1) as (-> & -> & Hi'); [done..|].
    destruct (worker_step_rank now next pc pc' w w1 Ht Hst) as [Hsd1 Hr1]. rewrite Hsd in *.
    destruct (IH pc' Hi' Hsd1 eq_refl) as [?|[Hlt|(Hle & Hr & H1)]]; [by left|..]; cbn [app] in *.
    + right; left. cbn in *. destruct Hr1 as [[_ ?]|?]; lia.
    + destruct Hr1 as [[Hr1 Heq]|Heq]; cbn [ticks] in *; [right; right|right; left]; lia.
Qed.

Lemma rank_le_3 w : (worker_rank w ≤ 3)%nat.
Proof. unfold worker_rank. repeat case_match; lia. Qed.

(** Starting a worker any number of times makes one task. When the handle is
    dropped that task can always go on and ends after at most three more steps;
    and a requested tick is not lost: the task can go on, and within three steps
    it begins a new tick, or the handle has been dropped. *)
Theorem tick_worker_spec w w' n m :
  worker_steps m worker_new w → worker_steps n w w' →
  (length (tasks w) ≤ 1)%nat ∧
  (∀ pc, shutdown w = true → tasks w = [pc] →
     (pc ≠ WExit → ∀ now next, is_Some (background_step now next pc w)) ∧ (n ≤ 3)%nat ∧
     (n = 3%nat → tasks w' = [WExit])) ∧
  (∀ pc, shutdown w = false → permit w = true → tasks w = [pc] →
     (∀ now next, is_Some (background_step now next pc w)) ∧
     ((3 ≤ n)%nat → shutdown w' = true ∨ (ticks w < ticks w')%nat)).
Proof.
  intros Hm Hn. assert (worker_inv w) as Hi by (by eapply worker_steps_inv).
  split_and!.
  - unfold worker_inv in Hi. destruct (tasks w) as [|pc []]; cbn; try lia; done.
  - intros pc Hsd Ht. pose proof Hi as Hi'. unfold worker_inv in Hi'. rewrite Ht in Hi'.
    destruct Hi' as [_ Hi']. specialize (Hi' Hsd). split; [intros Hne now next; apply enabled_step; naive_solver|].
    destruct (shutdown_rank n w w' pc Hn Hi Hsd Ht) as (pc' & Ht' & Hr). pose proof (rank_le_3 w). split; [lia|].
    intros ->. assert (worker_rank w' = 0%nat) as H0 by lia. unfold worker_rank in H0. rewrite Ht' in *. by destruct pc'.
  - intros pc Hsd Hp Ht. pose proof Hi as Hi'. unfold worker_inv in Hi'. rewrite Ht in Hi'.
    split; [intros now next; apply enabled_step; naive_solver|]. intros H3. pose proof (rank_le_3 w).
    destruct (running_rank n w w' pc Hn Hi Hsd Ht) as [?|[?|(_ & Hr & H1)]]; [by left|by right|lia].
Qed.

Definition ex_worker : TickWorker := worker_shutdown (worker_run (worker_run worker_new)).
Lemma tick_worker_spec_witness : (length (tasks ex_worker) ≤ 1)%nat.
Proof.
  refine (proj1 (tick_worker_spec ex_worker ex_worker 0 0 _ (ws_refl _))).
  apply ws_run; [done|]. apply ws_run; [done|]. apply ws_drop; [done|]. apply ws_refl.
Defined.
