(* ===== verification/Links.v ===== *)
(** Addresses and payment links (pkg/cli/src: address.rs, note_url.rs, units.rs;
    pkg/zk-primitives/src/note_url.rs): what a payer and a payee exchange, as
    base58 text.

    The base58 and SHA-3 libraries are parameters.  Indexing and slicing out of
    range panics; tickers are ASCII. *)
From S2P Require Import Prelude Element MerkleHash Crypto Utxo.

(** * Tokens (address.rs) *)

Definition wcbtc_address : list Z :=
  [0x8d; 0x0c; 0x9d; 0x1c; 0x17; 0xaE; 0x5e; 0x40; 0xff; 0xF9;
   0xbE; 0x35; 0x0f; 0x57; 0x84; 0x0E; 0x9E; 0x66; 0xCd; 0x93].
Definition usdc_address : list Z :=
  [0x52; 0xf7; 0x4a; 0x8f; 0x9b; 0xdd; 0x29; 0xf7; 0x7a; 0x5e;
   0xfd; 0x7f; 0x6c; 0xb4; 0x4d; 0xcf; 0x69; 0x06; 0xa4; 0xb6].
Definition citrea_wcbtc_note_kind : Element := generate_note_kind_bridge_evm 5115 wcbtc_address.
Definition citrea_usdc_note_kind : Element := generate_note_kind_bridge_evm 5115 usdc_address.

Definition unsupported : string :=
  "internal error: entered unreachable code: only WCBTC and USDC tokens are supported".

Definition upper_char (c : Ascii.ascii) : Ascii.ascii :=
  let n := Ascii.N_of_ascii c in
  if ((97 <=? n) && (n <=? 122))%N then Ascii.ascii_of_N (n - 32) else c.
Fixpoint to_uppercase (s : string) : string :=
  match s with
  | EmptyString => EmptyString
  | String c s => String (upper_char c) (to_uppercase s)
  end.

(** The kind and the contract of a ticker's notes. *)
Definition citrea_token_data {E} (ticker : string) : outcome E (Element * Element) :=
  if decide (to_uppercase ticker = "WCBTC") then Ok (2, citrea_wcbtc_note_kind)
  else if decide (to_uppercase ticker = "USDC") then Ok (2, citrea_usdc_note_kind)
  else Panic unsupported.
Definition citrea_ticker_from_code {E} (currency : Z) : outcome E string :=
  match currency with 1 => Ok "WCBTC" | 2 => Ok "USDC" | _ => Panic unsupported end.
Definition citrea_currency_from_contract {E} (contract : Element) : outcome E Z :=
  if decide (contract = citrea_wcbtc_note_kind) then Ok 1
  else if decide (contract = citrea_usdc_note_kind) then Ok 2
  else Panic unsupported.
Definition citrea_ticker_from_contract {E} (contract : Element) : outcome E string :=
  if decide (contract = citrea_wcbtc_note_kind) then Ok "WCBTC"
  else if decide (contract = citrea_usdc_note_kind) then Ok "USDC"
  else Panic unsupported.
(** The match on the currency code in [From<&CipheraAddress>] and [From<&CipheraURL>]. *)
Definition contract_of_code {E} (currency : Z) : outcome E Element :=
  match currency with
  | 1 => Ok citrea_wcbtc_note_kind
  | 2 => Ok citrea_usdc_note_kind
  | _ => Panic "internal error: entered unreachable code: currency code must be 1 or 2"
  end.

(** * Satoshis and wei (units.rs) *)

Definition SATS_PER_BTC : Z := 100000000.
Definition WEI_PER_SAT : Z := 10000000000.
Definition checked_mul (w a b : Z) : option Z := if decide (a * b < 2 ^ w) then Some (a * b) else None.
Definition sats_to_wei {E} (sats : Z) : outcome E Z :=
  unwrap (checked_mul 64 sats WEI_PER_SAT) "sats_to_wei: overflow converting sats to wei".
Definition wei_to_sats (wei : Z) : Z := wei / WEI_PER_SAT.
Definition sats_to_wei_u128 (sats : Z) : Z := wrap 128 (sats * WEI_PER_SAT).
Definition wei_to_sats_u128 (wei : Z) : Z := wei / WEI_PER_SAT.

(** * The libraries *)

Class Bs58 := {
  bs58_encode : list Z → string;
  bs58_decode : string → option (list Z);
}.
(** Documented: decoding gives back what was encoded. *)
Class Bs58Laws `{Bs58} : Prop := {
  bs58_roundtrip l : Forall is_byte l → bs58_decode (bs58_encode l) = Some l;
}.
(** [Sha3_256] of the bytes, 32 bytes. *)
Class Sha3 := { sha3_256 : list Z → list Z }.

(** * Reading bytes *)

Definition out_of_range : string := "range end index out of range".
(** [rest[..n]] with [rest = &rest[n..]], and [rest[0]]. *)
Definition take_bytes {E} (n : nat) (rest : list Z) : outcome E (list Z * list Z) :=
  if decide (n ≤ length rest)%nat then Ok (take n rest, drop n rest) else Panic out_of_range.
Definition take_byte {E} (rest : list Z) : outcome E (Z * list Z) :=
  match rest with b :: rest => Ok (b, rest) | [] => Panic "index out of bounds" end.

(** The number of leading zero bytes of a value, then the other bytes. *)
Definition leading_zeros (bytes : list Z) : nat :=
  position_or_len (λ b, bool_decide (b ≠ 0)) bytes.
Definition encode_value (value : Element) : list Z :=
  let value_bytes := to_be_bytes value in
  let zeros := leading_zeros value_bytes in
  Z.of_nat zeros :: drop zeros value_bytes.
(** [32 - leading_zeros] of more than 32 zeros panics or wraps to a length that
    is out of range. *)
Definition decode_value {E} (rest : list Z) : outcome E (Element * list Z) :=
  let? (zeros, rest) := take_byte rest in
  if decide (32 < zeros) then Panic out_of_range
  else
    let? (bytes, rest) := take_bytes (Z.to_nat (32 - zeros)) rest in
    Ok (from_be_bytes (replicate (Z.to_nat zeros) 0 ++ bytes), rest).

(** * Addresses (address.rs) *)

Record CipheraAddress := mk_ciphera_address {
  ca_version : Z;
  ca_currency : Z;
  ca_public_key : Element;
  ca_psi : option Element;
  ca_value : Element;
}.

(** [From<&CipheraAddress> for Note]; [random] is used when there is no [psi]. *)
Definition note_of_address {E} (random : Element) (a : CipheraAddress) : outcome E Note :=
  let? c := contract_of_code (ca_currency a) in
  Ok (mk_note 2 c (ca_public_key a) (default random (ca_psi a)) (ca_value a)).
(** [From<&Note> for CipheraAddress]. *)
Definition address_of_note {E} (n : Note) : outcome E CipheraAddress :=
  let? c := citrea_currency_from_contract (contract n) in
  Ok (mk_ciphera_address 0 c (address n) (Some (psi n)) (value n)).

Section links.
Context `{FieldLib, Bs58, Sha3, CryptoLib}.

Definition address_commitment {E} (random : Element) (a : CipheraAddress) : outcome E Element :=
  let? n := note_of_address random a in Ok (commitment n).

Definition encode_address (a : CipheraAddress) : string :=
  bs58_encode
    ([ca_version a; ca_currency a] ++ to_be_bytes (ca_public_key a) ++
     (match ca_psi a with
      | Some p => if decide (ca_version a = 0) then to_be_bytes p else []
      | None => []
      end) ++ encode_value (ca_value a)).

Definition decode_address {E} (s : string) : outcome E CipheraAddress :=
  let? rest := unwrap (bs58_decode s) "Failed to decode base58 payload" in
  let? (version, rest) := take_byte rest in
  let? (currency, rest) := take_byte rest in
  let? (public_key, rest) := take_bytes 32 rest in
  let? (psi, rest) :=
    if decide (version = 0)
    then let? (psi, rest) := take_bytes 32 rest in Ok (Some (from_be_bytes psi), rest)
    else Panic "internal error: entered unreachable code: only version 1, 2 or 3 is supported" in
  let? (value, rest) := decode_value rest in
  Ok (mk_ciphera_address version currency (from_be_bytes public_key) psi value).

(** * Links (cli/note_url.rs) *)

Record CipheraURL := mk_ciphera_url { cu_currency : Z; cu_private_key : Element; cu_value : Element }.

(** [From<&CipheraURL> for InputNote]. *)
Definition note_of_url {E} (u : CipheraURL) : outcome E InputNote :=
  let? c := contract_of_code (cu_currency u) in
  let key := cu_private_key u in
  Ok (mk_input_note (mk_note 2 c (hash_merge [key; ZERO]) (hash_merge [key; key]) (cu_value u)) key).
(** [From<&InputNote> for CipheraURL]. *)
Definition url_of_note {E} (n : InputNote) : outcome E CipheraURL :=
  let? c := citrea_currency_from_contract (contract (note n)) in
  Ok (mk_ciphera_url c (secret_key n) (value (note n))).

Definition encode_url (u : CipheraURL) : string :=
  bs58_encode ([cu_currency u] ++ to_be_bytes (cu_private_key u) ++ encode_value (cu_value u)).
Definition decode_url {E} (s : string) : outcome E CipheraURL :=
  let? rest := unwrap (bs58_decode s) "Failed to decode base58 payload" in
  let? (currency, rest) := take_byte rest in
  let? (private_key, rest) := take_bytes 32 rest in
  let? (value, rest) := decode_value rest in
  Ok (mk_ciphera_url currency (from_be_bytes private_key) value).

(** * Links of the older rollup (zk-primitives/note_url.rs) *)

Definition hash_private_key_for_psi (private_key : Element) : Element :=
  from_be_bytes (sha3_256 (to_be_bytes private_key)).
(** [Element::from_str] of the hexadecimal digits of a hash. *)
Definition keccak_psi (private_key : Element) : Element := from_be_bytes (keccak256 (to_be_bytes private_key)).

(** The referral code as its bytes; [utf8] says which byte strings are text. *)
Record NoteURLPayload := mk_payload {
  nu_version : Z;
  nu_private_key : Element;
  nu_psi : option Element;
  nu_value : Element;
  nu_referral_code : list Z;
}.

Definition note_of_payload (p : NoteURLPayload) : InputNote :=
  let key := nu_private_key p in
  mk_input_note
    (mk_note 2 bridged_polygon_usdc_note_kind (get_address_for_private_key key)
       (default (hash_private_key_for_psi key) (nu_psi p)) (nu_value p)) key.
Definition payload_of_note (n : InputNote) : NoteURLPayload :=
  mk_payload 2 (secret_key n) None (value (note n)) [].

Definition payload_psi {E} (p : NoteURLPayload) : outcome E Element :=
  match nu_version p with
  | 0 => unwrap (nu_psi p) "version 1 should have explicit psi"
  | 1 => Ok (keccak_psi (nu_private_key p))
  | 2 => Ok (hash_private_key_for_psi (nu_private_key p))
  | _ => Panic "internal error: entered unreachable code: only version 1, 2 or 3 is supported"
  end.

Definition encode_activity_url_payload (p : NoteURLPayload) : string :=
  bs58_encode
    ([nu_version p] ++ to_be_bytes (nu_private_key p) ++
     (match nu_psi p with
      | Some x => if decide (nu_version p = 0) then to_be_bytes x else []
      | None => []
      end) ++ encode_value (nu_value p) ++ nu_referral_code p).

Definition decode_activity_url_payload {E} (utf8 : list Z → bool) (s : string) : outcome E NoteURLPayload :=
  let? rest := unwrap (bs58_decode s) "Failed to decode base58 payload" in
  let? (version, rest) := take_byte rest in
  let? (key, rest) := take_bytes 32 rest in
  let private_key := from_be_bytes key in
  let? (psi, rest) :=
    match version with
    | 0 => let? (psi, rest) := take_bytes 32 rest in Ok (Some (from_be_bytes psi), rest)
    | 1 => Ok (Some (keccak_psi private_key), rest)
    | 2 => Ok (Some (hash_private_key_for_psi private_key), rest)
    | _ => Panic "internal error: entered unreachable code: only version 1, 2 or 3 is supported"
    end in
  let? (value, rest) := decode_value rest in
  if utf8 rest then Ok (mk_payload version private_key psi value rest)
  else Panic "Invalid UTF-8 in referral code".

(** [InputNote::new_from_ephemeral_private_key], [generate_link] and [new_from_link]. *)
Definition new_from_ephemeral_private_key (private_key value : Element) : InputNote :=
  mk_input_note
    (mk_note 2 bridged_polygon_usdc_note_kind (get_address_for_private_key private_key)
       (hash_private_key_for_psi private_key) value) private_key.
Definition generate_link (n : InputNote) : string := encode_activity_url_payload (payload_of_note n).
Definition new_from_link {E} (utf8 : list Z → bool) (s : string) : outcome E InputNote :=
  let? p := decode_activity_url_payload utf8 s in Ok (note_of_payload p).
End links.

(** * Properties *)

Lemma leading_zeros_le l : (leading_zeros l ≤ length l)%nat.
Proof. unfold leading_zeros. induction l as [|b l IH]; cbn; [lia|]. case_bool_decide; cbn; lia. Qed.
Lemma take_leading_zeros l : take (leading_zeros l) l = replicate (leading_zeros l) 0.
Proof.
  unfold leading_zeros. induction l as [|b l IH]; cbn; [done|].
  case_bool_decide as Hb; cbn; [done|]. rewrite IH. f_equal. by destruct (decide (b = 0)).
Qed.

Section codec.
Context {E : Type}.

Lemma take_bytes_app n l rest : length l = n → take_bytes (E := E) n (l ++ rest) = Ok (l, rest).
Proof.
  intros <-. unfold take_bytes. rewrite decide_True by (rewrite length_app; lia).
  by rewrite take_app_length, drop_app_length.
Qed.

Lemma value_roundtrip v rest : wf_element v → decode_value (E := E) (encode_value v ++ rest) = Ok (v, rest).
Proof.
  intros Hv. unfold decode_value, encode_value. set (l := to_be_bytes v).
  pose proof (to_be_bytes_length v) as Hlen. fold l in Hlen.
  pose proof (leading_zeros_le l) as Hz. cbn [app take_byte outcome_bind].
  rewrite decide_False by lia. rewrite take_bytes_app by (rewrite length_drop; lia). cbn [outcome_bind].
  rewrite Nat2Z.id, <-take_leading_zeros, take_drop. unfold l. by rewrite from_to_be_bytes.
Qed.

Lemma encode_value_bytes v : Forall is_byte (encode_value v).
Proof.
  unfold encode_value. constructor.
  - pose proof (leading_zeros_le (to_be_bytes v)) as Hz. rewrite to_be_bytes_length in Hz. unfold is_byte. lia.
  - apply Forall_drop, to_be_bytes_range.
Qed.
End codec.

Ltac solve_bytes :=
  rewrite ?Forall_app; split_and?;
  first [apply to_be_bytes_range|apply encode_value_bytes|repeat constructor; unfold is_byte in *; lia].

#[local] Opaque to_be_bytes from_be_bytes encode_value decode_value.

(** What the parties may exchange: a supported token and fields in range. *)
Definition wf_note (n : Note) : Prop :=
  note_kind n = 2 ∧ (contract n = citrea_wcbtc_note_kind ∨ contract n = citrea_usdc_note_kind) ∧
  wf_element (address n) ∧ wf_element (psi n) ∧ wf_element (value n).

Lemma currency_roundtrip {E} c :
  c = citrea_wcbtc_note_kind ∨ c = citrea_usdc_note_kind →
  ∃ k, citrea_currency_from_contract (E := E) c = Ok k ∧ contract_of_code (E := E) k = Ok c ∧ is_byte k.
Proof.
  intros Hc. unfold citrea_currency_from_contract. destruct (decide (c = citrea_wcbtc_note_kind)) as [->|Hn].
  - exists 1. split_and!; [done|done|unfold is_byte; lia].
  - destruct Hc as [? | ->]; [done|]. rewrite decide_True by done. exists 2. split_and!; [done|done|unfold is_byte; lia].
Qed.

Section roundtrips.
Context `{FieldLib, Bs58Laws, Sha3, CryptoLib} {E : Type}.

(** The text a payee hands out names the note the payer has to create, exactly:
    decoding the encoded address gives the note back, whatever would be drawn for
    a missing [psi]. *)
Theorem address_roundtrip (random : Element) n :
  wf_note n →
  ∃ a, address_of_note (E := E) n = Ok a ∧
    (let? a' := decode_address (E := E) (encode_address a) in note_of_address random a') = Ok n.
Proof.
  intros (Hk & Hc & Ha & Hp & Hv). destruct (currency_roundtrip (E := E) _ Hc) as (k & Hk1 & Hk2 & Hb).
  unfold address_of_note. rewrite Hk1. eexists. split; [done|].
  unfold decode_address, encode_address. cbn [ca_version ca_currency ca_public_key ca_psi ca_value].
  rewrite decide_True, bs58_roundtrip; [|..|done].
  - cbn [unwrap outcome_bind app take_byte].
    rewrite take_bytes_app by apply to_be_bytes_length. cbn [outcome_bind].
    rewrite decide_True by done. rewrite take_bytes_app by apply to_be_bytes_length. cbn [outcome_bind].
    rewrite <-(app_nil_r (encode_value _)), value_roundtrip by done. cbn [outcome_bind].
    unfold note_of_address. cbn [ca_currency ca_public_key ca_psi ca_value default].
    rewrite Hk2. cbn [outcome_bind]. rewrite !from_to_be_bytes by done. destruct n; cbn in *. by rewrite Hk.
  - solve_bytes.
Qed.

(** What a link opens to. *)
Lemma url_link n :
  wf_note (note n) → wf_element (secret_key n) →
  let key := secret_key n in
  ∃ u, url_of_note (E := E) n = Ok u ∧
    (let? u' := decode_url (E := E) (encode_url u) in note_of_url u') =
      Ok (mk_input_note (mk_note 2 (contract (note n)) (hash_merge [key; ZERO]) (hash_merge [key; key])
            (value (note n))) key).
Proof.
  intros (Hk & Hc & Ha & Hp & Hv) Hs key.
  destruct (currency_roundtrip (E := E) _ Hc) as (k & Hk1 & Hk2 & Hb).
  unfold url_of_note. rewrite Hk1. eexists. split; [done|].
  unfold decode_url, encode_url. cbn [cu_currency cu_private_key cu_value].
  rewrite bs58_roundtrip by solve_bytes.
  cbn [unwrap outcome_bind app take_byte]. rewrite take_bytes_app by apply to_be_bytes_length. cbn [outcome_bind].
  rewrite <-(app_nil_r (encode_value _)), value_roundtrip by done. cbn [outcome_bind].
  unfold note_of_url. cbn [cu_currency cu_private_key cu_value]. rewrite Hk2. cbn [outcome_bind].
  by rewrite from_to_be_bytes.
Qed.

(** A link carries the token, the key and the value of a note, and nothing else:
    what it opens to has the address and the [psi] that follow from the key. So
    it is the note itself exactly when the note was made that way. *)
Theorem url_roundtrip n :
  wf_note (note n) → wf_element (secret_key n) →
  let key := secret_key n in
  (∃ u, url_of_note (E := E) n = Ok u ∧
    (let? u' := decode_url (E := E) (encode_url u) in note_of_url u') =
      Ok (mk_input_note (mk_note 2 (contract (note n)) (hash_merge [key; ZERO]) (hash_merge [key; key])
            (value (note n))) key)) ∧
  ∀ v, wf_element v → let n := new_from_ephemeral_private_key key v in
    new_from_link (E := E) (λ _, true) (generate_link n) = Ok n.
Proof.
  intros Hn Hs key. split; [by apply url_link|].
  intros v Hv' i. unfold new_from_link, generate_link, decode_activity_url_payload, encode_activity_url_payload.
  cbn [payload_of_note nu_version nu_private_key nu_psi nu_value nu_referral_code].
  rewrite bs58_roundtrip by solve_bytes.
  cbn [unwrap outcome_bind app take_byte]. rewrite take_bytes_app by apply to_be_bytes_length. cbn [outcome_bind].
  rewrite value_roundtrip by done. cbn [outcome_bind]. by rewrite from_to_be_bytes.
Qed.
End roundtrips.

(** Amounts: satoshis convert to wei up to 1844674407 (about 18.4 bitcoin) and
    panic above; converting back is exact, and wei round down to satoshis. *)
Theorem sats_wei {E} s w :
  0 ≤ s → 0 ≤ w →
  (if decide (s ≤ 1844674407)
   then sats_to_wei (E := E) s = Ok (s * WEI_PER_SAT) ∧ wei_to_sats (s * WEI_PER_SAT) = s
   else sats_to_wei (E := E) s = Panic "sats_to_wei: overflow converting sats to wei") ∧
  wei_to_sats w * WEI_PER_SAT ≤ w < (wei_to_sats w + 1) * WEI_PER_SAT.
Proof.
  intros Hs Hw. unfold sats_to_wei, wei_to_sats, checked_mul, WEI_PER_SAT. split.
  - case_decide; case_decide; cbn [unwrap]; try lia; [|done]. split; [done|]. apply Z.div_mul. lia.
  - pose proof (Z.div_mod w 10000000000). pose proof (Z.mod_pos_bound w 10000000000). lia.
Qed.

(** * A stand-in encoding: each byte as a character *)

Fixpoint toy_encode (l : list Z) : string :=
  match l with [] => EmptyString | b :: l => String (Ascii.ascii_of_N (Z.to_N b)) (toy_encode l) end.
Fixpoint toy_decode (s : string) : list Z :=
  match s with EmptyString => [] | String c s => Z.of_N (Ascii.N_of_ascii c) :: toy_decode s end.
#[export] Instance toy_bs58 : Bs58 := {| bs58_encode := toy_encode; bs58_decode s := Some (toy_decode s) |}.
#[export] Instance toy_bs58_laws : Bs58Laws.
Proof.
  split. intros l Hl. cbn. f_equal. induction Hl as [|b l Hb Hl IH]; [done|]. cbn [toy_encode toy_decode].
  rewrite IH, Ascii.N_ascii_embedding by (unfold is_byte in Hb; lia). unfold is_byte in Hb. f_equal. lia.
Qed.
#[export] Instance toy_sha3 : Sha3 := {| sha3_256 l := to_be_bytes (toy_hash l) |}.

Definition ex_note : Note := mk_note 2 citrea_wcbtc_note_kind 100 200 (5 * WEI_PER_SAT).
Lemma ex_note_wf : wf_note ex_note.
Proof.
  split_and!; [done|by left|..]; by apply (bool_decide_unpack (in_width 256 _)).
Qed.

Lemma address_roundtrip_witness :
  ∃ a, address_of_note (E := Empty_set) ex_note = Ok a ∧
    (let? a' := decode_address (E := Empty_set) (encode_address a) in note_of_address 9 a') = Ok ex_note.
Proof. exact (address_roundtrip (E := Empty_set) 9 ex_note ex_note_wf). Defined.

Lemma url_roundtrip_witness :
  ∃ u, url_of_note (E := Empty_set) (mk_input_note ex_note 7) = Ok u ∧
    (let? u' := decode_url (E := Empty_set) (encode_url u) in note_of_url u') =
      Ok (mk_input_note (mk_note 2 citrea_wcbtc_note_kind (hash_merge [7; ZERO]) (hash_merge [7; 7])
            (5 * WEI_PER_SAT)) 7).
Proof.
  exact (proj1 (url_roundtrip (H3 := toy_crypto) (E := Empty_set) (mk_input_note ex_note 7) ex_note_wf
    (bool_decide_unpack (in_width 256 7) I))).
Defined.

Lemma sats_wei_witness : sats_to_wei (E := Empty_set) 5 = Ok (5 * WEI_PER_SAT) ∧ wei_to_sats (5 * WEI_PER_SAT) = 5.
Proof. exact (proj1 (sats_wei (E := Empty_set) 5 0 ltac:(lia) ltac:(lia))). Defined.
