(* ===== verification/Wallet.v ===== *)
(** The wallet of the command line client (pkg/cli/src/wallet.rs).

    Each [&mut self] method is a computation in the state monad of the prelude;
    [stage] runs it on a clone.  Keys drawn at random are arguments.  The balance
    is a [u64] and wraps as in a release build.  A hash map of notes is a finite
    map whose iteration order is the parameter [hm_keys]. *)
From S2P Require Import Prelude Element SignedElement MerkleHash Utxo Links.

#[export] Instance note_eq_dec : EqDecision Note.
Proof. solve_decision. Defined.

Inductive LowBalanceReason :=
| NoNotes
| OnlyHas (balance requested : Z)
| TwoNotesTooSmall.
Inductive WalletError :=
| IoError
| SerializationError
| WalletFileNotFound (path : string)
| WalletExists (path : string)
| KeyNotFound (n : Note)
| LowBalance (reason : LowBalanceReason)
| CantPullNote
| CantReadNoteValue
| MissingStoragePath.

Notation Notes := (gmap string (list InputNote)).

Record Wallet := mk_wallet {
  w_pk : Element;
  pending : Notes;
  avail : Notes;
  w_name : option string;
  balance : Z;
  w_chain_id : option Z;
  storage_path : option string;
}.

Definition wallet_new (chain_id : Z) (name : option string) (pk : Element) : Wallet :=
  mk_wallet pk ∅ ∅ name 0 (Some chain_id) None.
(** [Wallet::random], with the 32 bytes drawn. *)
Definition wallet_random (bytes : list Z) (chain_id : Z) (name : option string) : Wallet :=
  mk_wallet (from_be_bytes bytes) ∅ ∅ name 0 (Some chain_id) None.

Definition with_storage_path (w : Wallet) (path : string) : Wallet :=
  mk_wallet (w_pk w) (pending w) (avail w) (w_name w) (balance w) (w_chain_id w) (Some path).
Definition with_avail (w : Wallet) (m : Notes) (b : Z) : Wallet :=
  mk_wallet (w_pk w) (pending w) m (w_name w) b (w_chain_id w) (storage_path w).
Definition with_pending (w : Wallet) (m : Notes) : Wallet :=
  mk_wallet (w_pk w) m (avail w) (w_name w) (balance w) (w_chain_id w) (storage_path w).

(** [to_u64_array().first()]: the array is never empty. *)
Definition note_amount (n : Note) : Z := (to_u64_array (value n)).1.1.1.
Definition get_note_amount (n : Note) : outcome WalletError Z := Ok (note_amount n).

Definition W (A : Type) : Type := ST Wallet WalletError A.
Definition fail {A} (e : WalletError) : W A := st_lift (λ _, Err e).
Definition lift_out {A} (x : outcome WalletError A) : W A := st_lift (λ _, x).

Definition push_to_avail (ticker : string) (n : InputNote) : W Z :=
  let! _ := st_modify (λ w,
    with_avail w (<[ticker := default [] (avail w !! ticker) ++ [n]]> (avail w))
      (wrap 64 (balance w + note_amount (note n)))) in
  st_get balance.

Definition pull_from_avail (ticker : string) (n : InputNote) : W Z := λ w,
  match avail w !! ticker ≫= λ notes, (λ p, (notes, p)) <$> list_find (λ x, note x = note n) notes with
  | None => (w, Err CantPullNote)
  | Some (notes, (pos, removed)) =>
      let b := wrap 64 (balance w - note_amount (note removed)) in
      (with_avail w (<[ticker := delete pos notes]> (avail w)) b, Ok b)
  end.

(** * Choosing the notes to spend *)

Definition Selection : Type := list InputNote * Z.
Definition consider_candidate (amount : Z) (notes : list InputNote) (total : Z) (best : option Selection)
  : option Selection :=
  if decide (total < amount) then best
  else
    match best with
    | None => Some (notes, total)
    | Some (best_notes, best_total) =>
        let excess := total - amount in
        let best_excess := best_total - amount in
        if decide (excess < best_excess ∨ (excess = best_excess ∧ (length notes < length best_notes)%nat))
        then Some (notes, total) else best
    end.
Definition consider_pair (amount : Z) (note1 : InputNote) (best : option Selection) (note2 : InputNote)
  : option Selection :=
  match checked_add 64 (note_amount (note note1)) (note_amount (note note2)) with
  | Some total => consider_candidate amount [note1; note2] total best
  | None => best
  end.
(** The two nested loops: each note alone, then with each of the later ones. *)
Fixpoint best_selection (amount : Z) (notes : list InputNote) (best : option Selection) : option Selection :=
  match notes with
  | [] => best
  | note1 :: rest =>
      let best := consider_candidate amount [note1] (note_amount (note note1)) best in
      best_selection amount rest (foldl (consider_pair amount note1) best rest)
  end.

Section wallet.
Context `{FieldLib} (hm_keys : Notes → list string).

Definition make_change_note (pk : Element) (origin : Note) (change_amount : Z) : InputNote :=
  mk_input_note
    (mk_note (note_kind origin) (contract origin) (hash_merge [pk; ZERO]) (hash_merge [pk; pk]) change_amount) pk.

Fixpoint pull_all (ticker : string) (notes : list InputNote) : W unit :=
  match notes with
  | [] => st_ret tt
  | n :: notes => let! _ := pull_from_avail ticker n in pull_all ticker notes
  end.

Definition select_input_notes (pk : Element) (ticker : string) (amount : Z) : W ((InputNote * InputNote) * Note) :=
  let! asset_notes := st_get (λ w, default [] (avail w !! ticker)) in
  if decide (asset_notes = []) then fail (LowBalance NoNotes)
  else
    match best_selection amount asset_notes None with
    | None => fail (LowBalance TwoNotesTooSmall)
    | Some (selected, total_input) =>
        let! _ := pull_all ticker selected in
        let! change :=
          if decide (total_input = amount) then st_ret padding_note
          else
            match selected with
            | [] => lift_out (Panic "index out of bounds")
            | first :: _ =>
                let change_note := make_change_note pk (note first) (total_input - amount) in
                let! _ := push_to_avail ticker change_note in
                st_ret (note change_note)
            end in
        match selected with
        | [note1] => st_ret ((note1, input_padding_note), change)
        | [note1; note2] => st_ret ((note1, note2), change)
        | _ => lift_out (Panic "internal error: entered unreachable code")
        end
    end.

(** [min_by_key] returns the first of the least elements. *)
Fixpoint closest (amount : Z) (best : InputNote) (notes : list InputNote) : InputNote :=
  match notes with
  | [] => best
  | n :: notes =>
      closest amount
        (if decide (Z.abs (note_amount (note n) - amount) < Z.abs (note_amount (note best) - amount))
         then n else best) notes
  end.
Definition find_note (amount : Z) (ticker : string) (w : Wallet) : outcome WalletError InputNote :=
  match avail w !! ticker with
  | Some (n :: notes) => Ok (closest amount n notes)
  | _ => Err (LowBalance NoNotes)
  end.

(** * Building transactions *)

Definition spend_to (pk : Element) (n : Note) : W Utxo :=
  let! ticker := lift_out (citrea_ticker_from_contract (contract n)) in
  let! amount := lift_out (get_note_amount n) in
  let! b := st_get balance in
  if decide (amount > b) then fail (LowBalance (OnlyHas b amount))
  else
    let! (inputs, change) := select_input_notes pk ticker amount in
    st_ret (utxo_new_send inputs (n, change)).

Definition receive_note (pk : Element) (amount : Z) (ticker : string) : outcome WalletError InputNote :=
  let? (kind, contract) := citrea_token_data ticker in
  Ok (mk_input_note (mk_note kind contract (hash_merge [pk; ZERO]) (hash_merge [pk; pk]) amount) pk).

Definition wallet_receive (pk : Element) (input_note : InputNote) : W Utxo :=
  let! ticker := lift_out (citrea_ticker_from_contract (contract (note input_note))) in
  let! amount := lift_out (get_note_amount (note input_note)) in
  let! received := lift_out (receive_note pk amount ticker) in
  let! _ := push_to_avail ticker received in
  st_ret (utxo_new_send (input_note, input_padding_note) (note received, padding_note)).

Definition wallet_mint (pk : Element) (amount : Z) (ticker : string) : W Utxo :=
  let! received := lift_out (receive_note pk amount ticker) in
  let! _ := push_to_avail ticker received in
  st_ret (utxo_new_mint (note received, padding_note)).

Definition wallet_burn (burner_note : InputNote) (evm_address : Element) (natively_substitute : bool) : W Utxo :=
  let! ticker := lift_out (citrea_ticker_from_contract (contract (note burner_note))) in
  let! _ := pull_from_avail ticker burner_note in
  st_ret (if natively_substitute
          then utxo_new_burn (burner_note, input_padding_note) evm_address
          else utxo_new_burn_no_sub (burner_note, input_padding_note) evm_address).

(** * Notes others create *)

(** The loop of [import_note] over the tickers. *)
Fixpoint import_loop (n : Note) (tickers : list string) : W unit := λ w,
  match tickers with
  | [] => (w, Err (KeyNotFound n))
  | ticker :: tickers =>
      match pending w !! ticker with
      | None => (w, Panic "called `Option::unwrap()` on a `None` value")
      | Some notes =>
          match list_find (λ x, address (note x) = address n) notes with
          | Some (pos, pending_note) =>
              (let! _ := st_modify (λ w, with_pending w (<[ticker := delete pos notes]> (pending w))) in
               let! _ := push_to_avail ticker (mk_input_note n (secret_key pending_note)) in
               st_ret tt) w
          | None => import_loop n tickers w
          end
      end
  end.
Definition import_note (n : Note) : W unit := λ w, import_loop n (hm_keys (pending w)) w.

Definition add_to_avail (n : InputNote) : W unit :=
  let! ticker := lift_out (citrea_ticker_from_contract (contract (note n))) in
  let! _ := push_to_avail ticker n in
  st_ret tt.

Definition get_address (pk psi : Element) (amount : Z) (ticker : string) : W CipheraAddress :=
  let! (kind, contract) := lift_out (citrea_token_data ticker) in
  let n := mk_note kind contract (hash_merge [pk; ZERO]) psi amount in
  let! _ := st_modify (λ w, with_pending w (<[ticker := [mk_input_note n pk]]> (pending w))) in
  lift_out (address_of_note n).

(** The positions of the notes with a commitment; removing them from the last. *)
Fixpoint matches_from (i : nat) (c : Element) (notes : list InputNote) : list nat :=
  match notes with
  | [] => []
  | p :: notes =>
      if decide (c = commitment (note p)) then i :: matches_from (S i) c notes
      else matches_from (S i) c notes
  end.
Definition remove_matches (c : Element) (notes : list InputNote) : list InputNote :=
  foldl (λ l j, delete j l) notes (reverse (matches_from 0 c notes)).

Fixpoint push_all (notes : list InputNote) : W unit :=
  match notes with
  | [] => st_ret tt
  | n :: notes =>
      let! ticker := lift_out (citrea_ticker_from_contract (contract (note n))) in
      let! _ := push_to_avail ticker n in
      push_all notes
  end.
Definition sync_commitment (c : Element) : W unit :=
  if decide (c = ZERO) then st_ret tt
  else
    let! new_notes := st_get (λ w,
      hm_keys (pending w) ≫= λ t, filter (λ p, c = commitment (note p)) (default [] (pending w !! t))) in
    let! _ := st_modify (λ w, with_pending w (remove_matches c <$> pending w)) in
    push_all new_notes.
Fixpoint sync_commitments (cs : list Element) : W unit :=
  match cs with
  | [] => st_ret tt
  | c :: cs => let! _ := sync_commitment c in sync_commitments cs
  end.
(** [sync]: the transactions' output commitments one after the other. *)
Definition wallet_sync (txns : list UtxoProof) : W unit := sync_commitments (txns ≫= outputs).

(** * Staging *)

Definition stage {A} (m : W A) (w : Wallet) : outcome WalletError (Wallet * A) :=
  match m w with
  | (staged, Ok a) => Ok (staged, a)
  | (_, Err e) => Err e
  | (_, Panic s) => Panic s
  end.

Definition prepare_spend_to pk n := stage (spend_to pk n).
Definition prepare_receive pk i := stage (wallet_receive pk i).
Definition prepare_mint pk amount ticker := stage (wallet_mint pk amount ticker).
Definition prepare_burn n evm sub := stage (wallet_burn n evm sub).
Definition prepare_receive_note pk amount ticker (w : Wallet) : outcome WalletError (Wallet * InputNote) :=
  let? n := receive_note pk amount ticker in Ok (w, n).
Definition prepare_import_note n := stage (import_note n).
Definition prepare_add_to_avail n := stage (add_to_avail n).
Definition prepare_get_address pk psi amount ticker := stage (get_address pk psi amount ticker).
Definition prepare_sync txns := stage (wallet_sync txns).
End wallet.
