(* ===== verification/WalletProps.v ===== *)
(** The wallet keeps its books: the invariant of every operation, the value a
    transaction moves, the choice of the notes to spend, synchronisation. *)
From S2P Require Import Prelude Element SignedElement MerkleHash Utxo Links Wallet.

(** * Amounts *)

Lemma note_amount_mod n : note_amount n = wrap 64 (value n).
Proof.
  unfold note_amount, to_u64_array, into_words. cbn. unfold wrap. rewrite Z.land_ones by lia.
  apply Z.mod_mod_divide. by exists (2 ^ 64).
Qed.
#[global] Arguments note_amount : simpl never.
Lemma note_amount_small n : in_width 64 (value n) → note_amount n = value n.
Proof. intros Hw. by rewrite note_amount_mod, wrap_small. Qed.
Lemma note_amount_width n : in_width 64 (note_amount n).
Proof. rewrite note_amount_mod. unfold wrap, in_width. apply Z.mod_pos_bound. lia. Qed.

Definition sum_amounts (l : list InputNote) : Z := foldr (λ n acc, note_amount (note n) + acc) 0 l.
#[global] Arguments sum_amounts : simpl never.
(** What all available notes are worth, whatever the token. *)
Definition total_amount (m : Notes) : Z := map_sum (λ _ l, sum_amounts l) m.

Lemma sum_cons n l : sum_amounts (n :: l) = note_amount (note n) + sum_amounts l.
Proof. done. Qed.
Lemma sum_app l l' : sum_amounts (l ++ l') = sum_amounts l + sum_amounts l'.
Proof. induction l as [|n l IH]; [done|]. cbn [app]. rewrite !sum_cons, IH. lia. Qed.
Lemma sum_delete l i n : l !! i = Some n → sum_amounts (delete i l) = sum_amounts l - note_amount (note n).
Proof.
  intros Hi. rewrite delete_take_drop. rewrite <-(take_drop_middle _ _ _ Hi) at 3.
  rewrite !sum_app, sum_cons. lia.
Qed.
Lemma total_insert (m : Notes) t l :
  total_amount (<[t := l]> m) = total_amount m + sum_amounts l - sum_amounts (default [] (m !! t)).
Proof.
  unfold total_amount. destruct (m !! t) as [l'|] eqn:Ht; cbn.
  - rewrite (map_sum_delete _ m t l' Ht), (map_sum_delete _ (<[t := l]> m) t l) by apply lookup_insert_eq.
    rewrite delete_insert_eq. lia.
  - rewrite map_sum_insert by done. change (sum_amounts []) with 0. lia.
Qed.

Lemma wrap_add a b : wrap 64 (wrap 64 a + b) = wrap 64 (a + b).
Proof. unfold wrap. by rewrite Zplus_mod_idemp_l. Qed.
Lemma wrap_sub a b : wrap 64 (wrap 64 a - b) = wrap 64 (a - b).
Proof. unfold wrap. by rewrite Zminus_mod_idemp_l. Qed.

(** * The invariant *)

Section wallet_props.
Context `{FieldLaws} (hm_keys : Notes → list string)
  (hm_keys_perm : ∀ m, hm_keys m ≡ₚ (map_to_list m).*1).
Implicit Types (w : Wallet) (t : string) (n : InputNote).

Lemma hash_merge_wf l : wf_element (hash_merge l) ∧ hash_merge l < MODULUS.
Proof. apply from_base_wf. Qed.

(** A note the wallet can spend: it holds the key of its address, its value fits
    into 64 bits and it belongs to the token it is filed under. *)
Record spendable t n : Prop := {
  sp_ticker : citrea_ticker_from_contract (E := WalletError) (contract (note n)) = Ok t;
  sp_kind : note_kind (note n) = 2;
  sp_width : in_width 64 (value (note n));
  sp_key : address (note n) = hash_merge [secret_key n; ZERO];
  sp_wf : wf_element (psi (note n)) ∧ wf_element (secret_key n);
}.

Record wallet_inv w : Prop := {
  wi_balance : balance w = wrap 64 (total_amount (avail w));
  wi_avail t l n : avail w !! t = Some l → n ∈ l → spendable t n;
  wi_pending t l n : pending w !! t = Some l → n ∈ l → spendable t n;
}.

Definition notes_at (m : Notes) t : list InputNote := default [] (m !! t).
Lemma notes_at_insert (m : Notes) t l : notes_at (<[t := l]> m) t = l.
Proof. unfold notes_at. by rewrite lookup_insert_eq. Qed.
Lemma wi_avail_at w t n : wallet_inv w → n ∈ notes_at (avail w) t → spendable t n.
Proof.
  intros Hi Hn. unfold notes_at in Hn. destruct (avail w !! t) as [l|] eqn:Hl; cbn in Hn; [|by apply elem_of_nil in Hn].
  by eapply wi_avail.
Qed.

Lemma supported_ticker t :
  t = "WCBTC" ∨ t = "USDC" →
  ∃ c, citrea_token_data (E := WalletError) t = Ok (2, c) ∧ citrea_ticker_from_contract (E := WalletError) c = Ok t ∧
    (c = citrea_wcbtc_note_kind ∨ c = citrea_usdc_note_kind).
Proof.
  intros [->| ->].
  - exists citrea_wcbtc_note_kind. split_and!; [done|by unfold citrea_ticker_from_contract; rewrite decide_True|by left].
  - exists citrea_usdc_note_kind. split_and!; [done|by vm_compute|by right].
Qed.
Lemma ticker_supported c t : citrea_ticker_from_contract (E := WalletError) c = Ok t → t = "WCBTC" ∨ t = "USDC".
Proof. unfold citrea_ticker_from_contract. case_decide; [intros [= <-]; auto|]. case_decide; [intros [= <-]; auto|done]. Qed.
Lemma ticker_inj c c' t :
  citrea_ticker_from_contract (E := WalletError) c = Ok t → citrea_ticker_from_contract (E := WalletError) c' = Ok t → c = c'.
Proof.
  unfold citrea_ticker_from_contract. repeat case_decide; intros; simplify_eq; congruence.
Qed.

Lemma receive_note_spendable pk a t n :
  wf_element pk → in_width 64 a → (t = "WCBTC" ∨ t = "USDC") → receive_note pk a t = Ok n → spendable t n ∧ value (note n) = a.
Proof.
  intros Hpk Ha (c & Hc & Ht & _)%supported_ticker. unfold receive_note. rewrite Hc. intros [= <-]. split; [|done].
  split; [done..|]. split; [apply hash_merge_wf|done].
Qed.

(** ** Pushing and pulling *)

Lemma push_spec t n w :
  push_to_avail t n w =
    (with_avail w (<[t := notes_at (avail w) t ++ [n]]> (avail w)) (wrap 64 (balance w + note_amount (note n))),
     Ok (wrap 64 (balance w + note_amount (note n)))).
Proof. done. Qed.

Lemma push_inv t n w : wallet_inv w → spendable t n → wallet_inv (push_to_avail t n w).1.
Proof.
  intros [Hb Ha Hp] Hn. rewrite push_spec. cbn [fst]. split; cbn [with_avail balance avail pending].
  - rewrite total_insert, sum_app, sum_cons, Hb, wrap_add. unfold notes_at. change (sum_amounts []) with 0. f_equal. lia.
  - intros t' l n' Hl Hn'. destruct (decide (t = t')) as [<-|Hne].
    + rewrite lookup_insert_eq in Hl. injection Hl as <-. apply elem_of_app in Hn' as [Hn'|Hn'].
      * unfold notes_at in Hn'. destruct (avail w !! t) as [l|] eqn:Hl; [by eapply Ha|by apply elem_of_nil in Hn'].
      * by apply list_elem_of_singleton in Hn' as ->.
    + rewrite lookup_insert_ne in Hl by done. by eapply Ha.
  - done.
Qed.

(** A note that is there is pulled: one note like it leaves its list. *)
Lemma pull_spec t n w :
  note n ∈ note <$> notes_at (avail w) t →
  ∃ l', pull_from_avail t n w =
      (with_avail w (<[t := l']> (avail w)) (wrap 64 (balance w - note_amount (note n))),
       Ok (wrap 64 (balance w - note_amount (note n)))) ∧
    note <$> notes_at (avail w) t ≡ₚ note n :: (note <$> l') ∧
    sum_amounts l' = sum_amounts (notes_at (avail w) t) - note_amount (note n) ∧
    l' ⊆ notes_at (avail w) t.
Proof.
  unfold notes_at, pull_from_avail. intros Hn.
  destruct (avail w !! t) as [l|]; cbn in Hn; [|by apply elem_of_nil in Hn]. cbn [mbind option_bind option_fmap option_map default].
  apply list_elem_of_fmap in Hn as (x & Hx & Hxl).
  destruct (list_find_elem_of (λ x, note x = note n) l x Hxl (eq_sym Hx)) as [[i y] Hf]. rewrite Hf. cbn.
  apply list_find_Some in Hf as (Hi & Hy & _). exists (delete i l). split_and!.
  - by rewrite Hy.
  - rewrite <-Hy. rewrite <-fmap_cons. apply fmap_Permutation. by apply delete_Permutation.
  - rewrite (sum_delete _ _ _ Hi). by rewrite Hy.
  - intros z Hz. rewrite (delete_Permutation l i y Hi). by right.
Qed.

Lemma pull_err t n w : note n ∉ note <$> notes_at (avail w) t → pull_from_avail t n w = (w, Err CantPullNote).
Proof.
  unfold notes_at, pull_from_avail. intros Hn. destruct (avail w !! t) as [l|]; cbn; [|done].
  destruct (list_find (λ x, note x = note n) l) as [[i y]|] eqn:Hf; [|done]. exfalso. apply Hn.
  apply list_find_Some in Hf as (Hi & Hy & _). rewrite <-Hy. cbn. apply list_elem_of_fmap_2.
  by eapply list_elem_of_lookup_2.
Qed.

Lemma pull_inv t n w w' b : wallet_inv w → pull_from_avail t n w = (w', Ok b) → wallet_inv w'.
Proof.
  intros Hi Hp. destruct (decide (note n ∈ note <$> notes_at (avail w) t)) as [Hn|Hn]; [|by rewrite pull_err in Hp].
  destruct (pull_spec t n w Hn) as (l' & Heq & _ & Hs & Hsub). rewrite Heq in Hp. injection Hp as <- _.
  split; cbn [with_avail balance avail pending].
  - rewrite total_insert, Hs, (wi_balance w Hi), wrap_sub. unfold notes_at. f_equal. lia.
  - intros t' l n' Hl Hn'. destruct (decide (t = t')) as [<-|Hne].
    + rewrite lookup_insert_eq in Hl. injection Hl as <-. apply (wi_avail_at w t n' Hi). by apply Hsub.
    + rewrite lookup_insert_ne in Hl by done. by eapply (wi_avail w Hi).
  - apply (wi_pending w Hi).
Qed.

(** * The choice of notes *)

(** One note, or two different ones whose sum fits into 64 bits. *)
Definition choice (l : list InputNote) (s : Selection) : Prop :=
  (∃ i n, l !! i = Some n ∧ s = ([n], note_amount (note n))) ∨
  (∃ i j n n', l !! i = Some n ∧ l !! j = Some n' ∧ (i < j)%nat ∧
     note_amount (note n) + note_amount (note n') < 2 ^ 64 ∧
     s = ([n; n'], note_amount (note n) + note_amount (note n'))).
Definition preferred (s s' : Selection) : Prop :=
  s.2 < s'.2 ∨ (s.2 = s'.2 ∧ (length s.1 ≤ length s'.1)%nat).
Definition pair_of n n' : option Selection :=
  (λ total, ([n; n'], total)) <$> checked_add 64 (note_amount (note n)) (note_amount (note n')).
Fixpoint candidates (l : list InputNote) : list Selection :=
  match l with
  | [] => []
  | n :: l => ([n], note_amount (note n)) :: omap (pair_of n) l ++ candidates l
  end.

Lemma best_selection_fold amount l best :
  best_selection amount l best = foldl (λ b s, consider_candidate amount s.1 s.2 b) best (candidates l).
Proof.
  revert best. induction l as [|n l IH]; intros best; [done|]. cbn [best_selection candidates foldl].
  rewrite IH, foldl_app. f_equal. cbn [fst snd]. clear IH. generalize (consider_candidate amount [n] (note_amount (note n)) best).
  induction l as [|n' l IH]; intros b; [done|]. cbn [foldl omap list_omap]. rewrite IH.
  unfold consider_pair, pair_of. by destruct (checked_add _ _ _).
Qed.

Lemma candidates_choice l s : s ∈ candidates l ↔ choice l s.
Proof.
  induction l as [|n l IH]; cbn [candidates].
  - rewrite elem_of_nil. split; [done|]. intros [(i & n & Hi & _)|(i & j & n & n' & Hi & _)]; done.
  - rewrite elem_of_cons, elem_of_app, list_elem_of_omap, IH. split.
    + intros [->|[(n' & Hn' & Hp)|[(i & x & Hi & ->)|(i & j & x & y & Hi & Hj & Hlt & Hs & ->)]]].
      * left. by exists 0%nat, n.
      * right. apply list_elem_of_lookup in Hn' as [j Hj]. exists 0%nat, (S j), n, n'. unfold pair_of, checked_add in Hp.
        case_decide; [|done]. injection Hp as <-. split_and!; [done|done|lia|unfold in_width in *; lia|done].
      * left. by exists (S i), x.
      * right. exists (S i), (S j), x, y. split_and!; [done|done|lia|done|done].
    + intros [([|i] & x & Hi & ->)|([|i] & [|j] & x & y & Hi & Hj & Hlt & Hs & ->)]; try lia.
      * left. by injection Hi as ->.
      * right; right; left. by exists i, x.
      * right; left. injection Hi as ->. exists y. split; [by eapply list_elem_of_lookup_2|].
        unfold pair_of, checked_add. rewrite decide_True; [done|]. pose proof (note_amount_width (note x)).
        pose proof (note_amount_width (note y)). unfold in_width in *. lia.
      * right; right; right. exists i, j, x, y. split_and!; [done|done|lia|done|done].
Qed.

Lemma preferred_trans s s' s'' : preferred s s' → preferred s' s'' → preferred s s''.
Proof. unfold preferred. lia. Qed.

Lemma fold_consider amount (cs : list Selection) best :
  (∀ s, best = Some s → amount ≤ s.2) →
  match foldl (λ b s, consider_candidate amount s.1 s.2 b) best cs with
  | None => best = None ∧ ∀ c, c ∈ cs → c.2 < amount
  | Some s => (best = Some s ∨ s ∈ cs) ∧ amount ≤ s.2 ∧
      (∀ c, c ∈ cs → amount ≤ c.2 → preferred s c) ∧ (∀ c, best = Some c → preferred s c)
  end.
Proof.
  revert best. induction cs as [|c cs IH]; intros best Hb; cbn [foldl].
  { destruct best as [s|]; [|split; [done|by intros c ?%elem_of_nil]].
    split_and!; [by left|by apply Hb|by intros c ?%elem_of_nil|intros c [= <-]; right; lia]. }
  set (best' := consider_candidate _ _ _ _).
  assert ((∀ s, best' = Some s → amount ≤ s.2 ∧ (best = Some s ∨ s = c) ∧ (amount ≤ c.2 → preferred s c) ∧
             ∀ s', best = Some s' → preferred s s') ∧
          (best' = None → best = None ∧ c.2 < amount)) as [Hsome Hnone].
  { unfold best', consider_candidate, preferred. destruct c as [ns total]. cbn [fst snd]. case_decide as Hlt.
    - split; [|done]. intros s ->. split_and!; [by apply Hb|by left|lia|intros s' [= <-]; lia].
    - destruct best as [[bn bt]|].
      + pose proof (Hb _ eq_refl) as Hbt. cbn in Hbt. case_decide as Hd; split; try done; intros s [= <-]; cbn.
        * split_and!; [lia|by right|lia|intros s' [= <-]; cbn; lia].
        * split_and!; [lia|by left|lia|intros s' [= <-]; cbn; lia].
      + split; [|done]. intros s [= <-]. cbn. split_and!; [lia|by right|lia|done]. }
  specialize (IH best' (λ s Hs, proj1 (Hsome s Hs))). clearbody best'.
  match goal with |- context [foldl ?f best' cs] => destruct (foldl f best' cs) as [s|] end; cycle 1.
  { destruct IH as [Hn Hall]. destruct (Hnone Hn) as [-> Hc]. split; [done|].
    intros x [->|Hx]%elem_of_cons; [done|by apply Hall]. }
  destruct IH as (Hin & Hs & Hall & Hbest). split_and!; [|done|..].
  - rewrite elem_of_cons. destruct Hin as [Heq|Hin]; [|by auto]. destruct (Hsome s Heq) as (_ & [?| ->] & _); auto.
  - intros x [->|Hx]%elem_of_cons Hle; [|by apply Hall]. destruct best' as [s'|].
    + apply (preferred_trans _ s'); [by apply Hbest|]. destruct (Hsome s' eq_refl) as (_ & _ & Hp & _). by apply Hp.
    + destruct (Hnone eq_refl) as [_ ?]. lia.
  - intros s' ->. destruct best' as [s''|].
    + apply (preferred_trans _ s''); [by apply Hbest|]. destruct (Hsome s'' eq_refl) as (_ & _ & _ & Hp). by apply Hp.
    + by destruct (Hnone eq_refl) as [? _].
Qed.

(** The loops find the choice with the least excess, and of those one with the
    fewest notes; they find none only if none is enough. *)
Lemma best_selection_spec amount l :
  match best_selection amount l None with
  | None => ∀ s, choice l s → s.2 < amount
  | Some s => choice l s ∧ amount ≤ s.2 ∧ ∀ s', choice l s' → amount ≤ s'.2 → preferred s s'
  end.
Proof.
  rewrite best_selection_fold. pose proof (fold_consider amount (candidates l) None) as Hf.
  destruct (foldl _ None _) as [s|].
  - destruct Hf as ([?|Hin] & Hs & Hall & _); [done|done|]. split_and!; [by apply candidates_choice|done|].
    intros s' ?%candidates_choice. by apply Hall.
  - destruct Hf as [_ Hall]; [done|]. intros s ?%candidates_choice. by apply Hall.
Qed.

(** What a choice takes from the list. *)
Lemma choice_split l ns total :
  choice l (ns, total) → ∃ rest, l ≡ₚ ns ++ rest ∧ sum_amounts ns = total ∧
    ((∃ n, ns = [n]) ∨ (∃ n n', ns = [n; n'])) ∧ in_width 64 total.
Proof.
  intros [(i & n & Hi & [= -> ->])|(i & j & n & n' & Hi & Hj & Hlt & Hs & [= -> ->])].
  - exists (delete i l). split_and!; [by apply delete_Permutation|rewrite sum_cons; change (sum_amounts []) with 0; lia|eauto|].
    apply note_amount_width.
  - exists (delete i (delete j l)). split_and!; [|rewrite !sum_cons; change (sum_amounts []) with 0; lia|eauto|].
    + transitivity (n' :: delete j l); [by apply delete_Permutation|].
      transitivity (n' :: n :: delete i (delete j l)); [|apply Permutation_swap].
      constructor. apply delete_Permutation. by rewrite list_lookup_delete_lt.
    + pose proof (note_amount_width (note n)). pose proof (note_amount_width (note n')). unfold in_width in *. lia.
Qed.

(** * Spending *)

(** [w'] differs from [w] in the available notes of one token and the balance. *)
Definition only_notes_of t w w' : Prop :=
  w' = with_avail w (avail w') (balance w') ∧ ∀ t', t' ≠ t → avail w' !! t' = avail w !! t'.
Lemma only_notes_refl t w : only_notes_of t w w.
Proof. by destruct w. Qed.
Lemma only_notes_trans t w w' w'' : only_notes_of t w w' → only_notes_of t w' w'' → only_notes_of t w w''.
Proof.
  intros [Hw Ha] [Hw' Ha']. split; [by rewrite Hw', Hw|]. intros t' Ht. by rewrite Ha', Ha.
Qed.

Lemma balance_width w : wallet_inv w → in_width 64 (balance w).
Proof. intros Hi. rewrite (wi_balance w Hi). unfold wrap, in_width. apply Z.mod_pos_bound. lia. Qed.

Lemma pull_all_spec t ns R w :
  wallet_inv w → note <$> notes_at (avail w) t ≡ₚ (note <$> ns) ++ R →
  ∃ w', pull_all t ns w = (w', Ok tt) ∧ wallet_inv w' ∧ only_notes_of t w w' ∧
    note <$> notes_at (avail w') t ≡ₚ R ∧ balance w' = wrap 64 (balance w - sum_amounts ns).
Proof.
  revert w. induction ns as [|n ns IH]; intros w Hi Hp.
  - exists w. split_and!; [done|done|apply only_notes_refl|done|]. change (sum_amounts []) with 0.
    rewrite Z.sub_0_r, wrap_small; [done|by apply balance_width].
  - destruct (pull_spec t n w) as (l' & Hpull & Hperm & _); [rewrite Hp; csimpl; by left|].
    cbn [pull_all]. rewrite (st_bind_run _ _ _ _ _ Hpull). pose proof (pull_inv t n w _ _ Hi Hpull) as Hi'.
    edestruct IH as (w' & Hrun & Hw' & Ho & Hr & Hb); [exact Hi'| |].
    { cbn [with_avail avail]. rewrite notes_at_insert.
      rewrite Hperm in Hp. csimpl in Hp. by apply Permutation_cons_inv in Hp. }
    exists w'. split_and!; [done|done| |done|].
    + eapply only_notes_trans; [|exact Ho]. split; [done|]. intros t' Ht. cbn [with_avail avail]. by rewrite lookup_insert_ne.
    + rewrite Hb. cbn [with_avail balance]. rewrite wrap_sub, sum_cons. f_equal. lia.
Qed.

(** The inputs of a transaction, with the padding. *)
Definition padded (ns : list InputNote) : InputNote * InputNote :=
  match ns with [n; n'] => (n, n') | n :: _ => (n, input_padding_note) | [] => (input_padding_note, input_padding_note) end.

(** The change of a selection. *)
Definition change_of pk (s : Selection) (amount : Z) : list InputNote :=
  match s.1 with
  | n :: _ => if decide (s.2 = amount) then [] else [make_change_note pk (note n) (s.2 - amount)]
  | [] => []
  end.

Lemma select_spec pk t amount w s rest :
  wf_element pk → wallet_inv w → 0 ≤ amount ≤ balance w → notes_at (avail w) t ≡ₚ s.1 ++ rest →
  best_selection amount (notes_at (avail w) t) None = Some s →
  ∃ w', select_input_notes pk t amount w =
      (w', Ok (padded s.1, default padding_note (note <$> head (change_of pk s amount)))) ∧
    wallet_inv w' ∧ only_notes_of t w w' ∧
    note <$> notes_at (avail w') t ≡ₚ (note <$> rest) ++ (note <$> change_of pk s amount) ∧
    balance w' = balance w - amount.
Proof.
  intros Hpk Hi Ha Hrest Hbest. pose proof (best_selection_spec amount (notes_at (avail w) t)) as Hs. rewrite Hbest in Hs.
  destruct Hs as (Hc & Hle & _). destruct s as [ns total]. cbn [fst snd] in *.
  destruct (choice_split _ _ _ Hc) as (rest0 & _ & Hsum & Hns & Hw).
  destruct (pull_all_spec t ns (note <$> rest) w Hi) as (w1 & Hpull & Hi1 & Ho1 & Hr1 & Hb1).
  { rewrite <-fmap_app. by apply fmap_Permutation. }
  unfold select_input_notes. unfold st_bind at 1, st_get at 1. fold (notes_at (avail w) t). cbn [fst snd].
  rewrite decide_False.
  2:{ intros Hn. rewrite Hn in Hrest. apply Permutation_nil in Hrest. destruct Hns as [[n ->]|(n & n' & ->)]; done. }
  rewrite Hbest, (st_bind_run _ _ _ _ _ Hpull).
  assert (∃ n ns', ns = n :: ns' ∧ n ∈ notes_at (avail w) t) as (n & ns' & -> & Hn).
  { destruct Hns as [[n ->]|(n & n' & ->)]; eexists _, _; (split; [done|]); rewrite Hrest; by left. }
  pose proof (balance_width w Hi) as Hbw. pose proof (wi_avail_at w t n Hi Hn) as Hsp.
  unfold change_of. cbn [fst snd]. case_decide as Heq.
  - exists w1. split_and!; [|done|done|by rewrite app_nil_r|].
    + destruct Hns as [[x Hx]|(x & y & Hx)]; injection Hx as -> ->; done.
    + rewrite Hb1, Hsum, Heq. rewrite wrap_small; [done|]. unfold in_width in *. lia.
  - set (c := make_change_note pk (note n) (total - amount)).
    assert (spendable t c) as Hcs.
    { destruct Hsp as [Ht Hk _ _ _]. split; [done|done| |done|]; [cbn; unfold in_width in *; lia|].
      split; [apply hash_merge_wf|done]. }
    exists (push_to_avail t c w1).1. split_and!.
    + rewrite push_spec. destruct Hns as [[x Hx]|(x & y & Hx)]; injection Hx as -> ->; done.
    + by apply push_inv.
    + eapply only_notes_trans; [exact Ho1|]. rewrite push_spec. split; [done|].
      intros t' Ht. cbn. by rewrite lookup_insert_ne.
    + rewrite push_spec. cbn [fst with_avail avail]. rewrite notes_at_insert.
      rewrite fmap_app. by rewrite Hr1.
    + rewrite push_spec. cbn [fst with_avail balance]. rewrite Hb1, wrap_add, Hsum.
      rewrite note_amount_small by apply Hcs. cbn [note c value make_change_note]. 
      replace (balance w - total + (total - amount)) with (balance w - amount) by lia.
      rewrite wrap_small; [done|]. unfold in_width in *. lia.
Qed.

Definition change_note pk (s : Selection) (amount : Z) : Note :=
  default padding_note (note <$> head (change_of pk s amount)).

(** A transfer that can be paid. *)
Lemma spend_ok pk (n : Note) w t s rest :
  wf_element pk → wallet_inv w → citrea_ticker_from_contract (E := WalletError) (contract n) = Ok t → note_amount n ≤ balance w →
  notes_at (avail w) t ≡ₚ s.1 ++ rest → best_selection (note_amount n) (notes_at (avail w) t) None = Some s →
  ∃ w', prepare_spend_to pk n w = Ok (w', utxo_new_send (padded s.1) (n, change_note pk s (note_amount n))) ∧
    wallet_inv w' ∧ only_notes_of t w w' ∧
    note <$> notes_at (avail w') t ≡ₚ (note <$> rest) ++ (note <$> change_of pk s (note_amount n)) ∧
    balance w' = balance w - note_amount n.
Proof.
  intros Hpk Hi Ht Hle Hrest Hbest. pose proof (note_amount_width n) as [Hge _].
  destruct (select_spec pk t (note_amount n) w s rest Hpk Hi) as (w' & Hsel & Hrun); [done|done|done|].
  exists w'. split; [|done]. unfold prepare_spend_to, stage, spend_to.
  unfold lift_out, st_lift, st_get, get_note_amount. unfold st_bind at 1. rewrite Ht.
  unfold st_bind at 1. unfold st_bind at 1. cbn beta iota. rewrite decide_False by lia.
  rewrite (st_bind_run _ _ _ _ _ Hsel). done.
Qed.

(** A transfer that cannot. *)
Lemma spend_err pk (n : Note) w t :
  citrea_ticker_from_contract (E := WalletError) (contract n) = Ok t →
  balance w < note_amount n ∨ best_selection (note_amount n) (notes_at (avail w) t) None = None →
  ∃ r, prepare_spend_to pk n w = Err (LowBalance r).
Proof.
  intros Ht Hno. unfold prepare_spend_to, stage, spend_to.
  unfold lift_out, st_lift, get_note_amount. unfold st_bind at 1. rewrite Ht.
  unfold st_bind at 1. unfold st_bind at 1. unfold st_get at 1. cbn beta iota. case_decide; [by eexists|].
  destruct Hno as [|Hnone]; [lia|]. unfold st_bind at 1, select_input_notes, st_bind at 1, st_get at 1.
  fold (notes_at (avail w) t). cbn beta iota. case_decide; [by eexists|]. rewrite Hnone. by eexists.
Qed.

(** What a transfer that was built tells. *)
Lemma spend_inv pk (n : Note) w w' u :
  wallet_inv w → prepare_spend_to pk n w = Ok (w', u) →
  ∃ t ns total rest, citrea_ticker_from_contract (E := WalletError) (contract n) = Ok t ∧ note_amount n ≤ balance w ∧
    notes_at (avail w) t ≡ₚ ns ++ rest ∧
    best_selection (note_amount n) (notes_at (avail w) t) None = Some (ns, total) ∧
    choice (notes_at (avail w) t) (ns, total) ∧ note_amount n ≤ total.
Proof.
  intros Hi Hrun.
  destruct (citrea_ticker_from_contract (E := WalletError) (contract n)) as [t|e|m] eqn:Ht.
  2,3: unfold prepare_spend_to, stage, spend_to, lift_out, st_lift in Hrun; unfold st_bind at 1 in Hrun;
    by rewrite Ht in Hrun.
  destruct (decide (note_amount n ≤ balance w)) as [Hle|Hlt]; cycle 1.
  { destruct (spend_err pk n w t Ht) as [r Hr]; [left; lia|]. by rewrite Hr in Hrun. }
  pose proof (best_selection_spec (note_amount n) (notes_at (avail w) t)) as Hs.
  destruct (best_selection (note_amount n) (notes_at (avail w) t) None) as [[ns total]|] eqn:Hb; cycle 1.
  { destruct (spend_err pk n w t Ht) as [r Hr]; [by right|]. by rewrite Hr in Hrun. }
  destruct Hs as (Hc & Hge & _). destruct (choice_split _ _ _ Hc) as (rest & Hrest & _).
  by exists t, ns, total, rest.
Qed.

(** C29: The wallet pays whenever it can, with the best choice. A transfer of a
    supported token is built exactly when the balance covers it and one note, or
    two with a sum below 2^64, of that token do; the notes spent have the least
    excess of all such choices and, among these, the fewest notes; otherwise the
    wallet reports a low balance. It never panics. *)
Theorem spend_selects_best pk (n : Note) w t :
  wf_element pk → wallet_inv w → citrea_ticker_from_contract (E := WalletError) (contract n) = Ok t →
  let l := notes_at (avail w) t in
  let enough s := choice l s ∧ note_amount n ≤ s.2 in
  (note_amount n ≤ balance w → (∃ s, enough s) →
     ∃ w' s, prepare_spend_to pk n w = Ok (w', utxo_new_send (padded s.1) (n, change_note pk s (note_amount n))) ∧
       enough s ∧ ∀ s', enough s' → preferred s s') ∧
  (balance w < note_amount n ∨ (∀ s, ¬ enough s) → ∃ r, prepare_spend_to pk n w = Err (LowBalance r)).
Proof.
  intros Hpk Hi Ht l enough. pose proof (best_selection_spec (note_amount n) l) as Hs. split.
  - intros Hle [s0 [Hc0 Hs0]]. destruct (best_selection (note_amount n) l None) as [s|] eqn:Hb.
    + destruct Hs as (Hc & Hge & Hbest). destruct s as [ns total].
      destruct (choice_split _ _ _ Hc) as (rest & Hrest & _).
      destruct (spend_ok pk n w t (ns, total) rest Hpk Hi Ht Hle Hrest Hb) as (w' & Hrun & _).
      exists w', (ns, total). split_and!; [done|done|]. intros s' [Hc' Hs']. by apply Hbest.
    + apply Hs in Hc0. lia.
  - intros Hno. apply (spend_err pk n w t Ht). destruct Hno as [|Hno]; [by left|right]. fold l.
    destruct (best_selection (note_amount n) l None) as [s|]; [|done].
    destruct Hs as (Hc & Hge & _). by destruct (Hno s).
Qed.

Lemma padded_value ns total :
  ((∃ n, ns = [n]) ∨ (∃ n n', ns = [n; n'])) → sum_amounts ns = total → Forall (λ x, in_width 64 (value (note x))) ns →
  value (note (padded ns).1) + value (note (padded ns).2) = total.
Proof.
  intros [[x ->]|(x & y & ->)] <- Hw; rewrite ?Forall_cons in Hw; rewrite !sum_cons; change (sum_amounts []) with 0;
    cbn [padded fst snd].
  - rewrite note_amount_small by apply Hw. cbn. unfold ZERO. lia.
  - rewrite !note_amount_small by apply Hw. lia.
Qed.
Lemma change_value pk ns total amount :
  ns ≠ [] → value (default padding_note (note <$> head (change_of pk (ns, total) amount))) = total - amount.
Proof. destruct ns as [|x ns]; [done|]. intros _. unfold change_of. cbn. case_decide; cbn; unfold ZERO; lia. Qed.
Lemma change_spendable pk amount t (n : Note) ns total :
  wf_element pk → Forall (λ x, contract (note x) = contract n ∧ spendable t x) ns → 0 ≤ amount ≤ total → in_width 64 total →
  Forall (λ x, contract (note x) = contract n ∧ spendable t x) (change_of pk (ns, total) amount).
Proof.
  intros Hpk Hns Ha Hw. unfold change_of. cbn. destruct ns as [|x ns]; [constructor|].
  case_decide; [constructor|]. apply Forall_singleton. apply Forall_cons in Hns as [[Hc [Ht Hk _ _ _]] _].
  split; [done|]. split; [done|done| |done|]; [cbn; unfold in_width in *; lia|]. split; [apply hash_merge_wf|done].
Qed.

(** Spending creates and loses nothing: the inputs of the transaction are notes
    of the wallet, of the token that is sent, whose keys it holds; the outputs
    are the requested note and the change; they are worth the same; the wallet
    keeps the notes it had less the inputs plus the change, and its balance
    falls by the amount. *)
Theorem spend_conserves pk (n : Note) w w' u :
  wf_element pk → wallet_inv w → in_width 64 (value n) → prepare_spend_to pk n w = Ok (w', u) →
  ∃ t s rest, citrea_ticker_from_contract (E := WalletError) (contract n) = Ok t ∧
    let change := change_of pk s (value n) in
    u = utxo_new_send (padded s.1) (n, default padding_note (note <$> head change)) ∧
    input_value u = output_value u ∧
    Forall (λ x, contract (note x) = contract n ∧ spendable t x) (s.1 ++ change) ∧
    note <$> notes_at (avail w) t ≡ₚ (note <$> s.1) ++ (note <$> rest) ∧
    note <$> notes_at (avail w') t ≡ₚ (note <$> rest) ++ (note <$> change) ∧
    only_notes_of t w w' ∧ balance w' = balance w - value n ∧ wallet_inv w'.
Proof.
  intros Hpk Hi Hw Hrun. rewrite <-(note_amount_small n Hw).
  destruct (spend_inv pk n w w' u Hi Hrun) as (t & ns & total & rest & Ht & Hle & Hrest & Hb & Hc & Hge).
  destruct (choice_split _ _ _ Hc) as (_ & _ & Hsum & Hns & Htw).
  destruct (spend_ok pk n w t (ns, total) rest Hpk Hi Ht Hle Hrest Hb) as (w'' & Hrun' & Hi' & Ho & Hperm & Hbal).
  rewrite Hrun in Hrun'. injection Hrun' as <- ->. cbn [fst snd] in *.
  assert (Forall (λ x, contract (note x) = contract n ∧ spendable t x) ns) as Hown.
  { apply Forall_forall. intros x Hx. assert (spendable t x) as Hsp.
    { apply (wi_avail_at w t x Hi). rewrite Hrest. apply elem_of_app. by left. }
    split; [|done]. apply (ticker_inj _ _ t); [apply Hsp|done]. }
  exists t, (ns, total), rest. cbn [fst snd]. split_and!; [done|done| | | |done|done|done|done].
  - unfold change_note, input_value, output_value, element_add. cbn [utxo_new_send input_notes output_notes fst snd].
    rewrite (padded_value ns total Hns Hsum (Forall_impl _ _ _ Hown (λ x Hx, sp_width t x (proj2 Hx)))).
    rewrite (change_value pk ns total (note_amount n)), (note_amount_small n Hw); [|by destruct Hns as [[x ->]|(x & y & ->)]].
    f_equal. lia.
  - apply Forall_app. split; [done|]. apply (change_spendable pk (note_amount n) t n ns total); [done|done|split; [apply note_amount_width|done]|done].
  - rewrite <-fmap_app. by apply fmap_Permutation.
Qed.

(** * Synchronising *)

Lemma remove_matches_from c (l pre : list InputNote) :
  foldl (λ l j, delete j l) (pre ++ l) (reverse (matches_from (length pre) c l)) =
  pre ++ filter (λ p, c ≠ commitment (note p)) l.
Proof.
  revert pre. induction l as [|p l IH]; intros pre; [done|]. cbn [matches_from].
  specialize (IH (pre ++ [p])). rewrite length_app, Nat.add_comm in IH. cbn [length Nat.add] in IH.
  rewrite <-app_assoc in IH. cbn [app] in IH.
  case_decide as Hc.
  - rewrite reverse_cons, foldl_app, IH. cbn [foldl]. rewrite filter_cons_False by naive_solver.
    rewrite delete_take_drop, <-app_assoc. cbn [app].
    rewrite take_app_length. f_equal. rewrite drop_app_ge by lia. by replace (S (length pre) - length pre)%nat with 1%nat by lia.
  - rewrite IH, filter_cons_True by done. by rewrite <-app_assoc.
Qed.
Lemma remove_matches_filter c l : remove_matches c l = filter (λ p, c ≠ commitment (note p)) l.
Proof. apply (remove_matches_from c l []). Qed.

Definition ticker_of n : option string :=
  match citrea_ticker_from_contract (E := WalletError) (contract (note n)) with Ok t => Some t | _ => None end.
Lemma spendable_ticker t n : spendable t n → ticker_of n = Some t.
Proof. intros Hn. unfold ticker_of. by rewrite (sp_ticker t n Hn). Qed.

Lemma push_all_spec (ns : list InputNote) w :
  wallet_inv w → Forall (λ n, ∃ t, spendable t n) ns →
  ∃ w', push_all ns w = (w', Ok tt) ∧ wallet_inv w' ∧ pending w' = pending w ∧
    ∀ t, notes_at (avail w') t =
      notes_at (avail w) t ++ filter (λ n, ticker_of n = Some t) ns.
Proof.
  intros Hi Hns. revert w Hi. induction Hns as [|n ns [t Hn] Hns IH]; intros w Hi.
  { exists w. split_and!; [done|done|done|]. intros t. by rewrite app_nil_r. }
  cbn [push_all]. unfold lift_out, st_lift. unfold st_bind at 1. rewrite (sp_ticker _ _ Hn).
  unfold st_bind at 1. rewrite push_spec.
  destruct (IH (push_to_avail t n w).1) as (w' & Hrun & Hi' & Hp & Ha); [by apply push_inv|].
  rewrite push_spec in *. cbn [fst] in *. exists w'. split_and!; [done|done|done|]. intros t'. rewrite Ha.
  cbn [with_avail avail]. destruct (decide (t = t')) as [<-|Hne].
  - rewrite notes_at_insert, filter_cons_True by by apply spendable_ticker. by rewrite <-app_assoc.
  - rewrite filter_cons_False by (rewrite (spendable_ticker _ _ Hn); congruence). unfold notes_at. by rewrite lookup_insert_ne.
Qed.

(** One commitment: its notes move. *)
Lemma sync_commitment_spec c w :
  wallet_inv w → c ≠ ZERO →
  ∃ w', sync_commitment hm_keys c w = (w', Ok tt) ∧ wallet_inv w' ∧
    (∀ t, notes_at (pending w') t = filter (λ p, c ≠ commitment (note p)) (notes_at (pending w) t)) ∧
    ∀ t, notes_at (avail w') t = notes_at (avail w) t ++ filter (λ p, c = commitment (note p)) (notes_at (pending w) t).
Proof.
  intros Hi Hc. unfold sync_commitment. rewrite decide_False by done. unfold st_bind at 1, st_get at 1.
  unfold st_bind at 1, st_modify at 1. set (f t := filter (λ p, c = commitment (note p)) (notes_at (pending w) t)).
  change (hm_keys (pending w) ≫= _) with (hm_keys (pending w) ≫= f).
  set (w1 := with_pending w (remove_matches c <$> pending w)).
  assert (∀ t, notes_at (pending w1) t = filter (λ p, c ≠ commitment (note p)) (notes_at (pending w) t)) as Hp1.
  { intros t. unfold notes_at, w1. cbn [with_pending pending]. rewrite lookup_fmap.
    destruct (pending w !! t); [|done]. cbn. by rewrite remove_matches_filter. }
  assert (∀ t n, n ∈ notes_at (pending w) t → spendable t n) as Hpend.
  { intros t n Hn. unfold notes_at in Hn. destruct (pending w !! t) eqn:Ht; [|by apply elem_of_nil in Hn].
    by eapply (wi_pending w Hi). }
  destruct (push_all_spec (hm_keys (pending w) ≫= f) w1) as (w' & Hrun & Hi' & Hp & Ha).
  - split; [apply Hi|apply Hi|]. intros t l n Hl Hn. apply Hpend. assert (n ∈ notes_at (pending w1) t) as Hn'
      by (unfold notes_at; by rewrite Hl). rewrite Hp1, list_elem_of_filter in Hn'. apply Hn'.
  - apply Forall_forall. intros n (t & Hn & _)%list_elem_of_bind. exists t. apply Hpend.
    apply list_elem_of_filter in Hn. apply Hn.
  - exists w'. split_and!; [done|done|by rewrite Hp|]. intros t. rewrite Ha. f_equal.
    rewrite (filter_bind_key ticker_of f); [done|..].
    + rewrite hm_keys_perm. apply NoDup_fst_map_to_list.
    + intros k x [_ Hx]%list_elem_of_filter. by apply spendable_ticker, Hpend.
    + intros Hno. unfold f, notes_at. destruct (pending w !! t) as [l|] eqn:Ht; [|done]. destruct Hno.
      rewrite hm_keys_perm. apply list_elem_of_fmap. exists (t, l). split; [done|]. by apply elem_of_map_to_list.
Qed.

(** A note whose commitment is among the outputs [cs]; an output that is unused
    is zero. *)
Definition paid_by (cs : list Element) n : Prop := commitment (note n) ∈ cs ∧ commitment (note n) ≠ ZERO.
#[local] Instance paid_by_dec cs n : Decision (paid_by cs n).
Proof. unfold paid_by. apply _. Defined.

Lemma sync_commitments_spec cs w :
  wallet_inv w →
  ∃ w', sync_commitments hm_keys cs w = (w', Ok tt) ∧ wallet_inv w' ∧
    ∀ t, notes_at (pending w') t = filter (λ n, ¬ paid_by cs n) (notes_at (pending w) t) ∧
      notes_at (avail w') t ≡ₚ notes_at (avail w) t ++ filter (paid_by cs) (notes_at (pending w) t).
Proof.
  revert w. induction cs as [|c cs IH]; intros w Hi.
  - exists w. split_and!; [done|done|]. intros t. rewrite (filter_all (λ n, ¬ paid_by [] n)), (filter_none (paid_by [])).
    + by rewrite app_nil_r.
    + intros x _ [Hx _]. by apply elem_of_nil in Hx.
    + intros x _ [Hx _]. by apply elem_of_nil in Hx.
  - cbn [sync_commitments]. destruct (decide (c = ZERO)) as [->|Hc].
    + destruct (IH w Hi) as (w' & Hrun & Hi' & Hw'). exists w'. split_and!; [|done|].
      * unfold sync_commitment. rewrite decide_True by done. exact Hrun.
      * intros t. destruct (Hw' t) as [-> ->]. split; [|f_equiv; apply Permutation_refl'];
          apply list_filter_iff; intros x; unfold paid_by; rewrite elem_of_cons; naive_solver.
    + destruct (sync_commitment_spec c w Hi Hc) as (w1 & Hrun1 & Hi1 & Hp1 & Ha1).
      destruct (IH w1 Hi1) as (w' & Hrun & Hi' & Hw'). exists w'. split_and!; [|done|].
      * by rewrite (st_bind_run _ _ _ _ _ Hrun1).
      * intros t. destruct (Hw' t) as [-> ->]. rewrite Hp1, Ha1, <-app_assoc. split.
        -- rewrite list_filter_filter. apply list_filter_iff. intros x. unfold paid_by. rewrite elem_of_cons. naive_solver.
        -- f_equiv. rewrite <-(filter_split (λ n, c = commitment (note n))). apply Permutation_refl', list_filter_iff.
           intros x. unfold paid_by. rewrite elem_of_cons. naive_solver.
Qed.

(** Synchronising moves exactly the paid notes: with the transactions of the
    ledger, every note the wallet was waiting for whose commitment is among their
    outputs becomes available under its token, once, and every other one keeps
    waiting; nothing fails, and the wallet's books balance. *)
Theorem sync_moves_paid_notes txns w :
  wallet_inv w →
  let paid := paid_by (txns ≫= outputs) in
  ∃ w', prepare_sync hm_keys txns w = Ok (w', tt) ∧ wallet_inv w' ∧
    ∀ t, notes_at (pending w') t = filter (λ n, ¬ paid n) (notes_at (pending w) t) ∧
      notes_at (avail w') t ≡ₚ notes_at (avail w) t ++ filter paid (notes_at (pending w) t).
Proof.
  intros Hi paid. destruct (sync_commitments_spec (txns ≫= outputs) w Hi) as (w' & Hrun & Hw').
  exists w'. split; [|done]. unfold prepare_sync, stage, wallet_sync. by rewrite Hrun.
Qed.

(** * Every operation *)

Lemma stage_ok {A} (m : W A) w w' a : stage m w = Ok (w', a) → m w = (w', Ok a).
Proof. unfold stage. by destruct (m w) as [? [|?|?]]; intros [= <- <-]. Qed.
Lemma lift_bind_ok {A B} (x : outcome WalletError A) (f : A → W B) w w' b :
  st_bind (lift_out x) f w = (w', Ok b) → ∃ a, x = Ok a ∧ f a w = (w', Ok b).
Proof. unfold st_bind, lift_out, st_lift. destruct x as [a|?|?]; [by exists a|done..]. Qed.
Lemma push_bind_ok {B} t n (f : Z → W B) w w' b :
  st_bind (push_to_avail t n) f w = (w', Ok b) → ∃ z, f z (push_to_avail t n w).1 = (w', Ok b).
Proof. unfold st_bind at 1. rewrite push_spec. eauto. Qed.

Lemma receive_inv pk i w w' u : wf_element pk → wallet_inv w → prepare_receive pk i w = Ok (w', u) → wallet_inv w'.
Proof.
  intros Hpk Hi (t & Ht & (a & [= <-] & (n & Hn & (z & [= <- <-])%push_bind_ok)%lift_bind_ok)%lift_bind_ok)%stage_ok%lift_bind_ok.
  apply push_inv; [done|]. eapply receive_note_spendable; [done|apply note_amount_width|by eapply ticker_supported|done].
Qed.
Lemma mint_inv pk a t w w' u :
  wf_element pk → wallet_inv w → in_width 64 a → t = "WCBTC" ∨ t = "USDC" → prepare_mint pk a t w = Ok (w', u) → wallet_inv w'.
Proof.
  intros Hpk Hi Ha Ht (n & Hn & (z & [= <- <-])%push_bind_ok)%stage_ok%lift_bind_ok.
  apply push_inv; [done|]. by eapply receive_note_spendable.
Qed.
Lemma burn_inv n evm sub w w' u : wallet_inv w → prepare_burn n evm sub w = Ok (w', u) → wallet_inv w'.
Proof.
  intros Hi (t & Ht & Hr)%stage_ok%lift_bind_ok. unfold st_bind at 1 in Hr.
  destruct (pull_from_avail t n w) as [w1 [b|?|?]] eqn:Hp; [|done..]. injection Hr as <- _. by eapply pull_inv.
Qed.
Lemma add_inv t n w w' : wallet_inv w → spendable t n → prepare_add_to_avail n w = Ok (w', tt) → wallet_inv w'.
Proof.
  intros Hi Hn (t' & Ht & (z & [= <-])%push_bind_ok)%stage_ok%lift_bind_ok. apply push_inv; [done|].
  rewrite (sp_ticker _ _ Hn) in Ht. by injection Ht as <-.
Qed.
Lemma get_address_inv pk ps a t w w' ad :
  wf_element pk → wf_element ps → wallet_inv w → in_width 64 a → t = "WCBTC" ∨ t = "USDC" → prepare_get_address pk ps a t w = Ok (w', ad) → wallet_inv w'.
Proof.
  intros Hpk Hps Hi Ha (c & Hc & Ht & _)%supported_ticker ([k c'] & Hk & Hr)%stage_ok%lift_bind_ok.
  rewrite Hc in Hk. injection Hk as <- <-. unfold st_bind, st_modify, lift_out, st_lift in Hr. injection Hr as <- _.
  split; [apply Hi|apply Hi|]. cbn [with_pending pending]. intros t' l n Hl Hn. destruct (decide (t = t')) as [<-|Hne].
  - rewrite lookup_insert_eq in Hl. injection Hl as <-. apply list_elem_of_singleton in Hn as ->. by split.
  - rewrite lookup_insert_ne in Hl by done. by eapply (wi_pending w Hi).
Qed.

(** What [import_note] is given: a note of the token the address was made for. *)
Definition importable w (n : Note) : Prop :=
  note_kind n = 2 ∧ in_width 64 (value n) ∧ wf_element (psi n) ∧
  ∀ t l x, pending w !! t = Some l → x ∈ l → address (note x) = address n → contract (note x) = contract n.
Lemma import_inv (n : Note) w w' : wallet_inv w → importable w n → prepare_import_note hm_keys n w = Ok (w', tt) → wallet_inv w'.
Proof.
  intros Hi (Hk & Hw & Hps & Hc) Hr%stage_ok. unfold import_note in Hr. revert Hr. generalize (hm_keys (pending w)).
  intros ts. induction ts as [|t ts IH]; cbn [import_loop]; [done|].
  destruct (pending w !! t) as [l|] eqn:Hl; [|done].
  destruct (list_find _ l) as [[pos x]|] eqn:Hf; [|done]. apply list_find_Some in Hf as (Hpos & Hx & _).
  unfold st_bind at 1, st_modify. cbn beta iota. intros [z Hz]%push_bind_ok. injection Hz as <-.
  assert (x ∈ l) as Hxl by (by eapply list_elem_of_lookup_2).
  pose proof (wi_pending w Hi t l x Hl Hxl) as Hsp.
  apply (push_inv t (mk_input_note n (secret_key x)) (with_pending w (<[t := delete pos l]> (pending w)))).
  - split; [apply Hi|apply Hi|]. cbn [with_pending pending]. intros t' l' y Hl' Hy. destruct (decide (t = t')) as [<-|Hne].
    + rewrite lookup_insert_eq in Hl'. injection Hl' as <-. apply (wi_pending w Hi t l y Hl).
      rewrite (delete_Permutation l pos x Hpos). by right.
    + rewrite lookup_insert_ne in Hl' by done. by eapply (wi_pending w Hi).
  - destruct Hsp as [Ht _ _ Hkey [_ Hsk]]. split; cbn [note secret_key]; [|done|done|congruence|done].
    by rewrite <-(Hc t l x Hl Hxl Hx).
Qed.

(** One command on the wallet, and what it takes. *)
Inductive wallet_step w : Wallet → Prop :=
| ws_spend pk (n : Note) w' u : wf_element pk → prepare_spend_to pk n w = Ok (w', u) → wallet_step w w'
| ws_receive pk i w' u : wf_element pk → prepare_receive pk i w = Ok (w', u) → wallet_step w w'
| ws_mint pk a t w' u : wf_element pk → in_width 64 a → t = "WCBTC" ∨ t = "USDC" → prepare_mint pk a t w = Ok (w', u) → wallet_step w w'
| ws_burn n evm sub w' u : prepare_burn n evm sub w = Ok (w', u) → wallet_step w w'
| ws_add t n w' : spendable t n → prepare_add_to_avail n w = Ok (w', tt) → wallet_step w w'
| ws_address pk ps a t w' ad : wf_element pk → wf_element ps → in_width 64 a → t = "WCBTC" ∨ t = "USDC" →
    prepare_get_address pk ps a t w = Ok (w', ad) → wallet_step w w'
| ws_import (n : Note) w' : importable w n → prepare_import_note hm_keys n w = Ok (w', tt) → wallet_step w w'
| ws_sync txns w' : prepare_sync hm_keys txns w = Ok (w', tt) → wallet_step w w'.

Lemma wallet_step_inv w w' : wallet_inv w → wallet_step w w' → wallet_inv w'.
Proof.
  intros Hi Hs. destruct Hs as [pk n w' u Hpk Hr|pk i w' u Hpk Hr|pk a t w' u Hpk Ha Ht Hr|n evm sub w' u Hr|t n w' Hn Hr
    |pk ps a t w' ad Hpk Hps Ha Ht Hr|n w' Hn Hr|txns w' Hr].
  - destruct (spend_inv pk n w w' u Hi Hr) as (t & ns & total & rest & Ht & Hle & Hrest & Hb & _).
    destruct (spend_ok pk n w t (ns, total) rest Hpk Hi Ht Hle Hrest Hb) as (w'' & Hr' & Hi' & _). congruence.
  - by eapply receive_inv.
  - by eapply mint_inv.
  - by eapply burn_inv.
  - by eapply add_inv.
  - exact (get_address_inv _ _ _ _ _ _ _ Hpk Hps Hi Ha Ht Hr).
  - by eapply import_inv.
  - apply stage_ok in Hr. destruct (sync_commitments_spec (txns ≫= outputs) w Hi) as (w'' & Hr' & Hi' & _).
    unfold wallet_sync in Hr. congruence.
Qed.

Lemma wallet_new_inv chain_id name pk : wallet_inv (wallet_new chain_id name pk).
Proof. split; cbn; [by vm_compute|by intros ??? Hl; rewrite lookup_empty in Hl..]. Qed.


(** * Where money is lost *)

(** The note that [get_address] waits for. *)
Definition requested pk ps (a : Z) (c : Element) : InputNote := mk_input_note (mk_note 2 c (hash_merge [pk; ZERO]) ps a) pk.

Lemma get_address_run pk ps a t w c :
  t = "WCBTC" ∨ t = "USDC" → citrea_ticker_from_contract (E := WalletError) c = Ok t →
  ∃ ad, prepare_get_address pk ps a t w = Ok (with_pending w (<[t := [requested pk ps a c]]> (pending w)), ad).
Proof.
  intros Ht Hc. destruct (supported_ticker t Ht) as (c' & Hd & Hc' & Hsup). rewrite (ticker_inj c c' t Hc Hc').
  unfold prepare_get_address, stage, get_address, lift_out, st_lift. unfold st_bind at 1. rewrite Hd.
  unfold st_bind at 1, st_modify. cbn beta iota.
  destruct (currency_roundtrip (E := WalletError) c' Hsup) as (k & Hk & _).
  unfold address_of_note. cbn [contract]. rewrite Hk. cbn [outcome_bind]. eauto.
Qed.

(** A second address for the same token makes the wallet forget the first, which
    the payer may still use: when the first one is paid, synchronising does not
    credit the note, and its key is in no list of the wallet. *)
Theorem second_address_forgets_first w t c pk1 ps1 a1 pk2 ps2 a2 txns :
  wallet_inv w → t = "WCBTC" ∨ t = "USDC" → citrea_ticker_from_contract (E := WalletError) c = Ok t →
  in_width 64 a1 → in_width 64 a2 → Forall wf_element [pk1; ps1; pk2; ps2] →
  commitment (note (requested pk1 ps1 a1 c)) ≠ commitment (note (requested pk2 ps2 a2 c)) →
  (∀ e, e ∈ (txns ≫= outputs) → e = ZERO ∨ e = commitment (note (requested pk1 ps1 a1 c))) →
  ∃ w1 ad1 w2 ad2 w3, prepare_get_address pk1 ps1 a1 t w = Ok (w1, ad1) ∧
    prepare_get_address pk2 ps2 a2 t w1 = Ok (w2, ad2) ∧ prepare_sync hm_keys txns w2 = Ok (w3, tt) ∧
    notes_at (avail w3) t ≡ₚ notes_at (avail w) t ∧ notes_at (pending w3) t = [requested pk2 ps2 a2 c].
Proof.
  intros Hi Ht Hc Ha1 Ha2 Hwf Hne Htx. rewrite !Forall_cons in Hwf. destruct Hwf as (Hpk1 & Hps1 & Hpk2 & Hps2 & _).
  destruct (get_address_run pk1 ps1 a1 t w c Ht Hc) as [ad1 H1]. set (w1 := with_pending w _) in H1.
  pose proof (get_address_inv _ _ _ _ _ _ _ Hpk1 Hps1 Hi Ha1 Ht H1) as Hi1.
  destruct (get_address_run pk2 ps2 a2 t w1 c Ht Hc) as [ad2 H2]. set (w2 := with_pending w1 _) in H2.
  pose proof (get_address_inv _ _ _ _ _ _ _ Hpk2 Hps2 Hi1 Ha2 Ht H2) as Hi2.
  destruct (sync_commitments_spec (txns ≫= outputs) w2 Hi2) as (w3 & H3 & _ & Hw3).
  exists w1, ad1, w2, ad2, w3. split_and!; [done|done| |..].
  { unfold prepare_sync, stage, wallet_sync. by rewrite H3. }
  all: destruct (Hw3 t) as [Hp Ha].
  all: assert (notes_at (pending w2) t = [requested pk2 ps2 a2 c]) as Hpend
         by (unfold w2; cbn [with_pending pending]; apply notes_at_insert).
  all: assert (¬ paid_by (txns ≫= outputs) (requested pk2 ps2 a2 c)) as Hno
         by (intros [Hin Hz]; destruct (Htx _ Hin); congruence).
  - rewrite Ha, Hpend, filter_cons_False by done. by rewrite app_nil_r.
  - rewrite Hp, Hpend. by rewrite filter_cons_True by done.
Qed.

(** Only the low 64 bits of a value count: accepting a note worth 2^64 or more
    builds a transaction whose output is worth less than its input. *)
Theorem wide_note_is_truncated pk i w t :
  citrea_ticker_from_contract (E := WalletError) (contract (note i)) = Ok t → wf_element (value (note i)) →
  ∃ w' u, prepare_receive pk i w = Ok (w', u) ∧ output_value u = value (note i) mod 2 ^ 64 ∧
    (2 ^ 64 ≤ value (note i) → output_value u < input_value u).
Proof.
  intros Ht Hw. destruct (supported_ticker t (ticker_supported _ _ Ht)) as (c & Hd & _).
  unfold prepare_receive, stage, wallet_receive, lift_out, st_lift, get_note_amount. unfold st_bind at 1. rewrite Ht.
  unfold st_bind at 1. unfold st_bind at 1, receive_note. rewrite Hd. cbn [outcome_bind].
  unfold st_bind at 1. rewrite push_spec. eexists _, _. split; [done|].
  unfold output_value, input_value, element_add, utxo_new_send. cbn [output_notes input_notes fst snd note value input_padding_note padding_note].
  rewrite note_amount_mod. unfold ZERO. rewrite !Z.add_0_r. unfold wf_element, in_width in Hw.
  pose proof (Z.mod_pos_bound (value (note i)) (2 ^ 64) ltac:(lia)) as Hb.
  unfold wrap in *. rewrite !(Z.mod_small _ (2 ^ 256)) by lia. split; [done|lia].
Qed.
End wallet_props.
