(* ===== verification/Circuit.v ===== *)
(** The circuit of a transaction (noir/utxo/src/main.nr, noir/common/src/lib.nr)
    and what the prover feeds it (pkg/barretenberg/src/circuits: utxo.rs, note.rs).

    A field element is its canonical representative below [MODULUS]; the hash of
    field elements is [hash_merge] of their representatives. *)
From S2P Require Import Prelude Element SignedElement MerkleHash Utxo.

(** * Notes in the circuit *)

Record BNote := mk_bnote { b_kind : Z; b_value : Z; b_address : Z; b_psi : Z }.
Record BInputNote := mk_binput { b_note : BNote; b_secret_key : Z }.

Definition canonical (e : Element) : Z := e mod MODULUS.
Definition field_add (a b : Z) : Z := (a + b) mod MODULUS.

(** [From<&Note> for BNote]: the circuit's kind is the note's contract. *)
Definition bnote_of (n : Note) : BNote :=
  mk_bnote (canonical (contract n)) (canonical (value n)) (canonical (address n)) (canonical (psi n)).
Definition binput_of (i : InputNote) : BInputNote := mk_binput (bnote_of (note i)) (canonical (secret_key i)).

Section circuit.
Context `{FieldLib}.

(** [None]: the assertion on padding notes fails. *)
Definition get_note_commitment (n : BNote) : option Z :=
  if decide (b_kind n = 0) then if decide (b_value n = 0) then Some 0 else None
  else Some (hash_merge [2; b_kind n; b_value n; b_address n; b_psi n; 0; 0]).
Definition check_commitment (n : BNote) (c : Z) : bool := bool_decide (get_note_commitment n = Some c).
Definition check_input_note_ownership (i : BInputNote) : bool :=
  bool_decide (b_value (b_note i) = 0) || bool_decide (hash_merge [b_secret_key i; 0] = b_address (b_note i)).

Definition max_bits (w : Z) (x : Z) : bool := bool_decide (x < 2 ^ w).

(** [is_multiple_kinds]: the first kind that is not zero, and whether a later
    one differs. *)
Fixpoint is_multiple_kinds (first : Z) (kinds : list Z) : bool :=
  match kinds with
  | [] => false
  | k :: kinds =>
      if decide (k = 0) then is_multiple_kinds first kinds
      else if decide (first = 0) then is_multiple_kinds k kinds
      else if decide (first ≠ k) then true else is_multiple_kinds first kinds
  end.

(** The inputs of the circuit. *)
Record UtxoInput := mk_utxo_input {
  ui_inputs : BInputNote * BInputNote;
  ui_outputs : BNote * BNote;
  ui_pmessage4 : Z;
  ui_commitments : list Z;
  ui_messages : list Z;
}.

(** [main]: whether all assertions hold. *)
Definition utxo_circuit (x : UtxoInput) : bool :=
  let '(i0, i1) := ui_inputs x in
  let '(o0, o1) := ui_outputs x in
  match ui_commitments x, ui_messages x with
  | [c0; c1; c2; c3], [kind; msg_note_kind; msg_value; msg_hash; burn_addr] =>
      let input_value := field_add (b_value (b_note i0)) (b_value (b_note i1)) in
      let output_value := field_add (b_value o0) (b_value o1) in
      check_commitment (b_note i0) c0 && check_commitment (b_note i1) c1 &&
      check_commitment o0 c2 && check_commitment o1 c3 &&
      max_bits 240 (b_value o0) && max_bits 240 (b_value o1) &&
      negb (is_multiple_kinds 0 [b_kind (b_note i0); b_kind (b_note i1); b_kind o0; b_kind o1]) &&
      max_bits 240 msg_value &&
      (if decide (kind = 1) then bool_decide (input_value = output_value)
       else if decide (kind = 2) then
         bool_decide (output_value = field_add input_value msg_value) &&
         bool_decide (hash_merge [b_psi o0; b_psi o1] = msg_hash) && bool_decide (b_kind o0 = msg_note_kind)
       else if decide (kind = 3 ∨ kind = 4) then
         bool_decide (ui_pmessage4 x = burn_addr) && bool_decide (c0 = msg_hash) &&
         bool_decide (input_value = field_add output_value msg_value) &&
         bool_decide (b_kind (b_note i0) = msg_note_kind)
       else false) &&
      check_input_note_ownership i0 && check_input_note_ownership i1
  | _, _ => false
  end.

(** [From<&Utxo> for UtxoInput]. *)
Definition utxo_input (u : Utxo) : outcome Empty_set UtxoInput :=
  let? messages := utxo_messages u in
  Ok (mk_utxo_input
        (binput_of (input_notes u).1, binput_of (input_notes u).2)
        (bnote_of (output_notes u).1, bnote_of (output_notes u).2)
        (canonical (default 0 (messages !! 4%nat)))
        (canonical <$> leaf_elements u) (canonical <$> messages)).

(** Whether a transaction satisfies the circuit. *)
Definition provable (u : Utxo) : bool :=
  match utxo_input u with Ok x => utxo_circuit x | _ => false end.
End circuit.

(** * What satisfies it *)

Section circuit_props.
Context `{FieldLaws}.

Lemma canonical_wf e : wf_element e → wf_element (canonical e) ∧ canonical (canonical e) = canonical e.
Proof.
  intros He. pose proof modulus_bounds. pose proof (Z.mod_pos_bound e MODULUS ltac:(lia)) as Hb.
  unfold canonical, wf_element, in_width in *. split; [lia|]. by apply Z.mod_mod; lia.
Qed.
Lemma canonical_small e : 0 ≤ e < MODULUS → canonical e = e.
Proof. apply Z.mod_small. Qed.
Lemma hash_merge_bound l : 0 ≤ hash_merge l < MODULUS ∧ wf_element (hash_merge l).
Proof. destruct (from_base_wf (poseidon_hash (to_base <$> l))) as [Hw Hm]. split; [|done]. split; [apply Hw|done]. Qed.
Lemma canonical_hash l : canonical (hash_merge l) = hash_merge l.
Proof. apply canonical_small, hash_merge_bound. Qed.

(** The hash does not tell an element from its representative. *)
Lemma hash_merge_canonical l : Forall wf_element l → hash_merge (canonical <$> l) = hash_merge l.
Proof.
  intros Hl. unfold hash_merge. do 2 f_equal. induction Hl as [|e l He Hl IH]; [done|]. csimpl. rewrite IH. f_equal.
  destruct (canonical_wf e He) as [Hw Hc]. by apply to_base_mod.
Qed.

Definition wf_fields (n : Note) : Prop :=
  wf_element (contract n) ∧ wf_element (value n) ∧ wf_element (address n) ∧ wf_element (psi n).

(** The two ways of computing a commitment, in the circuit and in the program,
    agree on padding and on notes of kind 2 with a token and a value. *)
Lemma commitment_agrees n :
  wf_fields n → note_kind n = 2 → canonical (contract n) ≠ 0 → value n ≠ 0 →
  check_commitment (bnote_of n) (canonical (commitment n)) = true.
Proof.
  intros (Hc & Hv & Ha & Hp) Hk Hcz Hvz. unfold check_commitment, get_note_commitment, commitment, bnote_of.
  cbn [b_kind b_value b_address b_psi]. rewrite (decide_False (P := canonical (contract n) = 0)) by done.
  rewrite decide_False by done. rewrite canonical_hash, Hk.
  apply bool_decide_eq_true_2. f_equal.
  rewrite <-(hash_merge_canonical [2; contract n; value n; address n; psi n; ZERO; ZERO]).
  - csimpl. rewrite (canonical_small 2), (canonical_small ZERO); [done|..]; pose proof modulus_bounds; unfold ZERO, MODULUS in *; lia.
  - repeat (apply Forall_cons; split; [first [done|by apply (bool_decide_unpack (in_width 256 _))]|]). constructor.
Qed.
Lemma padding_commits : check_commitment (bnote_of padding_note) (canonical (commitment padding_note)) = true.
Proof. done. Qed.

(** A note without value but with a token: the program gives it no commitment,
    the circuit demands one. *)
Lemma zero_note_disagrees n :
  canonical (contract n) ≠ 0 → value n = 0 →
  hash_merge [2; canonical (contract n); 0; canonical (address n); canonical (psi n); 0; 0] ≠ 0 →
  check_commitment (bnote_of n) (canonical (commitment n)) = false.
Proof.
  intros Hc Hv Hh. unfold check_commitment, get_note_commitment, commitment. cbn [bnote_of b_kind].
  rewrite decide_False by done. rewrite (decide_True (P := value n = ZERO)) by done.
  apply bool_decide_eq_false_2. intros [= Heq]. apply Hh. by rewrite Hv in Heq.
Qed.

(** ** Transactions of one token *)

Section one_token.
Context (c : Element) (Hc0 : canonical c ≠ 0).

Definition good_note (n : Note) : Prop :=
  n = padding_note ∨ (contract n = c ∧ note_kind n = 2 ∧ wf_fields n ∧ 0 < value n < 2 ^ 240).
Definition good_input (i : InputNote) : Prop :=
  i = input_padding_note ∨
  (good_note (note i) ∧ address (note i) = hash_merge [secret_key i; ZERO] ∧ wf_element (secret_key i)).

Lemma good_input_note i : good_input i → good_note (note i).
Proof. intros [->|[? _]]; [by left|done]. Qed.
Lemma good_value n : good_note n → 0 ≤ value n < 2 ^ 240 ∧ canonical (value n) = value n.
Proof.
  intros Hn. assert (0 ≤ value n < 2 ^ 240) as Hb by (destruct Hn as [->|(_ & _ & _ & ?)]; cbn; unfold ZERO; lia).
  split; [done|]. apply canonical_small. unfold MODULUS. lia.
Qed.
Lemma good_commits n : good_note n → check_commitment (bnote_of n) (canonical (commitment n)) = true.
Proof.
  intros [->|(Hc & Hk & Hw & Hv)]; [apply padding_commits|]. apply commitment_agrees; [done|done|by rewrite Hc|lia].
Qed.
Lemma good_owned i : good_input i → check_input_note_ownership (binput_of i) = true.
Proof.
  unfold check_input_note_ownership. intros [->|(_ & Ha & Hs)]; [done|]. apply orb_true_iff. right.
  apply bool_decide_eq_true_2. cbn. rewrite Ha, canonical_hash.
  rewrite <-(hash_merge_canonical [secret_key i; ZERO]); [by csimpl|].
  repeat (apply Forall_cons; split; [first [done|by apply (bool_decide_unpack (in_width 256 _))]|]). constructor.
Qed.
Lemma good_kind n : good_note n → b_kind (bnote_of n) = 0 ∨ b_kind (bnote_of n) = canonical c.
Proof. intros [->|(Hc & _)]; [by left|right]. cbn. by rewrite Hc. Qed.

Lemma one_kind first ks :
  first = 0 ∨ first = canonical c → Forall (λ k, k = 0 ∨ k = canonical c) ks → is_multiple_kinds first ks = false.
Proof.
  intros Hf Hks. revert first Hf. induction Hks as [|k ks Hk Hks IH]; intros first Hf; [done|]. cbn [is_multiple_kinds].
  case_decide; [by apply IH|]. case_decide; [by apply IH|]. rewrite decide_False by naive_solver. by apply IH.
Qed.

Lemma field_add_small a b : 0 ≤ a < 2 ^ 240 → 0 ≤ b < 2 ^ 240 → field_add a b = a + b.
Proof. intros Ha Hb. apply Z.mod_small. unfold MODULUS. lia. Qed.

(** The assertions that are the same for all kinds of transactions. *)
Lemma circuit_frame i0 i1 o0 o1 k mk mv mh mb pm :
  good_input i0 → good_input i1 → good_note o0 → good_note o1 → 0 ≤ mv < 2 ^ 240 →
  utxo_circuit (mk_utxo_input (binput_of i0, binput_of i1) (bnote_of o0, bnote_of o1) pm
    (canonical <$> [commitment (note i0); commitment (note i1); commitment o0; commitment o1]) [k; mk; mv; mh; mb]) =
  (let input_value := value (note i0) + value (note i1) in
   let output_value := value o0 + value o1 in
   if decide (k = 1) then bool_decide (input_value = output_value)
   else if decide (k = 2) then
     bool_decide (output_value = field_add input_value mv) &&
     bool_decide (hash_merge [canonical (psi o0); canonical (psi o1)] = mh) && bool_decide (canonical (contract o0) = mk)
   else if decide (k = 3 ∨ k = 4) then
     bool_decide (pm = mb) && bool_decide (canonical (commitment (note i0)) = mh) &&
     bool_decide (input_value = field_add output_value mv) && bool_decide (canonical (contract (note i0)) = mk)
   else false).
Proof.
  intros Hn0 Hn1 Hn2 Hn3 Hmv. unfold utxo_circuit. cbn [fmap list_fmap ui_inputs ui_outputs ui_commitments ui_messages ui_pmessage4].
  cbn [b_note binput_of].
  rewrite (good_commits _ (good_input_note _ Hn0)), (good_commits _ (good_input_note _ Hn1)), (good_commits _ Hn2), (good_commits _ Hn3).
  rewrite !good_owned, !andb_true_r by done.
  change (b_value (bnote_of (note i0))) with (canonical (value (note i0))). change (b_value (bnote_of (note i1))) with (canonical (value (note i1))).
  change (b_value (bnote_of o0)) with (canonical (value o0)). change (b_value (bnote_of o1)) with (canonical (value o1)).
  destruct (good_value _ (good_input_note _ Hn0)) as [Hv0 ->]. destruct (good_value _ (good_input_note _ Hn1)) as [Hv1 ->].
  destruct (good_value _ Hn2) as [Hv2 ->]. destruct (good_value _ Hn3) as [Hv3 ->]. rewrite !field_add_small by done.
  unfold max_bits. rewrite !(bool_decide_eq_true_2 (_ < 2 ^ 240)) by lia. rewrite one_kind; [done|by left|].
  rewrite !Forall_cons, Forall_nil. split_and!; try apply good_kind; by eauto using good_input_note.
Qed.

(** A balanced transfer can be proved. *)
Lemma send_provable i0 i1 o0 o1 :
  good_input i0 → good_input i1 → good_note o0 → good_note o1 →
  value (note i0) + value (note i1) = value o0 + value o1 → provable (utxo_new_send (i0, i1) (o0, o1)) = true.
Proof.
  intros Hn0 Hn1 Hn2 Hn3 Heq. unfold provable, utxo_input, utxo_new_send, utxo_messages. cbn [kind outcome_bind input_notes output_notes fst snd].
  unfold leaf_elements. cbn [input_notes output_notes fst snd].
  replace (canonical <$> [1; ZERO; ZERO; ZERO; ZERO]) with [1; 0; 0; 0; 0] by reflexivity.
  rewrite circuit_frame by (try done; lia). rewrite decide_True by done. by apply bool_decide_eq_true_2.
Qed.

Lemma canonical_sub0 v : 0 ≤ v < 2 ^ 240 → canonical (element_sub v 0) = v.
Proof.
  intros Hv. unfold element_sub. rewrite Z.sub_0_r, wrap_small by (unfold in_width; lia).
  apply canonical_small. unfold MODULUS. lia.
Qed.

(** A mint of one note. *)
Lemma mint_provable o :
  good_note o → o ≠ padding_note → provable (utxo_new_mint (o, padding_note)) = true.
Proof.
  intros Ho Hne. unfold provable, utxo_input, utxo_new_mint, utxo_messages.
  cbn [kind outcome_bind input_notes output_notes fst snd].
  unfold leaf_elements, utxo_mint_hash, output_value, input_value, element_add. cbn [input_notes output_notes fst snd].
  destruct (good_value _ Ho) as [Hv Hvc]. destruct Ho as [|(Hc & Hk & Hw & Hvp)]; [done|].
  cbn [value input_padding_note padding_note note]. unfold ZERO. rewrite Z.add_0_r, Z.add_0_l.
  rewrite (wrap_small 256 0), (wrap_small 256 (value o)) by (unfold in_width; lia).
  cbn [fmap list_fmap lookup list_lookup default].
  rewrite canonical_sub0 by lia. rewrite (canonical_small 2) by (unfold MODULUS; lia).
  change [canonical (commitment (note input_padding_note)); canonical (commitment (note input_padding_note));
    canonical (commitment o); canonical (commitment padding_note)] with
    (canonical <$> [commitment (note input_padding_note); commitment (note input_padding_note); commitment o; commitment padding_note]).
  rewrite circuit_frame; [|by left|by left|by right|by left|lia].
  rewrite decide_False, decide_True by done. cbn [value note input_padding_note padding_note]. unfold ZERO.
  rewrite !Z.add_0_r. rewrite field_add_small, Z.add_0_l by lia.
  rewrite !andb_true_iff, !bool_decide_eq_true. split_and!; [done| |done]. rewrite canonical_hash.
  rewrite <-(hash_merge_canonical [psi o; psi padding_note]); [done|].
  rewrite !Forall_cons, Forall_nil. split_and!; [apply Hw|by apply (bool_decide_unpack (in_width 256 _))|done].
Qed.

(** A burn of one note. *)
Lemma burn_provable i evm (sub : bool) :
  good_input i →
  provable (if sub then utxo_new_burn (i, input_padding_note) evm else utxo_new_burn_no_sub (i, input_padding_note) evm) = true.
Proof.
  intros Hi. destruct (good_value _ (good_input_note _ Hi)) as [Hv Hvc].
  assert (∀ z k, k = KindBurn ∧ z = 3 ∨ k = KindNoSub ∧ z = 4 →
    provable (mk_utxo k (i, input_padding_note) (padding_note, padding_note) (Some evm)) = true) as Hall.
  { intros z k Hk. unfold provable, utxo_input.
    assert (utxo_messages (mk_utxo k (i, input_padding_note) (padding_note, padding_note) (Some evm)) =
      Ok [z; contract (note i); element_sub (value (note i)) 0; commitment (note i); evm]) as ->.
    { unfold utxo_messages, utxo_burn_hash, output_value, input_value, element_add.
      destruct Hk as [[-> ->]|[-> ->]]; cbn [kind input_notes output_notes burn_address fst snd unwrap outcome_bind];
        cbn [value input_padding_note padding_note note]; unfold ZERO; rewrite !Z.add_0_r;
        by rewrite (wrap_small 256 0), (wrap_small 256 (value (note i))) by (unfold in_width; lia). }
    unfold leaf_elements. cbn [outcome_bind input_notes output_notes fst snd lookup list_lookup default].
    replace (canonical <$> [z; contract (note i); element_sub (value (note i)) 0; commitment (note i); evm]) with
      [z; canonical (contract (note i)); value (note i); canonical (commitment (note i)); canonical evm].
    2:{ cbn [fmap list_fmap]. rewrite canonical_sub0 by done. by rewrite (canonical_small z) by (unfold MODULUS; lia). }
    rewrite circuit_frame; [|done|by left|by left|by left|done].
    rewrite decide_False, decide_False, decide_True by lia. cbn [value note input_padding_note padding_note]. unfold ZERO.
    rewrite !Z.add_0_r, field_add_small, Z.add_0_l by lia. by rewrite !bool_decide_eq_true_2. }
  destruct sub; [apply (Hall 3)|apply (Hall 4)]; auto.
Qed.
End one_token.
End circuit_props.
