(* ===== verification/Attest.v ===== *)
(** Attestations: the proofs of a signature, of the value of ten notes and of
    the migration of an address (zk-primitives/src: signature.rs, points.rs,
    migrate.rs; barretenberg/src/circuits: signature.rs, points.rs, migrate.rs;
    the circuits noir/signature, noir/points and noir/migrate), and the command
    line of the proving backend they go through (barretenberg/src: prove.rs,
    verify.rs, backend/bb_cli.rs).

    The compiled circuits, their execution and the bb tool are parameters
    ([Backend]); [BackendLaws] says that execution finds a witness for exactly
    the inputs that satisfy a circuit and that bb proves and verifies it. *)
From S2P Require Import Prelude Element SignedElement MerkleHash Utxo Circuit.
From S2P Require Import Primality Poseidon PoseidonBn256 PoseidonNoir.

(** * What is attested *)

Record Signature := mk_signature { sg_secret_key : Element; sg_message : Element }.
Record SignaturePublicInput := mk_signature_public { sgp_address : Element; sgp_message : Element }.
Record SignatureProof := mk_signature_proof { sg_proof : list Z; sg_public : SignaturePublicInput }.

Record Points := mk_points {
  pt_secret_keys : list Element;
  pt_notes : list Note;
  pt_timestamp : Element;
  pt_address : Element
}.
Record PointsPublicInput := mk_points_public {
  ptp_value : Element;
  ptp_timestamp : Element;
  ptp_hash : Element;
  ptp_commitments : list Element
}.
Record PointsProof := mk_points_proof { pt_proof : list Z; pt_public : PointsPublicInput }.

Record Migrate := mk_migrate { mg_owner_pk : Element; mg_old_address : Element; mg_new_address : Element }.
Record MigratePublicInput := mk_migrate_public { mgp_old_address : Element; mgp_new_address : Element }.
Record MigrateProof := mk_migrate_proof { mg_proof : list Z; mg_public : MigratePublicInput }.

(** ** Bytes *)

Definition signature_public_bytes (p : SignaturePublicInput) : list Z :=
  [sgp_address p; sgp_message p] ≫= to_be_bytes.
Definition signature_proof_bytes (p : SignatureProof) : list Z :=
  signature_public_bytes (sg_public p) ++ sg_proof p.

Definition points_public_bytes (p : PointsPublicInput) : list Z :=
  to_be_bytes (ptp_timestamp p) ++ to_be_bytes (ptp_value p) ++ to_be_bytes (ptp_hash p)
    ++ (ptp_commitments p ≫= to_be_bytes).
Definition points_proof_bytes (p : PointsProof) : list Z :=
  points_public_bytes (pt_public p) ++ pt_proof p.

Definition migrate_public_bytes (p : MigratePublicInput) : list Z :=
  [mgp_old_address p; mgp_new_address p] ≫= to_be_bytes.
Definition migrate_proof_bytes (p : MigrateProof) : list Z :=
  migrate_public_bytes (mg_public p) ++ mg_proof p.

(** * Inputs of the circuits: field elements, by their representatives *)

Record SignatureInput := mk_signature_input {
  sgi_secret_key : Z; sgi_message : Z; sgi_message_hash : Z; sgi_address : Z }.
Record PointsInput := mk_points_input {
  pti_secret_keys : list Z; pti_notes : list BNote; pti_timestamp : Z; pti_address : Z;
  pti_value : Z; pti_hash : Z; pti_commitments : list Z }.
Record MigrateInput := mk_migrate_input { mgi_owner_pk : Z; mgi_old_address : Z; mgi_new_address : Z }.

Inductive attested := ASignature (x : SignatureInput) | APoints (x : PointsInput) | AMigrate (x : MigrateInput).
Inductive program := PUtxo | PSignature | PPoints | PMigrate.
Definition program_of (x : attested) : program :=
  match x with ASignature _ => PSignature | APoints _ => PPoints | AMigrate _ => PMigrate end.

Section attest.
Context `{FieldLib}.

Definition message_hash (s : Signature) : Element := hash_merge [sg_secret_key s; sg_message s].
Definition points_value (p : Points) : Element := element_sum (value <$> pt_notes p).
Definition points_hash (p : Points) : Element := hash_merge [pt_timestamp p; pt_address p].

(** [Points::new]: the notes and the current time in seconds. *)
Definition points_new (now : Z) (address : Element) (secret_keys : list Element) (notes : list Note) : Points :=
  mk_points secret_keys notes now address.

Definition signature_input (s : Signature) : SignatureInput :=
  mk_signature_input (canonical (sg_secret_key s)) (canonical (sg_message s))
    (canonical (message_hash s)) (canonical (get_address_for_private_key (sg_secret_key s))).
Definition points_input (p : Points) : PointsInput :=
  mk_points_input (canonical <$> pt_secret_keys p) (bnote_of <$> pt_notes p)
    (canonical (pt_timestamp p)) (canonical (pt_address p)) (canonical (points_value p))
    (canonical (points_hash p)) ((λ n, canonical (commitment n)) <$> pt_notes p).
Definition migrate_input (m : Migrate) : MigrateInput :=
  mk_migrate_input (canonical (mg_owner_pk m)) (canonical (mg_old_address m)) (canonical (mg_new_address m)).

(** * The circuits *)

Definition circuit_address (secret_key : Z) : Z := hash_merge [secret_key; 0].

Definition signature_circuit (x : SignatureInput) : bool :=
  bool_decide (circuit_address (sgi_secret_key x) = sgi_address x) &&
  bool_decide (hash_merge [sgi_secret_key x; sgi_message x] = sgi_message_hash x).

(** The loop over the ten notes: whether its assertions hold, and the sum. *)
Fixpoint points_loop (notes : list BNote) (secret_keys commitments : list Z) (notes_value : Z) : option Z :=
  match notes, secret_keys, commitments with
  | note :: notes, secret_key :: secret_keys, commitment :: commitments =>
      if check_commitment note commitment && check_input_note_ownership (mk_binput note secret_key)
      then points_loop notes secret_keys commitments (field_add notes_value (b_value note))
      else None
  | _, _, _ => Some notes_value
  end.
Definition points_circuit (x : PointsInput) : bool :=
  match points_loop (pti_notes x) (pti_secret_keys x) (pti_commitments x) 0 with
  | Some notes_value =>
      bool_decide (pti_value x = notes_value) &&
      bool_decide (hash_merge [pti_timestamp x; pti_address x] = pti_hash x)
  | None => false
  end.

Context `{PrimeField, !PrimeFieldLaws}.

Definition get_old_address (owner_pk : Z) : Z := fr_val (noir_hash [fr_from owner_pk; fr_from 0]).

Definition migrate_circuit (x : MigrateInput) : bool :=
  bool_decide (circuit_address (mgi_owner_pk x) = mgi_new_address x) &&
  bool_decide (get_old_address (mgi_owner_pk x) = mgi_old_address x).

Definition satisfied (x : attested) : bool :=
  match x with
  | ASignature x => signature_circuit x
  | APoints x => points_circuit x
  | AMigrate x => migrate_circuit x
  end.

(** The public inputs of each circuit, in the order of its parameters. *)
Definition public_fields (x : attested) : list Z :=
  match x with
  | ASignature x => [sgi_address x; sgi_message x]
  | APoints x => [pti_timestamp x; pti_value x; pti_hash x] ++ pti_commitments x
  | AMigrate x => [mgi_old_address x; mgi_new_address x]
  end.
End attest.

(** * The backend *)

(** What the search for bb sees: the home directory, the directory of the
    executable ([None] inside: it has no parent), the variable BB_PATH, the
    answer of [which], and the paths that exist and run. *)
Record BbEnv := mk_env {
  env_home : option string;
  env_exe_dir : option (option string);
  env_bb_path : option string;
  env_which : outcome string (bool * string);
  env_runs : string → bool
}.

Class Backend := {
  join : string → string → string;
  env : BbEnv;
  witness_of : attested → outcome string (list Z);
  bb_prove : program → list Z → bool → bool → outcome string (list Z * list Z);
  bb_verify : program → list Z → list Z → bool → outcome string unit
}.

Fixpoint without_newlines (s : string) : string :=
  match s with
  | EmptyString => EmptyString
  | String c s' => if Ascii.eqb c (Ascii.ascii_of_nat 10) then without_newlines s' else String c (without_newlines s')
  end.

Section backend.
Context `{Backend}.

Definition PROOF_BYTES : nat := 508 * 32.

Definition get_bb_path : outcome string string :=
  let in_path :=
    let? (success, out) := env_which env in
    let bb_exe := without_newlines out in
    if success && env_runs env bb_exe then Ok bb_exe else Err "Barretenberg backend not found" in
  let in_variable :=
    match env_bb_path env with
    | Some bb => let bb_exe := join bb "bb" in if env_runs env bb_exe then Ok bb_exe else in_path
    | None => in_path
    end in
  let in_exe_dir :=
    match env_exe_dir env with
    | Some parent =>
        let? dir := unwrap parent "called `Option::unwrap()` on a `None` value" in
        let bb_exe := join dir "bb" in if env_runs env bb_exe then Ok bb_exe else in_variable
    | None => in_variable
    end in
  match env_home env with
  | Some path => let bb_exe := join path ".bb/bb" in if env_runs env bb_exe then Ok bb_exe else in_exe_dir
  | None => in_exe_dir
  end.

(** [CliBackend::prove] and [prove]. *)
Definition cli_prove (p : program) (witness : list Z) (recursive keccak : bool) : outcome string (list Z) :=
  let? _ := get_bb_path in
  let? (proof, public_inputs) := bb_prove p witness recursive keccak in
  Ok (public_inputs ++ proof).
Definition prove (x : attested) (recursive keccak : bool) : outcome string (list Z) :=
  let? witness := witness_of x in
  cli_prove (program_of x) witness recursive keccak.

(** [CliBackend::verify] and [verify]: the proof is the last 508 elements. *)
Definition cli_verify (p : program) (proof : list Z) (keccak : bool) : outcome string unit :=
  if decide (length proof < PROOF_BYTES)%nat then Panic "attempt to subtract with overflow"
  else
    let public_inputs_len := (length proof - PROOF_BYTES)%nat in
    let? _ := get_bb_path in
    bb_verify p (drop public_inputs_len proof) (take public_inputs_len proof) keccak.

(** [ToBytes] and [Verify] of a transaction. *)
Definition utxo_proof_bytes (t : UtxoProof) : list Z := public_input_bytes (public_inputs t) ++ proof t.
Definition utxo_verify (t : UtxoProof) : outcome string unit := cli_verify PUtxo (utxo_proof_bytes t) false.

(** The bytes of a proof, cut behind its public inputs. *)
Definition slice_inputs (count : nat) (bytes : list Z) : outcome string (list Element * list Z) :=
  if decide (length bytes < count * 32)%nat then Panic "range end index out of range"
  else
    match bytes_to_elements (take (count * 32) bytes) with
    | Ok public_inputs => Ok (public_inputs, drop (count * 32) bytes)
    | Err e => match e with end
    | Panic m => Panic m
    end.
Definition input_at (l : list Element) (i : nat) : outcome string Element := unwrap (l !! i) "index out of bounds".

Context `{FieldLib}.

Definition signature_prove (s : Signature) : outcome string SignatureProof :=
  let? proof_bytes := prove (ASignature (signature_input s)) false false in
  let? (public_inputs, raw_proof) := slice_inputs 2 proof_bytes in
  if decide (length raw_proof = PROOF_BYTES) then
    let? address := input_at public_inputs 0 in
    let? message := input_at public_inputs 1 in
    Ok (mk_signature_proof raw_proof (mk_signature_public address message))
  else Panic "Proof must be 508 elements of 32 bytes".
Definition signature_proof_verify (p : SignatureProof) : outcome string unit :=
  cli_verify PSignature (signature_proof_bytes p) false.

Definition points_prove (p : Points) : outcome string PointsProof :=
  let? proof_bytes := prove (APoints (points_input p)) false false in
  let? (public_inputs, raw_proof) := slice_inputs 13 proof_bytes in
  if decide (length raw_proof = PROOF_BYTES) then
    let? timestamp := input_at public_inputs 0 in
    let? value := input_at public_inputs 1 in
    let? hash := input_at public_inputs 2 in
    if decide (length (drop 3 public_inputs) = 10%nat) then
      Ok (mk_points_proof raw_proof (mk_points_public value timestamp hash (drop 3 public_inputs)))
    else Panic "called `Result::unwrap()` on an `Err` value"
  else Panic "Proof must be 508 elements of 32 bytes".
Definition points_verify (p : PointsProof) : outcome string unit :=
  cli_verify PPoints (points_proof_bytes p) false.

Definition migrate_prove (m : Migrate) : outcome string MigrateProof :=
  let? proof_bytes := prove (AMigrate (migrate_input m)) false false in
  let? (public_inputs, raw_proof) := slice_inputs 2 proof_bytes in
  let? old_address := input_at public_inputs 0 in
  let? new_address := input_at public_inputs 1 in
  Ok (mk_migrate_proof raw_proof (mk_migrate_public old_address new_address)).
Definition migrate_verify (p : MigrateProof) : outcome string unit :=
  cli_verify PMigrate (migrate_proof_bytes p) false.
End backend.

(** * Theorems *)

Class BackendLaws `{FieldLib, PrimeField, !PrimeFieldLaws, Backend} : Prop := {
  witness_found x : satisfied x = true → ∃ w, witness_of x = Ok w;
  witness_refused x : satisfied x = false → ∃ e, witness_of x = Err e;
  bb_proves x w recursive keccak : witness_of x = Ok w →
    ∃ raw, bb_prove (program_of x) w recursive keccak = Ok (raw, public_fields x ≫= to_be_bytes) ∧
      length raw = PROOF_BYTES ∧
      bb_verify (program_of x) raw (public_fields x ≫= to_be_bytes) keccak = Ok tt
}.

(** ** Shared lemmas *)

Lemma length_bind_be_bytes (ws : list Element) : length (ws ≫= to_be_bytes) = (length ws * 32)%nat.
Proof.
  induction ws as [|w ws IH]; [done|]. rewrite bind_cons, length_app, to_be_bytes_length, IH. cbn. lia.
Qed.

Lemma wf_zero : wf_element 0.
Proof. split; lia. Qed.

Ltac wf_list := repeat (apply Forall_cons; split; [first [done|exact wf_zero]|]); apply Forall_nil; done.

(** ** The search for bb *)

(** The places in the order of the search. *)
Definition bb_candidates `{Backend} : list string :=
  match env_home env with Some path => [join path ".bb/bb"] | None => [] end
  ++ match env_exe_dir env with Some (Some dir) => [join dir "bb"] | _ => [] end
  ++ match env_bb_path env with Some bb => [join bb "bb"] | None => [] end
  ++ match env_which env with Ok (true, out) => [without_newlines out] | _ => [] end.

(** The first place with a bb that runs is taken, and there is an error when
    there is none; the executable having a directory and [which] an answer. *)
Theorem get_bb_path_first `{Backend} success out :
  env_exe_dir env ≠ Some None → env_which env = Ok (success, out) →
  get_bb_path = match list_find (λ p, env_runs env p = true) bb_candidates with
                | Some (_, p) => Ok p
                | None => Err "Barretenberg backend not found"
                end.
Proof.
  intros Hd Hw. unfold get_bb_path, bb_candidates. rewrite Hw.
  destruct (env_home env) as [h|], (env_exe_dir env) as [[d|]|], (env_bb_path env) as [b|], success;
    try done; simpl; repeat (case_match; simplify_eq/=; try done); repeat case_decide; simplify_eq/=; congruence.
Qed.

(** ** Proofs *)

(** A proof shorter than 508 elements is not refused: the verifier panics.  So
    does it on a transaction whose proof, without its nine public inputs, is
    shorter than 499 elements, such as an empty one. *)
Theorem short_proof_panics `{Backend} :
  (∀ p proof keccak, (length proof < PROOF_BYTES)%nat →
     cli_verify p proof keccak = Panic "attempt to subtract with overflow") ∧
  (∀ t : UtxoProof, length (messages (public_inputs t)) = 5%nat → (length (proof t) < 499 * 32)%nat →
     utxo_verify t = Panic "attempt to subtract with overflow").
Proof.
  assert (Hp : ∀ p proof keccak, (length proof < PROOF_BYTES)%nat →
     cli_verify p proof keccak = Panic "attempt to subtract with overflow").
  { intros p proof keccak Hl. unfold cli_verify. by rewrite decide_True. }
  split; [done|]. intros t Hm Hl. apply Hp.
  unfold utxo_proof_bytes, public_input_bytes, PROOF_BYTES. rewrite length_app, length_bind_be_bytes.
  unfold fields. destruct (messages (public_inputs t)) as [|m0 [|m1 [|m2 [|m3 [|m4 [|]]]]]]; try done.
  cbn [length app]. lia.
Qed.

Section attest_props.
Context `{FieldLaws, PrimeField, !PrimeFieldLaws, !Backend, !BackendLaws}.
Context (path : string) (Hbb : get_bb_path = Ok path).

Lemma slice_inputs_ok (ws : list Element) raw count :
  Forall wf_element ws → length ws = count →
  slice_inputs count ((ws ≫= to_be_bytes) ++ raw) = Ok (ws, raw).
Proof.
  intros Hw Hc. pose proof (length_bind_be_bytes ws) as Hl. rewrite Hc in Hl. unfold slice_inputs. rewrite length_app, decide_False by lia.
  rewrite take_app_length', drop_app_length' by done. by rewrite (bytes_of_elements ws Hw).
Qed.

(** A satisfied circuit is proved, and the proof verifies behind its public
    inputs. *)
Lemma prove_satisfied x recursive keccak :
  satisfied x = true →
  ∃ raw, prove x recursive keccak = Ok ((public_fields x ≫= to_be_bytes) ++ raw) ∧
    length raw = PROOF_BYTES ∧
    cli_verify (program_of x) ((public_fields x ≫= to_be_bytes) ++ raw) keccak = Ok tt.
Proof.
  intros Hs. destruct (witness_found x Hs) as [w Hw].
  destruct (bb_proves x w recursive keccak Hw) as (raw & Hp & Hl & Hv).
  exists raw. unfold prove, cli_prove, cli_verify. rewrite Hw, Hbb. cbn [outcome_bind]. rewrite Hp.
  split; [done|]. split; [done|]. rewrite length_app, Hl, decide_False by lia.
  rewrite Nat.add_sub, drop_app_length', take_app_length' by done. cbn [outcome_bind]. done.
Qed.

Lemma prove_unsatisfied x recursive keccak :
  satisfied x = false → ∃ e, prove x recursive keccak = Err e.
Proof.
  intros Hs. destruct (witness_refused x Hs) as [e He]. exists e. unfold prove. by rewrite He.
Qed.

Lemma wf_canonical e : wf_element e → wf_element (canonical e).
Proof. intros He. by apply canonical_wf. Qed.

Lemma circuit_address_canonical e : wf_element e → circuit_address (canonical e) = get_address_for_private_key e.
Proof.
  intros He. unfold circuit_address, get_address_for_private_key.
  rewrite <- (hash_merge_canonical [e; ZERO]); [done|]. wf_list.
Qed.

(** Whoever has the key of an address can attest any message with it. *)
Theorem signature_attests s :
  wf_element (sg_secret_key s) → wf_element (sg_message s) →
  ∃ raw, let p := mk_signature_proof raw (mk_signature_public
           (get_address_for_private_key (sg_secret_key s)) (canonical (sg_message s))) in
    signature_prove s = Ok p ∧ signature_proof_verify p = Ok tt.
Proof.
  intros Hk Hm. destruct (prove_satisfied (ASignature (signature_input s)) false false) as (raw & Hp & Hl & Hv).
  { cbn. unfold signature_circuit. cbn. rewrite circuit_address_canonical by done.
    unfold message_hash. rewrite (canonical_hash [sg_secret_key s; sg_message s]).
    rewrite <- (hash_merge_canonical [sg_secret_key s; sg_message s]) by wf_list.
    unfold get_address_for_private_key. rewrite canonical_hash.
    by rewrite !bool_decide_true. }
  assert (He : public_fields (ASignature (signature_input s)) =
    [get_address_for_private_key (sg_secret_key s); canonical (sg_message s)]).
  { cbn. unfold get_address_for_private_key. by rewrite canonical_hash. }
  rewrite He in Hp, Hv. exists raw.
  split; [|exact Hv]. unfold signature_prove. rewrite Hp. cbn [outcome_bind].
  rewrite (slice_inputs_ok [_; _]); [| |done].
  2: { pose proof (proj2 (hash_merge_bound [sg_secret_key s; ZERO])). pose proof (wf_canonical _ Hm). wf_list. }
  cbn [outcome_bind]. by rewrite decide_True.
Qed.

Lemma get_old_address_agrees pk :
  wf_element pk → merge_poseidon [pk; ZERO] = Ok (Some (get_old_address (canonical pk))).
Proof.
  intros Hk. rewrite (noir_hash_agrees [pk; ZERO]); [|done|done|wf_list].
  do 2 f_equal. unfold get_old_address. do 2 f_equal. rewrite !fmap_cons, fmap_nil. f_equal.
  apply fr_val_inj. destruct (wf_canonical pk Hk) as [Hc _], Hk as [Hk _].
  rewrite !fr_val_from by done. unfold canonical. by rewrite Z.mod_mod.
Qed.

Lemma get_old_address_range pk :
  canonical (get_old_address pk) = get_old_address pk ∧ wf_element (get_old_address pk).
Proof.
  unfold get_old_address. set (h := noir_hash _). pose proof (fr_val_range h) as Hr.
  assert (MODULUS < 2 ^ 256) by done. split; [by apply Z.mod_small|split; lia].
Qed.

(** C22: A migration is attested exactly when the new address belongs to the key
    under the hash of the program and the old one under the old hash
    (pkg/hash-poseidon); the circuit computes the old hash on its own. *)
Theorem migrate_attests m :
  wf_element (mg_owner_pk m) → wf_element (mg_old_address m) → wf_element (mg_new_address m) →
  let owned := canonical (mg_new_address m) = get_address_for_private_key (mg_owner_pk m) ∧
               merge_poseidon [mg_owner_pk m; ZERO] = Ok (Some (canonical (mg_old_address m))) in
  (owned → ∃ raw, let p := mk_migrate_proof raw (mk_migrate_public
     (canonical (mg_old_address m)) (canonical (mg_new_address m))) in
     migrate_prove m = Ok p ∧ migrate_verify p = Ok tt) ∧
  (¬ owned → ∃ e, migrate_prove m = Err e).
Proof.
  intros Hk Ho Hn owned.
  assert (Hs : satisfied (AMigrate (migrate_input m)) = true ↔ owned).
  { cbn. unfold migrate_circuit, owned. cbn. rewrite andb_true_iff, !bool_decide_eq_true.
    rewrite circuit_address_canonical, get_old_address_agrees by done.
    split; [intros [-> ->]; done|intros [-> [= ->]]; done]. }
  split.
  - intros Hown. destruct (prove_satisfied (AMigrate (migrate_input m)) false false (proj2 Hs Hown)) as (raw & Hp & _ & Hv).
    exists raw. split; [|exact Hv]. unfold migrate_prove. rewrite Hp. cbn [outcome_bind].
    rewrite slice_inputs_ok; [done| |done].
    pose proof (wf_canonical _ Ho). pose proof (wf_canonical _ Hn). cbn. wf_list.
  - intros Hown. destruct (satisfied (AMigrate (migrate_input m))) eqn:E; [by destruct Hown; apply Hs|].
    destruct (prove_unsatisfied _ false false E) as [e He]. exists e. unfold migrate_prove. by rewrite He.
Qed.

(** ** Points *)

(** A note that a key can spend, of any token, or padding. *)
Definition spendable (key : Element) (n : Note) : Prop :=
  ∃ c, canonical c ≠ 0 ∧ good_input c (mk_input_note n key).

Definition total (ns : list Note) : Z := foldr (λ n s, value n + s) 0 ns.

Lemma spendable_value key n : spendable key n → 0 ≤ value n < 2 ^ 240.
Proof. intros (c & _ & Hg). apply (good_value c n). by apply good_input_note in Hg. Qed.

Lemma total_bound keys ns :
  Forall2 spendable keys ns → 0 ≤ total ns ≤ Z.of_nat (length ns) * 2 ^ 240.
Proof.
  induction 1 as [|key n keys ns Hn _ IH]; cbn [total foldr length]; [lia|].
  apply spendable_value in Hn. fold (total ns). lia.
Qed.

Lemma points_loop_sum keys ns acc :
  Forall2 spendable keys ns → 0 ≤ acc → acc + total ns < 2 ^ 250 →
  points_loop (bnote_of <$> ns) (canonical <$> keys) ((λ n, canonical (commitment n)) <$> ns) acc =
    Some (acc + total ns).
Proof.
  intros Hs. revert acc. induction Hs as [|key n keys ns Hn Hs IH]; intros acc Ha Hb.
  - cbn. f_equal. lia.
  - cbn [total foldr] in Hb. fold (total ns) in Hb.
    pose proof (total_bound keys ns Hs) as Ht. pose proof (spendable_value key n Hn) as Hv.
    destruct Hn as (c & Hc & Hg). rewrite !fmap_cons. cbn [points_loop].
    rewrite (good_commits c Hc n (good_input_note c _ Hg)).
    pose proof (good_owned c _ Hg) as Ho. cbn [binput_of note secret_key] in Ho.
    change (mk_binput (bnote_of n) (canonical key)) with (binput_of (mk_input_note n key)). rewrite Ho. cbn [andb].
    assert (Hc' : canonical (value n) = value n) by (by apply (good_value c n), (good_input_note c _ Hg)).
    change (b_value (bnote_of n)) with (canonical (value n)). rewrite Hc'.
    assert (2 ^ 250 < MODULUS) by done.
    assert (Hf : field_add acc (value n) = acc + value n) by (apply Z.mod_small; lia).
    rewrite Hf, IH by lia. f_equal. cbn [total foldr]. fold (total ns). lia.
Qed.

Lemma element_sum_total keys ns acc :
  Forall2 spendable keys ns → 0 ≤ acc → acc + total ns < 2 ^ 250 →
  foldl element_add acc (value <$> ns) = acc + total ns.
Proof.
  intros Hs. revert acc. induction Hs as [|key n keys ns Hn Hs IH]; intros acc Ha Hb.
  - cbn. lia.
  - cbn [total foldr] in *. fold (total ns) in *. rewrite fmap_cons. cbn [foldl].
    pose proof (total_bound keys ns Hs) as Ht. apply spendable_value in Hn.
    assert (He : element_add acc (value n) = acc + value n) by (apply Z.mod_small; lia).
    rewrite He, IH by lia. lia.
Qed.

(** The public inputs of the ten notes of [p]. *)
Definition attested_points (p : Points) : list Z :=
  [canonical (pt_timestamp p); total (pt_notes p); points_hash p]
    ++ ((λ n, canonical (commitment n)) <$> pt_notes p).

Section ten_notes.
Context (p : Points) (Hlen : length (pt_notes p) = 10%nat).
Context (Hs : Forall2 spendable (pt_secret_keys p) (pt_notes p)).
Context (Ht : wf_element (pt_timestamp p)) (Ha : wf_element (pt_address p)).

Lemma ten_total : 0 ≤ total (pt_notes p) < 2 ^ 250.
Proof. pose proof (total_bound _ _ Hs) as Hb. rewrite Hlen in Hb. lia. Qed.

Lemma points_value_total : points_value p = total (pt_notes p).
Proof.
  pose proof ten_total. unfold points_value, element_sum, ZERO.
  rewrite (element_sum_total _ _ 0 Hs); lia.
Qed.

Lemma points_canonical :
  canonical (points_value p) = total (pt_notes p) ∧ canonical (points_hash p) = points_hash p.
Proof.
  pose proof ten_total. assert (2 ^ 250 < MODULUS) by done. rewrite points_value_total.
  split; [apply Z.mod_small; lia|]. unfold points_hash. apply canonical_hash.
Qed.

Lemma points_satisfied : satisfied (APoints (points_input p)) = true.
Proof.
  pose proof ten_total. destruct points_canonical as [Hv Hh].
  cbn [satisfied points_input]. unfold points_circuit.
  cbn [pti_notes pti_secret_keys pti_commitments pti_value pti_timestamp pti_address pti_hash points_input].
  rewrite (points_loop_sum _ _ 0 Hs) by lia. rewrite Hv, Hh, Z.add_0_l, bool_decide_true by done.
  cbn [andb]. apply bool_decide_eq_true_2. unfold points_hash.
  rewrite <- (hash_merge_canonical [pt_timestamp p; pt_address p]); [done|wf_list].
Qed.

Lemma points_fields : public_fields (APoints (points_input p)) = attested_points p.
Proof.
  destruct points_canonical as [Hv Hh]. unfold attested_points.
  cbn [public_fields points_input pti_timestamp pti_value pti_hash pti_commitments]. by rewrite Hv, Hh.
Qed.

Lemma attested_points_wf : Forall wf_element (attested_points p).
Proof.
  pose proof ten_total. assert (wf_element (total (pt_notes p))) by (split; lia).
  pose proof (proj2 (hash_merge_bound [pt_timestamp p; pt_address p])). pose proof (wf_canonical _ Ht).
  apply Forall_app. split; [wf_list|]. apply Forall_fmap, Forall_true. intros n. cbn.
  unfold commitment. case_decide; [exact wf_zero|]. apply wf_canonical, hash_merge_bound.
Qed.
End ten_notes.

(** The sum of ten spendable notes, of whatever tokens, is attested together
    with their commitments, the time and the address. *)
Theorem points_attests p :
  length (pt_notes p) = 10%nat → Forall2 spendable (pt_secret_keys p) (pt_notes p) →
  wf_element (pt_timestamp p) → wf_element (pt_address p) →
  ∃ raw, let q := mk_points_proof raw (mk_points_public (total (pt_notes p))
           (canonical (pt_timestamp p)) (points_hash p)
           ((λ n, canonical (commitment n)) <$> pt_notes p)) in
    points_prove p = Ok q ∧ points_verify q = Ok tt.
Proof.
  intros Hlen Hs Ht Ha.
  destruct (prove_satisfied _ false false (points_satisfied p Hlen Hs Ht Ha)) as (raw & Hp & Hl & Hver).
  rewrite (points_fields p Hlen Hs) in Hp, Hver. exists raw.
  assert (Hl10 : length ((λ n, canonical (commitment n)) <$> pt_notes p) = 10%nat) by (by rewrite length_fmap).
  split.
  - unfold points_prove. rewrite Hp. cbn [outcome_bind].
    rewrite slice_inputs_ok; [|by apply attested_points_wf|unfold attested_points; by rewrite length_app, Hl10].
    cbn [outcome_bind]. rewrite decide_True by done. unfold attested_points.
    cbn [app input_at lookup list_lookup unwrap outcome_bind drop].
    rewrite decide_True by exact Hl10. done.
  - unfold points_verify, points_proof_bytes, points_public_bytes.
    cbn [pt_public pt_proof ptp_timestamp ptp_value ptp_hash ptp_commitments].
    unfold attested_points in Hver. cbn [program_of] in Hver.
    rewrite <- !app_comm_cons, app_nil_l, !bind_cons in Hver. by rewrite !app_assoc in *.
Qed.
End attest_props.

(** * A backend that satisfies the laws *)

Section instance.
#[local] Instance toy_backend : Backend := {|
  join a b := (a ++ "/" ++ b)%string;
  env := mk_env (Some "home") None None (Ok (false, "")) (λ _, true);
  witness_of x := if satisfied x then Ok (public_fields x ≫= to_be_bytes) else Err "unsatisfied constraint";
  bb_prove _ w _ _ := Ok (replicate PROOF_BYTES 0, w);
  bb_verify _ _ _ _ := Ok tt
|}.

#[local] Instance toy_backend_laws : BackendLaws.
Proof.
  split.
  - intros x Hx. exists (public_fields x ≫= to_be_bytes). cbn [witness_of toy_backend]. by rewrite Hx.
  - intros x Hx. exists "unsatisfied constraint"%string. cbn [witness_of toy_backend]. by rewrite Hx.
  - intros x w r k Hw. cbn [witness_of toy_backend] in Hw. destruct (satisfied x); [|discriminate Hw].
    injection Hw as <-. exists (replicate PROOF_BYTES 0). split; [reflexivity|].
    split; [apply length_replicate|reflexivity].
Qed.

#[local] Strategy opaque [get_old_address merge_poseidon get_address_for_private_key hash_merge canonical
  migrate_prove migrate_verify].

(** The owner of the key 101 migrates the address of the old hash. *)
Lemma migrate_attests_witness :
  ∃ raw, let p := mk_migrate_proof raw (mk_migrate_public
           (canonical (get_old_address 101)) (canonical (get_address_for_private_key 101))) in
    migrate_prove (mk_migrate 101 (get_old_address 101) (get_address_for_private_key 101)) = Ok p ∧
    migrate_verify p = Ok tt.
Proof.
  assert (Hk : wf_element 101) by (split; lia).
  destruct (get_old_address_range 101) as [Ho Hw]. destruct (hash_merge_bound [101; ZERO]) as [Hn Hnw].
  pose proof (get_old_address_agrees 101 Hk) as Ha.
  change (canonical 101) with 101 in Ha. rewrite <- Ho in Ha at 1.
  pose proof (migrate_attests "home/.bb/bb" eq_refl
    (mk_migrate 101 (get_old_address 101) (get_address_for_private_key 101))) as Hm.
  cbv zeta in Hm. cbn [mg_owner_pk mg_old_address mg_new_address] in Hm.
  destruct (Hm Hk Hw Hnw) as [Hown _]. clear Hm. apply Hown.
  split; [exact (canonical_small _ Hn)|exact Ha].
Defined.
End instance.
