(* ===== verification/Cli.v ===== *)
(** The commands of the client (pkg/cli/src: main.rs, client.rs, the file
    operations of wallet.rs).

    A command runs in a world: the files of the working directory, the
    transactions the node has taken, the mints registered with the rollup
    contract.  What the node or a service answers is an argument; keys drawn at
    random are arguments.  [serde_json] and the prover are parameters.  Printing
    is left out. *)
From S2P Require Import Prelude Element SignedElement MerkleHash Utxo Crypto Links.
From S2P Require Import Wallet Circuit.

(** * The world *)

Record World := mk_world {
  files : gmap string string;
  node_txns : list UtxoProof;
  contract_mints : list (Element * Element * Element);
}.
Definition with_file (x : World) (path content : string) : World :=
  mk_world (<[path := content]> (files x)) (node_txns x) (contract_mints x).

Inductive CliError :=
| CliWallet (e : WalletError)
| ChainIdDiffers
| NodeFailed
| InvalidAddress
| FileNotFound (path : string)
| CliIo
| CliSerialization
| NotEnoughBalance
| ServiceFailed
| ServiceTimedOut
| SwapFailed (state : Z)
| AmountTooLarge.

(** What becomes of a request to the node: taken and answered; refused; or taken
    without an answer reaching the client (a timeout, a malformed reply). *)
Inductive Reply := Accepted | Refused | Unanswered.
#[export] Instance reply_eq_dec : EqDecision Reply.
Proof. solve_decision. Defined.

Class Json := {
  to_json : Wallet → string;
  from_json : string → option Wallet;
  input_note_to_json : InputNote → string;
  input_note_from_json : string → option InputNote;
  note_to_json : Note → string;
  note_from_json : string → option Note;
}.
(** [storage_path] is skipped by serde. *)
Definition without_path (w : Wallet) : Wallet :=
  mk_wallet (w_pk w) (pending w) (avail w) (w_name w) (balance w) (w_chain_id w) None.
Class JsonLaws `{Json} : Prop := {
  json_wallet w : from_json (to_json w) = Some (without_path w);
  json_input_note n : input_note_from_json (input_note_to_json n) = Some n;
  json_note n : note_from_json (note_to_json n) = Some n;
}.

(** [Utxo::prove]; [None]: an error, which every caller unwraps. *)
Class Prover := { prove : Utxo → option UtxoProof }.
(** The representatives that the public inputs of a proof are. *)
Definition canonical_inputs (p : UtxoPublicInput) : UtxoPublicInput :=
  mk_public_input (canonical (input_commitments p).1, canonical (input_commitments p).2)
    (canonical (output_commitments p).1, canonical (output_commitments p).2) (canonical <$> messages p).
(** Documented: a transaction has a proof exactly when it satisfies the circuit,
    and the proof states its public inputs. *)
Class ProverLaws `{FieldLib, Prover} : Prop := {
  prove_complete u : provable u = true → is_Some (prove u);
  prove_sound u p : prove u = Some p → provable u = true ∧
    ∃ pi, utxo_public_inputs u = Ok pi ∧ public_inputs p = canonical_inputs pi;
}.

Definition C (A : Type) : Type := ST World CliError A.
Definition throw {A} (e : CliError) : C A := st_lift (λ _, Err e).
Definition of_wallet {A} (x : outcome WalletError A) : C A := st_lift (λ _, map_err CliWallet x).
Definition of_out {A} (x : outcome CliError A) : C A := st_lift (λ _, x).

Section cli.
Context `{FieldLib, Bs58, Json, Prover} (hm_keys : Notes → list string).
(** Whether writing a file succeeds. *)
Context (writable : string → bool).

Definition wallet_path_in (name : string) : string := name +:+ ".json".

Definition write_file (path content : string) : C unit := λ x,
  if writable path then (with_file x path content, Ok tt) else (x, Err CliIo).
Definition save_to (path : string) (w : Wallet) : C unit := write_file path (to_json w).
Definition save (w : Wallet) : C unit :=
  match storage_path w with
  | None => throw (CliWallet MissingStoragePath)
  | Some path => save_to path w
  end.

Definition create_in (bytes : list Z) (chain_id : Z) (name : string) : C Wallet :=
  let path := wallet_path_in name in
  let! there := st_get (λ x, files x !! path) in
  match there with
  | Some _ => throw (CliWallet (WalletExists path))
  | None =>
      let w := with_storage_path (wallet_random bytes chain_id (Some name)) path in
      let! _ := save w in
      st_ret w
  end.

Definition load_from (name : string) : C Wallet :=
  let path := wallet_path_in name in
  let! content := st_get (λ x, files x !! path) in
  match content with
  | None => throw (CliWallet (WalletFileNotFound path))
  | Some s =>
      match from_json s with
      | None => throw (CliWallet SerializationError)
      | Some w => st_ret (with_storage_path w path)
      end
  end.

(** [NodeClientBuilder::build]: the client's wallet. *)
Definition build (bytes : list Z) (name : string) (chain_id : Z) (create_wallet : bool) : C Wallet :=
  if create_wallet then create_in bytes chain_id name
  else
    let! w := load_from name in
    match w_chain_id w with
    | Some loaded => if decide (loaded ≠ chain_id) then throw ChainIdDiffers else st_ret w
    | None => st_ret w
    end.

(** [NodeClient::transaction]. *)
Definition transaction (r : Reply) (p : UtxoProof) : C unit := λ x,
  let taken := mk_world (files x) (node_txns x ++ [p]) (contract_mints x) in
  match r with
  | Accepted => (taken, Ok tt)
  | Refused => (x, Err NodeFailed)
  | Unanswered => (taken, Err NodeFailed)
  end.

Definition prove_unwrap (u : Utxo) : C UtxoProof :=
  of_out (unwrap (prove u) "called `Result::unwrap()` on an `Err` value").

(** [admin_mint]: the mint hash, value and token registered with the contract;
    [ok] says whether the contract call succeeds. *)
Definition admin_mint (ok : bool) (n : Note) : C unit := λ x,
  if ok then
    (mk_world (files x) (node_txns x)
       (contract_mints x ++ [(hash_merge [psi n; psi padding_note], value n, contract n)]), Ok tt)
  else (x, Err ServiceFailed).

(** * Commands *)

Definition handle_create (bytes : list Z) (chain : Z) (name : string) : C Wallet := create_in bytes chain name.

(** [health], the answer to the health check; [txns], the listed transactions, if
    the node answers. *)
Definition handle_sync (chain : Z) (name : string) (health : bool) (txns : option (list UtxoProof)) : C unit :=
  let! w := build [] name chain false in
  if negb health then throw NodeFailed
  else
    match txns with
    | None => st_ret tt
    | Some l =>
        let! (w, _) := of_wallet (prepare_sync hm_keys l w) in
        save (mk_wallet (w_pk w) (pending w) (avail w) (w_name w) (balance w) (Some chain) (storage_path w))
    end.

Definition handle_address (pk ps : Element) (name : string) (amount_wei : Z) (ticker : string) : C string :=
  let! w := load_from name in
  let! (w, a) := of_wallet (prepare_get_address pk ps amount_wei ticker w) in
  let! _ := save w in
  st_ret (encode_address a).

(** The common end of the commands that send: prove, send, save, once accepted. *)
Definition send_and_save (r : Reply) (u : Utxo) (w : Wallet) : C unit :=
  let! p := prove_unwrap u in
  let! _ := transaction r p in
  save w.

(** The result is the link. *)
Definition handle_note_spend (pk change_pk : Element) (r : Reply) (chain : Z) (name : string)
    (amount_wei : Z) (ticker : string) : C string :=
  let! w := build [] name chain false in
  let! (w1, transfer_note) := of_wallet (prepare_receive_note pk amount_wei ticker w) in
  let! (w2, u) := of_wallet (prepare_spend_to change_pk (note transfer_note) w1) in
  let! _ := send_and_save r u w2 in
  let! payload := of_out (url_of_note transfer_note) in
  let encoded := encode_url payload in
  let! _ := write_file (name +:+ "-note.json") (input_note_to_json transfer_note) in
  st_ret encoded.

Definition handle_spend_to (random change_pk : Element) (r : Reply) (chain : Z) (name address : string) : C unit :=
  let! w := build [] name chain false in
  let! a := of_out (decode_address address) in
  let! n := of_out (note_of_address random a) in
  let! _ := of_out (citrea_ticker_from_contract (contract n)) in
  let! (w, u) := of_wallet (prepare_spend_to change_pk n w) in
  let! _ := send_and_save r u w in
  write_file ("from-" +:+ name +:+ "-note.json") (note_to_json (output_notes u).1).

Definition read_input_note (notefile notelink : option string) : C InputNote :=
  match notefile, notelink with
  | Some path, None =>
      let! content := st_get (λ x, files x !! path) in
      match content with
      | None => throw (FileNotFound path)
      | Some s => of_out (ok_or (input_note_from_json s) CliSerialization)
      end
  | None, Some link => let! u := of_out (decode_url link) in of_out (note_of_url u)
  | _, _ => throw NotEnoughBalance
  end.
Definition handle_receive (pk : Element) (health : bool) (r : Reply) (chain : Z) (name : string)
    (notefile notelink : option string) : C unit :=
  let! w := build [] name chain false in
  if negb health then throw NodeFailed
  else
    let! n := read_input_note notefile notelink in
    let! _ := of_out (citrea_ticker_from_contract (contract (note n))) in
    let! (w, u) := of_wallet (prepare_receive pk n w) in
    send_and_save r u w.

Definition handle_import (name notefile : string) : C unit :=
  let! content := st_get (λ x, files x !! notefile) in
  match content with
  | None => throw (FileNotFound notefile)
  | Some s =>
      let! n := of_out (ok_or (note_from_json s) CliSerialization) in
      let! w := load_from name in
      let! (w, _) := of_wallet (prepare_import_note hm_keys n w) in
      save w
  end.

Definition handle_mint (pk : Element) (contract_ok : bool) (r : Reply) (chain : Z) (name : string)
    (amount_wei : Z) (ticker : string) (only_snark : bool) : C unit :=
  let! w := build [] name chain false in
  let! (w, u) := of_wallet (prepare_mint pk amount_wei ticker w) in
  let! p := prove_unwrap u in
  let! _ := if only_snark then st_ret tt else admin_mint contract_ok (output_notes u).1 in
  let! _ := transaction r p in
  save w.

(** [evm_address]: the parsed address, [None] when it does not parse; [r1] and
    [r2], what becomes of the two transactions. *)
Definition handle_burn (pk change_pk : Element) (r1 r2 : Reply) (chain : Z) (name : string)
    (evm_address : option Element) (amount_wei : Z) (ticker : string) (natively_substitute : bool) : C unit :=
  let! w := build [] name chain false in
  let! (w1, burner_note) := of_wallet (prepare_receive_note pk amount_wei ticker w) in
  let! (w2, u) := of_wallet (prepare_spend_to change_pk (note burner_note) w1) in
  let! _ := send_and_save r1 u w2 in
  let! (w3, _) := of_wallet (prepare_add_to_avail burner_note w2) in
  let! _ := save w3 in
  match evm_address with
  | None => throw InvalidAddress
  | Some evm =>
      let! (w4, u') := of_wallet (prepare_burn burner_note evm natively_substitute w3) in
      send_and_save r2 u' w4
  end.

(** * Deposits and withdrawals over Lightning *)

Definition MAX_POLL_ATTEMPTS : nat := 150.

(** One answer of a status request: an HTTP failure, or the state and amount. *)
Inductive Status := StatusFailed | Status200 (state amount : Z).

(** Polls until the payment is settled; [answers] are the service's answers, one
    after the other. [None]: no further answer comes. *)
Fixpoint poll_onramp (attempts : nat) (answers : list Status) : option (outcome CliError Z) :=
  match attempts with
  | O => Some (Err ServiceTimedOut)
  | S attempts =>
      match answers with
      | [] => None
      | StatusFailed :: _ => Some (Err ServiceFailed)
      | Status200 state amount :: answers =>
          if decide (state = 2) then Some (sats_to_wei amount)
          else if decide (state > 2) then Some (Err (SwapFailed state))
          else poll_onramp attempts answers
      end
  end.
Fixpoint poll_offramp (attempts : nat) (answers : list Status) : option (outcome CliError unit) :=
  match attempts with
  | O => Some (Err ServiceTimedOut)
  | S attempts =>
      match answers with
      | [] => None
      | StatusFailed :: _ => Some (Err ServiceFailed)
      | Status200 state _ :: answers =>
          if decide (state = 2 ∨ state = 3) then Some (Ok tt)
          else if decide (state = -2 ∨ state = -3) then Some (Err (SwapFailed state))
          else poll_offramp attempts answers
      end
  end.

(** [init]: whether the service makes an invoice; [claim]: whether it takes the
    preimage and the mint hash. *)
Definition handle_depo_ln (pk : Element) (init claim : bool) (answers : list Status) (r : Reply)
    (chain : Z) (name : string) : C (option unit) :=
  let! w := build [] name chain false in
  if negb init then throw ServiceFailed
  else
    match poll_onramp MAX_POLL_ATTEMPTS answers with
    | None => st_ret None
    | Some amount =>
        let! amount_out_wei := of_out amount in
        let! (w, u) := of_wallet (prepare_mint pk amount_out_wei "WCBTC" w) in
        let! p := prove_unwrap u in
        let! _ := if claim then st_ret tt else throw ServiceFailed in
        let! _ := transaction r p in
        let! _ := save w in
        st_ret (Some tt)
    end.

(** [quote]: the amount to burn, as a [u128]. *)
Definition handle_withdraw_ln (pk change_pk : Element) (quote : option Z) (answers : list Status) (r1 r2 : Reply)
    (chain : Z) (name : string) (evm_address : option Element) : C (option unit) :=
  match quote with
  | None => throw ServiceFailed
  | Some input_amount_wei =>
      if decide (2 ^ 64 ≤ input_amount_wei) then throw AmountTooLarge
      else
        let! _ := handle_burn pk change_pk r1 r2 chain name evm_address input_amount_wei "WCBTC" false in
        match poll_offramp MAX_POLL_ATTEMPTS answers with
        | None => st_ret None
        | Some r => let! _ := of_out r in st_ret (Some tt)
        end
  end.
End cli.
