(* ===== verification/CliProps.v ===== *)
(** The client end to end: its transactions satisfy the circuit, a payment by
    link reaches the payee, burning never loses a note, and what an answer that
    does not arrive costs. *)
From S2P Require Import Prelude Element SignedElement MerkleHash Utxo Crypto Links.
From S2P Require Import Wallet WalletProps Circuit Cli.

(** * The wallet and the circuit *)

Section provable.
Context `{FieldLaws}.
Implicit Types (w : Wallet) (t : string) (i : InputNote) (n : Note).

Lemma supported_contract c t :
  citrea_ticker_from_contract (E := WalletError) c = Ok t → canonical c ≠ 0 ∧ wf_element c.
Proof.
  unfold citrea_ticker_from_contract. intros Ht.
  assert (c = citrea_wcbtc_note_kind ∨ c = citrea_usdc_note_kind) as [-> | ->].
  { case_decide; [by left|]. case_decide; [by right|done]. }
  all: split; [by apply (bool_decide_unpack (_ ≠ _))|by apply (bool_decide_unpack (in_width 256 _))].
Qed.

Lemma spendable_good t i : spendable t i → 0 < value (note i) → good_input (contract (note i)) i.
Proof.
  intros [Ht Hk Hv Ha [Hp Hs]] Hpos. right. destruct (supported_contract _ _ Ht) as [_ Hc].
  split; [|done]. right. split_and!; [done|done| |done|].
  - split_and!; [done| | |done]; [unfold wf_element, in_width in *; lia|]. rewrite Ha. apply hash_merge_wf.
  - unfold in_width in Hv. lia.
Qed.

(** The best choice leaves notes without value alone. *)
Lemma best_nonzero amount l s :
  0 < amount → best_selection amount l None = Some s → Forall (λ i, 0 < note_amount (note i)) s.1.
Proof.
  intros Hpos Hb. pose proof (best_selection_spec amount l) as Hs. rewrite Hb in Hs. destruct Hs as (Hc & Hge & Hbest).
  destruct Hc as [(j & i & Hj & ->)|(j & k & i & i' & Hj & Hk & Hlt & Hsum & ->)]; cbn [fst snd] in *.
  - apply Forall_singleton. lia.
  - pose proof (note_amount_width (note i)) as [Hi _]. pose proof (note_amount_width (note i')) as [Hi' _].
    assert (∀ x jx, l !! jx = Some x → note_amount (note x) = note_amount (note i) + note_amount (note i') → False) as Hno.
    { intros x jx Hx Heq. destruct (Hbest ([x], note_amount (note x))) as [Hl|[_ Hl]]; cbn in *; [|lia|lia|lia].
      left. by exists jx, x. }
    repeat constructor.
    + destruct (decide (note_amount (note i) = 0)); [|lia]. destruct (Hno i' k Hk). lia.
    + destruct (decide (note_amount (note i') = 0)); [|lia]. destruct (Hno i j Hj). lia.
Qed.

(** What a transfer may create for its recipient. *)
Definition payable n : Prop :=
  note_kind n = 2 ∧ 0 < value n < 2 ^ 64 ∧ wf_element (address n) ∧ wf_element (psi n).

Lemma spend_provable pk n w w' u :
  wf_element pk → wallet_inv w → payable n → prepare_spend_to pk n w = Ok (w', u) → provable u = true.
Proof.
  intros Hpk Hi (Hk & Hv & Hwa & Hwp) Hrun. assert (in_width 64 (value n)) as Hw by (unfold in_width; lia).
  destruct (spend_inv pk n w w' u Hi Hrun) as (t & ns & total & rest & Ht & Hle & Hrest & Hb & Hc & Hge).
  destruct (spend_ok pk n w t (ns, total) rest Hpk Hi Ht Hle Hrest Hb) as (w'' & Hrun' & _).
  rewrite Hrun in Hrun'. injection Hrun' as _ ->. cbn [fst].
  destruct (choice_split _ _ _ Hc) as (_ & _ & Hsum & Hns & Htw). destruct (supported_contract _ _ Ht) as [Hc0 Hcw].
  pose proof (best_nonzero (note_amount n) _ _ ltac:(rewrite note_amount_small by done; lia) Hb) as Hnz. cbn [fst] in Hnz.
  assert (Forall (λ x, contract (note x) = contract n ∧ spendable t x) ns) as Hown.
  { apply Forall_forall. intros x Hx. assert (spendable t x) as Hsp.
    { apply (wi_avail_at w t x Hi). rewrite Hrest. apply elem_of_app. by left. }
    split; [|done]. apply (ticker_inj _ _ t); [apply Hsp|done]. }
  assert (Forall (good_input (contract n)) ns) as Hgood.
  { rewrite Forall_forall in Hown, Hnz |- *. intros x Hx. destruct (Hown x Hx) as [Hxc Hxs]. rewrite <-Hxc.
    apply (spendable_good t x Hxs). rewrite <-note_amount_small by apply Hxs. by apply Hnz. }
  rewrite (surjective_pairing (padded ns)). apply (send_provable (contract n) Hc0).
  - destruct Hns as [[x ->]|(x & y & ->)]; cbn; rewrite !Forall_cons in Hgood; apply Hgood.
  - destruct Hns as [[x ->]|(x & y & ->)]; cbn; rewrite !Forall_cons in Hgood; [by left|apply Hgood].
  - right. split_and!; [done|done|split_and!; [done|unfold wf_element, in_width in *; lia|done|done]|lia|lia].
  - pose proof (change_spendable pk (note_amount n) t n ns total Hpk Hown
      (conj (proj1 (note_amount_width n)) Hge) Htw) as Hch.
    unfold change_note. destruct (change_of pk (ns, total) (note_amount n)) as [|c l] eqn:Hcs; [by left|].
    apply Forall_cons in Hch as [[Hcc Hcs'] _]. cbn. rewrite <-Hcc. apply good_input_note, (spendable_good t c Hcs').
    unfold change_of in Hcs. cbn in Hcs. destruct ns as [|x ns']; [done|]. case_decide; [done|]. injection Hcs as <- _. cbn. lia.
  - rewrite (padded_value ns total Hns Hsum (Forall_impl _ _ _ Hown (λ x Hx, sp_width t x (proj2 Hx)))).
    unfold change_note. rewrite change_value by (by destruct Hns as [[x ->]|(x & y & ->)]).
    rewrite (note_amount_small n Hw). lia.
Qed.

Lemma receive_run pk i w t :
  spendable t i → ∃ r, receive_note pk (value (note i)) t = Ok r ∧
    prepare_receive pk i w = Ok ((push_to_avail t r w).1, utxo_new_send (i, input_padding_note) (note r, padding_note)).
Proof.
  intros [Ht _ Hv _ _]. destruct (supported_ticker t (ticker_supported _ _ Ht)) as (c & Hd & _).
  eexists. split; [unfold receive_note; by rewrite Hd|].
  unfold prepare_receive, stage, wallet_receive, lift_out, st_lift, get_note_amount. unfold st_bind at 1. rewrite Ht.
  unfold st_bind at 1. unfold st_bind at 1, receive_note. rewrite Hd, note_amount_small by done. done.
Qed.
Lemma mint_run pk a t w :
  t = "WCBTC" ∨ t = "USDC" → ∃ r, receive_note pk a t = Ok r ∧
    prepare_mint pk a t w = Ok ((push_to_avail t r w).1, utxo_new_mint (note r, padding_note)).
Proof.
  intros (c & Hd & _)%supported_ticker. eexists. split; [unfold receive_note; by rewrite Hd|].
  unfold prepare_mint, stage, wallet_mint, lift_out, st_lift. unfold st_bind at 1, receive_note. by rewrite Hd.
Qed.

Lemma receive_provable pk i w w' u t :
  wf_element pk → spendable t i → 0 < value (note i) → prepare_receive pk i w = Ok (w', u) → provable u = true.
Proof.
  intros Hpk Hs Hpos Hrun. destruct (receive_run pk i w t Hs) as (r & Hr & Hrun'). rewrite Hrun in Hrun'. injection Hrun' as _ ->.
  pose proof (ticker_supported _ _ (sp_ticker _ _ Hs)) as Ht.
  destruct (receive_note_spendable pk _ t r Hpk (sp_width _ _ Hs) Ht Hr) as [Hrs Hrv].
  assert (contract (note r) = contract (note i)) as Hc by (apply (ticker_inj _ _ t); [apply Hrs|apply Hs]).
  destruct (supported_contract _ _ (sp_ticker _ _ Hs)) as [Hc0 _]. apply (send_provable (contract (note i)) Hc0).
  - by apply (spendable_good t).
  - by left.
  - rewrite <-Hc. apply good_input_note, (spendable_good t r Hrs). lia.
  - by left.
  - cbn. unfold ZERO. lia.
Qed.
Lemma mint_tx_provable pk a w w' u t :
  wf_element pk → 0 < a < 2 ^ 64 → t = "WCBTC" ∨ t = "USDC" → prepare_mint pk a t w = Ok (w', u) → provable u = true.
Proof.
  intros Hpk Ha Ht Hrun. destruct (mint_run pk a t w Ht) as (r & Hr & Hrun'). rewrite Hrun in Hrun'. injection Hrun' as _ ->.
  destruct (receive_note_spendable pk a t r Hpk ltac:(unfold in_width; lia) Ht Hr) as [Hrs Hrv].
  destruct (supported_contract _ _ (sp_ticker _ _ Hrs)) as [Hc0 _].
  apply (mint_provable (contract (note r)) Hc0); [apply good_input_note, (spendable_good t r Hrs); lia|].
  intros Heq. rewrite Heq in Hrv. cbn in Hrv. unfold ZERO in Hrv. lia.
Qed.
Lemma burn_tx_provable i evm sub w w' u t :
  spendable t i → 0 < value (note i) → prepare_burn i evm sub w = Ok (w', u) → provable u = true.
Proof.
  intros Hs Hpos (t' & Ht & Hr)%stage_ok%lift_bind_ok. unfold st_bind at 1 in Hr.
  destruct (pull_from_avail t' i w) as [w1 [b|?|?]] eqn:Hp; [|done..]. injection Hr as _ <-.
  destruct (supported_contract _ _ (sp_ticker _ _ Hs)) as [Hc0 _].
  apply (burn_provable (contract (note i)) Hc0 i evm sub). by apply (spendable_good t).
Qed.

(** C16: Every transaction of the wallet has a proof: transfers, the acceptance of a
    payment, mints and burns of notes with a value below 2^64 satisfy all
    assertions of the circuit, commitments, ownership, a single token and the
    balance of values included. *)
Theorem wallet_txns_provable pk w w' u :
  wf_element pk → wallet_inv w →
  (∃ n, payable n ∧ prepare_spend_to pk n w = Ok (w', u)) ∨
  (∃ i t, spendable t i ∧ 0 < value (note i) ∧ prepare_receive pk i w = Ok (w', u)) ∨
  (∃ a t, 0 < a < 2 ^ 64 ∧ (t = "WCBTC" ∨ t = "USDC") ∧ prepare_mint pk a t w = Ok (w', u)) ∨
  (∃ i t evm sub, spendable t i ∧ 0 < value (note i) ∧ prepare_burn i evm sub w = Ok (w', u)) →
  provable u = true.
Proof.
  intros Hpk Hi [(n & Hn & Hr)|[(i & t & Hs & Hv & Hr)|[(a & t & Ha & Ht & Hr)|(i & t & evm & sub & Hs & Hv & Hr)]]].
  - by eapply spend_provable.
  - by eapply receive_provable.
  - by eapply mint_tx_provable.
  - by eapply burn_tx_provable.
Qed.

(** A mint of nothing is built and cannot be proved: the program takes a note
    without value for padding and leaves its commitment zero, the circuit goes by
    the token and asks for a hash. *)
Theorem empty_mint_unprovable pk w t r :
  t = "WCBTC" ∨ t = "USDC" → receive_note pk 0 t = Ok r →
  hash_merge [2; canonical (contract (note r)); 0; canonical (address (note r)); canonical (psi (note r)); 0; 0] ≠ 0 →
  ∃ w' u, prepare_mint pk 0 t w = Ok (w', u) ∧ provable u = false.
Proof.
  intros Ht Hr Hh. destruct (mint_run pk 0 t w Ht) as (r' & Hr' & Hrun). rewrite Hr in Hr'. injection Hr' as <-.
  destruct (supported_ticker t Ht) as (c & Hd & Hc & _). destruct (supported_contract _ _ Hc) as [Hc0 _].
  assert (contract (note r) = c ∧ value (note r) = 0) as [Hrc Hrv].
  { unfold receive_note in Hr. rewrite Hd in Hr. by injection Hr as <-. }
  eexists _, _. split; [exact Hrun|]. unfold provable, utxo_input, utxo_new_mint, utxo_messages.
  cbn [kind outcome_bind input_notes output_notes fst snd fmap list_fmap]. unfold leaf_elements, utxo_circuit.
  cbn [input_notes output_notes fst snd fmap list_fmap ui_inputs ui_outputs ui_commitments ui_messages].
  rewrite (zero_note_disagrees (note r)); [|by rewrite Hrc|done|done]. by rewrite !andb_false_r.
Qed.
End provable.

(** * Commands *)

Section commands.
Context `{FieldLaws, Bs58Laws, JsonLaws, !Prover, !ProverLaws} (hm_keys : Notes → list string) (writable : string → bool).
Implicit Types (x : World) (w : Wallet) (name t : string).
Notation save := (save writable).
Notation send_and_save := (send_and_save writable).

(** The wallet file of [name] holds [w]. *)
Definition stored x name w : Prop := files x !! wallet_path_in name = Some (to_json w).
(** [w] as it is read back. *)
Definition on_disk name w : Wallet := with_storage_path (without_path w) (wallet_path_in name).
Definition chain_ok (chain : Z) w : Prop := w_chain_id w = None ∨ w_chain_id w = Some chain.

Lemma on_disk_inv name w : wallet_inv w → wallet_inv (on_disk name w).
Proof. intros [Hb Ha Hp]. by split. Qed.

Lemma build_ok x name chain w :
  stored x name w → chain_ok chain w → build writable [] name chain false x = (x, Ok (on_disk name w)).
Proof.
  intros Hs Hc. unfold build, load_from, st_bind at 1, st_get, st_bind. rewrite Hs, json_wallet. cbn [st_ret].
  cbn [on_disk with_storage_path without_path w_chain_id]. destruct Hc as [-> | ->]; [done|]. rewrite decide_False; [done|]. intros Hn. by apply Hn.
Qed.

Lemma save_ok x w path :
  storage_path w = Some path → writable path = true → save w x = (with_file x path (to_json w), Ok tt).
Proof. intros Hp Hw. unfold Cli.save, save_to, write_file. by rewrite Hp, Hw. Qed.

Definition took x (p : UtxoProof) : World := mk_world (files x) (node_txns x ++ [p]) (contract_mints x).

Lemma prove_ok u x : provable u = true → ∃ p, prove_unwrap u x = (x, Ok p) ∧ prove u = Some p.
Proof. intros [p Hp]%prove_complete. exists p. unfold prove_unwrap, of_out, st_lift. by rewrite Hp. Qed.

Lemma send_accepted u w x path :
  provable u = true → storage_path w = Some path → writable path = true →
  ∃ p, prove u = Some p ∧ send_and_save Accepted u w x = (with_file (took x p) path (to_json w), Ok tt).
Proof.
  intros Hu Hp Hw. destruct (prove_ok u x Hu) as (p & Hrun & Hpu). exists p. split; [done|].
  unfold Cli.send_and_save. rewrite (st_bind_run _ _ _ _ _ Hrun). unfold transaction. unfold st_bind at 1.
  by rewrite (save_ok _ _ path).
Qed.
Lemma send_failed r u w x :
  provable u = true → r ≠ Accepted →
  ∃ p, prove u = Some p ∧
    send_and_save r u w x = (if r is Refused then x else took x p, Err NodeFailed).
Proof.
  intros Hu Hr. destruct (prove_ok u x Hu) as (p & Hrun & Hpu). exists p. split; [done|].
  unfold Cli.send_and_save. rewrite (st_bind_run _ _ _ _ _ Hrun). unfold transaction. unfold st_bind at 1. by destruct r.
Qed.

Lemma stored_file x name w : stored (with_file x (wallet_path_in name) (to_json w)) name w.
Proof. apply lookup_insert_eq. Qed.
Lemma stored_other x name w path s :
  wallet_path_in name ≠ path → stored x name w → stored (with_file x path s) name w.
Proof. intros Hne Hs. unfold stored, with_file. cbn. by rewrite lookup_insert_ne. Qed.
Lemma own_note_file name : wallet_path_in name ≠ name +:+ "-note.json".
Proof. unfold wallet_path_in. induction name as [|c name IH]; [done|]. intros [= Heq]. by apply IH. Qed.

Lemma note_wallet_file name : wallet_path_in (name +:+ "-note") = name +:+ "-note.json".
Proof. unfold wallet_path_in. induction name as [|c name IH]; [done|]. exact (f_equal (String c) IH). Qed.

(** The transfer that [handle_note_spend] and [handle_burn] make to a new key. *)
Lemma transfer_ok pk cpk amount t w :
  wf_element pk → wf_element cpk → wallet_inv w → t = "WCBTC" ∨ t = "USDC" → 0 < amount < 2 ^ 64 →
  amount ≤ balance w → (∃ s, choice (notes_at (avail w) t) s ∧ amount ≤ s.2) →
  ∃ r w2 u, receive_note pk amount t = Ok r ∧ spendable t r ∧ value (note r) = amount ∧
    prepare_spend_to cpk (note r) w = Ok (w2, u) ∧ (output_notes u).1 = note r ∧ provable u = true ∧
    wallet_inv w2 ∧ only_notes_of t w w2 ∧ balance w2 = balance w - amount ∧
    (∃ i, i ∈ notes_at (avail w) t ∧ (input_notes u).1 = i).
Proof.
  intros Hpk Hcpk Hi Ht Ha Hb (s0 & Hc0 & Hs0). destruct (mint_run pk amount t w Ht) as (r & Hr & _).
  destruct (receive_note_spendable pk amount t r Hpk ltac:(unfold in_width; lia) Ht Hr) as [Hsp Hv].
  assert (note_amount (note r) = amount) as Hna by (rewrite note_amount_small; [done|apply Hsp]).
  pose proof (best_selection_spec amount (notes_at (avail w) t)) as Hs.
  destruct (best_selection amount (notes_at (avail w) t) None) as [[ns total]|] eqn:Hbest; [|apply Hs in Hc0; lia].
  destruct Hs as (Hc & Hge & _). destruct (choice_split _ _ _ Hc) as (rest & Hrest & _ & Hns & _).
  destruct (spend_ok cpk (note r) w t (ns, total) rest Hcpk Hi (sp_ticker _ _ Hsp)) as (w2 & Hrun & Hi2 & Ho & _ & Hb2);
    [lia|done|by rewrite Hna|].
  eexists r, w2, _. split_and!; [done|done|done|exact Hrun|done| |done|done|by rewrite <-Hna|].
  - apply (spend_provable cpk (note r) w w2 _ Hcpk Hi); [|exact Hrun].
    destruct Hsp as [_ Hk Hw Hkey [Hps Hsk]]. split_and!; [done|lia|lia| |done]. rewrite Hkey. apply hash_merge_wf.
  - cbn [input_notes utxo_new_send fst]. exists (padded ns).1. split; [|done].
    destruct Hns as [[y ->]|(y & z & ->)]; cbn; rewrite Hrest; cbn; by left.
Qed.

Lemma receive_note_fields pk amount t r :
  receive_note pk amount t = Ok r →
  r = mk_input_note (mk_note 2 (contract (note r)) (hash_merge [pk; ZERO]) (hash_merge [pk; pk]) amount) pk.
Proof.
  unfold receive_note. intros ([k c] & Hd & [= <-])%outcome_bind_ok. cbn. unfold citrea_token_data in Hd.
  case_decide; [by injection Hd as <- <-|]. case_decide; [by injection Hd as <- <-|done].
Qed.
Lemma spendable_wf_note t i : spendable t i → wf_note (note i).
Proof.
  intros [Ht Hk Hv Ha [Hp _]]. split_and!; [done| | |done|].
  - unfold citrea_ticker_from_contract in Ht. case_decide; [by left|]. case_decide; [by right|done].
  - rewrite Ha. apply hash_merge_wf.
  - unfold wf_element, in_width in *. lia.
Qed.

(** What both parties start from. *)
Record ready_to_pay x chain name w t (amount : Z) : Prop := {
  rp_stored : stored x name w;
  rp_inv : wallet_inv w;
  rp_chain : chain_ok chain w;
  rp_writable : writable (wallet_path_in name) = true;
  rp_balance : amount ≤ balance w;
  rp_choice : ∃ s, choice (notes_at (avail w) t) s ∧ amount ≤ s.2;
}.

(** The first half: the transfer to a new key, sent. *)
Lemma note_spend_run x chain name w t amount pk cpk :
  ready_to_pay x chain name w t amount → wf_element pk → wf_element cpk →
  t = "WCBTC" ∨ t = "USDC" → 0 < amount < 2 ^ 64 → writable (name +:+ "-note.json") = true →
  ∃ r payload w2 u p, receive_note pk amount t = Ok r ∧ spendable t r ∧ value (note r) = amount ∧
    url_of_note (E := CliError) r = Ok payload ∧ prove u = Some p ∧ (output_notes u).1 = note r ∧ wallet_inv w2 ∧
    balance w2 = balance w - amount ∧
    handle_note_spend writable pk cpk Accepted chain name amount t x =
      (with_file (with_file (took x p) (wallet_path_in name) (to_json w2)) (name +:+ "-note.json") (input_note_to_json r),
       Ok (encode_url payload)).
Proof.
  intros [Hst Hi Hch Hw Hb Hc] Hpk Hcpk Ht Ha Hwn.
  destruct (transfer_ok pk cpk amount t (on_disk name w) Hpk Hcpk (on_disk_inv name w Hi) Ht Ha Hb Hc)
    as (r & w2 & u & Hr & Hsp & Hv & Hrun & Hout & Hu & Hi2 & [Hw2 _] & Hb2 & _).
  assert (storage_path w2 = Some (wallet_path_in name)) as Hpath by (rewrite Hw2; done).
  destruct (send_accepted u w2 x _ Hu Hpath Hw) as (p & Hp & Hsend).
  destruct (url_link (E := CliError) r (spendable_wf_note t r Hsp) (proj2 (sp_wf _ _ Hsp))) as (payload & Hpay & _).
  exists r, payload, w2, u, p. split_and!; [done|done|done|done|done|done|done|done|].
  unfold handle_note_spend. rewrite (st_bind_run _ _ _ _ _ (build_ok x name chain w Hst Hch)).
  unfold of_wallet, st_lift at 1. unfold st_bind at 1. unfold prepare_receive_note. rewrite Hr. cbn [outcome_bind map_err].
  unfold st_lift at 1. unfold st_bind at 1. rewrite Hrun. cbn [map_err].
  rewrite (st_bind_run _ _ _ _ _ Hsend). unfold of_out, st_lift. unfold st_bind at 1. rewrite Hpay.
  unfold st_bind at 1, write_file. by rewrite Hwn.
Qed.

(** C13: A payment by link arrives. A payer that can afford an amount sends it to a
    new key and hands over the link; the payee, whose wallet is another file,
    opens the link. Both transactions are proved and taken, the second one spends
    exactly the note the first one created, the payer's balance falls by the
    amount, the payee's rises by it, and both files hold wallets in order. *)
Theorem payment_by_link_arrives x chain payer payee wa wb t amount pk cpk rpk :
  ready_to_pay x chain payer wa t amount → stored x payee wb → wallet_inv wb → chain_ok chain wb →
  writable (wallet_path_in payee) = true → writable (payer +:+ "-note.json") = true →
  wallet_path_in payee ≠ wallet_path_in payer → wallet_path_in payee ≠ payer +:+ "-note.json" →
  wf_element pk → wf_element cpk → wf_element rpk → t = "WCBTC" ∨ t = "USDC" → 0 < amount < 2 ^ 64 →
  ∃ x1 link x2 p1 p2 wa' wb',
    handle_note_spend writable pk cpk Accepted chain payer amount t x = (x1, Ok link) ∧
    handle_receive writable rpk true Accepted chain payee None (Some link) x1 = (x2, Ok tt) ∧
    node_txns x2 = node_txns x ++ [p1; p2] ∧
    (input_commitments (public_inputs p2)).1 = (output_commitments (public_inputs p1)).1 ∧
    stored x2 payer wa' ∧ wallet_inv wa' ∧ balance wa' = balance wa - amount ∧
    stored x2 payee wb' ∧ wallet_inv wb' ∧ balance wb' = wrap 64 (balance wb + amount).
Proof.
  intros Hpay Hstb Hib Hchb Hwb Hwn Hne1 Hne2 Hpk Hcpk Hrpk Ht Ha.
  destruct (note_spend_run x chain payer wa t amount pk cpk Hpay Hpk Hcpk Ht Ha Hwn)
    as (r & payload & w2 & u & p1 & Hr & Hsp & Hv & Hurl & Hp1 & Hout & Hi2 & Hb2 & Hrun).
  destruct (url_link (E := CliError) r (spendable_wf_note t r Hsp) (proj2 (sp_wf _ _ Hsp))) as (payload' & Hurl' & Hopen).
  rewrite Hurl in Hurl'. injection Hurl' as <-. pose proof (receive_note_fields _ _ _ _ Hr) as Hf.
  assert (secret_key r = pk) as Hsk by (by rewrite Hf). rewrite Hsk, Hv, <-Hf in Hopen.
  set (x1 := with_file _ (payer +:+ "-note.json") _) in Hrun.
  assert (stored x1 payee wb) as Hst1 by (apply stored_other; [done|]; by apply stored_other).
  destruct (receive_run rpk r (on_disk payee wb) t Hsp) as (r2 & Hr2 & Hrecv). rewrite Hv in Hr2.
  destruct (receive_note_spendable rpk amount t r2 Hrpk ltac:(unfold in_width; lia) Ht Hr2) as [Hsp2 Hv2].
  set (wb' := (push_to_avail t r2 (on_disk payee wb)).1) in Hrecv.
  set (u2 := utxo_new_send _ _) in Hrecv.
  assert (provable u2 = true) as Hu2 by (eapply (receive_provable rpk r); [done|done|lia|exact Hrecv]).
  destruct (send_accepted u2 wb' x1 (wallet_path_in payee) Hu2 eq_refl Hwb) as (p2 & Hp2 & Hsend).
  exists x1, (encode_url payload), (with_file (took x1 p2) (wallet_path_in payee) (to_json wb')), p1, p2, w2, wb'.
  split_and!; [done| | | | |done|done|apply stored_file| |].
  - unfold handle_receive. rewrite (st_bind_run _ _ _ _ _ (build_ok x1 payee chain wb Hst1 Hchb)). cbn [negb].
    unfold read_input_note, of_out, of_wallet, st_lift.
    apply outcome_bind_ok in Hopen as (payload'' & Hdec & Hnote).
    assert (∀ f : InputNote → C unit, st_bind (st_bind (λ y : World, (y, decode_url (encode_url payload))) (λ u, λ y, (y, note_of_url u))) f x1 = f r x1) as Hread.
    { intros f. unfold st_bind. rewrite Hdec. cbn beta iota. by rewrite Hnote. }
    rewrite Hread. unfold st_bind at 1.
    assert (citrea_ticker_from_contract (E := CliError) (contract (note r)) = Ok t) as ->.
    { pose proof (sp_ticker _ _ Hsp) as Htk. unfold citrea_ticker_from_contract in *.
      case_decide; [by injection Htk as <-|]. case_decide; [by injection Htk as <-|done]. }
    unfold st_bind at 1. rewrite Hrecv. cbn [map_err]. exact Hsend.
  - cbn. by rewrite <-app_assoc.
  - destruct (prove_sound u p1 Hp1) as (_ & pi1 & Hpi1 & ->). destruct (prove_sound u2 p2 Hp2) as (_ & pi2 & Hpi2 & ->).
    unfold utxo_public_inputs in Hpi1, Hpi2. apply outcome_bind_ok in Hpi1 as (m1 & _ & [= <-]).
    apply outcome_bind_ok in Hpi2 as (m2 & _ & [= <-]). cbn. by rewrite Hout.
  - apply stored_other; [done|]. change (stored x1 payer w2). apply stored_other; [apply own_note_file|apply stored_file].
  - unfold wb'. apply push_inv; [by apply on_disk_inv|done].
  - unfold wb'. rewrite push_spec. cbn [fst with_avail balance on_disk with_storage_path without_path].
    by rewrite note_amount_small, Hv2 by apply Hsp2.
Qed.

(** Adding the burner note and burning it again. *)
Lemma add_run t i w : spendable t i → prepare_add_to_avail i w = Ok ((push_to_avail t i w).1, tt).
Proof.
  intros Hs. unfold prepare_add_to_avail, stage, add_to_avail, lift_out, st_lift. unfold st_bind at 1.
  by rewrite (sp_ticker _ _ Hs).
Qed.
Lemma burn_run t i evm sub w :
  wallet_inv w → spendable t i → i ∈ notes_at (avail w) t →
  ∃ w' u, prepare_burn i evm sub w = Ok (w', u) ∧ wallet_inv w' ∧ storage_path w' = storage_path w ∧
    balance w' = wrap 64 (balance w - value (note i)).
Proof.
  intros Hi Hs Hin. destruct (pull_spec t i w) as (l' & Hp & _); [by apply list_elem_of_fmap_2|].
  eexists _, _. split_and!.
  - unfold prepare_burn, stage, wallet_burn, lift_out, st_lift. unfold st_bind at 1. rewrite (sp_ticker _ _ Hs).
    unfold st_bind at 1. rewrite Hp. done.
  - by eapply pull_inv.
  - done.
  - cbn. by rewrite note_amount_small by apply Hs.
Qed.

(** The state after the first transaction of a burn: the burner note is filed. *)
Lemma burn_first_half x chain name w t amount pk cpk r2 evm sub :
  ready_to_pay x chain name w t amount → wf_element pk → wf_element cpk →
  t = "WCBTC" ∨ t = "USDC" → 0 < amount < 2 ^ 64 →
  ∃ r w3 x3, spendable t r ∧ value (note r) = amount ∧ r ∈ notes_at (avail w3) t ∧ wallet_inv w3 ∧
    storage_path w3 = Some (wallet_path_in name) ∧ balance w3 = balance w ∧ stored x3 name w3 ∧
    handle_burn writable pk cpk Accepted r2 chain name evm amount t sub x =
      match evm with
      | None => (x3, Err InvalidAddress)
      | Some evm =>
          (let! (w4, u') := of_wallet (prepare_burn r evm sub w3) in send_and_save r2 u' w4) x3
      end.
Proof.
  intros [Hst Hi Hch Hw Hb Hc] Hpk Hcpk Ht Ha.
  destruct (transfer_ok pk cpk amount t (on_disk name w) Hpk Hcpk (on_disk_inv name w Hi) Ht Ha Hb Hc)
    as (r & w2 & u & Hr & Hsp & Hv & Hrun & Hout & Hu & Hi2 & [Hw2 _] & Hb2 & _).
  assert (storage_path w2 = Some (wallet_path_in name)) as Hpath by (rewrite Hw2; done).
  destruct (send_accepted u w2 x _ Hu Hpath Hw) as (p & Hp & Hsend).
  set (w3 := (push_to_avail t r w2).1).
  set (x3 := with_file (with_file (took x p) (wallet_path_in name) (to_json w2)) (wallet_path_in name) (to_json w3)).
  exists r, w3, x3. split_and!; [done|done| |by apply push_inv|done| |apply stored_file|].
  - unfold w3. rewrite push_spec. cbn [fst with_avail avail]. rewrite notes_at_insert. apply elem_of_app. right. by left.
  - unfold w3. rewrite push_spec. cbn [fst with_avail balance]. rewrite note_amount_small, Hv, Hb2 by apply Hsp.
    pose proof (balance_width w Hi). cbn [on_disk with_storage_path without_path balance]. rewrite wrap_small; [lia|].
    replace (balance w - amount + amount) with (balance w) by lia. done.
  - unfold handle_burn. rewrite (st_bind_run _ _ _ _ _ (build_ok x name chain w Hst Hch)).
    unfold of_wallet at 1, st_lift at 1. unfold st_bind at 1. unfold prepare_receive_note. rewrite Hr. cbn [outcome_bind map_err].
    unfold of_wallet at 1, st_lift at 1. unfold st_bind at 1. rewrite Hrun. cbn [map_err].
    rewrite (st_bind_run _ _ _ _ _ Hsend). unfold of_wallet at 1, st_lift at 1. unfold st_bind at 1.
    rewrite (add_run t r w2 Hsp). cbn [map_err].
    rewrite (st_bind_run _ _ _ _ _ (save_ok _ w3 (wallet_path_in name) Hpath Hw)). by destruct evm.
Qed.

(** C15: Burning loses nothing. However a burn ends, as long as the node's answers
    arrive, the wallet file holds a wallet in order whose balance has fallen by
    the amount if the burn went through and not at all otherwise: when the burner
    note has been made and its burn is refused, or the address does not parse, the
    note is in the wallet. *)
Theorem burn_loses_nothing x chain name w t amount pk cpk r1 r2 evm sub :
  ready_to_pay x chain name w t amount → wf_element pk → wf_element cpk →
  t = "WCBTC" ∨ t = "USDC" → 0 < amount < 2 ^ 64 → r1 ≠ Unanswered → r2 ≠ Unanswered →
  ∃ x' res w', handle_burn writable pk cpk r1 r2 chain name evm amount t sub x = (x', res) ∧
    stored x' name w' ∧ wallet_inv w' ∧
    if decide (r1 = Accepted ∧ r2 = Accepted ∧ is_Some evm)
    then res = Ok tt ∧ balance w' = balance w - amount
    else (∃ e, res = Err e) ∧ balance w' = balance w.
Proof.
  intros Hpay Hpk Hcpk Ht Ha Hr1 Hr2. destruct (decide (r1 = Accepted)) as [->|Hn1]; cycle 1.
  { destruct Hpay as [Hst Hi Hch Hw Hb Hc].
    destruct (transfer_ok pk cpk amount t (on_disk name w) Hpk Hcpk (on_disk_inv name w Hi) Ht Ha Hb Hc)
      as (r & w2 & u & Hr & _ & _ & Hrun & _ & Hu & _).
    destruct (send_failed r1 u w2 x Hu Hn1) as (p & _ & Hsend).
    exists x, (Err NodeFailed), w. rewrite decide_False by tauto. split_and!; [|done|done|eauto|done].
    unfold handle_burn. rewrite (st_bind_run _ _ _ _ _ (build_ok x name chain w Hst Hch)).
    unfold of_wallet at 1, st_lift at 1. unfold st_bind at 1. unfold prepare_receive_note. rewrite Hr. cbn [outcome_bind map_err].
    unfold of_wallet at 1, st_lift at 1. unfold st_bind at 1. rewrite Hrun. cbn [map_err].
    unfold st_bind at 1. rewrite Hsend. by destruct r1. }
  destruct (burn_first_half x chain name w t amount pk cpk r2 evm sub Hpay Hpk Hcpk Ht Ha)
    as (r & w3 & x3 & Hsp & Hv & Hin & Hi3 & Hp3 & Hb3 & Hst3 & Hrun).
  destruct evm as [evm|]; cycle 1.
  { exists x3, (Err InvalidAddress), w3. rewrite decide_False by (intros (_ & _ & [? ?]); done). split_and!; [done|done|done|eauto|done]. }
  destruct (burn_run t r evm sub w3 Hi3 Hsp Hin) as (w4 & u & Hburn & Hi4 & Hp4 & Hb4).
  assert (provable u = true) as Hu by (eapply burn_tx_provable; [exact Hsp|lia|exact Hburn]).
  unfold of_wallet, st_lift in Hrun. unfold st_bind at 1 in Hrun. rewrite Hburn in Hrun. cbn [map_err] in Hrun.
  destruct (decide (r2 = Accepted)) as [->|Hn2].
  - rewrite Hp3 in Hp4.
    destruct (send_accepted u w4 x3 (wallet_path_in name) Hu Hp4 (rp_writable _ _ _ _ _ _ Hpay)) as (p & _ & Hsend).
    eexists _, _, w4. rewrite decide_True by eauto. split_and!; [by rewrite Hrun|apply stored_file|done|done|].
    rewrite Hb4, Hb3, Hv. apply wrap_small. pose proof (balance_width w (rp_inv _ _ _ _ _ _ Hpay)).
    pose proof (rp_balance _ _ _ _ _ _ Hpay). unfold in_width in *. lia.
  - destruct (send_failed r2 u w4 x3 Hu Hn2) as (p & _ & Hsend).
    exists x3, (Err NodeFailed), w3. rewrite decide_False by tauto. split_and!; [|done|done|eauto|done]. rewrite Hrun, Hsend. by destruct r2.
Qed.

(** An answer that does not arrive costs the payment. When the node takes the
    transaction of a [spend] and its answer is lost, nothing is written: the
    wallet file still offers a note that is spent, and the keys of the payment
    and of the change, drawn for this transaction only, are in no file. *)
Theorem lost_answer_loses_payment x chain name w t amount pk cpk :
  ready_to_pay x chain name w t amount → wf_element pk → wf_element cpk →
  t = "WCBTC" ∨ t = "USDC" → 0 < amount < 2 ^ 64 →
  ∃ x' p i, handle_note_spend writable pk cpk Unanswered chain name amount t x = (x', Err NodeFailed) ∧
    node_txns x' = node_txns x ++ [p] ∧ files x' = files x ∧
    i ∈ notes_at (avail w) t ∧ (input_commitments (public_inputs p)).1 = canonical (commitment (note i)).
Proof.
  intros [Hst Hi Hch Hw Hb Hc] Hpk Hcpk Ht Ha.
  destruct (transfer_ok pk cpk amount t (on_disk name w) Hpk Hcpk (on_disk_inv name w Hi) Ht Ha Hb Hc)
    as (r & w2 & u & Hr & _ & _ & Hrun & _ & Hu & _ & _ & _ & (i & Hin & Hinp)).
  destruct (send_failed Unanswered u w2 x Hu ltac:(done)) as (p & Hp & Hsend).
  exists (took x p), p, i. split_and!; [|done|done|done|].
  - unfold handle_note_spend. rewrite (st_bind_run _ _ _ _ _ (build_ok x name chain w Hst Hch)).
    unfold of_wallet at 1, st_lift at 1. unfold st_bind at 1. unfold prepare_receive_note. rewrite Hr. cbn [outcome_bind map_err].
    unfold of_wallet at 1, st_lift at 1. unfold st_bind at 1. rewrite Hrun. cbn [map_err].
    unfold st_bind at 1. by rewrite Hsend.
  - destruct (prove_sound u p Hp) as (_ & pi & Hpi & ->). unfold utxo_public_inputs in Hpi.
    apply outcome_bind_ok in Hpi as (m & _ & [= <-]). cbn. by rewrite Hinp.
Qed.

(** A payment can overwrite a wallet: the file for the payer's last payment is
    named like the wallet of a user whose name ends in [-note]. *)
Theorem payment_file_overwrites_wallet x chain name w victim t amount pk cpk :
  ready_to_pay x chain name w t amount → wf_element pk → wf_element cpk →
  t = "WCBTC" ∨ t = "USDC" → 0 < amount < 2 ^ 64 → writable (name +:+ "-note.json") = true →
  stored x (name +:+ "-note") victim →
  ∃ x' link r, handle_note_spend writable pk cpk Accepted chain name amount t x = (x', Ok link) ∧
    files x' !! wallet_path_in (name +:+ "-note") = Some (input_note_to_json r).
Proof.
  intros Hpay Hpk Hcpk Ht Ha Hwn _.
  destruct (note_spend_run x chain name w t amount pk cpk Hpay Hpk Hcpk Ht Ha Hwn)
    as (r & payload & w2 & u & p & _ & _ & _ & _ & _ & _ & _ & _ & Hrun).
  eexists _, _, r. split; [exact Hrun|]. rewrite note_wallet_file. apply lookup_insert_eq.
Qed.
End commands.
