(* ===== verification/CliNode.v ===== *)
(** The client and the node agree on deposits: what a mint registers with the
    rollup contract is what the node looks for when it checks the transaction. *)
From S2P Require Import Prelude Element SignedElement MerkleHash Utxo Crypto Links.
From S2P Require Import Wallet WalletProps Circuit Cli CliProps NodeCommit.

Section mint.
Context `{FieldLaws, Bs58, JsonLaws, !Prover, !ProverLaws, CryptoLib} (writable : string → bool).

(** The contracts are field elements. *)
Lemma contract_canonical c t : citrea_ticker_from_contract (E := WalletError) c = Ok t → canonical c = c.
Proof.
  unfold citrea_ticker_from_contract. intros Ht.
  assert (c = citrea_wcbtc_note_kind ∨ c = citrea_usdc_note_kind) as [-> | ->].
  { case_decide; [by left|]. case_decide; [by right|done]. }
  all: by apply (bool_decide_unpack (_ = _)).
Qed.

(** The messages of a mint of one note, as the proof states them. *)
Lemma mint_messages t r p :
  spendable t r → prove (utxo_new_mint (note r, padding_note)) = Some p →
  kind_messages (public_inputs p) =
    MsgMint (contract (note r)) (value (note r)) (hash_merge [psi (note r); psi padding_note]).
Proof.
  intros Hs Hp. destruct (prove_sound _ _ Hp) as (_ & pi & Hpi & ->).
  unfold utxo_public_inputs, utxo_messages, utxo_new_mint in Hpi. cbn [kind outcome_bind] in Hpi. injection Hpi as <-.
  unfold canonical_inputs. cbn [messages input_commitments output_commitments fmap list_fmap].
  unfold utxo_mint_hash, output_value, input_value, element_add, element_sub. cbn [output_notes input_notes fst snd note input_padding_note].
  rewrite canonical_hash, (contract_canonical _ _ (sp_ticker _ _ Hs)). cbn [value padding_note]. unfold ZERO.
  pose proof (sp_width _ _ Hs) as Hv. unfold in_width in Hv. rewrite !Z.add_0_r, (wrap_small 256 0), (wrap_small 256 (value _)), Z.sub_0_r,
    (wrap_small 256 (value _)), (canonical_small (value _)) by (unfold in_width, MODULUS; lia).
  unfold kind_messages, public_input_kind, message. cbn [messages lookup list_lookup default]. reflexivity.
Qed.

(** C14: A deposit made with [mint] is recognised. The command registers the mint hash,
    the amount and the token with the contract and sends a transaction that it
    can prove; a node whose view of the contract holds that entry, not yet
    spent, finds the transaction in order. *)
Theorem deposit_is_recognised (x : World) chain name w t amount pk :
  stored x name w → wallet_inv w → chain_ok chain w → writable (wallet_path_in name) = true →
  wf_element pk → 0 < amount < 2 ^ 64 → t = "WCBTC" ∨ t = "USDC" →
  ∃ x' p mint_hash c w', handle_mint writable pk true Accepted chain name amount t false x = (x', Ok tt) ∧
    node_txns x' = node_txns x ++ [p] ∧ contract_mints x' = contract_mints x ++ [(mint_hash, amount, c)] ∧
    stored x' name w' ∧ wallet_inv w' ∧ balance w' = wrap 64 (balance w + amount) ∧
    ∀ node eth get_mint, get_mint (safe_eth_height node eth) mint_hash = Ok (Some (mk_mint_res amount c false)) →
      check_contract_mint (Ok eth) get_mint node p = Ok tt.
Proof.
  intros Hst Hi Hch Hw Hpk Ha Ht.
  destruct (mint_run pk amount t (on_disk name w) Ht) as (r & Hr & Hrun).
  destruct (receive_note_spendable pk amount t r Hpk ltac:(unfold in_width; lia) Ht Hr) as [Hs Hv].
  set (w' := (push_to_avail t r (on_disk name w)).1) in Hrun.
  destruct (prove_ok (utxo_new_mint (note r, padding_note)) x) as (p & Hprove & Hp).
  { by eapply (mint_tx_provable pk amount). }
  eexists _, p, _, (contract (note r)), w'. split_and!.
  - unfold handle_mint. rewrite (st_bind_run _ _ _ _ _ (build_ok writable x name chain w Hst Hch)).
    unfold of_wallet, st_lift. unfold st_bind at 1. rewrite Hrun. cbn [map_err]. rewrite (st_bind_run _ _ _ _ _ Hprove).
    unfold st_bind at 1, admin_mint. unfold st_bind at 1, transaction.
    apply (save_ok writable _ w' (wallet_path_in name) eq_refl Hw).
  - done.
  - cbn [contract_mints with_file output_notes utxo_new_mint fst]. by rewrite Hv.
  - apply stored_file.
  - apply push_inv; [by apply on_disk_inv|done].
  - unfold w'. rewrite push_spec. cbn [fst with_avail balance on_disk with_storage_path without_path].
    by rewrite note_amount_small, Hv by apply Hs.
  - intros node eth get_mint Hget. unfold check_contract_mint. rewrite (mint_messages t r p Hs Hp). cbn [outcome_bind].
    rewrite Hget. cbn [outcome_bind mint_spent mint_amount mint_note_kind]. rewrite decide_False; [done|].
    intros [Hn|Hn]; [|done]. by rewrite Hv in Hn.
Qed.
End mint.
