(* ===== verification/CliWitness.v ===== *)
(** A payer with one note and an empty payee: the hypotheses of the theorems of
    WalletProps.v, CliProps.v and CliNode.v hold. *)
From S2P Require Import Prelude Element SignedElement MerkleHash Utxo Crypto Links.
From S2P Require Import Wallet WalletProps Circuit Cli CliProps NodeCommit CliNode.

(** * Stand-ins for serde_json and for the prover *)

#[export] Instance note_countable : Countable Note.
Proof.
  refine (inj_countable' (λ n, (note_kind n, contract n, address n, psi n, value n))
    (λ '(k, c, a, p, v), mk_note k c a p v) _). by intros [].
Defined.
#[export] Instance input_note_eq_dec : EqDecision InputNote.
Proof. solve_decision. Defined.
#[export] Instance input_note_countable : Countable InputNote.
Proof.
  refine (inj_countable' (λ i, (note i, secret_key i)) (λ '(n, k), mk_input_note n k) _). by intros [].
Defined.
#[export] Instance wallet_eq_dec : EqDecision Wallet.
Proof. solve_decision. Defined.
#[export] Instance wallet_countable : Countable Wallet.
Proof.
  refine (inj_countable' (λ w, (w_pk w, pending w, avail w, w_name w, balance w, w_chain_id w, storage_path w))
    (λ '(k, p, a, n, b, c, s), mk_wallet k p a n b c s) _). by intros [].
Defined.

(** A number as the string of its bits. *)
Fixpoint bits (p : positive) : string :=
  match p with xH => EmptyString | xO p => String Ascii.zero (bits p) | xI p => String Ascii.one (bits p) end.
Fixpoint of_bits (s : string) : positive :=
  match s with EmptyString => xH | String c s => if decide (c = Ascii.zero) then xO (of_bits s) else xI (of_bits s) end.
Lemma of_bits_bits p : of_bits (bits p) = p.
Proof. induction p as [p IH|p IH|]; cbn; [rewrite decide_False by done|rewrite decide_True by done|done]; by rewrite IH. Qed.

#[export] Instance toy_json : Json := {|
  to_json w := bits (encode (without_path w));
  from_json s := decode (of_bits s);
  input_note_to_json n := bits (encode n);
  input_note_from_json s := decode (of_bits s);
  note_to_json n := bits (encode n);
  note_from_json s := decode (of_bits s);
|}.
#[export] Instance toy_json_laws : JsonLaws.
Proof. split; intros; cbn; by rewrite of_bits_bits, decode_encode. Qed.

#[export] Instance toy_prover : Prover := {|
  prove u :=
    if provable u then
      match utxo_public_inputs u with Ok pi => Some (mk_utxo_proof [] (canonical_inputs pi)) | _ => None end
    else None
|}.
#[export] Instance toy_prover_laws : ProverLaws.
Proof.
  split.
  - intros u Hu. cbn. rewrite Hu. unfold provable, utxo_input in Hu. unfold utxo_public_inputs.
    by destruct (utxo_messages u).
  - intros u p. cbn. destruct (provable u); [|done]. destruct (utxo_public_inputs u) as [pi| |]; [|done..].
    intros [= <-]. eauto.
Qed.

(** * The payer and the payee *)

Definition ex_keys (m : Notes) : list string := (map_to_list m).*1.
Definition ex_writable (_ : string) : bool := true.
Definition ex_owned : InputNote :=
  mk_input_note (mk_note 2 citrea_wcbtc_note_kind (hash_merge [7; ZERO]) (hash_merge [7; 7]) 1000) 7.
Definition ex_wallet : Wallet := (push_to_avail "WCBTC" ex_owned (wallet_new 1 (Some "alice") 3)).1.
Definition ex_payee : Wallet := wallet_new 1 (Some "bob") 4.
Definition ex_world : World :=
  mk_world (<["alice.json" := to_json ex_wallet]> {["bob.json" := to_json ex_payee]}) [] [].

Lemma small_wf e : 0 ≤ e < 2 ^ 64 → wf_element e.
Proof. unfold wf_element, in_width. lia. Qed.
Ltac small := apply small_wf; cbn; lia.

Lemma ex_owned_spendable : spendable "WCBTC" ex_owned.
Proof.
  split; [by vm_compute|done|by apply (bool_decide_unpack (in_width 64 _))|done|].
  split; [apply hash_merge_wf|small].
Qed.
Lemma ex_wallet_inv : wallet_inv ex_wallet.
Proof. apply push_inv; [apply wallet_new_inv|apply ex_owned_spendable]. Qed.
Lemma ex_choice : choice (notes_at (avail ex_wallet) "WCBTC") ([ex_owned], 1000).
Proof. left. exists 0%nat, ex_owned. by split. Qed.
Lemma ex_ready : ready_to_pay ex_writable ex_world 1 "alice" ex_wallet "WCBTC" 300.
Proof.
  split; [by unfold stored; cbn; rewrite lookup_insert_eq|apply ex_wallet_inv|by right|done|by vm_compute|].
  exists ([ex_owned], 1000). split; [apply ex_choice|cbn; lia].
Qed.
Lemma ex_payee_stored : stored ex_world "bob" ex_payee.
Proof. unfold stored. cbn. rewrite lookup_insert_ne by done. apply lookup_singleton_eq. Qed.
(** A note that costs 300. *)
Definition ex_bill : Note := mk_note 2 citrea_wcbtc_note_kind 100 200 300.
Lemma ex_bill_ticker : citrea_ticker_from_contract (E := WalletError) (contract ex_bill) = Ok "WCBTC".
Proof. by vm_compute. Qed.

(** * The wallet *)

Lemma spend_selects_best_witness :
  ∃ w' s, prepare_spend_to 11 ex_bill ex_wallet = Ok (w', utxo_new_send (padded s.1) (ex_bill, change_note 11 s (note_amount ex_bill))) ∧
    note_amount ex_bill ≤ s.2.
Proof.
  destruct (proj1 (spend_selects_best 11 ex_bill ex_wallet "WCBTC" ltac:(small) ex_wallet_inv ex_bill_ticker))
    as (w' & s & Hr & [_ Hs] & _).
  - by vm_compute.
  - exists ([ex_owned], 1000). split; [apply ex_choice|by vm_compute].
  - exists w', s. split; [exact Hr|exact Hs].
Defined.

Lemma ex_spend : ∃ w' u, prepare_spend_to 11 ex_bill ex_wallet = Ok (w', u).
Proof. eexists _, _. vm_compute. reflexivity. Qed.
Lemma spend_conserves_witness :
  ∃ w' u, prepare_spend_to 11 ex_bill ex_wallet = Ok (w', u) ∧ input_value u = output_value u ∧ balance w' = 700.
Proof.
  destruct ex_spend as (w' & u & Hr).
  destruct (spend_conserves 11 ex_bill ex_wallet w' u ltac:(small) ex_wallet_inv
    ltac:(cbn; unfold in_width; lia) Hr) as (t & s & rest & _ & _ & Hv & _ & _ & _ & _ & Hb & _).
  exists w', u. split_and!; [exact Hr|exact Hv|]. rewrite Hb. by vm_compute.
Defined.


Lemma sync_moves_paid_notes_witness : ∃ w', prepare_sync ex_keys [] ex_wallet = Ok (w', tt) ∧ wallet_inv w'.
Proof.
  destruct (sync_moves_paid_notes ex_keys (λ m, Permutation_refl _) [] ex_wallet ex_wallet_inv) as (w' & ? & ? & _).
  by exists w'.
Defined.

Definition ex_payment : UtxoProof :=
  mk_utxo_proof [] (mk_public_input (1, 2) (commitment (note (requested 21 22 5 citrea_wcbtc_note_kind)), 0) []).
Lemma second_address_forgets_first_witness :
  ∃ w1 ad1 w2 ad2 w3, prepare_get_address 21 22 5 "WCBTC" ex_wallet = Ok (w1, ad1) ∧
    prepare_get_address 23 24 6 "WCBTC" w1 = Ok (w2, ad2) ∧ prepare_sync ex_keys [ex_payment] w2 = Ok (w3, tt) ∧
    notes_at (avail w3) "WCBTC" ≡ₚ notes_at (avail ex_wallet) "WCBTC".
Proof.
  destruct (second_address_forgets_first ex_keys (λ m, Permutation_refl _) ex_wallet "WCBTC" citrea_wcbtc_note_kind
    21 22 5 23 24 6 [ex_payment]) as (w1 & ad1 & w2 & ad2 & w3 & ? & ? & ? & ? & _).
  - exact ex_wallet_inv.
  - by left.
  - by vm_compute.
  - by apply (bool_decide_unpack (in_width 64 _)).
  - by apply (bool_decide_unpack (in_width 64 _)).
  - repeat constructor; lia.
  - by vm_compute.
  - intros e He. cbn in He. rewrite !elem_of_cons in He. destruct He as [-> | [-> | He]]; [by right|by left|by apply elem_of_nil in He].
  - exists w1, ad1, w2, ad2, w3. split_and!; assumption.
Defined.

(** * The commands *)

Lemma wallet_txns_provable_witness : ∃ w' u, prepare_mint 11 300 "USDC" ex_wallet = Ok (w', u) ∧ provable u = true.
Proof.
  destruct (mint_run 11 300 "USDC" ex_wallet) as (r & _ & Hr); [by right|].
  eexists _, _. split; [exact Hr|]. eapply (wallet_txns_provable 11 ex_wallet); [small|exact ex_wallet_inv|].
  right. right. left. exists 300, "USDC". split_and!; [lia|lia|by right|exact Hr].
Defined.

Lemma empty_mint_unprovable_witness : ∃ w' u, prepare_mint 11 0 "USDC" ex_wallet = Ok (w', u) ∧ provable u = false.
Proof.
  eapply (empty_mint_unprovable 11 ex_wallet "USDC"); [by right|reflexivity|by vm_compute].
Defined.

Lemma payment_by_link_arrives_witness :
  ∃ x1 link x2, handle_note_spend ex_writable 11 12 Accepted 1 "alice" 300 "WCBTC" ex_world = (x1, Ok link) ∧
    handle_receive ex_writable 13 true Accepted 1 "bob" None (Some link) x1 = (x2, Ok tt) ∧
    ∃ wb, stored x2 "bob" wb ∧ balance wb = 300.
Proof.
  destruct (payment_by_link_arrives ex_writable ex_world 1 "alice" "bob" ex_wallet ex_payee "WCBTC" 300 11 12 13)
    as (x1 & link & x2 & _ & _ & _ & wb & ? & ? & _ & _ & _ & _ & _ & ? & _ & ?).
  - exact ex_ready.
  - exact ex_payee_stored.
  - apply wallet_new_inv.
  - by right.
  - done.
  - done.
  - done.
  - done.
  - small.
  - small.
  - small.
  - by left.
  - lia.
  - exists x1, link, x2. split_and!; [assumption..|]. exists wb. split; assumption.
Defined.

Lemma burn_loses_nothing_witness :
  ∃ x' e w', handle_burn ex_writable 11 12 Accepted Refused 1 "alice" (Some 99) 300 "WCBTC" true ex_world = (x', Err e) ∧
    stored x' "alice" w' ∧ balance w' = 1000.
Proof.
  destruct (burn_loses_nothing ex_writable ex_world 1 "alice" ex_wallet "WCBTC" 300 11 12 Accepted Refused (Some 99) true)
    as (x' & res & w' & ? & ? & _ & He).
  - exact ex_ready.
  - small.
  - small.
  - by left.
  - lia.
  - done.
  - done.
  - rewrite decide_False in He by (intros (_ & ? & _); done). destruct He as [[e ->] Hb]. exists x', e, w'. split_and!; assumption.
Defined.

Lemma lost_answer_loses_payment_witness :
  ∃ x' p, handle_note_spend ex_writable 11 12 Unanswered 1 "alice" 300 "WCBTC" ex_world = (x', Err NodeFailed) ∧
    node_txns x' = [p] ∧ files x' = files ex_world.
Proof.
  destruct (lost_answer_loses_payment ex_writable ex_world 1 "alice" ex_wallet "WCBTC" 300 11 12)
    as (x' & p & _ & ? & ? & ? & _); [exact ex_ready|small|small|by left|lia|]. exists x', p. split_and!; assumption.
Defined.

Lemma deposit_is_recognised_witness :
  ∃ x' p mint_hash c, handle_mint ex_writable 11 true Accepted 1 "alice" 300 "WCBTC" false ex_world = (x', Ok tt) ∧
    node_txns x' = [p] ∧ contract_mints x' = [(mint_hash, 300, c)].
Proof.
  destruct (deposit_is_recognised (H6 := toy_crypto) ex_writable ex_world 1 "alice" ex_wallet "WCBTC" 300 11)
    as (x' & p & mh & c & _ & ? & ? & ? & _).
  - apply ex_ready.
  - exact ex_wallet_inv.
  - by right.
  - done.
  - small.
  - lia.
  - by left.
  - exists x', p, mh, c. split_and!; assumption.
Defined.
