(* ===== verification/Aggregate.v ===== *)
(** Aggregation of the transactions of a block (pkg/prover/src/lib.rs,
    pkg/zk-primitives/src: agg_utxo.rs, agg_agg.rs, merkle_path.rs,
    pkg/barretenberg/src/circuits: agg_utxo.rs, agg_agg.rs) and the two circuits
    that check it (noir/agg_utxo/src/main.nr, noir/agg_agg/src/main.nr).

    The prover removes the inputs of each transaction from a copy of the notes
    tree and inserts its outputs, keeping the Merkle path of every step; three
    transactions make one proof, two such proofs the proof of a block.  The
    circuits are boolean functions of their inputs, [None] being a failed
    assertion.  The proving backend (execution of a circuit, proofs, the
    verification of a proof inside a circuit) is the class [Barretenberg]. *)
From S2P Require Import Prelude Element MerkleHash HashCache SmirkBatch SmirkTree SmirkPath.
From S2P Require Import Utxo NodeBlock SignedElement Circuit.

(** * Data *)

(** Errors of the crates the prover calls, as far as the code tells them apart;
    the others carry their text. *)
Inductive Web3Error := Transport (m : string) | Web3Other (m : string).
Inductive Web3ContractError := Api (e : Web3Error) | Web3ContractOther (m : string).
Inductive ContractsError :=
| UnknownTransaction (tx : list Z)
| ContractsWeb3 (e : Web3Error) | ContractsWeb3Contract (e : Web3ContractError) | ContractsOther (m : string).

Inductive ProverError :=
| ConvertH256ToBn256Fr (h : list Z) | RollupTransactionTimeout
| RollupTransactionDropped (tx : list Z) | RollupTransactionReverted (tx : list Z)
| FromHex | Web3 (e : Web3Error) | EthAbi | TryFromSlice | Web3Contract (e : Web3ContractError)
| SerdeJson | Secp256k1 | Smirk | SmirkCollision (e : CollisionError) | Contract (e : ContractsError)
| TokioTaskJoin | BarretenbergProve (m : string) | VecToArrayConversion (expected actual : nat).

Definition MERKLE_TREE_PATH_DEPTH : nat := 160.
Definition UTXO_AGGREGATIONS : nat := 2.
Definition UTXO_AGG_NUMBER : nat := 3.
Definition MAXIMUM_TXNS : nat := UTXO_AGG_NUMBER * UTXO_AGGREGATIONS.
Definition UTXO_AGG_LEAVES : nat := UTXO_AGG_NUMBER * (2 + 2).
Definition UTXO_PROOF_SIZE : nat := 508.

(** [MerklePath<161>]. *)
Record MerklePath := mk_merkle_path { mp_siblings : list Element }.

Record UtxoProofBundle := mk_bundle {
  utxo_proof : UtxoProof;
  input_merkle_paths : MerklePath * MerklePath;
  output_merkle_paths : MerklePath * MerklePath;
}.

(** Arrays of a fixed size are lists of that length. *)
Record AggUtxo := mk_agg_utxo { au_proofs : list UtxoProofBundle; au_old_root : Element; au_new_root : Element }.

Record AggUtxoPublicInput := mk_agg_utxo_public {
  aup_messages : list Element; aup_old_root : Element; aup_new_root : Element; aup_commit_hash : Element;
}.
Record AggUtxoProof := mk_agg_utxo_proof { aup_proof : list Z; aup_public : AggUtxoPublicInput }.

Record AggAgg := mk_agg_agg { aa_proofs : list AggUtxoProof }.
Record AggAggPublicInput := mk_agg_agg_public {
  aap_old_root : Element; aap_new_root : Element; aap_commit_hash : Element; aap_messages : list Element;
}.
Record AggAggProof := mk_agg_agg_proof { aap_proof : list Z; aap_public : AggAggPublicInput; aap_kzg : list Element }.

(** What the circuits are given, as field elements. *)
Record AggUtxoProofInput := mk_agg_utxo_proof_input {
  api_proof : list Z;
  api_utxo_kind : Z;
  api_input_merkle_paths : list (list Z);
  api_output_merkle_paths : list (list Z);
  api_input_commitments : list Z;
  api_output_commitments : list Z;
}.
Record AggUtxoInput := mk_agg_utxo_input {
  aui_proofs : list AggUtxoProofInput;
  aui_messages : list Z; aui_old_root : Z; aui_new_root : Z; aui_commit_hash : Z;
}.
Record UtxoAggProof := mk_utxo_agg_proof {
  uap_proof : list Z; uap_old_root : Z; uap_new_root : Z; uap_commit_hash : Z;
}.
Record AggAggInput := mk_agg_agg_input {
  aai_proofs : list UtxoAggProof;
  aai_messages : list Z; aai_old_root : Z; aai_new_root : Z; aai_commit_hash : Z;
}.

(** The proving backend: the keys of the two inner circuits with their hashes,
    the verification of a proof inside a circuit (key, proof, public inputs,
    hash of the key), and proving a circuit, which gives the public inputs
    followed by the proof as bytes. *)
Class Barretenberg := {
  UTXO_VERIFICATION_KEY : list Z;
  UTXO_VERIFICATION_KEY_HASH : Z;
  AGG_UTXO_VERIFICATION_KEY : list Z;
  AGG_UTXO_VERIFICATION_KEY_HASH : Z;
  verify_proof_with_type : list Z → list Z → list Z → Z → bool;
  bb_prove_agg_utxo : AggUtxoInput → outcome string (list Z);
  bb_prove_agg_agg : AggAggInput → outcome string (list Z);
}.

(** * Merkle paths (merkle_path.rs) *)

Section merkle_path.
Context `{FieldLib}.

Definition merkle_path_default : MerklePath := mk_merkle_path (replicate (MERKLE_TREE_DEPTH - 1) ZERO).
Definition merkle_path_new {E} (sibs : list Element) : outcome E MerklePath :=
  if decide (length sibs = (MERKLE_TREE_DEPTH - 1)%nat) then Ok (mk_merkle_path sibs)
  else Panic "Merkle path invalid size".
Definition compute_before_root (self : MerklePath) (hash : Element) : Element :=
  compute_merkle_root hash hash (mp_siblings self).
Definition compute_after_root (self : MerklePath) (hash : Element) : Element :=
  compute_null_root hash (mp_siblings self).
Definition apply_leaf (self : MerklePath) (leaf : Element) : MerklePath :=
  mk_merkle_path (compute_merkle_path_for_leaf leaf (mp_siblings self)).
Definition path_to_merkle_path {E} (p : Path) : outcome E MerklePath :=
  merkle_path_new (take MERKLE_TREE_PATH_DEPTH (siblings_deepest_first p)).
End merkle_path.

(** * The proofs of three and of six transactions (agg_utxo.rs, agg_agg.rs) *)

(** [UtxoProof::default()]. *)
Definition utxo_proof_default : UtxoProof :=
  mk_utxo_proof (replicate (32 * UTXO_PROOF_SIZE) 0) (mk_public_input (ZERO, ZERO) (ZERO, ZERO) (replicate 5 ZERO)).
Definition bundle_new (t : UtxoProof) (paths : list MerklePath) : outcome ProverError UtxoProofBundle :=
  match paths with
  | p0 :: p1 :: p2 :: p3 :: _ => Ok (mk_bundle t (p0, p1) (p2, p3))
  | _ => Panic "index out of bounds"
  end.
Definition bundle_default : UtxoProofBundle :=
  mk_bundle utxo_proof_default (merkle_path_default, merkle_path_default) (merkle_path_default, merkle_path_default).
Definition agg_utxo_public_default : AggUtxoPublicInput := mk_agg_utxo_public (replicate 15 ZERO) ZERO ZERO ZERO.
Definition agg_utxo_proof_default : AggUtxoProof :=
  mk_agg_utxo_proof (replicate (UTXO_PROOF_SIZE * 32) 0) agg_utxo_public_default.
Definition agg_utxo_public_is_padding (p : AggUtxoPublicInput) : bool := bool_decide (aup_old_root p = ZERO).

(** The messages the contract acts on: those of mints and burns. *)
Definition proof_messages (t : UtxoProof) : list Element :=
  match public_input_kind (public_inputs t) with
  | KindNull | KindSend => []
  | KindMint => take 4 (messages (public_inputs t))
  | KindBurn | KindNoSub => messages (public_inputs t)
  end.

(** [for &message in proof_messages { messages[index] = message; index += 1; }]. *)
Fixpoint write_messages {E} (arr : list Element) (index : nat) (l : list Element) : outcome E (list Element * nat) :=
  match l with
  | [] => Ok (arr, index)
  | m :: l =>
      if decide (index < length arr)%nat then write_messages (<[index := m]> arr) (S index) l
      else Panic "index out of bounds"
  end.
Fixpoint collect_messages {E} (arr : list Element) (index : nat) (ts : list UtxoProof)
  : outcome E (list Element * nat) :=
  match ts with
  | [] => Ok (arr, index)
  | t :: ts => let? (arr, index) := write_messages arr index (proof_messages t) in collect_messages arr index ts
  end.

Section aggregation.
Context `{FieldLib}.

Definition agg_utxo_commit_hash (a : AggUtxo) : Element :=
  hash_merge ((λ b, commit_hash (public_inputs (utxo_proof b))) <$> au_proofs a).
Definition agg_utxo_messages (a : AggUtxo) : outcome Empty_set (list Element) :=
  let? (arr, _) := collect_messages (replicate 15 ZERO) 0 (utxo_proof <$> au_proofs a) in Ok arr.

Definition first_proof (a : AggAgg) : AggUtxoPublicInput := default agg_utxo_public_default (aup_public <$> aa_proofs a !! 0%nat).
Definition second_proof (a : AggAgg) : AggUtxoPublicInput := default agg_utxo_public_default (aup_public <$> aa_proofs a !! 1%nat).
Definition agg_agg_old_root (a : AggAgg) : Element := aup_old_root (first_proof a).
Definition agg_agg_new_root (a : AggAgg) : Element :=
  if agg_utxo_public_is_padding (second_proof a) then aup_new_root (first_proof a) else aup_new_root (second_proof a).
Definition agg_agg_messages (a : AggAgg) : list Element := aa_proofs a ≫= λ p, aup_messages (aup_public p).
Definition agg_agg_commit_hash (a : AggAgg) : Element :=
  hash_merge [aup_commit_hash (first_proof a); aup_commit_hash (second_proof a)].
Definition agg_agg_public_inputs (a : AggAgg) : AggAggPublicInput :=
  mk_agg_agg_public (agg_agg_old_root a) (agg_agg_new_root a) (agg_agg_commit_hash a) (agg_agg_messages a).

(** ** Bytes of public inputs and proofs *)

Definition agg_utxo_public_bytes (p : AggUtxoPublicInput) : list Z :=
  (aup_messages p ++ [aup_old_root p; aup_new_root p; aup_commit_hash p]) ≫= to_be_bytes.
Definition agg_utxo_proof_bytes (p : AggUtxoProof) : list Z := agg_utxo_public_bytes (aup_public p) ++ aup_proof p.
Definition agg_agg_public_bytes (p : AggAggPublicInput) : list Z :=
  to_be_bytes (aap_old_root p) ++ to_be_bytes (aap_new_root p) ++ to_be_bytes (aap_commit_hash p) ++
  (aap_messages p ≫= to_be_bytes).
Definition agg_agg_proof_bytes (p : AggAggProof) : list Z :=
  agg_agg_public_bytes (aap_public p) ++ (aap_kzg p ≫= to_be_bytes) ++ aap_proof p.

(** ** Inputs of the circuits (circuits/agg_utxo.rs, circuits/agg_agg.rs) *)

(** The siblings of a path in an array of 160 field elements. *)
Definition convert_merkle_path (p : MerklePath) : outcome Empty_set (list Z) :=
  if decide (length (mp_siblings p) ≤ 160)%nat then Ok (resize 160 0 (canonical <$> mp_siblings p))
  else Panic "index out of bounds".
Definition convert_merkle_paths (ps : MerklePath * MerklePath) : outcome Empty_set (list (list Z)) :=
  let? a := convert_merkle_path ps.1 in
  let? b := convert_merkle_path ps.2 in
  Ok [a; b].

(** [to_fields] of a proof, in an array of 508 field elements. *)
Definition proof_fields (bytes : list Z) : outcome Empty_set (list Z) :=
  let? es := bytes_to_elements bytes in
  if decide (length es = UTXO_PROOF_SIZE) then Ok (canonical <$> es) else Panic "called `Result::unwrap()` on an `Err` value".

(** [From<&UtxoProofBundleWithMerkleProofs> for AggUtxoProofInput]. *)
Definition agg_utxo_proof_input (b : UtxoProofBundle) : outcome Empty_set AggUtxoProofInput :=
  let? proof := proof_fields (proof (utxo_proof b)) in
  let? ins := convert_merkle_paths (input_merkle_paths b) in
  let? outs := convert_merkle_paths (output_merkle_paths b) in
  Ok (mk_agg_utxo_proof_input proof (canonical (u8_of_kind (public_input_kind (public_inputs (utxo_proof b)))))
        ins outs (canonical <$> inputs (utxo_proof b)) (canonical <$> outputs (utxo_proof b))).
Fixpoint agg_utxo_proof_inputs (l : list UtxoProofBundle) : outcome Empty_set (list AggUtxoProofInput) :=
  match l with
  | [] => Ok []
  | b :: l => let? x := agg_utxo_proof_input b in let? xs := agg_utxo_proof_inputs l in Ok (x :: xs)
  end.
(** [From<&AggUtxo> for AggUtxoInput]. *)
Definition agg_utxo_input (a : AggUtxo) : outcome Empty_set AggUtxoInput :=
  let? proofs := agg_utxo_proof_inputs (au_proofs a) in
  let? messages := agg_utxo_messages a in
  Ok (mk_agg_utxo_input proofs (canonical <$> messages) (canonical (au_old_root a)) (canonical (au_new_root a))
        (canonical (agg_utxo_commit_hash a))).

(** [From<&AggUtxoProof> for UtxoAggProof]. *)
Definition utxo_agg_proof (p : AggUtxoProof) : outcome Empty_set UtxoAggProof :=
  let? proof := proof_fields (aup_proof p) in
  let pub := aup_public p in
  Ok (mk_utxo_agg_proof proof (canonical (aup_old_root pub)) (canonical (aup_new_root pub)) (canonical (aup_commit_hash pub))).
Definition extract_messages (ps : list AggUtxoProof) : outcome Empty_set (list Z) :=
  let ms := canonical <$> (ps ≫= λ p, aup_messages (aup_public p)) in
  if decide (length ms = 30%nat) then Ok ms else Panic "called `Result::unwrap()` on an `Err` value".
(** [From<&AggAgg> for AggAggInput]. *)
Definition agg_agg_input (a : AggAgg) : outcome Empty_set AggAggInput :=
  match aa_proofs a with
  | [p0; p1] =>
      let? q0 := utxo_agg_proof p0 in
      let? q1 := utxo_agg_proof p1 in
      let? ms := extract_messages [p0; p1] in
      Ok (mk_agg_agg_input [q0; q1] ms (canonical (agg_agg_old_root a)) (canonical (agg_agg_new_root a))
            (canonical (agg_agg_commit_hash a)))
  | _ => Panic "index out of bounds"
  end.
End aggregation.

(** * The circuits *)

Section circuits.
Context `{FieldLib, Barretenberg}.

(** The constants the circuits compare the key hashes with. *)
Definition CIRCUIT_UTXO_KEY_HASH : Z :=
  13437558190188331359745244003168182966555402200567357761776677508237206900292.
Definition CIRCUIT_AGG_UTXO_KEY_HASH : Z :=
  20568466210044186534443751402702726563221429495170229651617041695720756765724.

Definition to_le_bits (x : Z) : list bool := Z.testbit x <$> seqZ 0 254.

Definition get_merkle_root (leaf : Z) (bits : list bool) (merkle_path : list Z) : Z :=
  foldl (λ hash '(dir, sibling), if dir : bool then hash_merge [sibling; hash] else hash_merge [hash; sibling])
    leaf (zip bits merkle_path).
Definition get_null_root (bits : list bool) (merkle_path : list Z) : Z := get_merkle_root 0 bits merkle_path.
Definition validate_inclusion (leaf : Z) (bits : list bool) (merkle_path : list Z) (root : Z) : bool :=
  bool_decide (get_merkle_root leaf bits merkle_path = root).
Definition validate_null (bits : list bool) (merkle_path : list Z) (root : Z) : bool :=
  bool_decide (get_null_root bits merkle_path = root).

(** The loops over the input and the output commitments of a proof: the root
    after them. *)
Fixpoint remove_commitments (root : Z) (l : list (Z * list Z)) : option Z :=
  match l with
  | [] => Some root
  | (commitment, merkle_path) :: l =>
      if decide (commitment = 0) then remove_commitments root l
      else let bits := to_le_bits commitment in
           if validate_inclusion commitment bits merkle_path root
           then remove_commitments (get_null_root bits merkle_path) l else None
  end.
Fixpoint add_commitments (root : Z) (l : list (Z * list Z)) : option Z :=
  match l with
  | [] => Some root
  | (commitment, merkle_path) :: l =>
      if decide (commitment = 0) then add_commitments root l
      else let bits := to_le_bits commitment in
           if validate_null bits merkle_path root
           then add_commitments (get_merkle_root commitment bits merkle_path) l else None
  end.

(** The messages a proof of this kind takes from the public ones: the four
    values that go into its public inputs and the next index. *)
Definition take_messages (messages : list Z) (index : nat) (utxo_kind : Z) : option (list Z * nat) :=
  if decide (utxo_kind = 2 ∨ utxo_kind = 3 ∨ utxo_kind = 4) then
    k ← messages !! index;
    if decide (k ≠ utxo_kind) then None else
    msg_note_kind ← messages !! (index + 1)%nat;
    msg_value ← messages !! (index + 2)%nat;
    msg_hash ← messages !! (index + 3)%nat;
    if decide (utxo_kind = 3 ∨ utxo_kind = 4) then
      msg_burn_addr ← messages !! (index + 4)%nat;
      Some ([msg_note_kind; msg_value; msg_hash; msg_burn_addr], (index + 5)%nat)
    else Some ([msg_note_kind; msg_value; msg_hash; 0], (index + 4)%nat)
  else Some ([0; 0; 0; 0], index).

(** One round of the loop over the proofs; [first] is the proof and the public
    inputs of the first round. *)
Definition agg_utxo_round (key : list Z) (key_hash : Z) (messages : list Z) (first : option (list Z * list Z))
    (root : Z) (index : nat) (p : AggUtxoProofInput) : option (list Z * Z * nat) :=
  let kind := api_utxo_kind p in
  let is_padding := bool_decide (kind = 0) in
  '(msgs, index) ← take_messages messages index kind;
  let public_inputs := api_input_commitments p ++ api_output_commitments p ++ kind :: msgs in
  let '(fproof, finputs) := default (api_proof p, public_inputs) first in
  if bool_decide (first = None) && is_padding then None
  else if negb (verify_proof_with_type key (if is_padding then fproof else api_proof p)
                  (if is_padding then finputs else public_inputs) key_hash) then None
  else if is_padding then Some (public_inputs, root, index)
  else
    root ← remove_commitments root (zip (api_input_commitments p) (api_input_merkle_paths p));
    root ← add_commitments root (zip (api_output_commitments p) (api_output_merkle_paths p));
    Some (public_inputs, root, index).
Fixpoint agg_utxo_rounds (key : list Z) (key_hash : Z) (messages : list Z) (first : option (list Z * list Z))
    (root : Z) (index : nat) (ps : list AggUtxoProofInput) : option (Z * nat) :=
  match ps with
  | [] => Some (root, index)
  | p :: ps =>
      '(public_inputs, root, index) ← agg_utxo_round key key_hash messages first root index p;
      agg_utxo_rounds key key_hash messages (Some (default (api_proof p, public_inputs) first)) root index ps
  end.
Definition utxo_hash (p : AggUtxoProofInput) : Z :=
  hash_merge (api_input_commitments p ++ api_output_commitments p).

(** [main] of agg_utxo. *)
Definition agg_utxo_circuit (key : list Z) (key_hash : Z) (x : AggUtxoInput) : bool :=
  bool_decide (key_hash = CIRCUIT_UTXO_KEY_HASH) &&
  match agg_utxo_rounds key key_hash (aui_messages x) None (aui_old_root x) 0 (aui_proofs x) with
  | Some (root, index) =>
      forallb (λ m, bool_decide (m = 0)) (drop index (aui_messages x)) &&
      bool_decide (root = aui_new_root x) &&
      bool_decide (aui_commit_hash x = hash_merge (utxo_hash <$> aui_proofs x))
  | None => false
  end.

(** The public inputs of the two circuits, in the order of [main]. *)
Definition agg_utxo_publics (x : AggUtxoInput) : list Z :=
  aui_messages x ++ [aui_old_root x; aui_new_root x; aui_commit_hash x].
Definition agg_agg_publics (x : AggAggInput) : list Z :=
  [aai_old_root x; aai_new_root x; aai_commit_hash x] ++ aai_messages x.

(** One round of agg_agg: [i] is the number of the proof. *)
Definition agg_agg_round (key : list Z) (key_hash : Z) (messages : list Z) (first : option (list Z * list Z))
    (i : nat) (root : Z) (p : UtxoAggProof) : option (list Z * Z) :=
  let public_inputs := take 15 (drop (15 * i) messages) ++ [uap_old_root p; uap_new_root p; uap_commit_hash p] in
  let '(fproof, finputs) := default (uap_proof p, public_inputs) first in
  let real := bool_decide (uap_old_root p ≠ 0) in
  if negb (verify_proof_with_type key (if real then uap_proof p else fproof)
             (if real then public_inputs else finputs) key_hash) then None
  else if real then if decide (uap_old_root p = root) then Some (public_inputs, uap_new_root p) else None
  else Some (public_inputs, root).
(** [main] of agg_agg. *)
Definition agg_agg_circuit (key : list Z) (key_hash : Z) (x : AggAggInput) : bool :=
  bool_decide (key_hash = CIRCUIT_AGG_UTXO_KEY_HASH) &&
  match aai_proofs x with
  | [p0; p1] =>
      match agg_agg_round key key_hash (aai_messages x) None 0 (aai_old_root x) p0 with
      | Some (inputs0, root) =>
          match agg_agg_round key key_hash (aai_messages x) (Some (uap_proof p0, inputs0)) 1 root p1 with
          | Some (_, root) =>
              bool_decide (aai_commit_hash x = hash_merge [uap_commit_hash p0; uap_commit_hash p1]) &&
              bool_decide (aai_new_root x = root)
          | None => false
          end
      | None => false
      end
  | _ => false
  end.
End circuits.

(** * Proving *)

Notation NotesTree := (Tree SmirkMetadata SimpleHashCache).

Section prover.
Context `{FieldLib, Barretenberg} (temp_noir : bool).

Definition no_error {E A} (o : outcome Empty_set A) : outcome E A :=
  map_err (λ e : Empty_set, match e with end) o.

(** The bytes of a proof, split into public inputs and proof proper. *)
Definition split_proof {E} (count : nat) (bytes : list Z) : outcome E (list Element * list Z) :=
  if decide (length bytes < count * 32)%nat then Panic "range end index out of range"
  else
    let? public_inputs := no_error (bytes_to_elements (take (count * 32) bytes)) in
    let raw_proof := drop (count * 32) bytes in
    if decide (length public_inputs ≠ count) then Panic "Public inputs"
    else if decide (length raw_proof ≠ (508 * 32)%nat) then Panic "Proof must be 508 elements of 32 bytes"
    else Ok (public_inputs, raw_proof).
Definition nth_input (l : list Element) (i : nat) : Element := default ZERO (l !! i).

(** [Prove for AggUtxo]. *)
Definition agg_utxo_prove (a : AggUtxo) : outcome string AggUtxoProof :=
  let? x := no_error (agg_utxo_input a) in
  let? bytes := bb_prove_agg_utxo x in
  let? (pub, raw) := split_proof 18 bytes in
  Ok (mk_agg_utxo_proof raw
        (mk_agg_utxo_public (take 15 pub) (nth_input pub 15) (nth_input pub 16) (nth_input pub 17))).

(** [Prove for AggAgg]. *)
Definition agg_agg_prove (a : AggAgg) : outcome string AggAggProof :=
  let? x := no_error (agg_agg_input a) in
  let? bytes := bb_prove_agg_agg x in
  let? (pub, raw) := split_proof 33 bytes in
  Ok (mk_agg_agg_proof raw
        (mk_agg_agg_public (nth_input pub 0) (nth_input pub 1) (nth_input pub 2) (take 30 (drop 3 pub))) []).

(** ** Prover (prover/src/lib.rs)

    The tree is a copy that is dropped when proving ends. *)

Fixpoint remove_inputs (t : NotesTree) (leaves : list Element) : outcome ProverError (NotesTree * list MerklePath) :=
  match leaves with
  | [] => Ok (t, [])
  | leaf :: leaves =>
      if decide (leaf = ZERO) then
        let? (t, ps) := remove_inputs t leaves in Ok (t, merkle_path_default :: ps)
      else
        let? p := no_error (path_for MERKLE_TREE_DEPTH t leaf) in
        let? mp := path_to_merkle_path p in
        let '(t, r) := tree_remove MERKLE_TREE_DEPTH temp_noir t leaf in
        let? _ := map_err SmirkCollision r in
        let? (t, ps) := remove_inputs t leaves in Ok (t, mp :: ps)
  end.
Fixpoint insert_outputs (current_block : Z) (t : NotesTree) (leaves : list Element)
  : outcome ProverError (NotesTree * list MerklePath) :=
  match leaves with
  | [] => Ok (t, [])
  | leaf :: leaves =>
      if decide (leaf = ZERO) then
        let? (t, ps) := insert_outputs current_block t leaves in Ok (t, merkle_path_default :: ps)
      else
        let '(t, r) := tree_insert MERKLE_TREE_DEPTH temp_noir t leaf (mk_smirk_metadata current_block) in
        let? _ := map_err SmirkCollision r in
        let? p := no_error (path_for MERKLE_TREE_DEPTH t leaf) in
        let? mp := path_to_merkle_path p in
        let? (t, ps) := insert_outputs current_block t leaves in Ok (t, mp :: ps)
  end.
Fixpoint txns_paths (current_block : Z) (t : NotesTree) (txns : list UtxoProof)
  : outcome ProverError (NotesTree * list MerklePath) :=
  match txns with
  | [] => Ok (t, [])
  | p :: txns =>
      let? (t, ins) := remove_inputs t (inputs p) in
      let? (t, outs) := insert_outputs current_block t (outputs p) in
      let? (t, rest) := txns_paths current_block t txns in
      Ok (t, ins ++ outs ++ rest)
  end.

Definition gen_merkle_paths (t : NotesTree) (txns : list UtxoProof) (current_block : Z)
  : outcome ProverError (NotesTree * nat * Element * Element * list MerklePath) :=
  let old_tree := root_hash t in
  let? (t, merkle_paths) := txns_paths current_block t txns in
  let new_tree := root_hash t in
  if decide (length merkle_paths = UTXO_AGG_LEAVES)
  then Ok (t, length merkle_paths, old_tree, new_tree, merkle_paths)
  else Err (VecToArrayConversion UTXO_AGG_LEAVES (length merkle_paths)).

(** The bundles of [merkle_paths.chunks(4)]. *)
Fixpoint make_bundles (utxos : list UtxoProof) (merkle_paths : list MerklePath) : outcome ProverError (list UtxoProofBundle) :=
  match merkle_paths, utxos with
  | [], _ => Ok []
  | _, [] => Panic "index out of bounds"
  | p0 :: p1 :: p2 :: p3 :: rest, utxo :: utxos =>
      let? b := (if is_padding utxo then Ok bundle_default else bundle_new utxo [p0; p1; p2; p3]) in
      let? bs := make_bundles utxos rest in Ok (b :: bs)
  | _, utxo :: _ =>
      if is_padding utxo then Ok [bundle_default] else Panic "index out of bounds"
  end.

Definition aggregate_utxo (t : NotesTree) (utxos : list UtxoProof) (current_block : Z)
  : outcome ProverError (NotesTree * AggUtxoProof) :=
  if forallb is_padding utxos then Ok (t, agg_utxo_proof_default)
  else
    let? (t, _, old_tree, new_tree, merkle_paths) := gen_merkle_paths t utxos current_block in
    let? bundles := make_bundles utxos merkle_paths in
    if decide (length bundles = UTXO_AGG_NUMBER) then
      let? p := map_err BarretenbergProve (agg_utxo_prove (mk_agg_utxo bundles old_tree new_tree)) in
      Ok (t, p)
    else Err (VecToArrayConversion UTXO_AGG_NUMBER (length bundles)).

(** The loop over the aggregations, three transactions each. *)
Fixpoint aggregate_all (rounds : nat) (t : NotesTree) (txns : list UtxoProof) (current_block : Z)
  : outcome ProverError (NotesTree * list AggUtxoProof) :=
  match rounds with
  | O => Ok (t, [])
  | S rounds =>
      let three := take 3 txns in
      if decide (length three = UTXO_AGG_NUMBER) then
        let? (t, p) := aggregate_utxo t three current_block in
        let? (t, ps) := aggregate_all rounds t (drop 3 txns) current_block in
        Ok (t, p :: ps)
      else Panic "called `Result::unwrap()` on an `Err` value"
  end.

Definition generate_aggregate_proof (t : NotesTree) (txns : list (option UtxoProof)) (current_block : Z)
  : outcome ProverError (NotesTree * AggAggProof) :=
  let? (t, ps) := aggregate_all UTXO_AGGREGATIONS t (default utxo_proof_default <$> txns) current_block in
  if decide (length ps = UTXO_AGGREGATIONS) then
    let? p := map_err BarretenbergProve (agg_agg_prove (mk_agg_agg ps)) in
    Ok (t, p)
  else Err (VecToArrayConversion UTXO_AGGREGATIONS (length ps)).

(** The array the worker hands over: the transactions of the block, filled up with [None]. *)
Definition padded_txns (txns : list UtxoProof) : outcome ProverError (list (option UtxoProof)) :=
  let txns := (Some <$> txns) ++ replicate (MAXIMUM_TXNS - length txns) None in
  if decide (length txns = MAXIMUM_TXNS) then Ok txns else Panic "called `Result::unwrap()` on an `Err` value".

(** [Prover::prove]. *)
Definition prove_block (notes_tree : NotesTree) (height : Z) (txns : list (option UtxoProof)) : outcome ProverError AggAggProof :=
  let? (_, p) := generate_aggregate_proof notes_tree txns height in Ok p.
End prover.
