(* ===== verification/AggregateSpec.v ===== *)
(** Lemmas on aggregation: the path the prover records for a removal or an
    insertion satisfies the circuit's check of that step, and the roots follow. *)
From S2P Require Import Prelude Element MerkleHash HashCache SmirkBatch SmirkTree SmirkPath.
From S2P Require Import SmirkNode SmirkNodeSpec Utxo NodeBlock SignedElement Circuit Aggregate.

Lemma depth_161 : MERKLE_TREE_DEPTH = 161%nat.
Proof. done. Qed.
Notation D := MERKLE_TREE_DEPTH.
Definition field_element (e : Element) : Prop := 0 ≤ e < MODULUS.

Lemma field_wf e : field_element e → wf_element e.
Proof. pose proof modulus_bounds. unfold field_element, wf_element, in_width. lia. Qed.
Lemma field_zero : field_element 0.
Proof. pose proof modulus_bounds. unfold field_element. lia. Qed.
#[export] Hint Resolve field_wf field_zero : core.

(** * Paths in the circuit *)

Section paths.
Context `{FieldLaws}.

Lemma le_bits_split e (n : nat) :
  (n ≤ 254)%nat → ∃ rest, to_le_bits e = least_significant_bits e n ++ rest.
Proof.
  intros Hn. exists (Z.testbit e <$> seqZ (Z.of_nat n) (254 - Z.of_nat n)).
  unfold to_le_bits, least_significant_bits. rewrite lsb_bits_spec by lia.
  rewrite <-fmap_reverse, reverse_involutive, <-fmap_app.
  f_equal. replace 254 with (Z.of_nat n + (254 - Z.of_nat n)) at 1 by lia.
  rewrite seqZ_app by lia. do 2 f_equal.
Qed.

Lemma merge_step_canonical leaf sib (b : bool) :
  field_element leaf → wf_element sib →
  (if b then hash_merge [canonical sib; leaf] else hash_merge [leaf; canonical sib]) = merge_step leaf sib b.
Proof.
  intros Hl Hs. unfold merge_step.
  assert (canonical leaf = leaf) as Hc by by apply canonical_small.
  destruct b;
    [rewrite <-(hash_merge_canonical [sib; leaf])|rewrite <-(hash_merge_canonical [leaf; sib])];
    csimpl; rewrite ?Hc; try done; repeat apply Forall_cons_2; auto.
Qed.
Lemma merge_step_field leaf sib b : field_element (merge_step leaf sib b).
Proof. unfold merge_step, field_element. destruct b; apply hash_merge_bound. Qed.

(** The circuit's root of a path is that of [compute_merkle_root]. *)
Lemma get_merkle_root_eq leaf bits rest sibs :
  field_element leaf → Forall wf_element sibs → length bits = length sibs →
  get_merkle_root leaf (bits ++ rest) (canonical <$> sibs) = compute_merkle_root_from_iter leaf (zip sibs bits).
Proof.
  unfold get_merkle_root. intros Hl Hs. revert leaf bits Hl.
  induction Hs as [|s sibs Hs Hss IH]; intros leaf [|b bits] Hl Hlen; try discriminate Hlen.
  - by destruct rest.
  - cbn. rewrite merge_step_canonical by done. apply IH; [apply merge_step_field|by injection Hlen].
Qed.

(** ** Siblings of a slot *)

Lemma ref_hash_wf n s : (∀ q, length q = n → wf_element (s q)) → wf_element (ref_hash n s).
Proof.
  destruct n as [|n]; intros Hs; cbn; [by apply Hs|]. apply hash_merge_bound.
Qed.
Lemma ref_hash_field n s : field_element (ref_hash (S n) s).
Proof. cbn. apply hash_merge_bound. Qed.
Lemma ref_siblings_wf s q :
  (∀ r, length r = length q → wf_element (s r)) → Forall wf_element (ref_siblings s q).
Proof.
  revert s. induction q as [|b q IH]; intros s Hs; cbn; constructor.
  - apply ref_hash_wf. intros r Hr. apply Hs. cbn. lia.
  - apply IH. intros r Hr. apply Hs. cbn. lia.
Qed.
End paths.

(** * Steps on the notes tree *)

Section steps.
Context `{FieldLaws} (temp_noir : bool).
Implicit Types (t : NotesTree) (e : Element).

(** A tree of well-formed elements. *)
Record good_tree t : Prop := {
  gt_wf : wf_tree D t;
  gt_elems : ∀ e, e ∈ dom (tree_entries t) → wf_element e;
}.

Definition sibs t e : list Element := reverse (ref_siblings (slots (tree t)) (slot D e)).

Lemma slots_wf t q : good_tree t → length q = 160%nat → wf_element (slots (tree t) q).
Proof.
  intros [Hwf Hel] Hq. destruct (decide (slots (tree t) q = NULL_HASH)) as [->|Hne]; [by apply field_wf, field_zero|].
  destruct (slots_in_place D D [] (tree t) q (wf_node _ t Hwf) Hne) as [Hs _].
  apply Hel, elem_of_dom, (wf_entries _ t Hwf). by rewrite Hs.
Qed.
Lemma sibs_ok t e : good_tree t → length (sibs t e) = 160%nat ∧ Forall wf_element (sibs t e).
Proof.
  intros Hg. assert (length (slot D e) = 160%nat) as Hl.
  { rewrite slot_length by apply (wf_depth _ t (gt_wf t Hg)). by rewrite depth_161. }
  unfold sibs. split; [by rewrite length_reverse, ref_siblings_length|].
  apply Forall_reverse, ref_siblings_wf. intros r Hr. apply slots_wf; [done|lia].
Qed.

Lemma path_for_sibs {E} t e :
  good_tree t →
  ∃ p, path_for D t e = Ok p ∧ path_to_merkle_path (E := E) p = Ok (mk_merkle_path (sibs t e)).
Proof.
  intros Hg. eexists. split; [exact (path_for_ok D t e (gt_wf t Hg))|]. destruct (sibs_ok t e Hg) as [Hl _].
  unfold path_to_merkle_path, merkle_path_new, siblings_deepest_first, MERKLE_TREE_PATH_DEPTH. cbn [siblings].
  fold (sibs t e). rewrite take_ge by lia. by rewrite decide_True by (rewrite Hl, depth_161; done).
Qed.
Lemma convert_sibs t e :
  good_tree t → convert_merkle_path (mk_merkle_path (sibs t e)) = Ok (canonical <$> sibs t e).
Proof.
  intros Hg. destruct (sibs_ok t e Hg) as [Hl _]. unfold convert_merkle_path. cbn [mp_siblings].
  rewrite decide_True by lia. by rewrite resize_all_alt by (rewrite length_fmap; lia).
Qed.

(** The circuit recomputes the root of a tree from the occupant of a slot. *)
Lemma circuit_root t e x :
  good_tree t → field_element x → occupant D t e = x →
  get_merkle_root x (to_le_bits e) (canonical <$> sibs t e) = root_hash t.
Proof.
  intros Hg Hx Ho. destruct (sibs_ok t e Hg) as [Hl Hf]. destruct (le_bits_split e 160 ltac:(lia)) as [rest ->].
  rewrite get_merkle_root_eq; [|exact Hx|exact Hf|].
  - pose proof (compute_root_occupant D t e (gt_wf t Hg)) as Hr. rewrite Ho in Hr. rewrite <-Hr.
    unfold compute_root_hash, compute_merkle_root, siblings_deepest_first. cbn [siblings path_element].
    fold (sibs t e). rewrite Hl. reflexivity.
  - unfold least_significant_bits. rewrite length_reverse, lsb_bits_length by lia. by rewrite Hl.
Qed.

Lemma root_field t : good_tree t → field_element (root_hash t).
Proof.
  intros Hg. rewrite (root_hash_slots D t (gt_wf t Hg)).
  assert (D - 1 = S 159)%nat as -> by (by rewrite depth_161). apply ref_hash_field.
Qed.

(** ** Removing and inserting a leaf *)

Lemma remove_step t e :
  good_tree t → field_element e → e ∈ dom (tree_entries t) →
  ∃ t', tree_remove D temp_noir t e = (t', Ok tt) ∧ good_tree t' ∧
    tree_entries t' = delete e (tree_entries t) ∧
    get_merkle_root e (to_le_bits e) (canonical <$> sibs t e) = root_hash t ∧
    get_null_root (to_le_bits e) (canonical <$> sibs t e) = root_hash t'.
Proof.
  intros Hg He Hin. pose proof Hin as [v Hv]%elem_of_dom. pose proof (gt_wf t Hg) as Hwf.
  destruct (tree_remove_ok D temp_noir t e Hwf ltac:(eauto)) as (t' & Hr & Hwf' & He').
  assert (good_tree t') as Hg'.
  { split; [done|]. intros x. rewrite He', dom_delete_L. intros Hx. apply (gt_elems t Hg). set_solver. }
  exists t'. split_and!; [done|done|done| |].
  - apply circuit_root; [done|done|]. apply (occupant_present D t e Hwf). eauto.
  - replace (sibs t e) with (sibs t' e).
    + apply circuit_root; [done|by apply field_zero|]. apply (occupant_free D t' e Hwf').
      intros x Hx Hs. assert (x ≠ e) as Hne by (intros ->; rewrite He', lookup_delete_eq in Hx; by destruct Hx).
      apply Hne. rewrite He', lookup_delete_ne in Hx by done.
      rewrite <-(wf_entry_slot D t x Hwf Hx), <-(wf_entry_slot D t e Hwf) by eauto. by rewrite Hs.
    + unfold sibs. f_equal. symmetry. eapply (insert_siblings D t' t e v); [done|done|].
      by rewrite He', insert_delete_id.
Qed.

Lemma insert_step t e (m : SmirkMetadata) :
  good_tree t → field_element e → e ≠ 0 →
  (∀ x, x ∈ dom (tree_entries t) → slot D x ≠ slot D e) →
  ∃ t', tree_insert D temp_noir t e m = (t', Ok tt) ∧ good_tree t' ∧
    tree_entries t' = <[e := m]> (tree_entries t) ∧
    get_null_root (to_le_bits e) (canonical <$> sibs t' e) = root_hash t ∧
    get_merkle_root e (to_le_bits e) (canonical <$> sibs t' e) = root_hash t'.
Proof.
  intros Hg He Hz Hfree. pose proof (gt_wf t Hg) as Hwf.
  assert (∀ x, is_Some (tree_entries t !! x) → slot D x ≠ slot D e) as Hfree' by (intros x Hx; by apply Hfree, elem_of_dom).
  destruct (tree_insert_ok D temp_noir t e m Hwf Hz Hfree') as (t' & Hr & Hwf' & He').
  assert (good_tree t') as Hg'.
  { split; [done|]. intros x. rewrite He', dom_insert_L. intros [->%elem_of_singleton|Hx]%elem_of_union; [auto|].
    by apply (gt_elems t Hg). }
  exists t'. split_and!; [done|done|done| |].
  - replace (sibs t' e) with (sibs t e).
    + apply circuit_root; [done|by apply field_zero|]. by apply (occupant_free D t e Hwf).
    + unfold sibs. f_equal. symmetry. by eapply (insert_siblings D t t' e m).
  - apply circuit_root; [done|done|]. apply (occupant_present D t' e Hwf'). rewrite He', lookup_insert_eq. eauto.
Qed.
End steps.

(** * The paths of transactions *)

Section txns.
Context `{FieldLaws} (temp_noir : bool).
Implicit Types (t : NotesTree) (e : Element) (S : gset Element).
Notation elems t := (dom (tree_entries t)).

Definition converts : list MerklePath → list (list Z) → Prop :=
  Forall2 (λ p c, convert_merkle_path p = Ok c).
Definition slots_apart S : Prop := ∀ x y, x ∈ S → y ∈ S → slot D x = slot D y → x = y.
Lemma slots_apart_mono S S' : S' ⊆ S → slots_apart S → slots_apart S'.
Proof. intros Hs Ha x y Hx Hy. apply Ha; by apply Hs. Qed.

Lemma convert_default : ∃ c, convert_merkle_path merkle_path_default = Ok c.
Proof.
  unfold convert_merkle_path, merkle_path_default. cbn [mp_siblings]. rewrite length_replicate, depth_161.
  rewrite decide_True by lia. eauto.
Qed.
Lemma non_zero_cons e es : non_zero (e :: es) = if decide (e = 0) then non_zero es else e :: non_zero es.
Proof. unfold non_zero. rewrite filter_cons. unfold ZERO. by repeat case_decide. Qed.

Lemma remove_inputs_ok t leaves :
  good_tree t → Forall field_element leaves → NoDup (non_zero leaves) →
  (∀ e, e ∈ non_zero leaves → e ∈ elems t) →
  ∃ t' ps cs, remove_inputs temp_noir t leaves = Ok (t', ps) ∧ good_tree t' ∧
    elems t' = elems t ∖ list_to_set (non_zero leaves) ∧ converts ps cs ∧ length ps = length leaves ∧
    remove_commitments (root_hash t) (zip (canonical <$> leaves) cs) = Some (root_hash t').
Proof.
  intros Hg Hf. revert t Hg. induction Hf as [|e leaves He Hf IH]; intros t Hg Hn Hin.
  { exists t, [], []. cbn. split_and!; [done|done|clear; set_solver|constructor|done|done]. }
  rewrite non_zero_cons in Hn, Hin. rewrite non_zero_cons. cbn [remove_inputs fmap list_fmap].
  assert (canonical e = e) as Hce by by apply canonical_small.
  unfold ZERO. destruct (decide (e = 0)) as [He0|Hne].
  - destruct (IH t Hg Hn Hin) as (t' & ps & cs & -> & Hg' & Hel & Hc & Hl & Hr).
    destruct convert_default as [c Hcd]. exists t', (merkle_path_default :: ps), (c :: cs). cbn [outcome_bind].
    split_and!; [done|done|done|by constructor|cbn; congruence|].
    cbn [zip zip_with remove_commitments]. by rewrite decide_True by (by rewrite Hce).
  - apply NoDup_cons in Hn as [Hnin Hn].
    destruct (remove_step temp_noir t e Hg He) as (t1 & Hrm & Hg1 & He1 & Hin1 & Hnull); [apply Hin, list_elem_of_here|].
    destruct (path_for_sibs (E := ProverError) t e Hg) as (p & Hp & Hmp).
    destruct (IH t1 Hg1 Hn) as (t' & ps & cs & Hri & Hg' & Hel & Hc & Hl & Hr).
    { intros x Hx. rewrite He1, dom_delete_L. apply elem_of_difference. split; [by apply Hin, list_elem_of_further|].
      intros ->%elem_of_singleton. done. }
    rewrite Hp. cbn [no_error map_err outcome_bind]. rewrite Hmp. cbn [outcome_bind]. rewrite Hrm.
    cbn [map_err outcome_bind]. rewrite Hri. cbn [outcome_bind].
    eexists t', _, ((canonical <$> sibs t e) :: cs). split_and!; [reflexivity|done| | |cbn; congruence|].
    + by rewrite Hel, He1, dom_delete_L, list_to_set_cons, difference_difference_l_L.
    + constructor; [by apply convert_sibs|done].
    + cbn [zip zip_with remove_commitments]. rewrite Hce, decide_False by done.
      unfold validate_inclusion. rewrite bool_decide_true by done. by rewrite Hnull.
Qed.

Lemma insert_outputs_ok h t leaves :
  good_tree t → Forall field_element leaves → NoDup (non_zero leaves) →
  (∀ e, e ∈ non_zero leaves → e ∉ elems t) → slots_apart (elems t ∪ list_to_set (non_zero leaves)) →
  ∃ t' ps cs, insert_outputs temp_noir h t leaves = Ok (t', ps) ∧ good_tree t' ∧
    elems t' = elems t ∪ list_to_set (non_zero leaves) ∧ converts ps cs ∧ length ps = length leaves ∧
    add_commitments (root_hash t) (zip (canonical <$> leaves) cs) = Some (root_hash t').
Proof.
  intros Hg Hf. revert t Hg. induction Hf as [|e leaves He Hf IH]; intros t Hg Hn Hin Ha.
  { exists t, [], []. cbn. split_and!; [done|done|clear; set_solver|constructor|done|done]. }
  rewrite non_zero_cons in Hn, Hin, Ha. rewrite non_zero_cons. cbn [insert_outputs fmap list_fmap].
  assert (canonical e = e) as Hce by by apply canonical_small.
  unfold ZERO. destruct (decide (e = 0)) as [He0|Hne].
  - destruct (IH t Hg Hn Hin Ha) as (t' & ps & cs & -> & Hg' & Hel & Hc & Hl & Hr).
    destruct convert_default as [c Hcd]. exists t', (merkle_path_default :: ps), (c :: cs). cbn [outcome_bind].
    split_and!; [done|done|done|by constructor|cbn; congruence|].
    cbn [zip zip_with add_commitments]. by rewrite decide_True by (by rewrite Hce).
  - apply NoDup_cons in Hn as [Hnin Hn].
    destruct (insert_step temp_noir t e (mk_smirk_metadata h) Hg He Hne) as (t1 & Hrm & Hg1 & He1 & Hnull & Hin1).
    { intros x Hx Hs. apply (Hin e); [apply list_elem_of_here|]. rewrite <-(Ha x e); [done|by apply elem_of_union_l| |done].
      apply elem_of_union_r. rewrite list_to_set_cons. by apply elem_of_union_l, elem_of_singleton. }
    destruct (path_for_sibs (E := ProverError) t1 e Hg1) as (p & Hp & Hmp).
    destruct (IH t1 Hg1 Hn) as (t' & ps & cs & Hri & Hg' & Hel & Hc & Hl & Hr).
    { intros x Hx. rewrite He1, dom_insert_L. intros [->%elem_of_singleton|Hx']%elem_of_union; [done|].
      by apply (Hin x); [apply list_elem_of_further|]. }
    { eapply slots_apart_mono; [|exact Ha]. rewrite He1, dom_insert_L. clear. set_solver. }
    rewrite Hrm. cbn [map_err outcome_bind]. rewrite Hp. cbn [no_error map_err outcome_bind]. rewrite Hmp.
    cbn [outcome_bind]. rewrite Hri. cbn [outcome_bind].
    eexists t', _, ((canonical <$> sibs t1 e) :: cs). split_and!; [reflexivity|done| | |cbn; congruence|].
    + rewrite Hel, He1, dom_insert_L, list_to_set_cons, (assoc_L (∪)). by rewrite (comm_L (∪) (elems t) {[e]}).
    + constructor; [by apply convert_sibs|done].
    + cbn [zip zip_with add_commitments]. rewrite Hce, decide_False by done.
      unfold validate_null. rewrite bool_decide_true by done. by rewrite Hin1.
Qed.

(** ** Transactions in order *)

Definition txn_ins (p : UtxoProof) : list Element := non_zero (inputs p).
Definition txn_outs (p : UtxoProof) : list Element := non_zero (outputs p).
Definition after S (p : UtxoProof) : gset Element :=
  (S ∖ list_to_set (txn_ins p)) ∪ list_to_set (txn_outs p).

(** Transactions that can be carried out in order on the elements [S]. *)
Record fits S (ps : list UtxoProof) : Prop := {
  fit_fields : Forall (λ p, Forall field_element (inputs p ++ outputs p)) ps;
  fit_nodup : NoDup ((ps ≫= txn_outs) ++ (ps ≫= txn_ins));
  fit_out : ∀ e, e ∈ ps ≫= txn_outs → e ∉ S;
  fit_in : ∀ e, e ∈ ps ≫= txn_ins → e ∈ S;
  fit_apart : slots_apart (S ∪ list_to_set (ps ≫= txn_outs));
}.

Lemma fits_step S p ps : fits S (p :: ps) → fits (after S p) ps.
Proof.
  intros [Hf Hn Ho Hi Ha]. rewrite !bind_cons in Hn, Ho, Hi, Ha. apply Forall_cons in Hf as [_ Hf].
  apply NoDup_app in Hn as (Hno & Hx & Hni). apply NoDup_app in Hno as (_ & Hoo & Hno). apply NoDup_app in Hni as (_ & Hii & Hni).
  unfold after. split; [done| | | |].
  - apply NoDup_app. split_and!; [done| |done]. intros e He He'. apply (Hx e); apply elem_of_app; by right.
  - intros e He. specialize (Ho e). specialize (Hoo e). clear -He Ho Hoo. set_solver.
  - intros e He. specialize (Hi e). specialize (Hii e). clear -He Hi Hii. set_solver.
  - eapply slots_apart_mono; [|exact Ha]. clear. set_solver.
Qed.

(** One transaction: the prover's paths pass the circuit's checks. *)
Lemma txn_paths_ok h t p ps :
  good_tree t → fits (elems t) (p :: ps) →
  ∃ t1 t' ins outs cins couts,
    remove_inputs temp_noir t (inputs p) = Ok (t1, ins) ∧ insert_outputs temp_noir h t1 (outputs p) = Ok (t', outs) ∧
    good_tree t' ∧ elems t' = after (elems t) p ∧ converts ins cins ∧ converts outs couts ∧
    length ins = 2%nat ∧ length outs = 2%nat ∧
    remove_commitments (root_hash t) (zip (canonical <$> inputs p) cins) = Some (root_hash t1) ∧
    add_commitments (root_hash t1) (zip (canonical <$> outputs p) couts) = Some (root_hash t').
Proof.
  intros Hg [Hf Hn Ho Hi Ha]. rewrite !bind_cons in Hn, Ho, Hi, Ha.
  apply Forall_cons in Hf as [[Hf1 Hf2]%Forall_app _].
  apply NoDup_app in Hn as (Hno & Hx & Hni). apply NoDup_app in Hno as (Hno & _ & _). apply NoDup_app in Hni as (Hni & _ & _).
  destruct (remove_inputs_ok t (inputs p) Hg Hf1 Hni) as (t1 & ins & cins & Hr & Hg1 & He1 & Hc1 & Hl1 & Hr1).
  { intros e He. apply Hi, elem_of_app. by left. }
  destruct (insert_outputs_ok h t1 (outputs p) Hg1 Hf2 Hno) as (t' & outs & couts & Hr' & Hg' & He' & Hc' & Hl' & Hr1').
  { intros e He. rewrite He1. specialize (Ho e). unfold txn_outs in Ho. clear -He Ho. set_solver. }
  { eapply slots_apart_mono; [|exact Ha]. rewrite He1. unfold txn_outs. clear. set_solver. }
  exists t1, t', ins, outs, cins, couts. split_and!; try done. by rewrite He', He1.
Qed.
End txns.
