(* ===== verification/AggregateProps.v ===== *)
(** What aggregation guarantees: a block of regular transactions that passes
    validation is proved, from the root of the tree before it to the root it
    states; what the circuits leave open, and what stops the rollup. *)
From S2P Require Import Prelude Element MerkleHash HashCache SmirkBatch SmirkTree SmirkPath.
From S2P Require Import SmirkStorage BlockStore Crypto Utxo NodeBlock SignedElement Circuit.
From S2P Require Import Mempool BlockCache NodeCommit NodeLedger Aggregate AggregateSpec.

(** * Assumptions on the proving backend

    The key hashes are those in the circuits; a circuit whose assertions hold is
    proved, by its public inputs followed by 508 words, and such a proof verifies
    inside a circuit against the same public inputs; one whose assertions fail is
    not. *)
Class BarretenbergLaws `{FieldLib, Barretenberg} : Prop := {
  utxo_key_hash : UTXO_VERIFICATION_KEY_HASH = CIRCUIT_UTXO_KEY_HASH;
  agg_utxo_key_hash : AGG_UTXO_VERIFICATION_KEY_HASH = CIRCUIT_AGG_UTXO_KEY_HASH;
  agg_utxo_proved x :
    agg_utxo_circuit UTXO_VERIFICATION_KEY UTXO_VERIFICATION_KEY_HASH x = true →
    ∃ raw, bb_prove_agg_utxo x = Ok ((agg_utxo_publics x ≫= to_be_bytes) ++ raw) ∧ length raw = (508 * 32)%nat ∧
      ∀ fs, proof_fields raw = Ok fs →
        verify_proof_with_type AGG_UTXO_VERIFICATION_KEY fs (agg_utxo_publics x) AGG_UTXO_VERIFICATION_KEY_HASH = true;
  agg_utxo_refused x :
    agg_utxo_circuit UTXO_VERIFICATION_KEY UTXO_VERIFICATION_KEY_HASH x = false → ∃ m, bb_prove_agg_utxo x = Err m;
  agg_agg_proved x :
    agg_agg_circuit AGG_UTXO_VERIFICATION_KEY AGG_UTXO_VERIFICATION_KEY_HASH x = true →
    ∃ raw, bb_prove_agg_agg x = Ok ((agg_agg_publics x ≫= to_be_bytes) ++ raw) ∧ length raw = (508 * 32)%nat;
  agg_agg_refused x :
    agg_agg_circuit AGG_UTXO_VERIFICATION_KEY AGG_UTXO_VERIFICATION_KEY_HASH x = false → ∃ m, bb_prove_agg_agg x = Err m;
}.

(** * Regular transactions *)

(** The messages a client writes: none for a transfer, four for a mint, five for
    a burn. *)
Definition message_form (l : list Element) : bool :=
  match l with
  | [k; a; b; c; d] =>
      if decide (k = 1) then bool_decide ([a; b; c; d] = [0; 0; 0; 0])
      else if decide (k = 2) then bool_decide (d = 0) else bool_decide (k = 3 ∨ k = 4)
  | _ => false
  end.

Record regular (p : UtxoProof) : Prop := {
  rg_proof : length (proof p) = (32 * 508)%nat;
  rg_fields : Forall field_element (fields (public_inputs p));
  rg_form : message_form (messages (public_inputs p)) = true;
}.

(** The transactions clients build have that form. *)
Lemma built_messages_form `{FieldLib} u ms : kind u ≠ KindNull → utxo_messages u = Ok ms → message_form ms = true.
Proof.
  unfold utxo_messages. destruct (kind u); intros Hk Hm; try done; [by simplify_eq|by simplify_eq|..];
    destruct (burn_address u); by simplify_eq/=.
Qed.

Section messages.
Context `{FieldLib}.

Lemma canonical_fields l : Forall field_element l → canonical <$> l = l.
Proof. induction 1 as [|e l He Hl IH]; [done|]. csimpl. by rewrite IH, canonical_small. Qed.

Lemma default_kind : public_input_kind (public_inputs utxo_proof_default) = KindNull.
Proof. done. Qed.

Lemma regular_messages p :
  regular p →
  ∃ k a b c d, messages (public_inputs p) = [k; a; b; c; d] ∧ u8_of_kind (public_input_kind (public_inputs p)) = k ∧
    Forall field_element [k; a; b; c; d] ∧ is_padding p = false ∧
    (k = 1 ∧ a = 0 ∧ b = 0 ∧ c = 0 ∧ d = 0 ∧ proof_messages p = [] ∨
     k = 2 ∧ d = 0 ∧ proof_messages p = [k; a; b; c] ∨ (k = 3 ∨ k = 4) ∧ proof_messages p = [k; a; b; c; d]).
Proof.
  intros [_ Hf Hm]. unfold fields in Hf. apply Forall_app in Hf as [_ Hf].
  destruct p as [pr [i o ms]]. cbn [public_inputs messages] in *.
  destruct ms as [|k [|a [|b [|c [|d [|]]]]]]; try done. exists k, a, b, c, d. unfold message_form in Hm.
  assert (∀ kk, k = kk → public_input_kind (mk_public_input i o [k; a; b; c; d]) = kind_of_u8 (default 0 (to_be_bytes kk !! 31%nat))) as Hk
    by (by intros ? <-).
  case_decide as H1; [|case_decide as H2; [|apply bool_decide_eq_true in Hm as [H3|H4]]].
  - specialize (Hk 1 H1). apply bool_decide_eq_true in Hm. simplify_eq.
    unfold is_padding, proof_messages. cbn [public_inputs messages]. rewrite Hk. split_and!; try done. by left.
  - specialize (Hk 2 H2). apply bool_decide_eq_true in Hm. simplify_eq.
    unfold is_padding, proof_messages. cbn [public_inputs messages]. rewrite Hk. split_and!; try done. by right; left.
  - specialize (Hk 3 H3). simplify_eq.
    unfold is_padding, proof_messages. cbn [public_inputs messages]. rewrite Hk. split_and!; try done. right; right; auto.
  - specialize (Hk 4 H4). simplify_eq.
    unfold is_padding, proof_messages. cbn [public_inputs messages]. rewrite Hk. split_and!; try done. right; right; auto.
Qed.

Lemma proof_messages_bound p : regular p → (length (proof_messages p) ≤ 5)%nat ∧ Forall field_element (proof_messages p).
Proof.
  intros (k & a & b & c & d & _ & _ & Hf & _ & Hc)%regular_messages.
  destruct Hc as [(_ & _ & _ & _ & _ & ->)|[(_ & _ & ->)|(_ & ->)]]; cbn; (split; [lia|]); [done| |done].
  exact (Forall_take _ 4 _ Hf).
Qed.

(** ** Writing and reading the messages *)

Lemma write_messages_ok {E} pre l k :
  write_messages (E := E) (pre ++ replicate (length l + k) ZERO) (length pre) l =
  Ok (pre ++ l ++ replicate k ZERO, (length pre + length l)%nat).
Proof.
  revert pre. induction l as [|m l IH]; intros pre; cbn [write_messages length app Nat.add].
  { by rewrite Nat.add_0_r. }
  rewrite decide_True by (rewrite length_app, replicate_S; cbn; lia).
  rewrite replicate_S, insert_at_end by done.
  replace (S (length pre)) with (length (pre ++ [m])) by (rewrite length_app; cbn; lia).
  rewrite IH, length_app. cbn. rewrite <-app_assoc. do 2 f_equal. lia.
Qed.
Lemma collect_messages_ok {E} pre ps k :
  collect_messages (E := E) (pre ++ replicate (length (ps ≫= proof_messages) + k) ZERO) (length pre) ps =
  Ok (pre ++ (ps ≫= proof_messages) ++ replicate k ZERO, (length pre + length (ps ≫= proof_messages))%nat).
Proof.
  revert pre. induction ps as [|p ps IH]; intros pre; [cbn; by rewrite Nat.add_0_r|].
  rewrite !bind_cons, length_app, <-Nat.add_assoc. cbn [collect_messages].
  rewrite write_messages_ok. cbn [outcome_bind]. rewrite app_assoc, <-length_app, IH, length_app, <-!app_assoc.
  do 2 f_equal. lia.
Qed.

Lemma lookup_middle {A} (pre l post : list A) i x : l !! i = Some x → (pre ++ l ++ post) !! (length pre + i)%nat = Some x.
Proof. intros Hi. rewrite lookup_app_r, Nat.add_comm, Nat.add_sub by lia. by apply lookup_app_l_Some. Qed.

Lemma take_messages_ok p pre post :
  regular p →
  ∃ rest, take_messages (pre ++ proof_messages p ++ post) (length pre)
      (u8_of_kind (public_input_kind (public_inputs p))) = Some (rest, (length pre + length (proof_messages p))%nat) ∧
    u8_of_kind (public_input_kind (public_inputs p)) :: rest = messages (public_inputs p).
Proof.
  intros (k & a & b & c & d & Hm & -> & _ & _ & Hc)%regular_messages. exists [a; b; c; d]. split; [|by rewrite Hm].
  unfold take_messages.
  destruct Hc as [(-> & -> & -> & -> & -> & ->)|[(Hk & -> & ->)|(Hk & ->)]].
  - rewrite decide_False by lia. cbn. by rewrite Nat.add_0_r.
  - pose proof (lookup_middle pre [k; a; b; c] post) as Hl. rewrite decide_True by lia.
    rewrite <-(Nat.add_0_r (length pre)) at 1. rewrite (Hl 0%nat k) by done. cbn [mbind option_bind].
    rewrite decide_False by (intros []; done). rewrite (Hl 1%nat a), (Hl 2%nat b), (Hl 3%nat c) by done. cbn [mbind option_bind].
    by rewrite decide_False by lia.
  - pose proof (lookup_middle pre [k; a; b; c; d] post) as Hl. rewrite decide_True by lia.
    rewrite <-(Nat.add_0_r (length pre)) at 1. rewrite (Hl 0%nat k) by done. cbn [mbind option_bind].
    rewrite decide_False by (intros []; done). rewrite (Hl 1%nat a), (Hl 2%nat b), (Hl 3%nat c) by done. cbn [mbind option_bind].
    rewrite decide_True by lia. by rewrite (Hl 4%nat d) by done.
Qed.
End messages.

(** * Groups of transactions *)

Section groups.
Context `{FieldLaws, !Barretenberg} (temp_noir : bool).
Implicit Types (t : NotesTree) (p : UtxoProof).
Notation elems t := (dom (tree_entries t)).
Notation key := UTXO_VERIFICATION_KEY.
Notation key_hash := UTXO_VERIFICATION_KEY_HASH.

(** A transaction whose proof verifies inside a circuit. *)
Definition verified p : Prop :=
  ∀ fs, proof_fields (proof p) = Ok fs → verify_proof_with_type key fs (canonical <$> fields (public_inputs p)) key_hash = true.
Definition real p : Prop := regular p ∧ verified p.
Definition real_or_padding p : Prop := real p ∨ p = utxo_proof_default.

Lemma proof_fields_ok bytes : length bytes = (32 * 508)%nat → ∃ fs, proof_fields bytes = Ok fs.
Proof.
  intros Hl. unfold proof_fields, bytes_to_elements. rewrite decide_True by (rewrite Hl; done). cbn [outcome_bind].
  assert (∀ n fuel (l : list Z), length l = (32 * n)%nat → (length l ≤ fuel)%nat → length (chunks_fuel fuel 32 l) = n) as Hc.
  { induction n as [|n IH]; intros fuel [|z l] Hll Hf; cbn in Hll, Hf; try lia; [by destruct fuel|].
    destruct fuel as [|fuel]; [lia|]. cbn [chunks_fuel length]. f_equal. apply IH; rewrite length_drop; cbn; lia. }
  unfold chunks. rewrite length_fmap, (Hc 508%nat) by done. rewrite decide_True by done. eauto.
Qed.
Lemma default_fields : ∃ fs, proof_fields (replicate (UTXO_PROOF_SIZE * 32) 0) = Ok fs.
Proof. apply proof_fields_ok. by rewrite length_replicate. Qed.

Lemma real_not_padding p : real p → is_padding p = false.
Proof. by intros [(k & a & b & c & d & _ & _ & _ & Hp & _)%regular_messages _]. Qed.

(** ** One round of the circuit *)

Lemma real_round p fs cins couts pre post first root root1 root' :
  real p → proof_fields (proof p) = Ok fs →
  remove_commitments root (zip (canonical <$> inputs p) cins) = Some root1 →
  add_commitments root1 (zip (canonical <$> outputs p) couts) = Some root' →
  let x := mk_agg_utxo_proof_input fs (u8_of_kind (public_input_kind (public_inputs p))) cins couts
             (canonical <$> inputs p) (canonical <$> outputs p) in
  agg_utxo_round key key_hash (pre ++ proof_messages p ++ post) first root (length pre) x =
    Some (canonical <$> fields (public_inputs p), root', (length pre + length (proof_messages p))%nat).
Proof.
  intros Hreal Hfs Hrm Hadd x. pose proof (real_not_padding p Hreal) as Hpad. destruct Hreal as [Hreg Hver].
  destruct (take_messages_ok p pre post Hreg) as (rest & Htm & Hms). unfold agg_utxo_round.
  cbn [x api_utxo_kind api_input_commitments api_output_commitments api_proof api_input_merkle_paths api_output_merkle_paths].
  rewrite Htm. cbn [mbind option_bind].
  assert ((canonical <$> inputs p) ++ (canonical <$> outputs p) ++ u8_of_kind (public_input_kind (public_inputs p)) :: rest =
    canonical <$> fields (public_inputs p)) as ->.
  { rewrite Hms. unfold fields. rewrite fmap_app, (canonical_fields (messages _)); [done|].
    pose proof (rg_fields p Hreg) as Hf. by apply Forall_app in Hf as [_ Hf]. }
  assert (bool_decide (u8_of_kind (public_input_kind (public_inputs p)) = 0) = false) as ->.
  { apply bool_decide_eq_false. unfold is_padding in Hpad. apply bool_decide_eq_false in Hpad.
    destruct (public_input_kind _); done. }
  rewrite andb_false_r. destruct (default _ first) as [fp fi]. rewrite (Hver fs Hfs). cbn [negb].
  rewrite Hrm. cbn [mbind option_bind]. by rewrite Hadd.
Qed.

Lemma padding_round x msgs root idx fp fi :
  api_utxo_kind x = 0 → verify_proof_with_type key fp fi key_hash = true →
  ∃ pub, agg_utxo_round key key_hash msgs (Some (fp, fi)) root idx x = Some (pub, root, idx).
Proof.
  intros Hk Hv. unfold agg_utxo_round. rewrite Hk. unfold take_messages. rewrite decide_False by lia.
  cbn [mbind option_bind default from_option id]. 
  rewrite (bool_decide_true (0 = 0)), Hv by done. eexists. reflexivity.
Qed.

(** ** The bundle of a transaction *)

Lemma converts_pair a b cs :
  converts [a; b] cs → ∃ ca cb, cs = [ca; cb] ∧ convert_merkle_paths (a, b) = Ok [ca; cb].
Proof.
  intros Hc. apply Forall2_cons_inv_l in Hc as (ca & cs' & Ha & Hc & ->). apply Forall2_cons_inv_l in Hc as (cb & ? & Hb & Hn%Forall2_nil_inv_l & ->).
  subst. exists ca, cb. split; [done|]. unfold convert_merkle_paths. cbn [fst snd]. by rewrite Ha; cbn; rewrite Hb.
Qed.
Lemma kind_canonical k : canonical (u8_of_kind k) = u8_of_kind k.
Proof. by destruct k. Qed.

Lemma real_bundle_input p fs ins outs cins couts :
  proof_fields (proof p) = Ok fs → converts ins cins → converts outs couts → length ins = 2%nat → length outs = 2%nat →
  ∃ b, bundle_new p (ins ++ outs) = Ok b ∧ utxo_proof b = p ∧
    agg_utxo_proof_input b = Ok (mk_agg_utxo_proof_input fs (u8_of_kind (public_input_kind (public_inputs p))) cins couts
             (canonical <$> inputs p) (canonical <$> outputs p)).
Proof.
  intros Hfs Hci Hco Hli Hlo. destruct ins as [|a [|b [|]]]; try done. destruct outs as [|c [|d [|]]]; try done.
  apply converts_pair in Hci as (ca & cb & -> & Hci). apply converts_pair in Hco as (cc & cd & -> & Hco).
  exists (mk_bundle p (a, b) (c, d)). split; [done|]. split; [done|]. unfold agg_utxo_proof_input.
  cbn [utxo_proof input_merkle_paths output_merkle_paths]. rewrite Hfs. cbn [outcome_bind]. rewrite Hci. cbn [outcome_bind].
  rewrite Hco. cbn [outcome_bind]. by rewrite kind_canonical.
Qed.
Lemma default_bundle_input : ∃ x, agg_utxo_proof_input bundle_default = Ok x ∧ api_utxo_kind x = 0 ∧
  utxo_hash x = commit_hash (public_inputs utxo_proof_default).
Proof.
  destruct default_fields as [fs Hfs]. destruct convert_default as [c Hc].
  unfold agg_utxo_proof_input. cbn [bundle_default utxo_proof input_merkle_paths output_merkle_paths utxo_proof_default proof].
  rewrite Nat.mul_comm, Hfs. cbn [outcome_bind]. unfold convert_merkle_paths. cbn [fst snd]. rewrite Hc. cbn [outcome_bind].
  eexists. split; [reflexivity|]. split; reflexivity.
Qed.

(** ** Three transactions *)

Definition first_ok (first : option (list Z * list Z)) (ps : list UtxoProof) : Prop :=
  match first with
  | Some (fp, fi) => verify_proof_with_type key fp fi key_hash = true
  | None => match ps with p :: _ => real p | [] => True end
  end.

Lemma default_after S : after S utxo_proof_default = S.
Proof. unfold after. cbn. set_solver. Qed.
Lemma zero_leaves t h :
  remove_inputs temp_noir t (inputs utxo_proof_default) = Ok (t, [merkle_path_default; merkle_path_default]) ∧
  insert_outputs temp_noir h t (outputs utxo_proof_default) = Ok (t, [merkle_path_default; merkle_path_default]).
Proof. done. Qed.

(** The prover's work on [ps] from [t] on, and the circuit's on what it makes. *)
Definition grouped h t ps first pre post : Prop :=
  ∃ t' mps bs xs, txns_paths temp_noir h t ps = Ok (t', mps) ∧ length mps = (4 * length ps)%nat ∧
    make_bundles ps mps = Ok bs ∧ utxo_proof <$> bs = ps ∧ agg_utxo_proof_inputs bs = Ok xs ∧
    good_tree t' ∧ elems t' = foldl after (elems t) ps ∧
    agg_utxo_rounds key key_hash (pre ++ (ps ≫= proof_messages) ++ post) first (root_hash t) (length pre) xs =
      Some (root_hash t', (length pre + length (ps ≫= proof_messages))%nat) ∧
    utxo_hash <$> xs = (λ p, commit_hash (public_inputs p)) <$> ps.

Lemma group_real h t t1 t2 p ps fs ins outs cins couts first pre post :
  Forall field_element (inputs p ++ outputs p) → real p → proof_fields (proof p) = Ok fs →
  remove_inputs temp_noir t (inputs p) = Ok (t1, ins) → insert_outputs temp_noir h t1 (outputs p) = Ok (t2, outs) →
  elems t2 = after (elems t) p → converts ins cins → converts outs couts → length ins = 2%nat → length outs = 2%nat →
  remove_commitments (root_hash t) (zip (canonical <$> inputs p) cins) = Some (root_hash t1) →
  add_commitments (root_hash t1) (zip (canonical <$> outputs p) couts) = Some (root_hash t2) →
  grouped h t2 ps (Some (default (fs, canonical <$> fields (public_inputs p)) first)) (pre ++ proof_messages p) post →
  grouped h t (p :: ps) first pre post.
Proof.
  intros Hf Hreal Hfs Hri Hio He2 Hci Hco Hli Hlo Hrm Hadd (t' & mps & bs & xs & Htp & Hlen & Hmb & Hbs & Hxs & Hg' & He' & Hrs & Hh).
  destruct (real_bundle_input p fs ins outs cins couts) as (b & Hb & Hbp & Hbi); [done..|].
  pose proof (λ post, real_round p fs cins couts pre post first _ _ _ Hreal Hfs Hrm Hadd) as Hround.
  eexists t', (ins ++ outs ++ mps), (b :: bs), (_ :: xs). cbn [txns_paths make_bundles agg_utxo_proof_inputs].
  rewrite Hri. cbn [outcome_bind]. rewrite Hio. cbn [outcome_bind]. rewrite Htp. cbn [outcome_bind].
  rewrite bind_cons, <-(app_assoc (proof_messages p)). split_and!.
  - done.
  - rewrite !length_app, Hlen, Hli, Hlo. cbn. lia.
  - destruct ins as [|i0 [|i1 [|]]]; try done. destruct outs as [|o0 [|o1 [|]]]; try done. cbn [app].
    rewrite (real_not_padding p Hreal). cbn [app] in Hb. rewrite Hb. cbn [outcome_bind]. by rewrite Hmb.
  - csimpl. by rewrite Hbs, Hbp.
  - rewrite Hbi. cbn [outcome_bind]. by rewrite Hxs.
  - done.
  - cbn. by rewrite He', He2.
  - cbn [agg_utxo_rounds]. rewrite Hround. cbn [mbind option_bind api_proof].
    rewrite <-app_assoc in Hrs. rewrite length_app in Hrs. rewrite Hrs, length_app. do 2 f_equal. lia.
  - csimpl. rewrite Hh. f_equal. unfold utxo_hash, commit_hash, commitments. cbn [api_input_commitments api_output_commitments].
    rewrite <-(hash_merge_canonical (inputs p ++ outputs p)); [by rewrite fmap_app|].
    eapply Forall_impl; [exact Hf|]. by apply field_wf.
Qed.

Lemma group_padding h t ps fp fi pre post :
  verify_proof_with_type key fp fi key_hash = true →
  grouped h t ps (Some (fp, fi)) pre post → grouped h t (utxo_proof_default :: ps) (Some (fp, fi)) pre post.
Proof.
  intros Hfirst (t' & mps & bs & xs & Htp & Hlen & Hmb & Hbs & Hxs & Hg' & He' & Hrs & Hh).
  destruct (zero_leaves t h) as [Hri Hio]. destruct default_bundle_input as (x & Hbi & Hk & Hhx).
  destruct (padding_round x (pre ++ (ps ≫= proof_messages) ++ post) (root_hash t) (length pre) fp fi Hk Hfirst) as [pub Hround].
  eexists t', _, (bundle_default :: bs), (x :: xs). cbn [txns_paths agg_utxo_proof_inputs].
  rewrite Hri. cbn [outcome_bind]. rewrite Hio. cbn [outcome_bind]. rewrite Htp. cbn [outcome_bind].
  assert ((utxo_proof_default :: ps) ≫= proof_messages = ps ≫= proof_messages) as -> by done.
  split_and!.
  - reflexivity.
  - cbn [app length]. rewrite Hlen. cbn. lia.
  - cbn [make_bundles app]. assert (is_padding utxo_proof_default = true) as -> by done. cbn [outcome_bind]. by rewrite Hmb.
  - csimpl. by rewrite Hbs.
  - rewrite Hbi. cbn [outcome_bind]. by rewrite Hxs.
  - done.
  - cbn [foldl]. by rewrite default_after.
  - cbn [agg_utxo_rounds]. rewrite Hround. cbn [mbind option_bind]. exact Hrs.
  - csimpl. by rewrite Hh, Hhx.
Qed.

Lemma group_ok h t ps first pre post :
  good_tree t → fits (elems t) ps → Forall real_or_padding ps → first_ok first ps → grouped h t ps first pre post.
Proof.
  revert t first pre. induction ps as [|p ps IH]; intros t first pre Hg Hfit Hrp Hfirst.
  { exists t, [], [], []. cbn. rewrite Nat.add_0_r. by split_and!. }
  apply Forall_cons in Hrp as [Hp Hrp]. pose proof (fits_step _ _ _ Hfit) as Hfit'. destruct Hp as [Hreal| ->].
  - destruct (txn_paths_ok temp_noir h t p ps Hg Hfit)
      as (t1 & t2 & ins & outs & cins & couts & Hri & Hio & Hg2 & He2 & Hci & Hco & Hli & Hlo & Hrm & Hadd).
    destruct (proof_fields_ok (proof p)) as [fs Hfs]; [apply Hreal|].
    pose proof (fit_fields _ _ Hfit) as Hf. apply Forall_cons in Hf as [Hf _].
    eapply group_real; [done..|]. apply IH; [done|by rewrite He2|done|].
    destruct first as [[fp fi]|]; [done|]. cbn. by apply (proj2 Hreal).
  - destruct first as [[fp fi]|]; [|by apply (real_not_padding _) in Hfirst].
    rewrite default_after in Hfit'. apply group_padding; [done|]. by apply IH.
Qed.

(** ** The proof of three transactions *)

Context `{!BarretenbergLaws}.

Lemma split_proof_ok {E} (ws : list Element) raw count :
  Forall wf_element ws → length ws = count → length raw = (508 * 32)%nat →
  split_proof (E := E) count ((ws ≫= to_be_bytes) ++ raw) = Ok (ws, raw).
Proof.
  intros Hw Hc Hr. assert (length (ws ≫= to_be_bytes) = (count * 32)%nat) as Hl.
  { rewrite <-Hc. clear. induction ws as [|w ws IH]; [done|]. rewrite bind_cons, length_app, to_be_bytes_length, IH. cbn. lia. }
  unfold split_proof. rewrite length_app, decide_False by lia.
  rewrite take_app_length', drop_app_length' by done. rewrite (bytes_of_elements ws Hw). cbn [no_error map_err outcome_bind].
  rewrite (decide_False (P := length ws ≠ count)) by (intros []; done). by rewrite decide_False by (intros []; done).
Qed.

Definition group_messages (ps : list UtxoProof) : list Element :=
  (ps ≫= proof_messages) ++ replicate (15 - length (ps ≫= proof_messages)) ZERO.
Definition group_public t t' (ps : list UtxoProof) : AggUtxoPublicInput :=
  mk_agg_utxo_public (group_messages ps) (root_hash t) (root_hash t')
    (hash_merge ((λ p, commit_hash (public_inputs p)) <$> ps)).
(** A proof of [pub] that verifies inside a circuit. *)
Definition proves_public (q : AggUtxoProof) (pub : AggUtxoPublicInput) : Prop :=
  aup_public q = pub ∧ ∃ fs, proof_fields (aup_proof q) = Ok fs ∧
    verify_proof_with_type AGG_UTXO_VERIFICATION_KEY fs
      (aup_messages pub ++ [aup_old_root pub; aup_new_root pub; aup_commit_hash pub]) AGG_UTXO_VERIFICATION_KEY_HASH = true.

Lemma messages_of_three ps :
  Forall real_or_padding ps → (length (ps ≫= proof_messages) ≤ 5 * length ps)%nat ∧ Forall field_element (ps ≫= proof_messages).
Proof.
  induction 1 as [|p ps Hp Hps [IHl IHf]]; [split; [cbn; lia|constructor]|]. rewrite bind_cons, length_app.
  assert (length (proof_messages p) ≤ 5 ∧ Forall field_element (proof_messages p))%nat as [Hl Hf].
  { destruct Hp as [[Hr _]| ->]; [by apply proof_messages_bound|].
    assert (proof_messages utxo_proof_default = []) as -> by done. cbn. split; [lia|constructor]. }
  split; [cbn; lia|]. by apply Forall_app.
Qed.
Lemma group_messages_ok ps :
  Forall real_or_padding ps → length ps = 3%nat → length (group_messages ps) = 15%nat ∧ Forall field_element (group_messages ps).
Proof.
  intros Hps Hl3. destruct (messages_of_three ps Hps) as [Hl Hf]. unfold group_messages. split.
  - rewrite length_app, length_replicate. lia.
  - apply Forall_app. split; [done|]. apply Forall_replicate, field_zero.
Qed.

(** The input made for the circuit. *)
Definition group_input t t' ps (xs : list AggUtxoProofInput) : AggUtxoInput :=
  mk_agg_utxo_input xs (group_messages ps) (root_hash t) (root_hash t')
    (hash_merge ((λ p, commit_hash (public_inputs p)) <$> ps)).
Lemma agg_utxo_input_ok t t' ps bs xs :
  Forall real_or_padding ps → length ps = 3%nat → utxo_proof <$> bs = ps → agg_utxo_proof_inputs bs = Ok xs →
  good_tree t → good_tree t' →
  agg_utxo_input (mk_agg_utxo bs (root_hash t) (root_hash t')) = Ok (group_input t t' ps xs).
Proof.
  intros Hrp Hl3 Hbs Hxs Hg Hg'. destruct (group_messages_ok ps Hrp Hl3) as [Hml Hmf].
  destruct (messages_of_three ps Hrp) as [Hlm _].
  unfold agg_utxo_input, agg_utxo_messages, agg_utxo_commit_hash. cbn [au_proofs au_old_root au_new_root]. rewrite Hxs, Hbs.
  cbn [outcome_bind]. pose proof (collect_messages_ok (E := Empty_set) [] ps (15 - length (ps ≫= proof_messages))) as Hcm.
  cbn [app length Nat.add] in Hcm. replace (length (ps ≫= proof_messages) + (15 - length (ps ≫= proof_messages)))%nat with 15%nat in Hcm by lia.
  rewrite Hcm. cbn [outcome_bind]. fold (group_messages ps). rewrite (canonical_fields (group_messages ps)) by done.
  rewrite !canonical_small by by apply root_field.
  assert ((λ b, commit_hash (public_inputs (utxo_proof b))) <$> bs = (λ p, commit_hash (public_inputs p)) <$> ps) as ->
    by by rewrite <-Hbs, <-list_fmap_compose.
  by rewrite canonical_hash.
Qed.

Lemma agg_utxo_prove_ok t t' ps bs xs :
  Forall real_or_padding ps → length ps = 3%nat → utxo_proof <$> bs = ps → agg_utxo_proof_inputs bs = Ok xs →
  good_tree t → good_tree t' →
  agg_utxo_rounds key key_hash (group_messages ps) None (root_hash t) 0 xs =
    Some (root_hash t', length (ps ≫= proof_messages)) →
  utxo_hash <$> xs = (λ p, commit_hash (public_inputs p)) <$> ps →
  ∃ q, agg_utxo_prove (mk_agg_utxo bs (root_hash t) (root_hash t')) = Ok q ∧ proves_public q (group_public t t' ps).
Proof.
  intros Hrp Hl3 Hbs Hxs Hg Hg' Hrs Hh. destruct (group_messages_ok ps Hrp Hl3) as [Hml Hmf].
  set (ch := hash_merge ((λ p, commit_hash (public_inputs p)) <$> ps)).
  set (x := mk_agg_utxo_input xs (group_messages ps) (root_hash t) (root_hash t') ch).
  pose proof (agg_utxo_input_ok t t' ps bs xs Hrp Hl3 Hbs Hxs Hg Hg' : _ = Ok x) as Hx.
  destruct (agg_utxo_proved x) as (raw & Hbb & Hraw & Hver).
  { unfold agg_utxo_circuit. rewrite bool_decide_true by apply utxo_key_hash. cbn [andb x aui_messages aui_old_root aui_new_root aui_commit_hash aui_proofs].
    rewrite Hrs. rewrite !bool_decide_true by (done || by rewrite Hh). rewrite !andb_true_r. apply forallb_forall.
    intros m Hm%list_elem_of_In. unfold group_messages in Hm. rewrite drop_app_length in Hm. apply elem_of_replicate in Hm as [-> _]. done. }
  destruct (proof_fields_ok raw Hraw) as [fs Hfs]. specialize (Hver fs Hfs).
  assert (Forall wf_element (agg_utxo_publics x) ∧ length (agg_utxo_publics x) = 18%nat) as [Hpw Hpl].
  { unfold agg_utxo_publics. cbn [x aui_messages aui_old_root aui_new_root aui_commit_hash]. split; [|by rewrite length_app, Hml].
    apply Forall_app. split; [by eapply Forall_impl; [exact Hmf|apply field_wf]|].
    repeat apply Forall_cons_2; [by apply field_wf, root_field..|apply hash_merge_bound|constructor]. }
  eexists. unfold agg_utxo_prove. rewrite Hx. cbn [no_error map_err outcome_bind]. rewrite Hbb. cbn [outcome_bind].
  rewrite (split_proof_ok _ raw 18) by done. cbn [outcome_bind]. split; [reflexivity|].
  unfold proves_public, group_public. cbn [aup_public aup_proof aup_messages aup_old_root aup_new_root aup_commit_hash].
  fold ch. split; [|by exists fs]. unfold nth_input, agg_utxo_publics. cbn [x aui_messages aui_old_root aui_new_root aui_commit_hash].
  rewrite take_app_length' by done. rewrite !lookup_app_r, Hml by (rewrite Hml; lia). done.
Qed.

Lemma aggregate_utxo_ok h t ps :
  good_tree t → fits (elems t) ps → Forall real_or_padding ps → first_ok None ps → length ps = 3%nat →
  ∃ t' q, aggregate_utxo temp_noir t ps h = Ok (t', q) ∧ good_tree t' ∧ elems t' = foldl after (elems t) ps ∧
    proves_public q (group_public t t' ps).
Proof.
  intros Hg Hfit Hrp Hfirst Hl3.
  destruct (group_ok h t ps None [] (replicate (15 - length (ps ≫= proof_messages)) ZERO) Hg Hfit Hrp Hfirst)
    as (t' & mps & bs & xs & Htp & Hlen & Hmb & Hbs & Hxs & Hg' & He' & Hrs & Hh).
  destruct (agg_utxo_prove_ok t t' ps bs xs) as (q & Hq & Hpq); [done..|].
  exists t', q. split_and!; [|done..]. unfold aggregate_utxo.
  assert (forallb is_padding ps = false) as ->.
  { destruct ps as [|p ps']; [done|]. cbn. by rewrite (real_not_padding p Hfirst). }
  unfold gen_merkle_paths. rewrite Htp. cbn [outcome_bind]. rewrite decide_True by (rewrite Hlen, Hl3; done). cbn [outcome_bind].
  rewrite Hmb. cbn [outcome_bind]. rewrite decide_True by (rewrite <-(length_fmap utxo_proof bs), Hbs, Hl3; done).
  by rewrite Hq.
Qed.

(** ** The proof of a block *)

Record wf_public (pub : AggUtxoPublicInput) : Prop := {
  wp_length : length (aup_messages pub) = 15%nat;
  wp_fields : Forall field_element (aup_messages pub ++ [aup_old_root pub; aup_new_root pub; aup_commit_hash pub]);
}.
Lemma group_public_wf t t' ps :
  good_tree t → good_tree t' → Forall real_or_padding ps → length ps = 3%nat → wf_public (group_public t t' ps).
Proof.
  intros Hg Hg' Hrp Hl. destruct (group_messages_ok ps Hrp Hl) as [Hml Hmf]. split; [done|]. cbn [group_public aup_messages aup_old_root aup_new_root aup_commit_hash].
  apply Forall_app. split; [done|]. repeat apply Forall_cons_2; [by apply root_field..|apply hash_merge_bound|constructor].
Qed.
Lemma default_public_wf : wf_public agg_utxo_public_default.
Proof. split; [done|]. cbn. repeat apply Forall_cons_2; try apply field_zero. constructor. Qed.

Definition agg_input (q1 q2 : AggUtxoProof) fs1 fs2 : AggAggInput :=
  let pub1 := aup_public q1 in let pub2 := aup_public q2 in
  let a := mk_agg_agg [q1; q2] in
  mk_agg_agg_input
    [mk_utxo_agg_proof fs1 (aup_old_root pub1) (aup_new_root pub1) (aup_commit_hash pub1);
     mk_utxo_agg_proof fs2 (aup_old_root pub2) (aup_new_root pub2) (aup_commit_hash pub2)]
    (aup_messages pub1 ++ aup_messages pub2) (agg_agg_old_root a) (agg_agg_new_root a) (agg_agg_commit_hash a).

Lemma utxo_agg_proof_ok q fs :
  proof_fields (aup_proof q) = Ok fs → wf_public (aup_public q) →
  utxo_agg_proof q = Ok (mk_utxo_agg_proof fs (aup_old_root (aup_public q)) (aup_new_root (aup_public q)) (aup_commit_hash (aup_public q))).
Proof.
  intros Hfs [_ [_ Hf]%Forall_app]. unfold utxo_agg_proof. rewrite Hfs. cbn [outcome_bind].
  rewrite !Forall_cons in Hf. destruct Hf as (? & ? & ? & _). by rewrite !canonical_small.
Qed.
Lemma agg_agg_input_ok q1 q2 fs1 fs2 :
  proof_fields (aup_proof q1) = Ok fs1 → proof_fields (aup_proof q2) = Ok fs2 →
  wf_public (aup_public q1) → wf_public (aup_public q2) →
  agg_agg_input (mk_agg_agg [q1; q2]) = Ok (agg_input q1 q2 fs1 fs2) ∧
  length (agg_agg_publics (agg_input q1 q2 fs1 fs2)) = 33%nat ∧
  Forall field_element (agg_agg_publics (agg_input q1 q2 fs1 fs2)).
Proof.
  intros Hf1 Hf2 Hw1 Hw2. unfold agg_agg_input. cbn [aa_proofs].
  rewrite (utxo_agg_proof_ok q1 fs1), (utxo_agg_proof_ok q2 fs2) by done. cbn [outcome_bind].
  destruct Hw1 as [Hl1 [Hm1 Hr1]%Forall_app], Hw2 as [Hl2 [Hm2 Hr2]%Forall_app].
  rewrite !Forall_cons in Hr1, Hr2. destruct Hr1 as (Ho1 & Hn1 & Hc1 & _), Hr2 as (Ho2 & Hn2 & Hc2 & _).
  unfold extract_messages. rewrite (bind_cons _ q1), (bind_cons _ q2), app_nil_r.
  rewrite (canonical_fields (_ ++ _)) by by apply Forall_app.
  rewrite decide_True by (rewrite length_app, Hl1, Hl2; done). cbn [outcome_bind].
  assert (field_element (agg_agg_new_root (mk_agg_agg [q1; q2]))) as Hn.
  { unfold agg_agg_new_root, second_proof, first_proof. cbn. by destruct (agg_utxo_public_is_padding _). }
  split_and!.
  - unfold agg_input. do 2 f_equal; [by apply canonical_small|by apply canonical_small|by apply canonical_hash].
  - cbn [agg_agg_publics agg_input aai_messages app length]. rewrite length_app, Hl1, Hl2. done.
  - cbn [agg_agg_publics agg_input aai_messages aai_old_root aai_new_root aai_commit_hash app].
    repeat apply Forall_cons_2; [done|done|apply hash_merge_bound|]. by apply Forall_app.
Qed.

(** A second proof is either a padding or continues where the first ends. *)
Definition continues (q1 q2 : AggUtxoProof) : Prop :=
  q2 = agg_utxo_proof_default ∨
  proves_public q2 (aup_public q2) ∧ aup_old_root (aup_public q2) = aup_new_root (aup_public q1) ∧ aup_old_root (aup_public q2) ≠ 0.

Lemma agg_agg_real_round k kh msgs first i root (p : UtxoAggProof) :
  uap_old_root p ≠ 0 →
  verify_proof_with_type k (uap_proof p) (take 15 (drop (15 * i) msgs) ++ [uap_old_root p; uap_new_root p; uap_commit_hash p]) kh = true →
  uap_old_root p = root →
  agg_agg_round k kh msgs first i root p =
    Some (take 15 (drop (15 * i) msgs) ++ [uap_old_root p; uap_new_root p; uap_commit_hash p], uap_new_root p).
Proof.
  intros Hnz Hv Hr. unfold agg_agg_round. destruct (default _ first) as [fp fi].
  rewrite (bool_decide_true (uap_old_root p ≠ 0)), Hv by done. cbn [negb]. by rewrite decide_True.
Qed.
Lemma agg_agg_padding_round k kh msgs fp fi i root (p : UtxoAggProof) :
  uap_old_root p = 0 → verify_proof_with_type k fp fi kh = true →
  agg_agg_round k kh msgs (Some (fp, fi)) i root p =
    Some (take 15 (drop (15 * i) msgs) ++ [uap_old_root p; uap_new_root p; uap_commit_hash p], root).
Proof.
  intros Hz Hv. unfold agg_agg_round. cbn [from_option id].
  rewrite !(bool_decide_false (uap_old_root p ≠ 0)) by (intros []; done). by rewrite Hv.
Qed.

Lemma agg_agg_circuit_ok q1 q2 fs1 fs2 :
  proof_fields (aup_proof q1) = Ok fs1 → proof_fields (aup_proof q2) = Ok fs2 →
  wf_public (aup_public q1) → wf_public (aup_public q2) →
  proves_public q1 (aup_public q1) → aup_old_root (aup_public q1) ≠ 0 → continues q1 q2 →
  agg_agg_circuit AGG_UTXO_VERIFICATION_KEY AGG_UTXO_VERIFICATION_KEY_HASH (agg_input q1 q2 fs1 fs2) = true.
Proof.
  intros Hf1 Hf2 [Hl1 _] [Hl2 _] (_ & fs1' & Hf1' & Hv1) Hnz Hc. rewrite Hf1 in Hf1'. injection Hf1' as <-.
  unfold agg_agg_circuit. rewrite bool_decide_true by apply agg_utxo_key_hash.
  cbn [andb agg_input aai_proofs aai_messages aai_old_root aai_new_root aai_commit_hash].
  rewrite agg_agg_real_round; cbn [uap_proof uap_old_root uap_new_root uap_commit_hash]; [|done|by rewrite drop_0, take_app_length'|done].
  rewrite drop_0, take_app_length' by done. destruct Hc as [->|((_ & fs2' & Hf2' & Hv2) & Heq & Hnz2)].
  - rewrite agg_agg_padding_round; [|done|exact Hv1]. by rewrite !bool_decide_true by done.
  - rewrite Hf2 in Hf2'. injection Hf2' as <-.
    assert (take 15 (drop (15 * 1) (aup_messages (aup_public q1) ++ aup_messages (aup_public q2))) = aup_messages (aup_public q2)) as Ht.
    { rewrite drop_app_length' by (rewrite Hl1; done). by rewrite take_ge by (rewrite Hl2; done). }
    rewrite agg_agg_real_round; cbn [uap_proof uap_old_root uap_new_root uap_commit_hash]; [|done|by rewrite Ht|done].
    rewrite !bool_decide_true; [done| |done]. unfold agg_agg_new_root, agg_utxo_public_is_padding, second_proof. cbn.
    by rewrite bool_decide_false by done.
Qed.

Lemma agg_agg_prove_ok q1 q2 :
  wf_public (aup_public q1) → wf_public (aup_public q2) →
  proves_public q1 (aup_public q1) → aup_old_root (aup_public q1) ≠ 0 → continues q1 q2 →
  ∃ r : AggAggProof, agg_agg_prove (mk_agg_agg [q1; q2]) = Ok r ∧ aap_public r = agg_agg_public_inputs (mk_agg_agg [q1; q2]).
Proof.
  intros Hw1 Hw2 Hp1 Hnz Hc. pose proof Hp1 as (_ & fs1 & Hf1 & _).
  assert (∃ fs2, proof_fields (aup_proof q2) = Ok fs2) as [fs2 Hf2].
  { destruct Hc as [->|[(_ & fs2 & ? & _) _]]; [apply default_fields|eauto]. }
  destruct (agg_agg_input_ok q1 q2 fs1 fs2 Hf1 Hf2 Hw1 Hw2) as (Hi & Hl & Hf).
  pose proof (agg_agg_circuit_ok q1 q2 fs1 fs2 Hf1 Hf2 Hw1 Hw2 Hp1 Hnz Hc) as Hcirc.
  destruct (agg_agg_proved _ Hcirc) as (raw & Hbb & Hraw). eexists. unfold agg_agg_prove. rewrite Hi.
  cbn [no_error map_err outcome_bind]. rewrite Hbb. cbn [outcome_bind].
  rewrite (split_proof_ok _ raw 33) by (done || by eapply Forall_impl; [exact Hf|apply field_wf]). cbn [outcome_bind].
  split; [reflexivity|]. cbn [aap_public]. unfold agg_agg_public_inputs, agg_agg_messages, nth_input.
  cbn [agg_agg_publics agg_input aai_messages aai_old_root aai_new_root aai_commit_hash app aa_proofs].
  rewrite (bind_cons _ q1), (bind_cons _ q2), app_nil_r. cbn [lookup list_lookup default from_option id drop]. f_equal.
  apply take_ge. rewrite length_app, (wp_length _ Hw1), (wp_length _ Hw2). done.
Qed.

(** ** Two groups *)

Lemma fits_app S ps qs : fits S (ps ++ qs) → fits S ps ∧ fits (foldl after S ps) qs.
Proof.
  intros Hf. split.
  - destruct Hf as [Hf Hn Ho Hi Ha]. rewrite (bind_app txn_outs), (bind_app txn_ins) in Hn.
    rewrite (bind_app txn_outs) in Ho, Ha. rewrite (bind_app txn_ins) in Hi. apply Forall_app in Hf as [Hf _].
    apply NoDup_app in Hn as (Hno & Hx & Hni). apply NoDup_app in Hno as (Hno & _ & _). apply NoDup_app in Hni as (Hni & _ & _).
    split; [done| | | |].
    + apply NoDup_app. split_and!; [done| |done]. intros e He He'. apply (Hx e); apply elem_of_app; by left.
    + intros e He. apply Ho, elem_of_app. by left.
    + intros e He. apply Hi, elem_of_app. by left.
    + eapply slots_apart_mono; [|exact Ha]. clear. set_solver.
  - revert S Hf. induction ps as [|p ps IH]; intros S Hf; [done|]. cbn. by apply IH, fits_step.
Qed.
Lemma spec_of_tree t : good_tree t → root_hash t = spec_root D (elems t).
Proof. intros Hg. exact (root_hash_spec D t (gt_wf t Hg)). Qed.

Definition paddings : list UtxoProof := replicate 3 utxo_proof_default.
Lemma paddings_after S : foldl after S paddings = S.
Proof. unfold paddings. cbn [replicate foldl]. by rewrite !default_after. Qed.

Lemma generate_ok h t txns ps qs :
  default utxo_proof_default <$> txns = ps ++ qs → length ps = 3%nat → length qs = 3%nat →
  good_tree t → fits (elems t) (ps ++ qs) → Forall real_or_padding (ps ++ qs) → first_ok None ps →
  (qs = paddings ∨ first_ok None qs ∧ spec_root D (foldl after (elems t) ps) ≠ 0) → root_hash t ≠ 0 →
  ∃ t' r, generate_aggregate_proof temp_noir t txns h = Ok (t', r) ∧ good_tree t' ∧
    elems t' = foldl after (elems t) (ps ++ qs) ∧ aap_old_root (aap_public r) = root_hash t ∧
    aap_new_root (aap_public r) = root_hash t' ∧ aap_messages (aap_public r) = group_messages ps ++ group_messages qs.
Proof.
  intros Htx Hlp Hlq Hg Hfit [Hrp Hrq]%Forall_app Hfp Hfq Hnz. destruct (fits_app _ _ _ Hfit) as [Hfitp Hfitq].
  destruct (aggregate_utxo_ok h t ps Hg Hfitp Hrp Hfp Hlp) as (t1 & q1 & Hq1 & Hg1 & He1 & Hp1).
  rewrite <-He1 in Hfitq, Hfq. rewrite <-spec_of_tree in Hfq by done. pose proof Hp1 as [Hpub1 _].
  assert (∃ t2 q2, aggregate_utxo temp_noir t1 qs h = Ok (t2, q2) ∧ good_tree t2 ∧ elems t2 = foldl after (elems t1) qs ∧
    wf_public (aup_public q2) ∧ continues q1 q2 ∧ aup_messages (aup_public q2) = group_messages qs ∧
    agg_agg_new_root (mk_agg_agg [q1; q2]) = root_hash t2) as (t2 & q2 & Hq2 & Hg2 & He2 & Hw2 & Hc & Hm2 & Hnr).
  { destruct Hfq as [->|[Hfq Hnz']].
    - exists t1, agg_utxo_proof_default. split_and!; [reflexivity|done|by rewrite paddings_after|apply default_public_wf|by left|reflexivity|].
      unfold agg_agg_new_root, first_proof. cbn. by rewrite Hpub1.
    - destruct (aggregate_utxo_ok h t1 qs Hg1 Hfitq Hrq Hfq Hlq) as (t2 & q2 & Hq2 & Hg2 & He2 & Hp2).
      pose proof Hp2 as [Hpub2 _]. exists t2, q2. rewrite Hpub2. split_and!; [done|done|done|by apply group_public_wf| |done|].
      + right. rewrite Hpub2, Hpub1. by split_and!.
      + unfold agg_agg_new_root, agg_utxo_public_is_padding, second_proof. cbn. rewrite Hpub2. cbn.
        by rewrite bool_decide_false by done. }
  rewrite <-Hpub1 in Hp1.
  destruct (agg_agg_prove_ok q1 q2) as (r & Hr & Hpr); [by rewrite Hpub1; apply group_public_wf|done|done|by rewrite Hpub1|done|].
  exists t2, r. rewrite foldl_app, <-He1. split_and!; [|done|done|..].
  - unfold generate_aggregate_proof, UTXO_AGGREGATIONS. rewrite Htx. cbn [aggregate_all].
    rewrite take_app_length' by done. rewrite decide_True by done. rewrite Hq1. cbn [outcome_bind].
    rewrite drop_app_length' by done. rewrite take_ge by (rewrite Hlq; done). rewrite decide_True by done. rewrite Hq2. cbn [outcome_bind].
    rewrite decide_True by done. by rewrite Hr.
  - rewrite Hpr. cbn. unfold agg_agg_old_root, first_proof. cbn. by rewrite Hpub1.
  - by rewrite Hpr.
  - rewrite Hpr. cbn [agg_agg_public_inputs aap_messages]. unfold agg_agg_messages. cbn [aa_proofs].
    rewrite (bind_cons _ q1), (bind_cons _ q2), app_nil_r, Hpub1, Hm2. done.
Qed.
End groups.

(** * A validated block is proved *)

Section blocks.
Context `{FieldLaws, CryptoLib, !Barretenberg, !BarretenbergLaws} (temp_noir : bool).
Notation elems p := (dom (tree_entries (p_tree p))).

Lemma foldl_after S ps :
  fits S ps → foldl after S ps = (list_to_set (ps ≫= txn_outs) ∪ S) ∖ list_to_set (ps ≫= txn_ins).
Proof.
  revert S. induction ps as [|p ps IH]; intros S Hf; [cbn; set_solver|]. cbn [foldl].
  rewrite (IH _ (fits_step _ _ _ Hf)). destruct Hf as [_ Hn _ _ _].
  rewrite (bind_cons txn_outs), (bind_cons txn_ins) in Hn. rewrite (bind_cons txn_outs), (bind_cons txn_ins), !list_to_set_app_L.
  apply NoDup_app in Hn as (_ & Hx & _). unfold after. apply set_eq. intros e. specialize (Hx e). rewrite !elem_of_app in Hx.
  rewrite !elem_of_difference, !elem_of_union, !elem_of_difference, !elem_of_list_to_set.
  destruct (decide (e ∈ txn_outs p)), (decide (e ∈ txn_ins p)); naive_solver.
Qed.
Lemma after_padding S ps k : foldl after S (ps ++ replicate k utxo_proof_default) = foldl after S ps.
Proof.
  rewrite foldl_app. generalize (foldl after S ps). intros S'. induction k as [|k IH]; [done|].
  rewrite replicate_S. cbn [foldl]. by rewrite default_after.
Qed.

Lemma padded_split ps :
  (1 ≤ length ps ≤ 6)%nat → Forall real ps →
  ∃ l qs1 qs2, padded_txns ps = Ok l ∧ default utxo_proof_default <$> l = qs1 ++ qs2 ∧
    length qs1 = 3%nat ∧ length qs2 = 3%nat ∧ qs1 ++ qs2 = ps ++ replicate (6 - length ps) utxo_proof_default ∧
    Forall real_or_padding (qs1 ++ qs2) ∧ first_ok None qs1 ∧ (qs2 = paddings ∨ first_ok None qs2 ∧ (3 < length ps)%nat).
Proof.
  intros Hl Hr. set (all := ps ++ replicate (6 - length ps) utxo_proof_default).
  assert (length all = 6%nat) as Hla by (unfold all; rewrite length_app, length_replicate; lia).
  eexists _, (take 3 all), (drop 3 all). split_and!.
  - unfold padded_txns. rewrite decide_True; [reflexivity|]. rewrite length_app, length_fmap, length_replicate. cbn. lia.
  - rewrite take_drop, fmap_app, <-list_fmap_compose, fmap_replicate. unfold all. cbn. by rewrite list_fmap_id.
  - rewrite length_take. lia.
  - rewrite length_drop. lia.
  - by rewrite take_drop.
  - rewrite take_drop. apply Forall_app. split; [eapply Forall_impl; [exact Hr|by left]|]. apply Forall_replicate. by right.
  - destruct ps as [|p ps]; [cbn in Hl; lia|]. by apply Forall_cons in Hr as [? _].
  - unfold all. destruct (decide (length ps ≤ 3)%nat) as [Hle|Hgt].
    + left. rewrite drop_app, drop_ge by done. cbn [app]. rewrite drop_replicate. unfold paddings. f_equal. lia.
    + right. split; [|lia]. rewrite drop_app_le by lia. destruct (drop 3 ps) as [|q qs] eqn:Hd.
      * apply (f_equal length) in Hd. rewrite length_drop in Hd. cbn in Hd. lia.
      * apply (Forall_drop _ 3) in Hr. rewrite Hd in Hr. by apply Forall_cons in Hr as [? _].
Qed.

Lemma validated_fits p st :
  changes_fit p (block_outs st) (block_ins st) → Forall regular (state_txns st) → fits (elems p) (state_txns st).
Proof.
  unfold block_outs, block_ins. rewrite !non_zero_bind. intros [Hn Hz Hi Hr Hs] Hreg. split; try done.
  eapply Forall_impl; [exact Hreg|]. intros t [_ Hf _]. unfold fields in Hf. by apply Forall_app in Hf as [Hf _].
Qed.
Lemma fits_padding S ps k : fits S ps → fits S (ps ++ replicate k utxo_proof_default).
Proof.
  assert (replicate k utxo_proof_default ≫= txn_outs = [] ∧ replicate k utxo_proof_default ≫= txn_ins = []) as [Ho Hi].
  { induction k as [|k [IH1 IH2]]; [done|]. rewrite replicate_S, (bind_cons txn_outs), (bind_cons txn_ins), IH1, IH2. done. }
  intros [Hf Hn Hout Hin Ha]. split; rewrite ?(bind_app txn_outs), ?(bind_app txn_ins), ?Ho, ?Hi, ?app_nil_r; try done.
  apply Forall_app. split; [done|]. apply Forall_replicate. cbn. repeat apply Forall_cons_2; try apply field_zero. constructor.
Qed.

(** The messages of a block as the contract reads them: those of the first
    three transactions and those of the next three, each in fifteen places. *)
Definition block_messages (ps : list UtxoProof) : list Element :=
  group_messages (take 3 ps) ++ group_messages (drop 3 ps).
Lemma group_messages_padding ps k : group_messages (ps ++ replicate k utxo_proof_default) = group_messages ps.
Proof.
  unfold group_messages. rewrite bind_app.
  assert (replicate k utxo_proof_default ≫= proof_messages = []) as -> by (by induction k). by rewrite app_nil_r.
Qed.

(** Transactions that fit the tree and verify are proved. *)
Lemma block_is_proved t ps h :
  good_tree t → fits (dom (tree_entries t)) ps → Forall real ps → (1 ≤ length ps ≤ 6)%nat → root_hash t ≠ 0 →
  ((3 < length ps)%nat → spec_root D (foldl after (dom (tree_entries t)) (take 3 ps)) ≠ 0) →
  ∃ l r, padded_txns ps = Ok l ∧ prove_block temp_noir t h l = Ok r ∧
    aap_old_root (aap_public r) = root_hash t ∧
    aap_new_root (aap_public r) = spec_root D (foldl after (dom (tree_entries t)) ps) ∧
    aap_messages (aap_public r) = block_messages ps.
Proof.
  intros Hg Hfits Hreal Hlen Hnz Hnz'.
  destruct (padded_split ps Hlen Hreal) as (l & qs1 & qs2 & Hl & Hdef & Hl1 & Hl2 & Hall & Hrp & Hf1 & Hf2).
  assert (qs1 = take 3 ps ++ replicate (3 - length ps) utxo_proof_default ∧ qs2 = drop 3 ps ++ replicate (6 - (3 `max` length ps)) utxo_proof_default) as [Hq1 Hq2].
  { split; [transitivity (take 3 (qs1 ++ qs2)); [by rewrite take_app_length'|]|transitivity (drop 3 (qs1 ++ qs2)); [by rewrite drop_app_length'|]];
      rewrite Hall, ?take_app, ?drop_app, ?take_replicate, ?drop_replicate; do 2 f_equal; lia. }
  destruct (generate_ok temp_noir h t l qs1 qs2) as (t' & r & Hgen & Hgt & He & Hor & Hnr & Hms); try done.
  { rewrite Hall. by apply fits_padding. }
  { destruct Hf2 as [?|[? ?]]; [by left|right]. rewrite Hq1, after_padding. auto. }
  exists l, r. split_and!; [done|unfold prove_block; by rewrite Hgen|done| |].
  - by rewrite Hnr, (spec_of_tree t' Hgt), He, Hall, after_padding.
  - by rewrite Hms, Hq1, Hq2, !group_messages_padding.
Qed.

Context (proof_verify : UtxoProof → bool).

(** C7: A block of one to six transactions that a node accepts can be proved: the
    worker's array is made without a panic, every removal and insertion succeeds,
    both circuits are satisfied, and the proof leads from the root of the notes
    tree to the root the block states, with the messages of its mints and burns.
    The transactions carry the messages clients write, and the proofs the node
    verifies verify inside the circuit. *)
Theorem validated_block_is_proved store p p1 c h :
  let ps := state_txns (state c) in
  wf_persistent D p → (∀ e, e ∈ elems p → wf_element e) → collision_free p (state c) →
  content_validate proof_verify c store p = (p1, Ok tt) →
  Forall regular ps → (1 ≤ length ps ≤ 6)%nat →
  (∀ t, t ∈ ps → proof_verify t = true → verified t) →
  root_hash (p_tree p) ≠ 0 → ((3 < length ps)%nat → spec_root D (foldl after (elems p) (take 3 ps)) ≠ 0) →
  ∃ l r, padded_txns ps = Ok l ∧ prove_block temp_noir (p_tree p) h l = Ok r ∧
    aap_old_root (aap_public r) = root_hash (p_tree p) ∧ aap_new_root (aap_public r) = root (state c) ∧
    aap_messages (aap_public r) = block_messages ps.
Proof.
  intros ps Hwf Hel Hcf Hv Hreg Hlen Hrec Hnz Hnz'.
  destruct (content_validate_ok proof_verify temp_noir store p c p1 Hwf Hcf Hv) as (_ & _ & _ & Hfit & Hroot).
  pose proof (validated_txns proof_verify store p c p1 Hv) as Hval. fold ps in Hval.
  assert (Forall real ps) as Hreal.
  { rewrite Forall_forall in Hval, Hreg. apply Forall_forall. intros t Ht. split; [by apply Hreg|]. apply Hrec, (Hval t Ht); done. }
  pose proof (validated_fits p (state c) Hfit Hreg) as Hfits. fold ps in Hfits.
  assert (good_tree (p_tree p)) as Hg by (by split; [apply Hwf|]).
  destruct (block_is_proved (p_tree p) ps h Hg Hfits Hreal Hlen Hnz Hnz') as (l & r & Hl & Hp & Ho & Hn & Hm).
  exists l, r. split_and!; [done..| |done]. rewrite Hn, Hroot, (foldl_after _ _ Hfits).
  unfold elems_after, block_outs, block_ins. by rewrite !non_zero_bind.
Qed.
End blocks.
