(* ===== verification/AggregateGaps.v ===== *)
(** What the circuits of aggregation leave open, and which accepted blocks cannot
    be proved. *)
From S2P Require Import Prelude Element MerkleHash HashCache SmirkBatch SmirkTree SmirkPath.
From S2P Require Import SmirkStorage BlockStore Crypto Utxo NodeBlock SignedElement Circuit.
From S2P Require Import Aggregate AggregateSpec AggregateProps.

(** * What the circuits leave open *)

Section gaps.
Context `{FieldLaws, !Barretenberg}.

Definition with_agg_messages (x : AggAggInput) (ms : list Z) : AggAggInput :=
  mk_agg_agg_input (aai_proofs x) ms (aai_old_root x) (aai_new_root x) (aai_commit_hash x).

(** The circuit of a block does not look at the last fifteen messages when its
    second proof is a padding: whoever proves a block of up to three transactions
    may put any messages there, such as burns that pay out, and the proof is as
    valid as the honest one. *)
Theorem padding_messages_are_free key key_hash x p0 p1 ms rest rest' :
  agg_agg_circuit key key_hash x = true → aai_proofs x = [p0; p1] → uap_old_root p1 = 0 →
  aai_messages x = ms ++ rest → length ms = 15%nat →
  agg_agg_circuit key key_hash (with_agg_messages x (ms ++ rest')) = true.
Proof.
  intros Hc Hp Hz Hm Hl. unfold agg_agg_circuit in *. cbn [with_agg_messages aai_proofs aai_messages aai_old_root aai_new_root aai_commit_hash].
  rewrite Hp, Hm in Hc. rewrite Hp. destruct (bool_decide (key_hash = _)); [|done]. cbn [andb] in *.
  assert (∀ r, agg_agg_round key key_hash (ms ++ r) None 0 (aai_old_root x) p0 = agg_agg_round key key_hash ms None 0 (aai_old_root x) p0) as Hr.
  { intros r. unfold agg_agg_round. rewrite Nat.mul_0_r, !drop_0. rewrite take_app_length' by done. by rewrite take_ge by (rewrite Hl; done). }
  rewrite Hr in Hc. rewrite Hr. destruct (agg_agg_round _ _ _ None _ _ _) as [[i0 root]|] eqn:E; [|done].
  clear E Hr. unfold agg_agg_round in *. cbn [from_option id] in *. rewrite !(bool_decide_false (uap_old_root p1 ≠ 0)) in * by (intros []; done).
  by destruct (verify_proof_with_type key (uap_proof p0) i0 key_hash).
Qed.

(** ** Messages of a transfer *)

Definition with_utxo_messages (x : UtxoInput) (ms : list Z) : UtxoInput :=
  mk_utxo_input (ui_inputs x) (ui_outputs x) (ui_pmessage4 x) (ui_commitments x) ms.
Lemma send_messages_free x a b c d a' v h d' :
  utxo_circuit x = true → ui_messages x = [1; a; b; c; d] → v < 2 ^ 240 →
  utxo_circuit (with_utxo_messages x [1; a'; v; h; d']) = true.
Proof.
  unfold utxo_circuit. intros Hx Hm Hv. cbn [with_utxo_messages ui_inputs ui_outputs ui_commitments ui_messages ui_pmessage4].
  rewrite Hm in Hx. destruct (ui_inputs x) as [i0 i1], (ui_outputs x) as [o0 o1].
  destruct (ui_commitments x) as [|c0 [|c1 [|c2 [|c3 [|]]]]]; try done.
  assert (max_bits 240 v = true) as -> by by apply bool_decide_eq_true.
  destruct (max_bits 240 b); [done|]. by rewrite !andb_false_r in Hx.
Qed.

Lemma mint_message_free x a b c d d' :
  utxo_circuit x = true → ui_messages x = [2; a; b; c; d] →
  utxo_circuit (with_utxo_messages x [2; a; b; c; d']) = true.
Proof.
  unfold utxo_circuit. intros Hx Hm. cbn [with_utxo_messages ui_inputs ui_outputs ui_commitments ui_messages ui_pmessage4].
  by rewrite Hm in Hx.
Qed.

Lemma rounds_verify key key_hash ms first root idx xs r x :
  agg_utxo_rounds key key_hash ms first root idx xs = Some r → x ∈ xs → api_utxo_kind x ≠ 0 →
  ∃ i msgs j, take_messages ms i (api_utxo_kind x) = Some (msgs, j) ∧
    verify_proof_with_type key (api_proof x) (api_input_commitments x ++ api_output_commitments x ++ api_utxo_kind x :: msgs) key_hash = true.
Proof.
  revert first root idx. induction xs as [|y xs IH]; intros first root idx Hr Hin Hk; [by apply elem_of_nil in Hin|].
  cbn [agg_utxo_rounds] in Hr. destruct (agg_utxo_round _ _ _ _ _ _ _) as [[[pub root'] idx']|] eqn:E; [|done].
  apply elem_of_cons in Hin as [<-|Hin]; [|by eapply IH]. unfold agg_utxo_round in E.
  destruct (take_messages _ _ _) as [[msgs j]|] eqn:Ht; [|done]. cbn [mbind option_bind] in E. exists idx, msgs, j. split; [done|].
  rewrite !(bool_decide_false (api_utxo_kind x = 0)) in E by done. rewrite andb_false_r in E.
  destruct (default _ first) as [fp fi]. by destruct (verify_proof_with_type _ _ _ _).
Qed.

(** ** From a transaction to its round *)

Lemma proof_inputs_in bs xs b :
  agg_utxo_proof_inputs bs = Ok xs → b ∈ bs → ∃ x, x ∈ xs ∧ agg_utxo_proof_input b = Ok x.
Proof.
  revert xs. induction bs as [|b' bs IH]; intros xs Hxs Hin; [by apply elem_of_nil in Hin|]. cbn in Hxs.
  destruct (agg_utxo_proof_input b') as [x|?|?] eqn:E; [|done..]. destruct (agg_utxo_proof_inputs bs) as [ys|?|?]; [|done..].
  injection Hxs as <-. apply elem_of_cons in Hin as [->|Hin].
  - exists x. split; [apply list_elem_of_here|done].
  - destruct (IH ys eq_refl Hin) as (y & Hy & He). exists y. split; [by apply list_elem_of_further|done].
Qed.
Lemma bundles_in ps mps bs t :
  make_bundles ps mps = Ok bs → length bs = length ps → t ∈ ps → is_padding t = false → ∃ b, b ∈ bs ∧ utxo_proof b = t.
Proof.
  revert mps bs. induction ps as [|p ps IH]; intros mps bs Hb Hl Hin Hp; [by apply elem_of_nil in Hin|].
  destruct mps as [|p0 [|p1 [|p2 [|p3 mps]]]]; cbn [make_bundles] in Hb; [by simplify_eq/=|..|].
  4: { destruct (if is_padding p then _ else _) as [b|?|?] eqn:E; [|done..]. cbn [outcome_bind] in Hb.
    destruct (make_bundles ps mps) as [bs'|?|?] eqn:Em; [|done..]. injection Hb as <-. apply elem_of_cons in Hin as [<-|Hin].
    - exists b. split; [apply list_elem_of_here|]. rewrite Hp in E. cbn in E. by injection E as <-.
    - destruct (IH mps bs' Em) as (b' & Hb' & He); [by injection Hl|done|done|]. exists b'. split; [by apply list_elem_of_further|done]. }
  all: destruct (is_padding p) eqn:E; [|done]; injection Hb as <-; cbn in Hl; destruct ps; [|done];
    apply list_elem_of_singleton in Hin as ->; congruence.
Qed.

Context `{!BarretenbergLaws} (temp_noir : bool).

(** A proof that does not verify against other public inputs than its own. *)
Definition binds (t : UtxoProof) : Prop :=
  ∀ fs pub, proof_fields (proof t) = Ok fs → pub ≠ canonical <$> fields (public_inputs t) →
    verify_proof_with_type UTXO_VERIFICATION_KEY fs pub UTXO_VERIFICATION_KEY_HASH = false.
(** A transfer with a message beside its kind, a mint with a fifth one. *)
Definition stray (t : UtxoProof) : Prop :=
  ∃ k a b c d, messages (public_inputs t) = [k; a; b; c; d] ∧
    (k = 1 ∧ canonical <$> [a; b; c; d] ≠ [0; 0; 0; 0] ∨ k = 2 ∧ canonical d ≠ 0).

Lemma stray_kind t :
  stray t → ∃ k rest, messages (public_inputs t) = k :: rest ∧ is_padding t = false ∧
    u8_of_kind (public_input_kind (public_inputs t)) = k ∧ canonical k = k ∧ k ≠ 0 ∧
    ∀ ms i msgs j, take_messages ms i k = Some (msgs, j) → msgs ≠ canonical <$> rest.
Proof.
  intros (k & a & b & c & d & Hm & Hc). exists k, [a; b; c; d]. split; [done|]. unfold is_padding, public_input_kind, message. rewrite Hm.
  destruct Hc as [[-> Hne]|[-> Hne]]; (split_and!; [done..|]); intros ms i msgs j Ht; unfold take_messages in Ht.
  - rewrite decide_False in Ht by (intuition discriminate). injection Ht as <- _. intros Heq. by apply Hne.
  - rewrite decide_True in Ht by auto. destruct (ms !! i); [|done]. cbn [mbind option_bind] in Ht. case_decide; [done|].
    destruct (ms !! (i + 1)%nat); [|done]. cbn [mbind option_bind] in Ht. destruct (ms !! (i + 2)%nat); [|done]. cbn [mbind option_bind] in Ht.
    destruct (ms !! (i + 3)%nat); [|done]. cbn [mbind option_bind] in Ht. rewrite decide_False in Ht by (intuition discriminate).
    injection Ht as <- _. cbn. intros [= _ _ _ Heq]. by apply Hne.
Qed.

Lemma stray_not_proved t bs old new :
  stray t → binds t → (∃ b, b ∈ bs ∧ utxo_proof b = t) → ∀ q, agg_utxo_prove (mk_agg_utxo bs old new) ≠ Ok q.
Proof.
  intros (k & rest & Hm & _ & Hk & Hck & Hk0 & Hne)%stray_kind Hb (b & Hin & Hbt) q Hq. unfold agg_utxo_prove in Hq.
  destruct (agg_utxo_input _) as [x|?|?] eqn:Ei; [|done..]. cbn [no_error map_err outcome_bind] in Hq.
  destruct (agg_utxo_circuit UTXO_VERIFICATION_KEY UTXO_VERIFICATION_KEY_HASH x) eqn:Ec;
    [|by destruct (agg_utxo_refused x Ec) as [m Hm']; rewrite Hm' in Hq].
  unfold agg_utxo_input in Ei. cbn [au_proofs] in Ei. destruct (agg_utxo_proof_inputs bs) as [xs|?|?] eqn:Exs; [|done..].
  cbn [outcome_bind] in Ei. destruct (agg_utxo_messages _) as [ms|?|?]; [|done..]. cbn [outcome_bind] in Ei. injection Ei as <-.
  unfold agg_utxo_circuit in Ec. cbn [aui_proofs aui_messages aui_old_root aui_new_root aui_commit_hash] in Ec.
  destruct (agg_utxo_rounds _ _ _ _ _ _ _) as [[root idx]|] eqn:Er; [|by rewrite andb_false_r in Ec].
  destruct (proof_inputs_in bs xs b Exs Hin) as (y & Hy & Hby). unfold agg_utxo_proof_input in Hby. rewrite Hbt in Hby.
  destruct (proof_fields (proof t)) as [fs|?|?] eqn:Ef; [|done..]. cbn [outcome_bind] in Hby.
  destruct (convert_merkle_paths (input_merkle_paths b)) as [ci|?|?]; [|done..]. cbn [outcome_bind] in Hby.
  destruct (convert_merkle_paths (output_merkle_paths b)) as [co|?|?]; [|done..]. cbn [outcome_bind] in Hby.
  rewrite Hk, Hck in Hby. injection Hby as <-.
  destruct (rounds_verify _ _ _ _ _ _ _ _ _ Er Hy) as (i & msgs & j & Htm & Hv); [done|].
  cbn [api_utxo_kind api_proof api_input_commitments api_output_commitments] in *. specialize (Hne _ _ _ _ Htm).
  rewrite (Hb fs) in Hv; [done|done|]. unfold fields. rewrite Hm. cbn. rewrite Hck. intros [= Hx]. by apply Hne.
Qed.

Lemma stray_aggregate t tr utxos h :
  stray t → binds t → t ∈ utxos → length utxos = 3%nat → ∀ r, aggregate_utxo temp_noir tr utxos h ≠ Ok r.
Proof.
  intros Hs Hb Hin Hl r Hr. destruct (stray_kind t Hs) as (_ & _ & _ & Hp & _). unfold aggregate_utxo in Hr.
  destruct (forallb is_padding utxos) eqn:Ef.
  { apply forallb_forall with (x := t) in Ef; [congruence|by apply list_elem_of_In]. }
  destruct (gen_merkle_paths _ _ _ _) as [[[[[t' n] old] new] mps]|?|?]; [|done..]. cbn [outcome_bind] in Hr.
  destruct (make_bundles utxos mps) as [bs|?|?] eqn:Em; [|done..]. cbn [outcome_bind] in Hr. case_decide as Hlb; [|done].
  destruct (agg_utxo_prove _) as [q|?|?] eqn:Eq; [|done..].
  eapply (stray_not_proved t bs old new); [done|done| |exact Eq]. eapply bundles_in; [exact Em|by rewrite Hlb, Hl|done|done].
Qed.

Lemma padded_txns_ok ps l :
  padded_txns ps = Ok l →
  default utxo_proof_default <$> l = ps ++ replicate (6 - length ps) utxo_proof_default ∧ length l = 6%nat.
Proof.
  unfold padded_txns. case_decide as Hl; intros Hp; [|done]. injection Hp as <-. split; [|done].
  rewrite fmap_app, <-list_fmap_compose, fmap_replicate. cbn. by rewrite list_fmap_id.
Qed.

(** ** Blocks that are accepted and cannot be proved *)

(** The circuit of a transaction does not constrain the messages of a transfer
    beyond its kind and the size of the third, nor the fifth message of a mint;
    the one that aggregates demands zeros there. So a proof with such a message
    passes the node, and a block that holds it is never proved, whatever the tree
    and its other transactions. *)
Theorem stray_message_stops_rollup t ps l tr h :
  stray t → binds t → t ∈ ps → padded_txns ps = Ok l →
  (∀ x a b c d a' v s d', utxo_circuit x = true → ui_messages x = [1; a; b; c; d] → v < 2 ^ 240 →
     utxo_circuit (with_utxo_messages x [1; a'; v; s; d']) = true) ∧
  (∀ x a b c d d', utxo_circuit x = true → ui_messages x = [2; a; b; c; d] →
     utxo_circuit (with_utxo_messages x [2; a; b; c; d']) = true) ∧
  ∀ r, prove_block temp_noir tr h l ≠ Ok r.
Proof.
  intros Hs Hb Hin Hl. split; [|split]; [intros; by eapply send_messages_free|apply mint_message_free|].
  intros r Hr. unfold prove_block, generate_aggregate_proof, UTXO_AGGREGATIONS in Hr. cbn [aggregate_all] in Hr.
  set (all := default utxo_proof_default <$> l) in Hr. destruct (padded_txns_ok ps l Hl) as [Hall Hla]. fold all in Hall.
  assert (t ∈ all) as Ht by (rewrite Hall; by apply elem_of_app; left).
  assert (length all = 6%nat) as Hla' by (unfold all; by rewrite length_fmap).
  destruct (decide _) as [H3|]; [|done]. rewrite <-(take_drop 3 all) in Ht. apply elem_of_app in Ht.
  destruct (aggregate_utxo _ _ (take 3 all) _) as [[t1 q1]|?|?] eqn:E1; [|done..]. cbn [outcome_bind] in Hr.
  destruct Ht as [Ht|Ht]; [by eapply (stray_aggregate t _ _ _ Hs Hb Ht H3)|].
  destruct (decide (length (take 3 (drop 3 all)) = _)) as [H3'|]; [|done].
  destruct (aggregate_utxo _ _ (take 3 (drop 3 all)) _) as [[t2 q2]|?|?] eqn:E2; [|done..].
  eapply (stray_aggregate t _ _ _ Hs Hb); [|exact H3'|exact E2]. rewrite take_ge; [done|]. rewrite length_drop, Hla'. done.
Qed.

(** A block of more than six transactions panics the worker; validation does not
    bound their number. *)
Theorem padded_txns_iff ps :
  (∃ l, padded_txns ps = Ok l) ↔ (length ps ≤ MAXIMUM_TXNS)%nat.
Proof.
  unfold padded_txns. rewrite length_app, length_fmap, length_replicate. unfold MAXIMUM_TXNS, UTXO_AGG_NUMBER, UTXO_AGGREGATIONS. cbn [Nat.mul Nat.add].
  case_decide as Hd; split; [intros _; lia|eauto|by intros []|lia].
Qed.
End gaps.
