(* ===== verification/AggregateWitness.v ===== *)
(** A concrete proving backend and the theorems on aggregation applied to it. *)
From S2P Require Import Prelude Element MerkleHash HashCache SmirkBatch SmirkTree SmirkPath.
From S2P Require Import SmirkStorage BlockStore Crypto Utxo NodeBlock SignedElement Circuit.
From S2P Require Import NodeCommit NodeLedger NodeProps NodeProducer NodeWitness.
From S2P Require Import Aggregate AggregateSpec AggregateProps AggregateGaps.

(** * The backend

    A proof of a transaction starts with its public inputs; proofs of groups are
    not looked at. *)

Definition ex_verify_proof (key fs pub : list Z) (key_hash : Z) : bool :=
  if decide (key = [1]) then bool_decide (take 9 fs = pub) else true.
Definition ex_zeros : list Z := replicate (508 * 32) 0.
Definition ex_backend0 : Barretenberg :=
  {| UTXO_VERIFICATION_KEY := [1]; UTXO_VERIFICATION_KEY_HASH := CIRCUIT_UTXO_KEY_HASH;
     AGG_UTXO_VERIFICATION_KEY := [2]; AGG_UTXO_VERIFICATION_KEY_HASH := CIRCUIT_AGG_UTXO_KEY_HASH;
     verify_proof_with_type := ex_verify_proof;
     bb_prove_agg_utxo _ := Err "unsupported"%string; bb_prove_agg_agg _ := Err "unsupported"%string |}.
#[export] Instance ex_backend : Barretenberg :=
  {| UTXO_VERIFICATION_KEY := [1]; UTXO_VERIFICATION_KEY_HASH := CIRCUIT_UTXO_KEY_HASH;
     AGG_UTXO_VERIFICATION_KEY := [2]; AGG_UTXO_VERIFICATION_KEY_HASH := CIRCUIT_AGG_UTXO_KEY_HASH;
     verify_proof_with_type := ex_verify_proof;
     bb_prove_agg_utxo x :=
       if agg_utxo_circuit (H0 := ex_backend0) [1] CIRCUIT_UTXO_KEY_HASH x
       then Ok ((agg_utxo_publics x ≫= to_be_bytes) ++ ex_zeros) else Err "Cannot satisfy constraint"%string;
     bb_prove_agg_agg x :=
       if agg_agg_circuit (H0 := ex_backend0) [2] CIRCUIT_AGG_UTXO_KEY_HASH x
       then Ok ((agg_agg_publics x ≫= to_be_bytes) ++ ex_zeros) else Err "Cannot satisfy constraint"%string |}.
#[export] Instance ex_backend_laws : BarretenbergLaws.
Proof.
  split; [reflexivity|reflexivity|..]; intros x Hx.
  - exists ex_zeros. split; [|split; [by unfold ex_zeros; rewrite length_replicate|done]].
    cbn [bb_prove_agg_utxo ex_backend]. change (agg_utxo_circuit (H0 := ex_backend0) [1] CIRCUIT_UTXO_KEY_HASH x = true) in Hx. by rewrite Hx.
  - eexists. cbn [bb_prove_agg_utxo ex_backend]. change (agg_utxo_circuit (H0 := ex_backend0) [1] CIRCUIT_UTXO_KEY_HASH x = false) in Hx. by rewrite Hx.
  - exists ex_zeros. split; [|by unfold ex_zeros; rewrite length_replicate].
    cbn [bb_prove_agg_agg ex_backend]. change (agg_agg_circuit (H0 := ex_backend0) [2] CIRCUIT_AGG_UTXO_KEY_HASH x = true) in Hx. by rewrite Hx.
  - eexists. cbn [bb_prove_agg_agg ex_backend]. change (agg_agg_circuit (H0 := ex_backend0) [2] CIRCUIT_AGG_UTXO_KEY_HASH x = false) in Hx. by rewrite Hx.
Qed.

Definition field_small (e : Element) : Prop := 0 ≤ e < 2 ^ 64.
#[export] Instance field_small_dec e : Decision (field_small e).
Proof. unfold field_small. apply _. Defined.

(** * Transactions *)

Definition ex_prove (p : UtxoPublicInput) : UtxoProof :=
  mk_utxo_proof (public_input_bytes p ++ replicate (499 * 32) 0) p.
(** The mint of NodeWitness with such a proof, and a transfer with a message. *)
Definition agg_mint : UtxoProof := ex_prove (mk_public_input (0, 0) (100, 101) [2; 7; 5; 77; 0]).
Definition agg_stray : UtxoProof := ex_prove (mk_public_input (100, 0) (102, 0) [1; 9; 0; 0; 0]).

Lemma ex_prove_fields p fs :
  Forall field_element (fields p) → length (messages p) = 5%nat →
  proof_fields (proof (ex_prove p)) = Ok fs → take 9 fs = canonical <$> fields p.
Proof.
  intros Hf Hm. set (ws := fields p ++ replicate 499 0).
  assert (proof (ex_prove p) = ws ≫= to_be_bytes) as ->.
  { cbn [ex_prove proof]. unfold ws, public_input_bytes. rewrite bind_app. f_equal. }
  assert (Forall wf_element ws) as Hw.
  { apply Forall_app. split; [by eapply Forall_impl; [exact Hf|apply field_wf]|]. apply Forall_replicate. by apply field_wf, field_zero. }
  unfold proof_fields. rewrite (bytes_of_elements ws Hw). cbn [outcome_bind]. case_decide; [|done]. intros Hfs.
  assert (fs = canonical <$> ws) as -> by congruence. unfold ws. rewrite fmap_app. apply take_app_length'. rewrite length_fmap. unfold fields. rewrite length_app, Hm. done.
Qed.

Lemma agg_verified p :
  Forall field_element (fields p) → length (messages p) = 5%nat → verified (ex_prove p) ∧ binds (ex_prove p).
Proof.
  intros Hf Hm.
  assert (∀ fs pub kh, verify_proof_with_type UTXO_VERIFICATION_KEY fs pub kh = bool_decide (take 9 fs = pub)) as Hv by done.
  split; intros fs.
  - intros Hfs. rewrite Hv. apply bool_decide_eq_true. exact (ex_prove_fields p fs Hf Hm Hfs).
  - intros pub Hfs Hne. rewrite Hv. apply bool_decide_eq_false. rewrite (ex_prove_fields p fs Hf Hm Hfs). done.
Qed.
Lemma small_fields l : bool_decide (Forall field_small l) = true → Forall field_element l.
Proof.
  intros Hl%bool_decide_eq_true. eapply Forall_impl; [exact Hl|]. intros e [He1 He2]. split; [done|].
  eapply Z.lt_trans; [exact He2|]. by vm_compute.
Qed.

(** * The theorems, applied *)

#[local] Notation elems p := (dom (tree_entries (p_tree p))).

Definition agg_content (p : PersistentMerkleTree) : Block := ex_block p 1 [agg_mint].
Lemma agg_content_play p : ex_play (agg_content p).
Proof.
  split; [by apply (bool_decide_unpack (in_width 64 _))|]. split.
  - apply Forall_singleton. unfold wf_utxo, wf_element. by apply (bool_decide_unpack (Forall (in_width 256) _)).
  - apply (bool_decide_unpack (Forall (in_width 160) [100; 101])). by vm_compute.
Qed.
Lemma agg_content_valid p :
  ledger_inv ex_play [] store_create p →
  ∃ p1, content_validate ex_verify (content (agg_content p)) store_create p = (p1, Ok tt).
Proof.
  intros Hl. apply (content_validate_complete true ex_verify [] ex_play [] store_create p (agg_content p) Hl (agg_content_play p)).
  - apply Forall_singleton. by apply (mint_valid [] _ _ _ (proof agg_mint) 100 101).
  - apply (bool_decide_unpack (NoDup [100; 101])). by vm_compute.
  - reflexivity.
Qed.

Definition empty_notes : NotesTree := new_with_cache MERKLE_TREE_DEPTH simple_new.
Lemma empty_root : spec_root MERKLE_TREE_DEPTH ∅ ≠ 0.
Proof.
  assert (wf_tree MERKLE_TREE_DEPTH empty_notes) as He
    by (apply new_with_cache_wf; [rewrite depth_161; lia|exact (conj (Forall_nil_2 _) (map_Forall_empty _))]).
  pose proof (root_hash_spec MERKLE_TREE_DEPTH empty_notes He) as Hr.
  change (dom (tree_entries empty_notes)) with (∅ : gset Element) in Hr. rewrite <-Hr.
  apply (bool_decide_unpack (root_hash empty_notes ≠ 0)). by vm_compute.
Qed.

Lemma validated_block_is_proved_witness :
  ∃ p p1 l r, content_validate ex_verify (content (agg_content p)) store_create p = (p1, Ok tt) ∧
    padded_txns [agg_mint] = Ok l ∧ prove_block true (p_tree p) 1 l = Ok r ∧
    aap_old_root (aap_public r) = root_hash (p_tree p) ∧
    aap_new_root (aap_public r) = root (bstate (agg_content p)) ∧
    aap_messages (aap_public r) = [2; 7; 5; 77] ++ replicate 26 0.
Proof.
  destruct (ledger_genesis true ex_play) as (p & _ & Hl). destruct (agg_content_valid p Hl) as [p1 Hv].
  assert (elems p = ∅) as He by (rewrite (li_elems _ _ _ _ Hl); set_solver).
  destruct (validated_block_is_proved true ex_verify store_create p p1 (content (agg_content p)) 1) as (l & r & H1 & H2 & H3 & H4 & H5).
  - apply (li_tree _ _ _ _ Hl).
  - intros e. rewrite He. set_solver.
  - intros x y. rewrite He. intros Hx Hy.
    assert (∀ e, e ∈ (∅ : gset Element) ∪ list_to_set [100; 101] → in_width 160 e) as Hw.
    { intros e. cbn. rewrite !elem_of_union, !elem_of_singleton. unfold in_width. intros Hin. set_solver by lia. }
    apply small_slots; by apply Hw.
  - exact Hv.
  - apply Forall_singleton. split; [reflexivity|by apply small_fields|reflexivity].
  - cbn. lia.
  - intros t Ht _. apply list_elem_of_singleton in Ht as ->. by apply (agg_verified (public_inputs agg_mint)); [apply small_fields|].
  - rewrite (root_hash_spec MERKLE_TREE_DEPTH (p_tree p)); [rewrite He; apply empty_root|apply (li_tree _ _ _ _ Hl)].
  - cbn. lia.
  - exists p, p1, l, r. split_and!; assumption.
Defined.

Lemma stray_message_stops_rollup_witness :
  ∃ l, padded_txns [agg_mint; agg_stray] = Ok l ∧ ∀ r, prove_block true empty_notes 1 l ≠ Ok r.
Proof.
  eexists. split; [reflexivity|].
  apply (stray_message_stops_rollup true agg_stray [agg_mint; agg_stray] _ empty_notes 1).
  - exists 1, 9, 0, 0, 0. split; [reflexivity|]. left. split; [reflexivity|]. by vm_compute.
  - apply (agg_verified (public_inputs agg_stray)); [by apply small_fields|reflexivity].
  - right. left.
  - reflexivity.
Defined.

(** A proof of one group beside a padding, with the messages of a burn of 1000000 to
    the address 666 in the places of the second group. *)
Definition honest_input : AggAggInput :=
  mk_agg_agg_input [mk_utxo_agg_proof [] 11 12 13; mk_utxo_agg_proof [] 0 0 0] (replicate 30 0) 11 12 (hash_merge [13; 0]).
Lemma padding_messages_are_free_witness :
  agg_agg_circuit [2] CIRCUIT_AGG_UTXO_KEY_HASH
    (with_agg_messages honest_input (replicate 15 0 ++ [3; 7; 1000000; 55; 666] ++ replicate 10 0)) = true.
Proof.
  apply (padding_messages_are_free [2] CIRCUIT_AGG_UTXO_KEY_HASH honest_input
           (mk_utxo_agg_proof [] 11 12 13) (mk_utxo_agg_proof [] 0 0 0) (replicate 15 0) (replicate 15 0)).
  - by vm_compute.
  - reflexivity.
  - reflexivity.
  - reflexivity.
  - reflexivity.
Defined.
