(* ===== verification/ProverWorker.v ===== *)
(** The prover of a node (pkg/node/src/prover: db.rs, worker.rs): its database,
    the worker that proves the committed blocks in order, the worker that rolls
    the proofs up to the contract, and Prover::rollup (pkg/prover/src/lib.rs).

    Every durable write of the proving worker is a state of its own, so that a
    crash is a stop at any of them.  What the chain, the contract and the shared
    postgres database answer are arguments. *)
From stdpp Require Import pretty.
From S2P Require Import Prelude Element MerkleHash HashCache SmirkBatch SmirkTree SmirkStorage.
From S2P Require Import Utxo BlockStore Crypto NodeBlock Mempool BlockCache NodeCommit.
From S2P Require Import Aggregate.

(** * Rollup inputs (prover/src/lib.rs) *)

Record RollupInput := mk_rollup_input {
  ri_proof : AggAggProof;
  ri_height : Z;
  ri_other_hash : list Z;
  ri_signatures : list (list Z);
}.
Definition ri_old_root (r : RollupInput) : Element := aap_old_root (aap_public (ri_proof r)).
Definition ri_new_root (r : RollupInput) : Element := aap_new_root (aap_public (ri_proof r)).

(** * The database (db.rs) *)

Inductive ProverDbError := DbInvalidKey | DbInvalidValue | DbRocksDB | DbWireMessage | DbIo.

Inductive ProverKey := PKLastSeenBlock | PKRollup (height : Z) | PKProverVersion.
Definition prover_key_kind (k : ProverKey) : Z :=
  match k with PKLastSeenBlock => 0 | PKRollup _ => 1 | PKProverVersion => 2 end.
Definition prover_key_serialize (k : ProverKey) : list Z :=
  prover_key_kind k :: match k with PKRollup height => be_bytes 8 height | _ => [] end.
Definition prover_key_deserialize (bytes : list Z) : outcome ProverDbError ProverKey :=
  match bytes with
  | [] => Err DbInvalidKey
  | k :: rest =>
      if decide (k = 0) then Ok PKLastSeenBlock
      else if decide (k = 1) then
        if decide (length rest < 8)%nat then Panic "range end index out of range"
        else Ok (PKRollup (u64_from_be (take 8 rest)))
      else if decide (k = 2) then Ok PKProverVersion else Err DbInvalidKey
  end.

Record LastSeenBlock := mk_last_seen { ls_height : Z; ls_root_hash : Element }.
Inductive ProverValue :=
| PVLastSeenBlock (b : LastSeenBlock)
| PVRollup (r : RollupInput)
| PVProverVersion (v : Z).

(** rocksdb: serialised keys, decoded values. *)
Notation ProverDb := (gmap (list Z) ProverValue).

Definition LATEST_VERSION : Z := 1.
Definition prover_db_set (db : ProverDb) (k : ProverKey) (v : ProverValue) : ProverDb :=
  <[prover_key_serialize k := v]> db.
Definition get_last_seen_block (db : ProverDb) : outcome ProverDbError (option LastSeenBlock) :=
  match db !! prover_key_serialize PKLastSeenBlock with
  | None => Ok None
  | Some (PVLastSeenBlock b) => Ok (Some b)
  | Some _ => Err DbInvalidValue
  end.
Definition set_last_seen_block (db : ProverDb) (b : LastSeenBlock) : ProverDb :=
  prover_db_set db PKLastSeenBlock (PVLastSeenBlock b).
Definition set_rollup (db : ProverDb) (height : Z) (r : RollupInput) : ProverDb :=
  prover_db_set db (PKRollup height) (PVRollup r).
Definition get_version (db : ProverDb) : outcome ProverDbError (option Z) :=
  match db !! prover_key_serialize PKProverVersion with
  | None => Ok None
  | Some (PVProverVersion v) => Ok (Some v)
  | Some _ => Err DbInvalidValue
  end.
Definition set_version (db : ProverDb) (v : Z) : ProverDb := prover_db_set db PKProverVersion (PVProverVersion v).
(** [create_or_load]: a directory without files is a new database. *)
Definition create_or_load (new_db : bool) (db : ProverDb) : ProverDb :=
  if new_db then set_version db LATEST_VERSION else db.

Definition prover_entry_le (x y : list Z * ProverValue) : Prop := lex_le x.1 y.1.
#[export] Instance prover_entry_le_dec x y : Decision (prover_entry_le x y).
Proof. unfold prover_entry_le. apply _. Defined.
Definition prover_item (kv : list Z * ProverValue) : outcome ProverDbError (Z * RollupInput) :=
  let? key := match prover_key_deserialize kv.1 with Err _ => Err DbInvalidKey | o => o end in
  match key with
  | PKRollup height => match kv.2 with PVRollup r => Ok (height, r) | _ => Err DbInvalidValue end
  | _ => Err DbInvalidKey
  end.
(** Heights from [start] on and below [end_]. *)
Definition list_rollups (db : ProverDb) (start end_ : Z) : list (outcome ProverDbError (Z * RollupInput)) :=
  let lower := prover_key_serialize (PKRollup start) in
  let upper := prover_key_serialize (PKRollup end_) in
  prover_item <$>
    merge_sort prover_entry_le (filter (λ kv, lex_le lower kv.1 ∧ ¬ lex_le upper kv.1) (map_to_list db)).

(** * The proving worker (run_prover_worker) *)

Inductive WorkerError :=
| FailedToPeekNextCommit
| ProverTreeRootDoesNotMatchBlockStateRoot (prover_tree block_tree : Element)
| ProverSkippedBlock (h : Z)
| RootMismatch (got expected : Element)
| InvalidProverVersion (v : Z)
| FailedToGetNonce (e : Web3Error)
| WDb (e : ProverDbError) | WNode (e : NodeError) | WContract (e : ContractsError) | WProver (e : ProverError)
| WSmirkStorage | WSmirkCollision (e : CollisionError) | WIo | WRocksdb | WParseInt | WTokioMpsc | WPostgres.

(** What survives a crash: the database, the notes tree ([None]: its directory is
    deleted) and the proofs in the shared postgres database, if there is one. *)
Record ProverState := mk_prover_state {
  ps_db : ProverDb;
  ps_tree : option PersistentMerkleTree;
  ps_postgres : option (gmap Z RollupInput);
}.
Definition with_db (s : ProverState) (db : ProverDb) : ProverState := mk_prover_state db (ps_tree s) (ps_postgres s).
Definition with_notes (s : ProverState) (t : option PersistentMerkleTree) : ProverState :=
  mk_prover_state (ps_db s) t (ps_postgres s).

(** The new state after each durable write and the result: a writer over states. *)
Notation run A := (list ProverState * outcome WorkerError A)%type.
Definition run_last {A} (s : ProverState) (r : run A) : ProverState := default s (last r.1).
Definition finish {A} (o : outcome WorkerError A) : run A := ([], o).
Definition write {A} (s : ProverState) (k : ProverState → run A) : run A := let r := k s in (s :: r.1, r.2).

Section worker.
Context `{FieldLib, CryptoLib, Barretenberg} (temp_noir : bool).
Context (mode : Mode) (bad_blocks : list Z).

(** ** Starting *)

(** The migration inserts no [old_root], a column the schema (schema.sql) declares
    not null: the shared database refuses the statement. *)
Definition migrate_proofs (postgres : bool) (l : list (outcome ProverDbError (Z * RollupInput))) : outcome WorkerError unit :=
  foldr (λ x k, let? _ := map_err WDb x in if (postgres : bool) then Err WPostgres else k) (Ok tt) l.
Definition migrate_prover (contract_height : Z) (s : ProverState) (k : ProverState → run Z) : run Z :=
  match get_version (ps_db s) with
  | Ok None =>
      match migrate_proofs (bool_decide (is_Some (ps_postgres s))) (list_rollups (ps_db s) contract_height (2 ^ 64 - 1)) with
      | Ok _ => write (with_db s (set_version (ps_db s) 1)) k
      | Err e => finish (Err e)
      | Panic m => finish (Panic m)
      end
  | Ok (Some v) => if decide (v = 1) then k s else finish (Err (InvalidProverVersion v))
  | Err e => finish (Err (WDb e))
  | Panic m => finish (Panic m)
  end.

Definition no_block : LastSeenBlock := mk_last_seen 0 (empty_hash MERKLE_TREE_DEPTH).

(** Up to the first commit: the height from which the commits are streamed.  When
    the tree does not belong to the last seen block both are reset and the process
    ends, to be restarted. *)
Definition start_worker (s : ProverState) : run Z :=
  match get_last_seen_block (ps_db s), ps_tree s with
  | Ok o, Some t =>
      let last_seen := default no_block o in
      if decide (ls_root_hash last_seen ≠ root_hash (p_tree t)) then
        write (with_db s (set_last_seen_block (ps_db s) no_block)) (λ s,
        write (with_notes s None) (λ _,
        finish (Panic "Our tree's root hash does not match the last seen block's root hash. Please restart the prover")))
      else finish (Ok (ls_height last_seen + 1))
  | Ok _, None => finish (Panic "called `Option::unwrap()` on a `None` value")
  | Err e, _ => finish (Err (WDb e))
  | Panic m, _ => finish (Panic m)
  end.

(** A start of the process: the tree is loaded from its directory, the database is
    migrated, the worker begins. *)
Definition restart (contract_height : Z) (s : ProverState) : run Z :=
  match load_smirk temp_noir (default ∅ (p_db <$> ps_tree s)) with
  | Ok t => write (with_notes s (Some t)) (λ s, migrate_prover contract_height s start_worker)
  | Err e => finish (Err (WNode e))
  | Panic m => finish (Panic m)
  end.

(** ** Proving a commit *)

(** The proof a mock prover makes up. *)
Definition mock_proof (t : PersistentMerkleTree) (st : BlockState) : outcome WorkerError AggAggProof :=
  let? (messages, _) := collect_messages (replicate 30 ZERO) 0 (state_txns st) in
  Ok (mk_agg_agg_proof [] (mk_agg_agg_public (root_hash (p_tree t)) (root st) ZERO messages) []).

Definition commit_proof (t : PersistentMerkleTree) (st : BlockState) (h : Z) : outcome WorkerError AggAggProof :=
  match mode with
  | ModeMockProver => mock_proof t st
  | _ => map_err WProver (let? l := padded_txns (state_txns st) in prove_block temp_noir (p_tree t) h l)
  end.

(** Applying the block to the tree and recording it. *)
Definition apply_commit (s : ProverState) (t : PersistentMerkleTree) (b : Block) (k : ProverState → run unit) : run unit :=
  let st := state (content b) in
  let h := height (header (content b)) in
  let '(t', r) := apply_block_to_tree temp_noir t st h in
  write (with_notes s (Some t')) (λ s,
  match r with
  | Ok _ => write (with_db s (set_last_seen_block (ps_db s) (mk_last_seen h (root st)))) k
  | Err e => finish (Err (WNode e))
  | Panic m => finish (Panic m)
  end).

Definition check_root (s : ProverState) (st : BlockState) : outcome WorkerError unit :=
  match ps_tree s with
  | Some t =>
      if decide (root st ≠ root_hash (p_tree t))
      then Err (ProverTreeRootDoesNotMatchBlockStateRoot (root_hash (p_tree t)) (root st)) else Ok tt
  | None => Panic "called `Option::unwrap()` on a `None` value"
  end.

(** [we_prove]: the answer of the advisory lock, [true] without postgres; [next]:
    the commit after this one. *)
Definition process_commit (initial_contract_block_height : Z) (we_prove : outcome WorkerError bool)
    (commit : Block) (next : option (outcome NodeError Block)) (s : ProverState) : run unit :=
  let st := state (content commit) in
  let h := height (header (content commit)) in
  if decide (state_txns st = []) then
    write (with_db s (set_last_seen_block (ps_db s) (mk_last_seen h (root st)))) (λ _, finish (Ok tt))
  else
  match (if bool_decide (h ≤ initial_contract_block_height) || bool_decide (h ∈ bad_blocks) then Ok false else we_prove), ps_tree s with
  | Ok false, Some t => apply_commit s t commit (λ _, finish (Ok tt))
  | Ok true, Some t =>
      match next with
      | None => finish (Panic "called `Option::unwrap()` on a `None` value")
      | Some (Ok next_commit) =>
          match commit_proof t st h with
          | Ok p =>
              if decide (aap_new_root (aap_public p) ≠ root st)
              then finish (Err (RootMismatch (aap_new_root (aap_public p)) (root st)))
              else
                let rollup_input := mk_rollup_input p h (header_hash (content commit)) (approvals (header (content next_commit))) in
                write (with_db s (set_rollup (ps_db s) h rollup_input)) (λ s,
                apply_commit s t commit (λ s,
                match ps_postgres s with
                | None => finish (check_root s st)
                | Some m =>
                    match m !! h with
                    | Some _ => finish (Panic "called `Result::unwrap()` on an `Err` value")
                    | None => write (mk_prover_state (ps_db s) (ps_tree s) (Some (<[h := rollup_input]> m))) (λ s, finish (check_root s st))
                    end
                end))
          | Err e => finish (Err e)
          | Panic m => finish (Panic m)
          end
      | Some (Err _) => finish (Err FailedToPeekNextCommit)
      | Some (Panic m) => finish (Panic m)
      end
  | Err e, _ => finish (Err e)
  | Panic m, _ => finish (Panic m)
  | Ok _, None => finish (Panic "called `Option::unwrap()` on a `None` value")
  end.
End worker.

(** * Rolling up (Prover::rollup, run_rollup_worker) *)

(** One look at the transaction: the status in its receipt, whether it is known,
    and the clock in milliseconds at its three readings. *)
Record Poll := mk_poll {
  po_receipt : outcome Web3Error (option (option Z));
  po_known : outcome Web3Error bool;
  po_set : Z; po_check : Z; po_elapsed : Z;
}.
Definition UNKNOWN_MS : Z := 15 * 1000.
Definition ROLLUP_MS : Z := 5 * 60 * 1000.

(** [None]: still waiting after these polls. *)
Fixpoint wait_rollup (tx : list Z) (wait_start : Z) (unknown_deadline : option Z) (polls : list Poll)
  : option (outcome ProverError (list Z)) :=
  match polls with
  | [] => None
  | p :: polls =>
      match po_receipt p with
      | Err e => Some (Err (Web3 e))
      | Panic m => Some (Panic m)
      | Ok (Some status) =>
          Some (if decide (status = Some 0) then Err (RollupTransactionReverted tx) else Ok tx)
      | Ok None =>
          match po_known p with
          | Err e => Some (Err (Web3 e))
          | Panic m => Some (Panic m)
          | Ok known =>
              let deadline := if known then unknown_deadline
                              else Some (default (po_set p + UNKNOWN_MS) unknown_deadline) in
              if negb known && bool_decide (default 0 deadline < po_check p) then Some (Err (RollupTransactionDropped tx))
              else if decide (ROLLUP_MS < po_elapsed p - wait_start) then Some (Err RollupTransactionTimeout)
              else wait_rollup tx wait_start deadline polls
          end
      end
  end.
Definition rollup (sent : outcome ContractsError (list Z)) (wait_start : Z) (polls : list Poll)
  : option (outcome ProverError (list Z)) :=
  match sent with
  | Ok tx => wait_rollup tx wait_start None polls
  | Err e => Some (Err (Contract e))
  | Panic m => Some (Panic m)
  end.

Record ContractRollupState := mk_contract_state { cs_height : Z; cs_root_hash : Element }.
#[export] Instance contract_state_eq_dec : EqDecision ContractRollupState.
Proof. intros [] []. unfold Decision. decide equality; apply Z.eq_dec. Defined.
Inductive RollupStateProgress := Applied | AdvancedElsewhere | Unchanged.

Definition fetch_contract_rollup_state (h : outcome ContractsError Z) (r : outcome ContractsError Element)
  : outcome ContractsError ContractRollupState :=
  let? h := h in let? r := r in Ok (mk_contract_state h r).
Definition classify_rollup_progress (before after : ContractRollupState) (r : RollupInput) : RollupStateProgress :=
  if bool_decide (ri_height r ≤ cs_height after) && bool_decide (cs_root_hash after = ri_new_root r) then Applied
  else if decide (after ≠ before) then AdvancedElsewhere else Unchanged.

(** ** Errors *)

Section errors.
Context (show_h256 : list Z → string).
Local Open Scope string_scope.

(** [Display for prover::Error]: sources are not part of the text. *)
Definition prover_error_text (e : ProverError) : string :=
  match e with
  | ConvertH256ToBn256Fr _ => "failed to convert H256 to bn256::Fr"
  | RollupTransactionTimeout => "rollup transaction timed out"
  | RollupTransactionDropped tx => "rollup transaction dropped from mempool: " +:+ show_h256 tx
  | RollupTransactionReverted tx => "rollup transaction reverted: " +:+ show_h256 tx
  | FromHex => "from hex error"
  | Web3 _ => "web3 error"
  | EthAbi => "ethabi error"
  | TryFromSlice => "TryFromSlice error"
  | Web3Contract _ => "web3 contract error"
  | SerdeJson => "serde_json error"
  | Secp256k1 => "secp256k1 error"
  | Smirk => "smirk storage error"
  | SmirkCollision _ => "smirk collision error"
  | Contract _ => "contract error"
  | TokioTaskJoin => "tokio task join error"
  | BarretenbergProve m => "barretenberg prove error: " +:+ m
  | VecToArrayConversion expected actual =>
      "vec to array conversion failed, expected " +:+ pretty expected +:+ ", got " +:+ pretty actual
  end.

Definition lower_ascii (c : Ascii.ascii) : Ascii.ascii :=
  let n := Ascii.nat_of_ascii c in
  if bool_decide (65 ≤ n ≤ 90)%nat then Ascii.ascii_of_nat (n + 32) else c.
Fixpoint to_ascii_lowercase (s : string) : string :=
  match s with EmptyString => EmptyString | String c s => String (lower_ascii c) (to_ascii_lowercase s) end.
Definition contains (s pattern : string) : bool :=
  match String.index 0 pattern s with Some _ => true | None => false end.
Definition nonce_patterns : list string :=
  ["nonce too low"; "nonce too high"; "nonce has already been used"; "replacement transaction underpriced"].

Definition is_nonce_conflict_error (e : ProverError) : bool :=
  existsb (contains (to_ascii_lowercase (prover_error_text e))) nonce_patterns.
Definition is_transport_rollup_error (e : ProverError) : bool :=
  match e with
  | Web3 (Transport _) | Web3Contract (Api (Transport _))
  | Contract (ContractsWeb3 (Transport _)) | Contract (ContractsWeb3Contract (Api (Transport _))) => true
  | _ => false
  end.
Definition is_retryable_rollup_error (e : ProverError) : bool :=
  is_transport_rollup_error e || is_nonce_conflict_error e.

(** ** One round of the worker *)

(** What the round is told; [re_rollup] and [re_after] may depend on what is sent. *)
Record RoundEnv := mk_round_env {
  re_block_height : outcome ContractsError Z;
  re_root_hash : outcome ContractsError Element;
  re_row : outcome WorkerError (option RollupInput);
  re_pending_nonce : outcome Web3Error Z;
  re_latest_nonce : outcome Web3Error Z;
  re_before : outcome ContractsError ContractRollupState;
  re_rollup : RollupInput → outcome ProverError (list Z);
  re_after : RollupInput → outcome ContractsError ContractRollupState;
  re_notify : bool;
}.
(** [skip_waiting], [retried_height] and the proof that was sent. *)
Record RoundResult := mk_round { rr_skip_waiting : bool; rr_retried : option Z; rr_sent : option RollupInput }.

Definition judge_rollup (height : Z) (retried : option Z) (r : RollupInput) (env : RoundEnv)
    (before after : ContractRollupState) : outcome WorkerError RoundResult :=
  match classify_rollup_progress before after r with
  | Applied => if re_notify env then Ok (mk_round true None (Some r)) else Err WTokioMpsc
  | AdvancedElsewhere => Ok (mk_round true None (Some r))
  | Unchanged =>
      match re_rollup env r with
      | Err RollupTransactionTimeout => Err (WProver RollupTransactionTimeout)
      | Err e =>
          if is_retryable_rollup_error e && bool_decide (retried ≠ Some height)
          then Ok (mk_round true (Some height) (Some r)) else Ok (mk_round false None (Some r))
      | Ok _ => Ok (mk_round false None (Some r))
      | Panic m => Panic m
      end
  end.

Definition rollup_round (db : ProverDb) (postgres : bool) (retried : option Z) (env : RoundEnv)
  : outcome WorkerError RoundResult :=
  let? contract_height := map_err WContract (re_block_height env) in
  match list_rollups db (wrap 64 (contract_height + 1)) (2 ^ 64 - 1) with
  | [] => Ok (mk_round false None None)
  | x :: _ =>
      let? (height, stored) := map_err WDb x in
      let retried := if decide (is_Some retried ∧ retried ≠ Some height) then None else retried in
      let? root := map_err WContract (re_root_hash env) in
      let? chosen := (if decide (ri_old_root stored ≠ root)
                      then if postgres then re_row env else Ok None else Ok (Some stored)) in
      match chosen with
      | None => Ok (mk_round false retried None)
      | Some r =>
          let? pending := map_err FailedToGetNonce (re_pending_nonce env) in
          let? latest := map_err FailedToGetNonce (re_latest_nonce env) in
          if decide (latest < pending) then Ok (mk_round false retried None)
          else
            let? before := map_err WContract (re_before env) in
            let? after := (match re_rollup env r with Panic m => Panic m | _ => map_err WContract (re_after env r) end) in
            judge_rollup height retried r env before after
      end
  end.
End errors.
