(* ===== verification/ProverProps.v ===== *)
(** The proving worker against the chain: whatever is interrupted and restarted,
    the stored proofs lead from block to block, and the worker goes on. *)
From S2P Require Import Prelude Element MerkleHash HashCache SmirkBatch SmirkTree SmirkStorage.
From S2P Require Import Utxo BlockStore Crypto NodeBlock Mempool BlockCache NodeCommit.
From S2P Require Import NodeLedger NodeProps SignedElement Circuit Aggregate AggregateSpec AggregateProps.
From S2P Require Import ProverWorker.

(** The states of a run, one by one. *)
Ltac passes := cbn [fst snd finish]; repeat first [apply Forall_nil_2|apply Forall_cons_2; [try done|]].

(** * The database *)

Lemma prover_key_inj k k' :
  (∀ h, k = PKRollup h → in_width 64 h) → (∀ h, k' = PKRollup h → in_width 64 h) →
  prover_key_serialize k = prover_key_serialize k' → k = k'.
Proof.
  intros Hk Hk' Heq. destruct k as [|h|], k' as [|h'|]; try done.
  apply (f_equal (λ l, u64_from_be (drop 1 l))) in Heq.
  change (u64_from_be (be_bytes 8 h) = u64_from_be (be_bytes 8 h')) in Heq.
  rewrite !u64_be_roundtrip in Heq by auto. by subst.
Qed.

(** The bytes of a key that names no rollup differ from those of one that does. *)
Lemma rollup_key_ne h : prover_key_serialize PKLastSeenBlock ≠ prover_key_serialize (PKRollup h) ∧
  prover_key_serialize PKProverVersion ≠ prover_key_serialize (PKRollup h).
Proof. done. Qed.

Definition stored_rollup (db : ProverDb) (h : Z) (r : RollupInput) : Prop :=
  in_width 64 h ∧ db !! prover_key_serialize (PKRollup h) = Some (PVRollup r).

(** Entries as the worker writes them. *)
Definition db_wf (db : ProverDb) : Prop :=
  ∀ key v, db !! key = Some v →
    (key = prover_key_serialize PKLastSeenBlock ∧ ∃ b, v = PVLastSeenBlock b) ∨
    (key = prover_key_serialize PKProverVersion ∧ ∃ n, v = PVProverVersion n) ∨
    ∃ h r, in_width 64 h ∧ key = prover_key_serialize (PKRollup h) ∧ v = PVRollup r.

Lemma set_last_seen_wf db b : db_wf db → db_wf (set_last_seen_block db b).
Proof.
  intros Hwf key v. unfold set_last_seen_block, prover_db_set. rewrite lookup_insert_Some.
  intros [[<- <-]|[_ Hv]]; [left; eauto|by apply Hwf].
Qed.
Lemma set_rollup_wf db h r : in_width 64 h → db_wf db → db_wf (set_rollup db h r).
Proof.
  intros Hh Hwf key v. unfold set_rollup, prover_db_set. rewrite lookup_insert_Some.
  intros [[<- <-]|[_ Hv]]; [right; right; eauto|by apply Hwf].
Qed.
Lemma last_seen_set db b : get_last_seen_block (set_last_seen_block db b) = Ok (Some b).
Proof. unfold get_last_seen_block, set_last_seen_block, prover_db_set. by rewrite lookup_insert_eq. Qed.
Lemma last_seen_rollup db h r : get_last_seen_block (set_rollup db h r) = get_last_seen_block db.
Proof. unfold get_last_seen_block, set_rollup, prover_db_set. by rewrite lookup_insert_ne. Qed.
Lemma stored_last_seen db b h r : stored_rollup (set_last_seen_block db b) h r ↔ stored_rollup db h r.
Proof. unfold stored_rollup, set_last_seen_block, prover_db_set. by rewrite lookup_insert_ne. Qed.
Lemma stored_set db h r h' r' :
  in_width 64 h →
  stored_rollup (set_rollup db h r) h' r' ↔ h' = h ∧ r' = r ∨ h' ≠ h ∧ stored_rollup db h' r'.
Proof.
  intros Hh. unfold stored_rollup, set_rollup, prover_db_set. destruct (decide (h' = h)) as [->|Hne].
  - rewrite lookup_insert_eq. naive_solver.
  - rewrite lookup_insert_Some. split.
    + intros [Hw [[Heq _]|[_ Hl]]]; [|by right].
      apply prover_key_inj in Heq; [by simplify_eq|by intros ? [= <-]..].
    + intros [[-> _]|[_ [Hw Hl]]]; [done|]. split; [done|]. right. split; [|done].
      intros Heq. apply prover_key_inj in Heq; [by simplify_eq|by intros ? [= <-]..].
Qed.

(** * The chain *)

Section prover_props.
Context `{FieldLaws, CryptoLib, !Barretenberg, !BarretenbergLaws} (temp_noir : bool).
Context (mode : Mode) (bad_blocks : list Z).
Implicit Types (s : ProverState) (bs : list Block) (p : PersistentMerkleTree).
Notation elems p := (dom (tree_entries (p_tree p))).
Notation btxns b := (state_txns (bstate b)).

(** The notes after the first [i] blocks. *)
Definition notes_at bs (i : nat) : gset Element := foldl (λ S b, foldl after S (btxns b)) ∅ (take i bs).

(** A chain whose blocks can be carried out and proved: what validation
    guarantees of committed blocks, with proofs that verify inside a circuit, up to
    six transactions each, and no two sets of notes with one root. *)
Record chain_ok bs : Prop := {
  ch_length : in_width 64 (Z.of_nat (length bs) + 1);
  ch_height : ∀ i b, bs !! i = Some b → bheight b = Z.of_nat i + 1;
  ch_fits : ∀ i b, bs !! i = Some b → fits (notes_at bs i) (btxns b);
  ch_real : ∀ i b, bs !! i = Some b → Forall real (btxns b) ∧ (length (btxns b) ≤ 6)%nat;
  ch_root : ∀ i b, bs !! i = Some b → root (bstate b) = spec_root D (notes_at bs (S i));
  ch_zero : ∀ i b, bs !! i = Some b → btxns b ≠ [] → spec_root D (notes_at bs i) ≠ 0 ∧
    ((3 < length (btxns b))%nat → spec_root D (foldl after (notes_at bs i) (take 3 (btxns b))) ≠ 0);
  ch_inj : ∀ i j, (i ≤ length bs)%nat → (j ≤ length bs)%nat →
    spec_root D (notes_at bs i) = spec_root D (notes_at bs j) → notes_at bs i = notes_at bs j;
}.

Lemma notes_at_S bs i b : bs !! i = Some b → notes_at bs (S i) = foldl after (notes_at bs i) (btxns b).
Proof. intros Hb. unfold notes_at. by rewrite (take_S_r _ _ _ Hb), foldl_snoc. Qed.

Lemma after_wf S ps : (∀ e, e ∈ S → wf_element e) → Forall (λ t, Forall field_element (inputs t ++ outputs t)) ps →
  ∀ e, e ∈ foldl after S ps → wf_element e.
Proof.
  intros HS Hf. revert S HS. induction Hf as [|t ps Hp Hf IH]; intros S HS e; [by apply HS|]. cbn. apply IH.
  intros x. unfold after. rewrite elem_of_union, elem_of_difference. intros [[Hx _]|Hx%elem_of_list_to_set]; [by apply HS|].
  apply elem_non_zero in Hx as [_ Hx]. rewrite Forall_forall in Hp. apply field_wf, Hp, elem_of_app. by right.
Qed.
Lemma notes_wf bs i : chain_ok bs → (i ≤ length bs)%nat → ∀ e, e ∈ notes_at bs i → wf_element e.
Proof.
  intros Hc. induction i as [|i IH]; intros Hi; [cbn; set_solver|].
  destruct (lookup_lt_is_Some_2 bs i) as [b Hb]; [lia|]. rewrite (notes_at_S bs i b Hb).
  apply after_wf; [apply IH; lia|]. apply (fit_fields _ _ (ch_fits bs Hc i b Hb)).
Qed.

Lemma fits_changes p st : fits (elems p) (state_txns st) → changes_fit p (block_outs st) (block_ins st).
Proof.
  intros [_ Hn Ho Hi Ha]. unfold block_outs, block_ins. rewrite !non_zero_bind. split; [exact Hn| |exact Ho|exact Hi|exact Ha].
  intros e [He|He]%elem_of_app; apply list_elem_of_bind in He as (t & He & _); by apply elem_non_zero in He as [].
Qed.

(** Applying a block of the chain. *)
Lemma apply_chain_block bs i b p :
  chain_ok bs → bs !! i = Some b → wf_persistent D p → elems p = notes_at bs i →
  ∃ p', apply_block_to_tree temp_noir p (bstate b) (bheight b) = (p', Ok tt) ∧ wf_persistent D p' ∧ elems p' = notes_at bs (S i).
Proof.
  intros Hc Hb Hwf He. pose proof (ch_fits bs Hc i b Hb) as Hf. rewrite <-He in Hf.
  destruct (apply_block_ok temp_noir p (bstate b) (bheight b) Hwf (fits_changes p _ Hf)) as (p' & Ha & Hwf' & He').
  exists p'. split_and!; [done|done|]. rewrite (dom_after p p' _ _ He'), (notes_at_S bs i b Hb), <-He, (foldl_after _ _ Hf).
  unfold elems_after, block_outs, block_ins. by rewrite !non_zero_bind.
Qed.
Lemma root_at bs i p : wf_persistent D p → elems p = notes_at bs i → root_hash (p_tree p) = spec_root D (notes_at bs i).
Proof. intros Hwf He. by rewrite (root_hash_spec D _ (wp_tree _ _ Hwf)), He. Qed.

(** The proof of a block, made up or not. *)
Lemma mock_messages_ok {E} ps : Forall regular ps → (length ps ≤ 6)%nat →
  ∃ ms n, collect_messages (E := E) (replicate 30 ZERO) 0 ps = Ok (ms, n).
Proof.
  intros Hr Hl. assert (length (ps ≫= proof_messages) ≤ 5 * length ps)%nat as Hb.
  { clear Hl. induction Hr as [|t ps Ht Hr IH]; [done|]. rewrite bind_cons, length_app. cbn [length].
    pose proof (proj1 (proof_messages_bound t Ht)). lia. }
  pose proof (collect_messages_ok (E := E) [] ps (30 - length (ps ≫= proof_messages))) as Hc.
  replace (length (ps ≫= proof_messages) + (30 - length (ps ≫= proof_messages)))%nat with 30%nat in Hc by lia.
  by eexists _, _.
Qed.
Lemma commit_proof_ok bs i b p :
  chain_ok bs → bs !! i = Some b → wf_persistent D p → elems p = notes_at bs i → btxns b ≠ [] →
  ∃ r, commit_proof temp_noir mode p (bstate b) (bheight b) = Ok r ∧
    aap_old_root (aap_public r) = spec_root D (notes_at bs i) ∧ aap_new_root (aap_public r) = root (bstate b).
Proof.
  intros Hc Hb Hwf He Hne. destruct (ch_real bs Hc i b Hb) as [Hreal Hlen]. destruct (ch_zero bs Hc i b Hb Hne) as [Hz Hz'].
  pose proof (ch_fits bs Hc i b Hb) as Hf.
  assert (1 ≤ length (btxns b) ≤ 6)%nat as Hl by (destruct (btxns b); cbn in *; [done|lia]).
  assert (good_tree (p_tree p)) as Hg.
  { split; [apply Hwf|]. rewrite He. eapply notes_wf; [done|]. by apply Nat.lt_le_incl, (lookup_lt_Some bs i b). }
  pose proof (root_at bs i p Hwf He) as Hr. rewrite <-He in Hf, Hz'. rewrite <-Hr in Hz.
  destruct (block_is_proved temp_noir (p_tree p) (btxns b) (bheight b) Hg Hf Hreal Hl Hz Hz') as (l & r & Hp & Hpr & Ho & Hn & _).
  unfold commit_proof. destruct mode; try (exists r; rewrite Hp; cbn [outcome_bind]; rewrite Hpr; split_and!; [done|by rewrite Ho|];
    by rewrite Hn, (ch_root bs Hc i b Hb), (notes_at_S bs i b Hb), He).
  destruct (mock_messages_ok (E := WorkerError) (btxns b)) as (ms & n & Hm); [|lia|].
  { eapply Forall_impl; [exact Hreal|by intros ? []]. }
  unfold mock_proof. rewrite Hm. eexists. split_and!; [reflexivity|exact Hr|done].
Qed.

(** ** States between writes *)

(** The tree holds the notes of the first [k] blocks, and these are recorded. *)
Definition tree_at bs (k : nat) s : Prop :=
  (k ≤ length bs)%nat ∧ ∃ p, ps_tree s = Some p ∧ wf_persistent D p ∧ elems p = notes_at bs k.
Definition seen bs (k : nat) s : Prop :=
  (k ≤ length bs)%nat ∧
  ∃ o, get_last_seen_block (ps_db s) = Ok o ∧ default no_block o = mk_last_seen (Z.of_nat k) (spec_root D (notes_at bs k)).
Definition settled bs k s : Prop := seen bs k s ∧ tree_at bs k s.
(** What a stop may leave: one of the first [n] blocks is recorded, and the tree
    need not agree with it. *)
Definition stoppable bs (n : nat) s : Prop :=
  ∃ j, (j ≤ n)%nat ∧ seen bs j s ∧ (ps_tree s = None ∨ ∃ k, tree_at bs k s).

(** A proof of the block at height [h]: it leads from the root before the block to
    the root of the block and carries the approvals of the next one. *)
Definition proof_of bs (h : Z) (r : RollupInput) : Prop :=
  ∃ i b nb, bs !! i = Some b ∧ bs !! (S i) = Some nb ∧ h = Z.of_nat i + 1 ∧ ri_height r = h ∧
    ri_old_root r = spec_root D (notes_at bs i) ∧ ri_new_root r = root (bstate b) ∧
    ri_other_hash r = header_hash (content b) ∧ ri_signatures r = approvals (header (content nb)).
Record sound bs s : Prop := {
  so_wf : db_wf (ps_db s);
  so_version : get_version (ps_db s) = Ok (Some 1);
  so_rollups : ∀ h r, stored_rollup (ps_db s) h r → proof_of bs h r;
}.
Definition is_stored s (h : Z) : Prop := ∃ r, stored_rollup (ps_db s) h r.
(** What is left in place of [s]: no proof is lost, and new ones are of the first
    [n] blocks. *)
Definition adds (n : nat) s s' : Prop :=
  (∀ h, is_stored s h → is_stored s' h) ∧ (∀ h, is_stored s' h → is_stored s h ∨ h ≤ Z.of_nat n).
Definition survives bs n s s' : Prop := stoppable bs n s' ∧ sound bs s' ∧ adds n s s'.

Lemma adds_refl n s s' : ps_db s' = ps_db s → adds n s s'.
Proof. unfold adds, is_stored. intros ->. auto. Qed.
Lemma adds_trans n s s' s'' : adds n s s' → adds n s' s'' → adds n s s''.
Proof. intros [Ha Ha2] [Hb Hb2]. split; [auto|]. intros h [?|?]%Hb2; auto. Qed.
Lemma adds_last_seen n s s' b : ps_db s' = set_last_seen_block (ps_db s) b → adds n s s'.
Proof.
  unfold adds, is_stored. intros ->. split; intros h [r Hr]; [exists r; by apply stored_last_seen|left; exists r].
  by apply (stored_last_seen (ps_db s) b).
Qed.
Lemma adds_rollup n s s' h r : in_width 64 h → h ≤ Z.of_nat n → ps_db s' = set_rollup (ps_db s) h r → adds n s s'.
Proof.
  intros Hw Hh Hdb. unfold adds, is_stored. rewrite Hdb. split; intros h' [r' Hr'].
  - destruct (decide (h' = h)) as [->|Hne]; [exists r|exists r']; apply stored_set; auto.
  - apply stored_set in Hr' as [[-> _]|[_ Hr']]; eauto.
Qed.

Lemma spec_root_empty : empty_hash D = spec_root D ∅.
Proof. rewrite empty_hash_spec by apply depth_ok. apply ref_hash_ext. intros q _. done. Qed.
Lemma no_block_seen bs : no_block = mk_last_seen (Z.of_nat 0) (spec_root D (notes_at bs 0)).
Proof. unfold no_block. by rewrite spec_root_empty. Qed.
Lemma settled_stoppable bs k s : settled bs k s → stoppable bs k s.
Proof. intros [? ?]. exists k. eauto. Qed.

Lemma sound_last_seen bs s b t : sound bs s → sound bs (with_notes (with_db s (set_last_seen_block (ps_db s) b)) t).
Proof.
  intros [Hw Hv Hr]. split; [by apply set_last_seen_wf| |].
  - unfold get_version, set_last_seen_block, prover_db_set in *. cbn. by rewrite lookup_insert_ne.
  - intros h r Hs. apply Hr. by apply (stored_last_seen (ps_db s) b).
Qed.
Lemma sound_notes bs s t : sound bs s → sound bs (with_notes s t).
Proof. by intros [? ? ?]. Qed.
Lemma sound_rollup bs s h r : in_width 64 h → proof_of bs h r → sound bs s → sound bs (with_db s (set_rollup (ps_db s) h r)).
Proof.
  intros Hh Hp [Hw Hv Hr]. split; [by apply set_rollup_wf| |].
  - unfold get_version, set_rollup, prover_db_set in *. cbn. by rewrite lookup_insert_ne.
  - intros h' r' Hs. apply stored_set in Hs as [[-> ->]|[_ Hs]]; [done|by apply Hr|done].
Qed.
Lemma seen_recorded bs k s b t :
  (k ≤ length bs)%nat → b = mk_last_seen (Z.of_nat k) (spec_root D (notes_at bs k)) →
  seen bs k (with_notes (with_db s (set_last_seen_block (ps_db s) b)) t).
Proof. intros Hk ->. split; [done|]. eexists. split; [apply last_seen_set|done]. Qed.
Lemma chain_width bs i b : chain_ok bs → bs !! i = Some b → in_width 64 (bheight b).
Proof.
  intros Hc Hb. rewrite (ch_height bs Hc i b Hb). pose proof (ch_length bs Hc) as Hl. apply lookup_lt_Some in Hb.
  unfold in_width in *. lia.
Qed.

(** ** One commit *)

Lemma apply_commit_run bs i b s p k :
  chain_ok bs → bs !! i = Some b → seen bs i s → wf_persistent D p → elems p = notes_at bs i → sound bs s →
  ∃ s1 s2, apply_commit temp_noir s p b k = (s1 :: s2 :: (k s2).1, (k s2).2) ∧
    survives bs (S i) s s1 ∧ survives bs (S i) s s2 ∧ settled bs (S i) s2 ∧ ps_postgres s2 = ps_postgres s ∧
    (∀ h r, stored_rollup (ps_db s) h r → stored_rollup (ps_db s2) h r).
Proof.
  intros Hc Hb Hseen Hwf He Hs. pose proof (lookup_lt_Some _ _ _ Hb) as Hi.
  destruct (apply_chain_block bs i b p Hc Hb Hwf He) as (p' & Ha & Hwf' & He').
  unfold apply_commit. fold (bstate b) (bheight b). rewrite Ha. unfold write. cbn [fst snd].
  assert (settled bs (S i) (with_db (with_notes s (Some p')) (set_last_seen_block (ps_db s) (mk_last_seen (bheight b) (root (bstate b)))))) as Hset.
  { split; [|split; [lia|by exists p']].
    apply (seen_recorded bs (S i) s _ (Some p')); [lia|]. rewrite (ch_height bs Hc i b Hb), (ch_root bs Hc i b Hb). f_equal. lia. }
  assert (∀ h r l, stored_rollup (ps_db s) h r → stored_rollup (set_last_seen_block (ps_db s) l) h r) as Hkeep.
  { intros h r l Hr. by apply stored_last_seen. }
  eexists _, _. split; [reflexivity|]. split_and!; [| |done|done|intros h r; apply Hkeep].
  - split_and!; [|by apply sound_notes|by apply adds_refl]. exists i. split_and!; [lia|done|]. right. exists (S i). split; [lia|by exists p'].
  - split_and!; [by eapply settled_stoppable|by apply (sound_last_seen bs s _ (Some p'))|by eapply adds_last_seen].
Qed.

Lemma settled_root bs i b s : chain_ok bs → bs !! i = Some b → settled bs (S i) s → check_root s (bstate b) = Ok tt.
Proof.
  intros Hc Hb [_ [_ (p & Hp & Hwf & He)]]. unfold check_root. rewrite Hp, decide_False; [done|].
  intros Hne. apply Hne. by rewrite (ch_root bs Hc i b Hb), (root_at bs (S i) p Hwf He).
Qed.

(** What a run of one commit leaves: every state it passes through survives a
    crash, and when it ends well the worker is at the next block. *)
Definition good_run bs i (r : run unit) (s : ProverState) : Prop :=
  Forall (survives bs (S i) s) r.1 ∧ (r.2 = Ok tt → settled bs (S i) (run_last s r)).

Lemma no_write_run bs i s (o : outcome WorkerError unit) : o ≠ Ok tt → good_run bs i (finish o) s.
Proof. by split; [constructor|]. Qed.

(** The part after a proof is made. *)
Lemma store_run bs i b nb s p q :
  chain_ok bs → bs !! i = Some b → bs !! S i = Some nb → seen bs i s → ps_tree s = Some p → wf_persistent D p → elems p = notes_at bs i →
  sound bs s → aap_old_root (aap_public q) = spec_root D (notes_at bs i) → aap_new_root (aap_public q) = root (bstate b) →
  let h := bheight b in
  let rollup_input := mk_rollup_input q h (header_hash (content b)) (approvals (header (content nb))) in
  let r := write (with_db s (set_rollup (ps_db s) h rollup_input)) (λ s, apply_commit temp_noir s p b (λ s,
             match ps_postgres s with
             | None => finish (check_root s (bstate b))
             | Some m =>
                 match m !! h with
                 | Some _ => finish (Panic "called `Result::unwrap()` on an `Err` value")
                 | None => write (mk_prover_state (ps_db s) (ps_tree s) (Some (<[h := rollup_input]> m))) (λ s, finish (check_root s (bstate b)))
                 end
             end)) in
  good_run bs i r s ∧
  ((∀ m, ps_postgres s = Some m → m !! h = None) → r.2 = Ok tt) ∧ Forall (λ s', is_stored s' h) r.1.
Proof.
  intros Hc Hb Hnb Hseen Hp Hwf He Hs Hold Hnew h ri.
  pose proof (chain_width bs i b Hc Hb) as Hw. pose proof (lookup_lt_Some _ _ _ Hb) as Hi.
  assert (proof_of bs h ri) as Hpo.
  { exists i, b, nb. split_and!; try done. apply (ch_height bs Hc i b Hb). }
  set (s0 := with_db s (set_rollup (ps_db s) h ri)).
  assert (seen bs i s0) as Hseen0.
  { destruct Hseen as [Hl (o & Ho & Hd)]. split; [done|]. exists o. by rewrite <-last_seen_rollup with (h := h) (r := ri) in Ho. }
  assert (sound bs s0) as Hs0 by (by apply sound_rollup).
  assert (adds (S i) s s0) as Hk0 by (eapply adds_rollup; [done| |done]; unfold h; rewrite (ch_height bs Hc i b Hb); lia).
  assert (survives bs (S i) s s0) as Hsv0.
  { split_and!; [|done|done]. exists i. split_and!; [lia|done|]. right. exists i. split; [lia|]. by exists p. }
  assert (∀ s', survives bs (S i) s0 s' → survives bs (S i) s s') as Hmono by (intros s' (? & ? & ?); split_and!; by eauto using adds_trans).
  unfold write at 1. match goal with |- context [apply_commit _ _ _ _ ?k] => set (K := k) end.
  destruct (apply_commit_run bs i b s0 p K Hc Hb Hseen0 Hwf He Hs0) as (s1 & s2 & -> & Hs1 & Hs2 & Hset & Hpg & Hkeep).
  assert (stored_rollup (ps_db s2) h ri) as Hst by (apply Hkeep, stored_set; [done|by left]).
  assert (is_stored s2 h) as Hst2 by (by exists ri).
  assert (is_stored s0 h) as Hst0 by (exists ri; apply stored_set; [done|by left]).
  assert (is_stored s1 h) as Hst1 by (by apply Hs1). apply Hmono in Hs1, Hs2.
  cbn [fst snd]. pose proof (settled_root bs i b s2 Hc Hb Hset) as Hroot.
  unfold K. clear K. rewrite Hpg. change (ps_postgres s0) with (ps_postgres s).
  destruct (ps_postgres s) as [m|] eqn:Hm; [destruct (m !! h) eqn:Hmh|].
  - split_and!; [split; [by passes|done]| |by passes]. intros Hn. specialize (Hn m eq_refl). congruence.
  - set (s3 := mk_prover_state _ _ _). assert (settled bs (S i) s3) as Hset3 by exact Hset.
    assert (check_root s3 (bstate b) = Ok tt) as Hr3 by (by apply (settled_root bs i)).
    unfold write, finish. cbn [fst snd]. rewrite Hr3. split_and!; [|done|by passes].
    split; [|done]. passes. destruct Hs2 as (_ & [? ? ?] & ?). split_and!; [by eapply settled_stoppable|done|by eapply adds_trans, adds_refl].
  - unfold finish. cbn [fst snd]. rewrite Hroot. split_and!; [by split; [passes|]|done|by passes].
Qed.

(** The block after the one at [i], as the commit stream tells it. *)
Definition next_of bs i (next : option (outcome NodeError Block)) : Prop :=
  ∀ nb, next = Some (Ok nb) → bs !! S i = Some nb.
(** The worker wants_proof the block at height [h]. *)
Definition wants_proof (c h : Z) (w : outcome WorkerError bool) : Prop := c < h ∧ h ∉ bad_blocks ∧ w = Ok true.
Definition lock (c h : Z) (w : outcome WorkerError bool) : outcome WorkerError bool :=
  if bool_decide (h ≤ c) || bool_decide (h ∈ bad_blocks) then Ok false else w.
Lemma lock_true c h w : lock c h w = Ok true ↔ wants_proof c h w.
Proof.
  unfold lock, wants_proof. destruct (bool_decide_reflect (h ≤ c)), (bool_decide_reflect (h ∈ bad_blocks)); cbn; intuition (try done; try lia).
Qed.

Lemma empty_block_notes bs i b : bs !! i = Some b → btxns b = [] → notes_at bs (S i) = notes_at bs i.
Proof. intros Hb Hn. by rewrite (notes_at_S bs i b Hb), Hn. Qed.

Lemma process_commit_run bs i b c w next s :
  chain_ok bs → bs !! i = Some b → next_of bs i next → settled bs i s → sound bs s →
  let r := process_commit temp_noir mode bad_blocks c w b next s in
  good_run bs i r s ∧
  (btxns b ≠ [] → wants_proof c (bheight b) w → Forall (λ s', is_stored s' (bheight b)) r.1) ∧
  (btxns b = [] ∨ lock c (bheight b) w = Ok false ∨
   wants_proof c (bheight b) w ∧ (∃ nb, next = Some (Ok nb)) ∧ (∀ m, ps_postgres s = Some m → m !! bheight b = None) →
   r.2 = Ok tt).
Proof.
  intros Hc Hb Hnext [Hseen [Hle (p & Hp & Hwf & He)]] Hs. pose proof (lookup_lt_Some _ _ _ Hb) as Hi.
  unfold process_commit. fold (bstate b) (bheight b) (lock c (bheight b) w). rewrite Hp.
  destruct (decide (btxns b = [])) as [Hnil|Hne].
  - assert (settled bs (S i) (with_db s (set_last_seen_block (ps_db s) (mk_last_seen (bheight b) (root (bstate b)))))) as Hset.
    { split; [|split; [lia|exists p; by rewrite (empty_block_notes bs i b)]].
      apply (seen_recorded bs (S i) s _ (ps_tree s)); [lia|]. rewrite (ch_height bs Hc i b Hb), (ch_root bs Hc i b Hb). f_equal. lia. }
    split_and!; [|done|done]. split; [|done]. passes. split_and!; [by eapply settled_stoppable|by apply (sound_last_seen bs s _ (ps_tree s))|by eapply adds_last_seen].
  - rewrite <-lock_true. destruct (lock c (bheight b) w) as [[]|e|m] eqn:Hlock.
    + destruct next as [[nb|e|m]|]; [|split_and!; [by apply no_write_run|by intros; passes|naive_solver]..].
      destruct (commit_proof_ok bs i b p Hc Hb Hwf He Hne) as (q & Hq & Ho & Hn). rewrite Hq, decide_False by (intros Hd; by apply Hd).
      destruct (store_run bs i b nb s p q Hc Hb (Hnext nb eq_refl) Hseen Hp Hwf He Hs Ho Hn) as (Hgood & Hok & Hst).
      split_and!; [exact Hgood|by intros _ _|]. intros [?|[?|(_ & _ & Hpg)]]; [done|done|]. by apply Hok.
    + destruct (apply_commit_run bs i b s p (λ _, finish (Ok tt)) Hc Hb Hseen Hwf He Hs) as (s1 & s2 & -> & Hs1 & Hs2 & Hset & _ & _).
      split_and!; [|done|done]. by split; [passes|].
    + split_and!; [by apply no_write_run|by intros; passes|naive_solver].
    + split_and!; [by apply no_write_run|by intros; passes|naive_solver].
Qed.
End prover_props.
