(* ===== verification/ProverRun.v ===== *)
(** The proving worker as a process that is stopped and started at will: what its
    database holds in every reachable state, and that it goes on. *)
From S2P Require Import Prelude Element MerkleHash HashCache SmirkBatch SmirkTree SmirkStorage.
From S2P Require Import Utxo BlockStore Crypto NodeBlock Mempool BlockCache NodeCommit.
From S2P Require Import NodeLedger NodeProps SignedElement Circuit Aggregate AggregateSpec AggregateProps.
From S2P Require Import ProverWorker ProverProps.

Section prover_run.
Context `{FieldLaws, CryptoLib, !Barretenberg, !BarretenbergLaws} (temp_noir : bool).
Context (mode : Mode) (bad_blocks : list Z).
Implicit Types (s : ProverState) (bs : list Block).
Notation elems p := (dom (tree_entries (p_tree p))).
Notation btxns b := (state_txns (bstate b)).

(** * Starting *)

Lemma seen_functional bs i j s : seen bs i s → seen bs j s → i = j.
Proof. intros (_ & o & Ho & Hd) (_ & o' & Ho' & Hd'). assert (o' = o) as -> by congruence. rewrite Hd in Hd'. by simplify_eq. Qed.
Lemma seen_notes bs j s t : seen bs j (with_notes s t) ↔ seen bs j s.
Proof. done. Qed.

(** The tree is loaded as it was stored. *)
Lemma load_stored bs s :
  ps_tree s = None ∨ (∃ k, tree_at bs k s) →
  ∃ p k, load_smirk temp_noir (default ∅ (p_db <$> ps_tree s)) = Ok p ∧ tree_at bs k (with_notes s (Some p)) ∧ (ps_tree s = None → k = 0%nat).
Proof.
  intros [Hn|(k & Hk & p & Hp & Hwf & He)].
  - rewrite Hn. destruct (fresh_tree temp_noir) as (p & Hl & Hwf & He & _). exists p, 0%nat. split_and!; [done| |done].
    split; [lia|]. exists p. split_and!; [done|done|]. rewrite He. set_solver.
  - rewrite Hp. destruct (load_smirk_ok temp_noir p Hwf) as (p' & Hl & Hwf' & He' & _). exists p', k. split_and!; [done| |done].
    split; [done|]. exists p'. split_and!; [done|done|]. by rewrite He'.
Qed.

Lemma start_settled bs c s n :
  settled bs n s → sound bs s → migrate_prover c s start_worker = ([], Ok (Z.of_nat n + 1)).
Proof.
  intros [(_ & o & Ho & Hd) [_ (p & Hp & Hwf & He)]] Hs. unfold migrate_prover. rewrite (so_version bs s Hs), decide_True by done.
  unfold start_worker. rewrite Ho, Hp, Hd. cbn [ls_root_hash ls_height]. rewrite decide_False; [done|].
  intros Hne. by rewrite (root_at bs n p Hwf He) in Hne.
Qed.

(** A start ends in the block it recorded, or wipes the tree. *)
Lemma restart_run bs c n s :
  chain_ok bs → stoppable bs n s → sound bs s →
  let r := restart temp_noir c s in
  Forall (survives bs n s) r.1 ∧
  ((∃ j, r.2 = Ok (Z.of_nat j + 1) ∧ seen bs j s ∧ settled bs j (run_last s r)) ∨
   (∃ m, r.2 = Panic m) ∧ ¬ (seen bs 0 s ∧ ps_tree s = None) ∧ seen bs 0 (run_last s r) ∧ ps_tree (run_last s r) = None).
Proof.
  intros Hc (j & Hj & Hseen & Ht) Hs. destruct (load_stored bs s Ht) as (p & k & Hl & Htree & Hfresh).
  unfold restart. rewrite Hl. unfold write. cbv zeta beta. set (s1 := with_notes s (Some p)).
  assert (sound bs s1) as Hs1 by (by apply sound_notes). assert (seen bs j s1) as Hseen1 by done.
  assert (survives bs n s s1) as Hsv by (split_and!; [exists j; eauto|done|by apply adds_refl]).
  destruct Htree as [Hk (p' & [= <-] & Hwf & He)].
  destruct (decide (spec_root D (notes_at bs j) = spec_root D (notes_at bs k))) as [Heq|Hne].
  - assert (settled bs j s1) as Hset.
    { split; [done|]. split; [apply Hseen|]. exists p. rewrite (ch_inj bs Hc j k (proj1 Hseen) Hk Heq). done. }
    rewrite (start_settled bs c s1 j Hset Hs1). split; [by passes|]. left. exists j. split_and!; [done|done|exact Hset].
  - unfold migrate_prover. rewrite (so_version bs s1 Hs1), decide_True by done. unfold start_worker.
    destruct Hseen1 as (Hjl & o & Ho & Hd). rewrite Ho, Hd. change (ps_tree s1) with (Some p). cbn [ls_root_hash].
    rewrite (root_at bs k p Hwf He), decide_True by done. unfold write.
    set (s2 := with_db s1 _). set (s3 := with_notes s2 None).
    assert (seen bs 0 s2) as Hseen2 by (apply (seen_recorded bs 0 s1 _ (Some p)); [lia|apply no_block_seen]).
    assert (sound bs s2) as Hs2 by (by apply (sound_last_seen bs s1 _ (Some p))).
    assert (adds n s s2) as Hkeep by (by eapply adds_last_seen).
    split.
    + passes.
      * split_and!; [|done|done]. exists 0%nat. split_and!; [lia|done|]. right. exists k. split; [done|]. by exists p.
      * split_and!; [|by apply sound_notes|done]. exists 0%nat. split_and!; [lia|done|by left].
    + right. split_and!; [by eexists| |done|done]. intros [Hseen0 Hnone]. specialize (Hfresh Hnone). subst k.
      by rewrite (seen_functional bs j 0 s Hseen Hseen0) in Hne.
Qed.

(** * The process *)

(** [Running c n]: the worker was started with the contract at height [c] and waits
    for the block after the first [n]. *)
Inductive Phase := Stopped | Running (c : Z) (n : nat).
Record World := mk_world { wd_phase : Phase; wd_contract : Z; wd_state : ProverState }.

(** [alone]: the lock is always ours. *)
Inductive prover_step bs (alone : bool) : World → World → Prop :=
| step_start c s n : (restart temp_noir c s).2 = Ok (Z.of_nat n + 1) →
    prover_step bs alone (mk_world Stopped c s) (mk_world (Running c n) c (run_last s (restart temp_noir c s)))
| step_start_stopped c s s' : s' ∈ (restart temp_noir c s).1 →
    prover_step bs alone (mk_world Stopped c s) (mk_world Stopped c s')
| step_commit c0 n c s b w next : let r := process_commit temp_noir mode bad_blocks c0 w b next s in
    bs !! n = Some b → next_of bs n next → (alone → w = Ok true) → r.2 = Ok tt →
    prover_step bs alone (mk_world (Running c0 n) c s) (mk_world (Running c0 (S n)) c (run_last s r))
| step_commit_stopped c0 n c s b w next s' :
    bs !! n = Some b → next_of bs n next → (alone → w = Ok true) →
    s' ∈ s :: (process_commit temp_noir mode bad_blocks c0 w b next s).1 →
    prover_step bs alone (mk_world (Running c0 n) c s) (mk_world Stopped c s')
| step_contract ph c c' s : c ≤ c' → prover_step bs alone (mk_world ph c s) (mk_world ph c' s)
| step_shared ph c s pg :
    prover_step bs alone (mk_world ph c s) (mk_world ph c (mk_prover_state (ps_db s) (ps_tree s) pg)).

(** A new database and no tree. *)
Definition fresh_state (pg : option (gmap Z RollupInput)) : ProverState := mk_prover_state (create_or_load true ∅) None pg.
Definition reachable bs (alone : bool) (w : World) : Prop :=
  ∃ c pg, rtc (prover_step bs alone) (mk_world Stopped c (fresh_state pg)) w.

(** No block above the contract is left out below a stored proof or the recorded
    block. *)
Definition covered s bs (h : Z) : Prop := is_stored s h ∨ ∃ j, seen bs j s ∧ h ≤ Z.of_nat j.
Definition gapless bs (c : Z) s : Prop :=
  ∀ h i b, covered s bs h → bs !! i = Some b → btxns b ≠ [] → c < bheight b ≤ h → bheight b ∉ bad_blocks →
    is_stored s (bheight b).

Record world_ok bs (alone : bool) (w : World) : Prop := {
  wo_stoppable : stoppable bs (length bs) (wd_state w);
  wo_sound : sound bs (wd_state w);
  wo_running : ∀ c n, wd_phase w = Running c n → settled bs n (wd_state w) ∧ c ≤ wd_contract w;
  wo_gapless : alone → gapless bs (wd_contract w) (wd_state w);
}.

Lemma stoppable_le bs n m s : (n ≤ m)%nat → stoppable bs n s → stoppable bs m s.
Proof. intros ? (j & ? & ? & ?). exists j. split_and!; [lia|done|done]. Qed.
Lemma run_last_in {A} s (r : run A) : run_last s r ∈ s :: r.1.
Proof.
  unfold run_last. destruct (last r.1) as [s'|] eqn:Hl; [|by left]. right. by apply last_Some_elem_of.
Qed.
Lemma gapless_contract bs c c' s : c ≤ c' → gapless bs c s → gapless bs c' s.
Proof. intros Hc Hg h i b Hh Hb Hn Hr. apply (Hg h i b Hh Hb Hn). lia. Qed.

(** Whatever is stored or recorded below [n] was covered before. *)
Lemma survives_gapless bs c n s s' :
  survives bs n s s' → gapless bs c s → (∀ h, h ≤ Z.of_nat n → covered s bs h) → gapless bs c s'.
Proof.
  intros ((j & Hj & Hseen & _) & _ & Hkeep & Hnew) Hg Hn h i b Hh Hb Hne Hr Hbad. apply Hkeep, (Hg h i b); try done.
  destruct Hh as [Hst|(j' & Hs & Hh)]; [destruct (Hnew h Hst) as [?|?]; [by left|by apply Hn]|].
  rewrite (seen_functional bs j' j s' Hs Hseen) in Hh. apply Hn. lia.
Qed.
(** The new block is stored. *)
Lemma commit_gapless bs c n b s s' :
  chain_ok bs → bs !! n = Some b → seen bs n s → survives bs (S n) s s' → gapless bs c s →
  (btxns b ≠ [] → c < bheight b → bheight b ∉ bad_blocks → is_stored s' (bheight b)) → gapless bs c s'.
Proof.
  intros Hc Hb Hseen ((j & Hj & Hseen' & _) & _ & Hkeep & Hnew) Hg Hst h i b' Hh Hb' Hne Hr Hbad.
  assert (is_stored s h ∨ h ≤ Z.of_nat n + 1) as Hcov.
  { destruct Hh as [Hs'|(j' & Hs' & Hh)]; [destruct (Hnew h Hs') as [?|?]; [by left|right; lia]|].
    rewrite (seen_functional bs j' j s' Hs' Hseen') in Hh. right. lia. }
  destruct (decide (i = n)) as [->|Hin].
  - rewrite Hb in Hb'. simplify_eq. apply Hst; [done|lia|done].
  - apply Hkeep. destruct Hcov as [Hs'|Hle]; [by apply (Hg h i b'); [left|..]|].
    apply (Hg (bheight b') i b'); try done; [|lia]. right. exists n. split; [done|].
    rewrite (ch_height bs Hc i b' Hb') in *. lia.
Qed.

Lemma fresh_ok bs (alone : bool) c pg : chain_ok bs → world_ok bs alone (mk_world Stopped c (fresh_state pg)).
Proof.
  intros Hc. assert (∀ h, ¬ is_stored (fresh_state pg) h) as Hnone.
  { intros h (r & _ & Hl). cbn in Hl. unfold set_version, prover_db_set in Hl. apply lookup_insert_Some in Hl as [[_ Hl]|[_ Hl]]; [done|].
    by rewrite lookup_empty in Hl. }
  assert (seen bs 0 (fresh_state pg)) as Hseen.
  { split; [lia|]. exists None. split; [reflexivity|]. apply no_block_seen. }
  split; cbn [wd_state wd_phase wd_contract]; [|split|done|].
  - exists 0%nat. split_and!; [lia|done|by left].
  - intros key v. cbn. unfold set_version, prover_db_set. rewrite lookup_insert_Some, lookup_empty.
    intros [[<- <-]|[_ ?]]; [|done]. right. left. by split; [|eexists].
  - reflexivity.
  - intros h r Hr. destruct (Hnone h). by exists r.
  - intros _ h i b [Hh|(j & Hj & Hh)] Hb Hne Hr; [by destruct (Hnone h)|].
    rewrite (seen_functional bs j 0 _ Hj Hseen) in Hh. rewrite (ch_height bs Hc i b Hb) in Hr. lia.
Qed.

(** Every state of a start, and of a commit, is one to stop in. *)
Lemma restart_states bs (alone : bool) c s s' :
  chain_ok bs → world_ok bs alone (mk_world Stopped c s) → s' ∈ s :: (restart temp_noir c s).1 →
  world_ok bs alone (mk_world Stopped c s').
Proof.
  intros Hc Hw [->|Hin]%elem_of_cons; [done|]. destruct Hw as [(j & Hj & Hseen & Ht) Hs _ Hg]. cbn [wd_state wd_contract] in *.
  destruct (restart_run bs c j s Hc) as [Hall _]; [by exists j|done|].
  rewrite Forall_forall in Hall. destruct (Hall s' Hin) as (Hst & Hs' & Ha).
  split; cbn [wd_state wd_contract wd_phase]; [by eapply stoppable_le|done|done|].
  intros Hal. apply (survives_gapless bs c j s); [done|by apply Hg|]. intros h Hh. right. by exists j.
Qed.
Lemma commit_states bs (alone : bool) c0 n c s b a next s' :
  chain_ok bs → world_ok bs alone (mk_world (Running c0 n) c s) → bs !! n = Some b → next_of bs n next → (alone → a = Ok true) →
  s' ∈ s :: (process_commit temp_noir mode bad_blocks c0 a b next s).1 → world_ok bs alone (mk_world Stopped c s').
Proof.
  intros Hc Hw Hb Hnext Ha [->|Hin]%elem_of_cons; [by destruct Hw; split|].
  destruct Hw as [Hst Hs Hrun Hg]. cbn [wd_state wd_contract wd_phase] in *. destruct (Hrun c0 n eq_refl) as [Hset Hle].
  destruct (process_commit_run temp_noir mode bad_blocks bs n b c0 a next s Hc Hb Hnext Hset Hs) as ([Hall _] & Hpr & _).
  rewrite Forall_forall in Hall. pose proof (Hall s' Hin) as (Hst' & Hs' & Hadd). pose proof (lookup_lt_Some _ _ _ Hb).
  split; cbn [wd_state wd_contract wd_phase]; [by eapply stoppable_le|done|done|].
  intros Hal. apply (commit_gapless bs c n b s); [done|done|apply Hset|done|by apply Hg|].
  intros Hne Hh Hbad. assert (wants_proof bad_blocks c0 (bheight b) a) as Hp by (split_and!; [lia|done|auto]).
  specialize (Hpr Hne Hp). rewrite Forall_forall in Hpr. by apply Hpr.
Qed.
Lemma running_ok bs alone c0 n c s : world_ok bs alone (mk_world Stopped c s) → settled bs n s → c0 ≤ c →
  world_ok bs alone (mk_world (Running c0 n) c s).
Proof. intros [? ? _ ?] Hset Hle. split; try done. intros ? ? [= <- <-]. done. Qed.

Lemma world_step bs alone w w' : chain_ok bs → world_ok bs alone w → prover_step bs alone w w' → world_ok bs alone w'.
Proof.
  intros Hc Hw Hstep. destruct Hstep as [c s n Hok|c s s' Hin|c0 n c s b a next r Hb Hnext Ha Hok|c0 n c s b a next s' Hb Hnext Ha Hin|ph c c' s Hle|ph c s pg].
  - apply running_ok; [eapply restart_states; [done|done|apply run_last_in]| |lia].
    destruct (restart_run bs c (length bs) s Hc (wo_stoppable _ _ _ Hw) (wo_sound _ _ _ Hw)) as [_ [(j & Hj & _ & Hset)|([m Hm] & _)]]; [|congruence].
    assert (j = n) as -> by (rewrite Hj in Hok; simplify_eq; lia). done.
  - eapply restart_states; [done|done|by right].
  - apply running_ok; [eapply commit_states; [done..|apply run_last_in]| |by apply (wo_running _ _ _ Hw c0 n)].
    destruct Hw as [_ Hs Hrun _]. destruct (Hrun c0 n eq_refl) as [Hset _].
    by apply (process_commit_run temp_noir mode bad_blocks bs n b c0 a next s Hc Hb Hnext Hset Hs).
  - by eapply commit_states.
  - destruct Hw as [Hst Hs Hrun Hg]. split; cbn [wd_state wd_phase wd_contract] in *; [done|done| |intros ?; by eapply gapless_contract, Hg].
    intros c1 n Hr. destruct (Hrun c1 n Hr). split; [done|lia].
  - destruct Hw as [Hst Hs Hrun Hg]. split; cbn [wd_state wd_phase wd_contract] in *; [done|by destruct Hs|done|done].
Qed.
Lemma reachable_ok bs alone w : chain_ok bs → reachable bs alone w → world_ok bs alone w.
Proof.
  intros Hc (c & pg & Hr). pose proof (fresh_ok bs alone c pg Hc) as Hok. revert Hok.
  induction Hr as [|x y z Hxy _ IH]; [done|]. intros Hx. by eapply IH, world_step.
Qed.

(** C8: In every state the prover can reach, through any sequence of starts,
    proved or skipped blocks, stops between any two writes, rollups by others and
    changes of the shared database, each proof it stores is of a block of the
    chain: it leads from the root before that block to the block's root and
    carries its header hash and the approvals the next block holds.  While the
    worker runs, its tree holds exactly the notes after the blocks it has seen. *)
Theorem stored_proofs_sound bs alone w :
  chain_ok bs → reachable bs alone w →
  (∀ h r, stored_rollup (ps_db (wd_state w)) h r → proof_of bs h r) ∧
  (∀ c n, wd_phase w = Running c n → seen bs n (wd_state w) ∧ tree_at bs n (wd_state w)).
Proof.
  intros Hc [_ [_ _ Hs] Hrun _]%reachable_ok; [|done]. split; [done|]. intros c n Hp. apply (Hrun c n Hp).
Qed.

(** A prover that always gets the lock leaves no gap: in every reachable
    state, each block with transactions above the contract's height, up to the
    block it recorded last or any height it stores a proof of, has a stored proof,
    the configured bad blocks apart. *)
Theorem no_proof_is_skipped bs w i b h :
  chain_ok bs → reachable bs true w →
  is_stored (wd_state w) h ∨ (∃ j, seen bs j (wd_state w) ∧ h ≤ Z.of_nat j) →
  bs !! i = Some b → btxns b ≠ [] → wd_contract w < bheight b ≤ h → bheight b ∉ bad_blocks →
  is_stored (wd_state w) (bheight b).
Proof.
  intros Hc [_ _ _ Hg]%reachable_ok Hh; [|done]. by apply (Hg I h i b).
Qed.

Lemma start_step bs alone c s :
  chain_ok bs → world_ok bs alone (mk_world Stopped c s) →
  (∃ n, prover_step bs alone (mk_world Stopped c s) (mk_world (Running c n) c (run_last s (restart temp_noir c s)))) ∨
  ¬ (seen bs 0 s ∧ ps_tree s = None) ∧
  ∃ s', prover_step bs alone (mk_world Stopped c s) (mk_world Stopped c s') ∧ seen bs 0 s' ∧ ps_tree s' = None.
Proof.
  intros Hc Hw. destruct (restart_run bs c (length bs) s Hc (wo_stoppable _ _ _ Hw) (wo_sound _ _ _ Hw))
    as [_ [(j & Hj & _)|(_ & Hn & Hseen & Hnone)]]; [left; exists j; by apply step_start|].
  right. split; [done|]. eexists. split; [|done]. apply step_start_stopped.
  destruct (elem_of_cons (restart temp_noir c s).1 (run_last s (restart temp_noir c s)) s) as [[Heq|?] _]; [apply run_last_in| |done].
  rewrite Heq in Hseen, Hnone. tauto.
Qed.

(** The prover goes on after any stop: from every reachable state that is
    stopped, it runs after at most two starts, at the block it recorded or at the
    genesis; and while it runs, the next block of the chain is processed to the
    end, when its successor is known, the lock answers, and no other proof of the
    block is in the shared database when the lock is ours. *)
Theorem prover_goes_on bs alone w a :
  chain_ok bs → reachable bs alone w → (alone → a = Ok true) → (∃ v, a = Ok v) →
  match wd_phase w with
  | Stopped => ∃ k w', (k ≤ 2)%nat ∧ nsteps (prover_step bs alone) k w w' ∧ ∃ c n, wd_phase w' = Running c n
  | Running c n =>
      ∀ b nb, bs !! n = Some b → bs !! S n = Some nb →
        (a = Ok true → ∀ m, ps_postgres (wd_state w) = Some m → m !! bheight b = None) →
        let r := process_commit temp_noir mode bad_blocks c a b (Some (Ok nb)) (wd_state w) in
        r.2 = Ok tt ∧ prover_step bs alone w (mk_world (Running c (S n)) (wd_contract w) (run_last (wd_state w) r))
  end.
Proof.
  intros Hc Hw%reachable_ok Hal [v Hv]; [|done]. destruct w as [ph c s]. cbn [wd_phase wd_contract wd_state]. destruct ph as [|c0 n].
  - destruct (start_step bs alone c s Hc Hw) as [[n Hr]|(_ & s' & Hr & Hseen & Hnone)].
    + exists 1%nat. eexists. split_and!; [lia|by apply nsteps_once|by cbn; eauto].
    + destruct (start_step bs alone c s' Hc (world_step _ _ _ _ Hc Hw Hr)) as [[n Hr']|([] & _)]; [|done].
      exists 2%nat. eexists. split_and!; [lia|by eapply nsteps_l, nsteps_once|by cbn; eauto].
  - cbn. intros b nb Hb Hnb Hpg. set (r := process_commit _ _ _ _ _ _ _ _). destruct (wo_running _ _ _ Hw c0 n eq_refl) as [Hset Hle]. cbn [wd_state] in Hset.
    assert (next_of bs n (Some (Ok nb))) as Hnext by (by intros ? [= <-]).
    assert (r.2 = Ok tt) as Hok.
    { apply (process_commit_run temp_noir mode bad_blocks bs n b c0 a _ s Hc Hb Hnext Hset (wo_sound _ _ _ Hw)). right.
      destruct (lock bad_blocks c0 (bheight b) a) as [[]|e|m] eqn:Hlock; [right|by left|..].
      - apply lock_true in Hlock as Hp. split_and!; [done|by eexists|]. apply Hpg, Hp.
      - unfold lock in Hlock. case_match; congruence.
      - unfold lock in Hlock. case_match; congruence. }
    split; [done|]. by apply step_commit.
Qed.
End prover_run.
