(* ===== verification/ProverRollup.v ===== *)
(** The rollup worker against the contract: the stored proofs are sent in order
    until the contract holds the root of the last of them. *)
From stdpp Require Import pretty.
From S2P Require Import Prelude Element MerkleHash HashCache SmirkBatch SmirkTree SmirkStorage.
From S2P Require Import Utxo BlockStore Crypto NodeBlock Mempool BlockCache NodeCommit.
From S2P Require Import NodeLedger NodeProps SignedElement Circuit Aggregate AggregateSpec AggregateProps.
From S2P Require Import ProverWorker ProverProps ProverRun.

(** * The stored proofs in order *)

Lemma rollup_key_le h h' :
  in_width 64 h → in_width 64 h' → lex_le (prover_key_serialize (PKRollup h)) (prover_key_serialize (PKRollup h')) ↔ h ≤ h'.
Proof.
  intros Hh Hh'. unfold prover_key_serialize. rewrite lex_cons, lex_be_bytes by done. cbn. split; [intros [?|[_ ?]]; lia|by right].
Qed.
#[export] Instance prover_entry_le_total : Total prover_entry_le.
Proof. intros x y. unfold prover_entry_le. apply (total lex_le). Qed.
#[export] Instance prover_entry_le_trans : Transitive prover_entry_le.
Proof. intros x y z. unfold prover_entry_le. apply (transitivity (R := lex_le)). Qed.

Lemma prover_item_rollup h r : in_width 64 h → prover_item (prover_key_serialize (PKRollup h), PVRollup r) = Ok (h, r).
Proof.
  intros Hh. unfold prover_item, prover_key_serialize. cbn [fst snd prover_key_kind]. unfold prover_key_deserialize.
  rewrite decide_False, decide_True by done. rewrite decide_False by (rewrite be_bytes_length; lia).
  rewrite take_ge by (rewrite be_bytes_length; lia). by rewrite u64_be_roundtrip.
Qed.

(** Only rollups lie between two rollup keys. *)
Lemma range_entry db start end_ key v :
  db_wf db → in_width 64 start → in_width 64 end_ → db !! key = Some v →
  lex_le (prover_key_serialize (PKRollup start)) key → ¬ lex_le (prover_key_serialize (PKRollup end_)) key →
  ∃ h r, stored_rollup db h r ∧ key = prover_key_serialize (PKRollup h) ∧ v = PVRollup r ∧ start ≤ h < end_.
Proof.
  intros Hwf Hs He Hl Hlo Hup. destruct (Hwf key v Hl) as [[-> _]|[[-> _]|(h & r & Hh & -> & ->)]].
  - by apply lex_cons in Hlo as [?|[? _]].
  - exfalso. apply Hup, lex_cons. left. done.
  - exists h, r. rewrite rollup_key_le in Hlo, Hup by done. split_and!; [by split|done|done|done|lia].
Qed.

Definition rollup_entry (x : Z * RollupInput) : list Z * ProverValue := (prover_key_serialize (PKRollup x.1), PVRollup x.2).
Lemma rollup_entry_inj x y : in_width 64 x.1 → in_width 64 y.1 → rollup_entry x = rollup_entry y → x = y.
Proof.
  destruct x as [h r], y as [h' r']. cbn. intros Hh Hh' Heq. unfold rollup_entry in Heq. cbn [fst snd] in Heq.
  assert (PKRollup h = PKRollup h') as [= <-] by (apply prover_key_inj; [by intros ? [= <-]..|by apply (f_equal fst) in Heq]).
  by apply (f_equal snd) in Heq as [= ->].
Qed.
Lemma entries_of (E : list (list Z * ProverValue)) :
  (∀ kv, kv ∈ E → ∃ x, in_width 64 x.1 ∧ kv = rollup_entry x) → ∃ l, E = rollup_entry <$> l ∧ Forall (λ x, in_width 64 x.1) l.
Proof.
  induction E as [|kv E IH]; intros HE; [by exists []|]. destruct IH as (l & -> & Hl); [intros x Hx; apply HE; by right|].
  destruct (HE kv) as (x & Hx & ->); [by left|]. exists (x :: l). split; [done|by constructor].
Qed.
Lemma entries_sorted l :
  Forall (λ x : Z * RollupInput, in_width 64 x.1) l → StronglySorted prover_entry_le (rollup_entry <$> l) → NoDup (rollup_entry <$> l).*1 →
  StronglySorted Z.lt l.*1.
Proof.
  induction l as [|x l IH]; intros Hw Hs Hn; [constructor|]. apply Forall_cons in Hw as [Hx Hw]. rewrite !fmap_cons in *.
  apply StronglySorted_inv in Hs as [Hs Hle]. apply NoDup_cons in Hn as [Hnot Hn]. constructor; [by apply IH|].
  rewrite Forall_forall in Hw. rewrite Forall_forall in Hle. apply Forall_forall. intros h (y & -> & Hy)%list_elem_of_fmap. specialize (Hle _ (list_elem_of_fmap_2 _ _ _ Hy)).
  apply rollup_key_le in Hle; [|done|by apply Hw]. destruct (decide (x.1 = y.1)) as [Heq|]; [|lia]. destruct Hnot.
  apply list_elem_of_fmap. exists (rollup_entry y). split; [cbn; by rewrite Heq|by apply list_elem_of_fmap_2].
Qed.

(** A listing is all there is between the bounds, in order. *)
Lemma list_rollups_ok db start end_ :
  db_wf db → in_width 64 start → in_width 64 end_ →
  ∃ l, list_rollups db start end_ = Ok <$> l ∧ StronglySorted Z.lt l.*1 ∧
    ∀ h r, (h, r) ∈ l ↔ stored_rollup db h r ∧ start ≤ h < end_.
Proof.
  intros Hwf Hs He. unfold list_rollups.
  set (entries := filter _ (map_to_list db)). pose proof (StronglySorted_merge_sort prover_entry_le entries) as Hsort.
  assert (∀ key v, (key, v) ∈ merge_sort prover_entry_le entries ↔ db !! key = Some v ∧
    lex_le (prover_key_serialize (PKRollup start)) key ∧ ¬ lex_le (prover_key_serialize (PKRollup end_)) key) as Hin.
  { intros key v. unfold entries. rewrite merge_sort_Permutation, list_elem_of_filter, elem_of_map_to_list. cbn. tauto. }
  assert (NoDup (merge_sort prover_entry_le entries).*1) as Hnd.
  { rewrite merge_sort_Permutation. eapply (sublist_NoDup _ (map_to_list db).*1); [apply NoDup_fst_map_to_list|]. apply fmap_sublist, sublist_filter. }
  destruct (entries_of (merge_sort prover_entry_le entries)) as (l & Hl & Hw).
  { intros [key v] (Hlk & Hlo & Hup)%Hin. destruct (range_entry db start end_ key v Hwf Hs He Hlk Hlo Hup) as (h & r & Hr & -> & -> & _).
    exists (h, r). split; [apply Hr|done]. }
  exists l. rewrite Hl in *. split_and!; [|by apply entries_sorted|].
  - rewrite <-list_fmap_compose. apply list_fmap_ext. intros i [h r] Hx. rewrite Forall_forall in Hw.
    exact (prover_item_rollup h r (Hw (h, r) (list_elem_of_lookup_2 _ _ _ Hx))).
  - intros h r. specialize (Hin (prover_key_serialize (PKRollup h)) (PVRollup r)). rewrite Forall_forall in Hw. split.
    + intros Hx. pose proof (Hw _ Hx) as Hh. cbn in Hh. apply (list_elem_of_fmap_2 rollup_entry) in Hx.
      apply Hin in Hx as (Hlk & Hlo & Hup). rewrite rollup_key_le in Hlo, Hup by done. split; [by split|lia].
    + intros [[Hh Hlk] Hb]. assert ((prover_key_serialize (PKRollup h), PVRollup r) ∈ rollup_entry <$> l) as Hx.
      { apply Hin. rewrite !rollup_key_le by done. split_and!; [done|lia|lia]. }
      apply list_elem_of_fmap in Hx as (x & Hx & Hxl). apply (rollup_entry_inj (h, r) x) in Hx; [by subst|done|by apply Hw].
Qed.

Lemma list_rollups_first db start end_ :
  db_wf db → in_width 64 start → in_width 64 end_ →
  (list_rollups db start end_ = [] ∧ ∀ h r, stored_rollup db h r → ¬ start ≤ h < end_) ∨
  ∃ h r l, list_rollups db start end_ = Ok (h, r) :: l ∧ stored_rollup db h r ∧ start ≤ h < end_ ∧
    ∀ h' r', stored_rollup db h' r' → start ≤ h' < end_ → h ≤ h'.
Proof.
  intros Hwf Hs He. destruct (list_rollups_ok db start end_ Hwf Hs He) as (l & -> & Hsort & Hin).
  destruct l as [|[h r] l]; [left|right].
  - split; [done|]. intros h r Hr Hb. by apply (not_elem_of_nil (h, r)), Hin.
  - destruct (proj1 (Hin h r)) as [Hr Hb]; [by left|]. exists h, r, (Ok <$> l). split_and!; [done|done|lia|lia|].
    intros h' r' Hr' Hb'. pose proof (proj2 (Hin h' r') (conj Hr' Hb')) as [Heq|Hx]%elem_of_cons; [by simplify_eq|].
    apply StronglySorted_inv in Hsort as [_ Hf]. rewrite Forall_forall in Hf. assert (h' ∈ l.*1) as Hx' by (by apply (list_elem_of_fmap_2 fst) in Hx).
    specialize (Hf h' Hx'). cbn in Hf. lia.
Qed.

(** * The contract (RollupV1.sol, verifyRollup) *)

(** The root and the height; [valid] stands for the verifier key, the validators'
    signatures, the messages and the proof.  [None]: the transaction reverts. *)
Definition verifyRollup (valid : bool) (cs : ContractRollupState) (r : RollupInput) : option ContractRollupState :=
  if decide (ri_old_root r ≠ cs_root_hash cs) then None
  else if negb valid then None
  else if decide (ri_height r ≤ cs_height cs) then None
  else Some (mk_contract_state (ri_height r) (ri_new_root r)).

Section rollup_worker.
Context `{FieldLaws, CryptoLib, !Barretenberg, !BarretenbergLaws}.
Context (show_h256 : list Z → string) (bad_blocks : list Z) (valid : RollupInput → bool).
Implicit Types (s : ProverState) (bs : list Block) (cs : ContractRollupState).
Notation btxns b := (state_txns (bstate b)).

(** The chain the contract is on answers truthfully and no transaction of ours is
    pending; what is said of the sent transaction may be anything but a panic. *)
Record honest (cs : ContractRollupState) (env : RoundEnv) : Prop := {
  ho_height : re_block_height env = Ok (cs_height cs);
  ho_root : re_root_hash env = Ok (cs_root_hash cs);
  ho_nonce : ∃ n m, re_pending_nonce env = Ok n ∧ re_latest_nonce env = Ok m ∧ n ≤ m;
  ho_before : re_before env = Ok cs;
  ho_rollup : ∀ r m, re_rollup env r ≠ Panic m;
  ho_after : ∀ r, re_after env r = Ok (default cs (verifyRollup (valid r) cs r));
  ho_notify : re_notify env = true;
}.

(** The loop of run_rollup_worker over [fuel] rounds, the contract carried along. *)
Fixpoint rollup_rounds (db : ProverDb) (postgres : bool) (env : ContractRollupState → RoundEnv) (fuel : nat)
    (retried : option Z) (cs : ContractRollupState) : ContractRollupState :=
  match fuel with
  | O => cs
  | S fuel =>
      match rollup_round show_h256 db postgres retried (env cs) with
      | Ok rr => rollup_rounds db postgres env fuel (rr_retried rr)
                   (match rr_sent rr with Some r => default cs (verifyRollup (valid r) cs r) | None => cs end)
      | _ => cs
      end
  end.

Definition contract_at bs (k : nat) cs : Prop :=
  (k ≤ length bs)%nat ∧ cs = mk_contract_state (Z.of_nat k) (spec_root D (notes_at bs k)).

Lemma empty_between bs i k :
  (i ≤ k ≤ length bs)%nat → (∀ j b, (i ≤ j < k)%nat → bs !! j = Some b → btxns b = []) → notes_at bs k = notes_at bs i.
Proof.
  intros [Hik Hk] Hempty. induction Hik as [|k Hik IH]; [done|]. destruct (lookup_lt_is_Some_2 bs k) as [b Hb]; [lia|].
  rewrite (empty_block_notes bs k b Hb) by (apply (Hempty k b); [lia|done]). apply IH; [lia|]. intros j b' Hj. apply Hempty. lia.
Qed.

Lemma stored_index bs s h : sound bs s → is_stored s h → ∃ i b, bs !! i = Some b ∧ h = Z.of_nat i + 1 ∧ (S i < length bs)%nat.
Proof.
  intros Hs [r Hr]. destruct (so_rollups bs s Hs h r Hr) as (i & b & nb & Hb & Hnb & -> & _). exists i, b. split_and!; [done|done|].
  by apply lookup_lt_Some in Hnb.
Qed.

(** A proof the contract takes is found applied, whatever was said of it. *)
Lemma round_applied db pg retried env cs h r l :
  honest cs env → list_rollups db (wrap 64 (cs_height cs + 1)) (2 ^ 64 - 1) = Ok (h, r) :: l →
  verifyRollup (valid r) cs r = Some (mk_contract_state (ri_height r) (ri_new_root r)) →
  rollup_round show_h256 db pg retried env = Ok (mk_round true None (Some r)).
Proof.
  intros Hh Hl Hver. assert (ri_old_root r = cs_root_hash cs) as Hold.
  { unfold verifyRollup in Hver. destruct (decide (ri_old_root r = cs_root_hash cs)); [done|]. by rewrite decide_True in Hver. }
  unfold rollup_round. rewrite (ho_height _ _ Hh), (ho_root _ _ Hh). cbn [map_err outcome_bind]. rewrite Hl. cbn [map_err outcome_bind].
  rewrite decide_False by tauto. cbn [outcome_bind].
  destruct (ho_nonce _ _ Hh) as (n & m & -> & -> & Hnm). cbn [map_err outcome_bind]. rewrite decide_False by lia.
  rewrite (ho_before _ _ Hh), (ho_after _ _ Hh), Hver. cbn [map_err outcome_bind default].
  assert (∀ retried, judge_rollup show_h256 h retried r env cs (mk_contract_state (ri_height r) (ri_new_root r)) =
    Ok (mk_round true None (Some r))) as Hj.
  { intros o. unfold judge_rollup, classify_rollup_progress. cbn [cs_height cs_root_hash].
    rewrite !bool_decide_true by done. cbn [andb]. by rewrite (ho_notify _ _ Hh). }
  pose proof (ho_rollup _ _ Hh r) as Hnp. destruct (re_rollup env r) as [tx|e|mm]; [apply Hj|apply Hj|by destruct (Hnp mm)].
Qed.

(** One round: the first proof above the contract fits it and is applied. *)
Lemma round_advances bs s pg retried env k cs :
  chain_ok bs → sound bs s → gapless bad_blocks bs (Z.of_nat k) s → contract_at bs k cs → honest cs env →
  (∀ b, b ∈ bs → Z.of_nat k < bheight b → bheight b ∉ bad_blocks) → (∀ h r, stored_rollup (ps_db s) h r → valid r = true) →
  (rollup_round show_h256 (ps_db s) pg retried env = Ok (mk_round false None None) ∧ ∀ h, is_stored s h → h ≤ Z.of_nat k) ∨
  ∃ k' r cs', rollup_round show_h256 (ps_db s) pg retried env = Ok (mk_round true None (Some r)) ∧
    verifyRollup (valid r) cs r = Some cs' ∧ contract_at bs k' cs' ∧ is_stored s (Z.of_nat k') ∧ (k < k')%nat.
Proof.
  intros Hc Hs Hg [Hk Hcs] Hh Hbad Hval. pose proof (ch_length bs Hc) as Hlen. unfold in_width in Hlen.
  assert (wrap 64 (Z.of_nat k + 1) = Z.of_nat k + 1) as Hwr by (apply wrap_small; unfold in_width; lia).
  destruct (list_rollups_first (ps_db s) (Z.of_nat k + 1) (2 ^ 64 - 1)) as [[Hl Hnone]|(h & r & l & Hl & Hr & Hb & Hmin)];
    [apply Hs|unfold in_width; lia|done| |].
  - left. unfold rollup_round. rewrite (ho_height _ _ Hh). cbn [map_err outcome_bind]. rewrite Hcs. cbn [cs_height].
    rewrite Hwr, Hl. split; [done|]. intros h Hst. destruct (stored_index bs s h Hs Hst) as (i & b & Hb & -> & Hi).
    destruct Hst as [r Hr]. specialize (Hnone _ _ Hr). lia.
  - right. destruct (so_rollups bs s Hs h r Hr) as (i & b & nb & Hbi & Hnb & -> & Hhr & Hold & Hnew & _).
    apply lookup_lt_Some in Hnb.
    assert (notes_at bs i = notes_at bs k) as Hsame.
    { apply empty_between; [lia|]. intros j b' Hj Hb'. destruct (decide (btxns b' = [])) as [?|Hne]; [done|]. exfalso.
      destruct (Hg (Z.of_nat i + 1) j b') as [r' Hr']; [left; by eexists|done|done| | |].
      - rewrite (ch_height bs Hc j b' Hb'). lia.
      - apply Hbad; [by eapply list_elem_of_lookup_2|]. rewrite (ch_height bs Hc j b' Hb'). lia.
      - rewrite (ch_height bs Hc j b' Hb') in Hr'. specialize (Hmin _ _ Hr'). lia. }
    assert (verifyRollup (valid r) cs r = Some (mk_contract_state (ri_height r) (ri_new_root r))) as Hver.
    { unfold verifyRollup. rewrite Hcs, (Hval _ _ Hr), decide_False, decide_False; cbn; [done|lia|]. rewrite Hold, Hsame. tauto. }
    exists (S i), r, (mk_contract_state (ri_height r) (ri_new_root r)). split_and!; [|done| |exists r; by replace (Z.of_nat (S i)) with (Z.of_nat i + 1) by lia|lia].
    + eapply round_applied; [exact Hh| |exact Hver]. rewrite Hcs. cbn [cs_height]. rewrite Hwr. exact Hl.
    + split; [lia|]. rewrite Hhr, Hnew, (ch_root bs Hc i b Hbi). f_equal. lia.
Qed.

(** Without proofs above the contract the rounds leave it alone. *)
Lemma idle_rounds bs s pg env k cs fuel retried :
  chain_ok bs → sound bs s → contract_at bs k cs → (∀ cs, honest cs (env cs)) →
  (∀ h, is_stored s h → h ≤ Z.of_nat k) → rollup_rounds (ps_db s) pg env fuel retried cs = cs.
Proof.
  intros Hc Hs Hcs Henv Hidle. revert retried. induction fuel as [|fuel IH]; intros retried; [done|]. cbn [rollup_rounds].
  assert (rollup_round show_h256 (ps_db s) pg retried (env cs) = Ok (mk_round false None None)) as ->; [|apply IH].
  destruct Hcs as [Hk ->]. pose proof (ch_length bs Hc) as Hlen. unfold in_width in Hlen.
  unfold rollup_round. rewrite (ho_height _ _ (Henv _)). cbn [map_err outcome_bind cs_height].
  rewrite wrap_small by (unfold in_width; lia).
  destruct (list_rollups_first (ps_db s) (Z.of_nat k + 1) (2 ^ 64 - 1)) as [[-> _]|(h & r & l & _ & Hr & Hb & _)];
    [apply Hs|unfold in_width; lia|done|done|].
  assert (is_stored s h) as Hst by (by exists r). specialize (Hidle h Hst). lia.
Qed.

Lemma rounds_catch_up bs s pg env k cs fuel retried :
  chain_ok bs → sound bs s → gapless bad_blocks bs (Z.of_nat k) s → contract_at bs k cs → (∀ cs, honest cs (env cs)) →
  (∀ b, b ∈ bs → Z.of_nat k < bheight b → bheight b ∉ bad_blocks) → (∀ h r, stored_rollup (ps_db s) h r → valid r = true) →
  (length bs - k ≤ fuel)%nat →
  ∃ k', (k ≤ k')%nat ∧ contract_at bs k' (rollup_rounds (ps_db s) pg env fuel retried cs) ∧ ∀ h, is_stored s h → h ≤ Z.of_nat k'.
Proof.
  intros Hc Hs Hg Hcs Henv Hbad Hval. revert k cs retried Hg Hcs Hbad. induction fuel as [|fuel IH]; intros k cs retried Hg Hcs Hbad Hf.
  - exists k. split_and!; [done|done|]. intros h Hst. destruct (stored_index bs s h Hs Hst) as (i & b & _ & -> & Hi).
    destruct Hcs as [Hk _]. lia.
  - cbn [rollup_rounds].
    destruct (round_advances bs s pg retried (env cs) k cs Hc Hs Hg Hcs (Henv cs) Hbad Hval) as [[-> Hdone]|(k' & r & cs' & -> & Hver & Hcs' & _ & Hlt)];
      cbn [rr_retried rr_sent].
    + exists k. rewrite (idle_rounds bs s pg env k cs); auto.
    + rewrite Hver. cbn [default]. destruct (IH k' cs' None) as (k2 & Hle & Hat & Hst); [|done| |lia|].
      * eapply gapless_contract; [|exact Hg]. lia.
      * intros b Hb Hlt'. apply Hbad; [done|lia].
      * exists k2. split_and!; [lia|done|done].
Qed.

End rollup_worker.

(** * Waiting for a transaction *)

Definition unknown_at (p : Poll) : Prop := po_receipt p = Ok None ∧ po_known p = Ok false.

(** What each answer rests on; the polls of [early] came before [polls]. *)
Inductive wait_end (tx : list Z) (t0 : Z) (early polls : list Poll) : outcome ProverError (list Z) → Prop :=
| we_confirmed p status : p ∈ polls → po_receipt p = Ok (Some status) → status ≠ Some 0 → wait_end tx t0 early polls (Ok tx)
| we_reverted p : p ∈ polls → po_receipt p = Ok (Some (Some 0)) → wait_end tx t0 early polls (Err (RollupTransactionReverted tx))
| we_dropped p q : p ∈ early ++ polls → q ∈ polls → unknown_at p → unknown_at q → po_set p + UNKNOWN_MS < po_check q →
    wait_end tx t0 early polls (Err (RollupTransactionDropped tx))
| we_timeout p : p ∈ polls → po_receipt p = Ok None → ROLLUP_MS < po_elapsed p - t0 → wait_end tx t0 early polls (Err RollupTransactionTimeout)
| we_web3 p e : p ∈ polls → po_receipt p = Err e ∨ po_known p = Err e → wait_end tx t0 early polls (Err (Web3 e))
| we_panic p m : p ∈ polls → po_receipt p = Panic m ∨ po_known p = Panic m → wait_end tx t0 early polls (Panic m).

Lemma wait_end_later tx t0 early p polls o : wait_end tx t0 (early ++ [p]) polls o → wait_end tx t0 early (p :: polls) o.
Proof.
  assert (∀ q, q ∈ polls → q ∈ p :: polls) as Hlater by (intros; by right).
  intros He. destruct He as [q st Hq ? ?|q Hq ?|q q' Hq Hq' ? ? ?|q Hq ? ?|q e Hq ?|q m Hq ?];
    [by eapply we_confirmed; eauto|by eapply we_reverted; eauto| |by eapply we_timeout; eauto|by eapply we_web3; eauto|by eapply we_panic; eauto].
  eapply (we_dropped _ _ _ _ q q'); eauto. by rewrite <-app_assoc in Hq.
Qed.

Lemma wait_rollup_end tx t0 polls d early :
  (∀ t, d = Some t → ∃ p, p ∈ early ∧ unknown_at p ∧ t = po_set p + UNKNOWN_MS) →
  match wait_rollup tx t0 d polls with
  | None => ∀ p, p ∈ polls → po_elapsed p - t0 ≤ ROLLUP_MS
  | Some o => wait_end tx t0 early polls o
  end.
Proof.
  revert d early. induction polls as [|p polls IH]; intros d sp Hd; [by intros p ?%elem_of_nil|]. cbn [wait_rollup].
  assert (p ∈ p :: polls) as Hp by (by left).
  destruct (po_receipt p) as [[status|]|e|m] eqn:Hrec; [| |by eapply we_web3; eauto|by eapply we_panic; eauto].
  { case_decide as Hs; [subst; by eapply we_reverted|by eapply we_confirmed]. }
  destruct (po_known p) as [known|e|m] eqn:Hk; [|by eapply we_web3; eauto|by eapply we_panic; eauto].
  set (d' := if known then d else _).
  assert (∀ t, d' = Some t → ∃ q, q ∈ sp ++ [p] ∧ unknown_at q ∧ t = po_set q + UNKNOWN_MS) as Hd'.
  { assert (∀ t, d = Some t → ∃ q, q ∈ sp ++ [p] ∧ unknown_at q ∧ t = po_set q + UNKNOWN_MS) as Hold.
    { intros t Ht. destruct (Hd t Ht) as (q & ? & ?). exists q. split; [apply elem_of_app; by left|done]. }
    intros t. unfold d'. destruct known; [by apply Hold|]. intros [= <-]. destruct d as [t'|]; cbn; [by apply Hold|].
    exists p. split_and!; [apply elem_of_app; right; by left|done|done]. }
  destruct (negb known && bool_decide (default 0 d' < po_check p)) eqn:Hdrop.
  { apply andb_true_iff in Hdrop as [Hkn%negb_true_iff Hlt%bool_decide_eq_true]. subst known.
    destruct (Hd' (default (po_set p + UNKNOWN_MS) d) eq_refl) as (q & Hq & Hu & Ht). eapply (we_dropped _ _ _ _ q p); [|done|done|done|cbn in Hlt; lia].
    apply elem_of_app in Hq as [?|?%list_elem_of_singleton]; apply elem_of_app; [by left|right]. by subst. }
  clear Hdrop. destruct (decide (ROLLUP_MS < po_elapsed p - t0)) as [Hto|Hto]; [by eapply we_timeout|].
  specialize (IH d' (sp ++ [p]) Hd'). destruct (wait_rollup tx t0 d' polls); [by apply wait_end_later|].
  intros q [->|Hq]%elem_of_cons; [lia|by apply IH].
Qed.

(** Waiting for a sent rollup ends, and for a reason: as soon as five minutes
    have passed at a poll there is an answer; success means a receipt that is not
    of a failure, a revert means a receipt of one, a drop means two polls more than
    fifteen seconds apart that both knew neither receipt nor transaction, a
    timeout that five minutes have passed, and a transport error one that occurred. *)
Theorem rollup_wait_ends tx t0 polls :
  match rollup (Ok tx) t0 polls with
  | None => ∀ p, p ∈ polls → po_elapsed p - t0 ≤ ROLLUP_MS
  | Some o => wait_end tx t0 [] polls o
  end.
Proof. apply wait_rollup_end. done. Qed.

(** C10: The database stays well typed: in every state the prover can reach, each
    listing of its proofs decodes without an error, in increasing height, and holds
    exactly the stored proofs between the bounds. *)
Theorem rollups_listed `{FieldLaws, CryptoLib, !Barretenberg, !BarretenbergLaws} temp_noir mode bad_blocks bs alone w start end_ :
  chain_ok bs → reachable temp_noir mode bad_blocks bs alone w → in_width 64 start → in_width 64 end_ →
  ∃ l, list_rollups (ps_db (wd_state w)) start end_ = Ok <$> l ∧ StronglySorted Z.lt l.*1 ∧
    ∀ h r, (h, r) ∈ l ↔ stored_rollup (ps_db (wd_state w)) h r ∧ start ≤ h < end_.
Proof. intros Hc [_ Hs _ _]%reachable_ok Ha Hb; [|done]. by apply list_rollups_ok; [apply Hs|..]. Qed.

(** * Limits *)

(** An error the chain answers with is not recognised as a nonce conflict, whatever
    it says: the text of the error does not contain its source. *)
Theorem nonce_conflicts_unnoticed show_h256 e :
  (∃ w, e = Web3 w) ∨ (∃ w, e = Web3Contract w) ∨ (∃ c, e = Contract c) → is_nonce_conflict_error show_h256 e = false.
Proof. by intros [[w ->]|[[w ->]|[c ->]]]. Qed.

(** A database without a version that stores a proof at or above the contract's
    height is never migrated when there is a shared database. *)
Theorem migration_is_refused c s k h r :
  db_wf (ps_db s) → in_width 64 c → get_version (ps_db s) = Ok None → is_Some (ps_postgres s) →
  stored_rollup (ps_db s) h r → c ≤ h < 2 ^ 64 - 1 → migrate_prover c s k = finish (Err WPostgres).
Proof.
  intros Hwf Hc Hv Hpg Hr Hh. unfold migrate_prover. rewrite Hv, bool_decide_true by done.
  destruct (list_rollups_first (ps_db s) c (2 ^ 64 - 1) Hwf Hc) as [[_ Hn]|(h' & r' & l & -> & _)]; [done| |done].
  by destruct (Hn h r Hr).
Qed.
