(* ===== verification/ProverWitness.v ===== *)
(** A chain of a mint and an empty block, proved and rolled up. *)
From S2P Require Import Prelude Element MerkleHash HashCache SmirkBatch SmirkTree SmirkPath.
From S2P Require Import SmirkStorage BlockStore Crypto Utxo NodeBlock SignedElement Circuit.
From S2P Require Import NodeCommit NodeLedger NodeProps NodeProducer NodeWitness.
From S2P Require Import Aggregate AggregateSpec AggregateProps AggregateGaps AggregateWitness.
From S2P Require Import ProverWorker ProverProps ProverRun ProverRollup.

#[local] Notation elems p := (dom (tree_entries (p_tree p))).

(** * The root of a tree with one note *)

Fixpoint lone (e : Element) (q : list bool) : Element * Element :=
  match q with
  | [] => (e, NULL_HASH)
  | b :: q => let '(x, empty) := lone e q in (hash_merge (if b : bool then [empty; x] else [x; empty]), hash_merge [empty; empty])
  end.
Lemma lone_empty e q : ref_hash (length q) (λ _, NULL_HASH) = (lone e q).2.
Proof. induction q as [|b q IH]; [done|]. cbn [length lone]. destruct (lone e q) as [x em]. cbn [snd] in *. cbn [ref_hash]. by rewrite IH. Qed.
Lemma lone_root e q s : (∀ r, s r = if decide (r = q) then e else NULL_HASH) → ref_hash (length q) s = (lone e q).1.
Proof.
  revert s. induction q as [|b q IH]; intros s Hs; [cbn; by rewrite Hs|]. cbn [length lone].
  pose proof (IH (λ r, s (b :: r))) as Hb. pose proof (lone_empty e q) as He. destruct (lone e q) as [x em]. cbn [fst snd] in *.
  assert (ref_hash (length q) (λ r, s (negb b :: r)) = em) as Hn.
  { rewrite <-He. apply ref_hash_ext. intros r _. rewrite Hs, decide_False; [done|]. by destruct b. }
  assert (ref_hash (length q) (λ r, s (b :: r)) = x) as Hx.
  { apply Hb. intros r. rewrite Hs. destruct (decide (r = q)) as [->|Hne]; [by rewrite decide_True|rewrite decide_False; congruence]. }
  cbn [ref_hash]. destruct b; cbn [negb] in Hn; by rewrite Hx, Hn.
Qed.

Definition ex_notes : gset Element := {[100]}.
Lemma ex_notes_root : spec_root D ex_notes = (lone 100 (slot D 100)).1.
Proof.
  unfold spec_root. rewrite <-(lone_root 100 (slot D 100) (SmirkTree.content D ex_notes)).
  - reflexivity.
  - intros r. unfold SmirkTree.content, ex_notes. rewrite elements_singleton. cbn [List.find].
    destruct (decide (r = slot D 100)) as [->|Hne]; [by rewrite bool_decide_true|by rewrite bool_decide_false].
Qed.
Lemma ex_notes_differ : spec_root D ex_notes ≠ spec_root D ∅.
Proof.
  rewrite ex_notes_root. rewrite <-spec_root_empty.
  apply (bool_decide_unpack ((lone 100 (slot D 100)).1 ≠ empty_hash D)). by vm_compute.
Qed.

(** * The chain *)

Definition pw_txn : UtxoProof := ex_prove (mk_public_input (0, 0) (100, 0) [2; 7; 5; 77; 0]).
Definition pw_block (h : Z) (ts : list UtxoProof) (sigs : list (list Z)) : Block :=
  mk_block (mk_content (mk_header h [] 0 [] sigs) (mk_state (spec_root D ex_notes) ts)) [].
Definition pw_mint : Block := pw_block 1 [pw_txn] [].
Definition pw_empty : Block := pw_block 2 [] [[7]].
Definition pw_chain : list Block := [pw_mint; pw_empty].

Lemma pw_notes_1 : foldl after ∅ [pw_txn] = ex_notes.
Proof. apply (bool_decide_unpack (foldl after ∅ [pw_txn] = ex_notes)). by vm_compute. Qed.
Lemma pw_notes i : (1 ≤ i)%nat → notes_at pw_chain i = ex_notes.
Proof.
  intros Hi. unfold notes_at. destruct i as [|[|i]]; [lia| |]; cbn [pw_chain take foldl];
    [apply pw_notes_1|destruct i; apply pw_notes_1].
Qed.

Lemma pw_fits : fits ∅ [pw_txn].
Proof.
  split.
  - apply Forall_singleton. by apply small_fields.
  - apply (bool_decide_unpack (NoDup (([pw_txn] ≫= txn_outs) ++ ([pw_txn] ≫= txn_ins)))). by vm_compute.
  - set_solver.
  - intros e He. exfalso. revert He. change ([pw_txn] ≫= txn_ins) with (@nil Element). apply not_elem_of_nil.
  - intros x y Hx Hy. assert (∀ e, e ∈ (∅ : gset Element) ∪ list_to_set [100] → e = 100) as Hw by (clear; set_solver).
    by rewrite (Hw x Hx), (Hw y Hy).
Qed.
Lemma pw_lookup i b : pw_chain !! i = Some b → (i = 0%nat ∧ b = pw_mint) ∨ (i = 1%nat ∧ b = pw_empty).
Proof. destruct i as [|[|i]]; cbn; intros; simplify_eq; auto. Qed.
Lemma fits_none S : slots_apart S → fits S [].
Proof. intros Ha. split; [constructor|constructor|set_solver|set_solver|]. eapply slots_apart_mono; [|exact Ha]. set_solver. Qed.

Lemma pw_chain_ok : chain_ok pw_chain.
Proof.
  split.
  - by apply (bool_decide_unpack (in_width 64 _)).
  - by intros i b [[-> ->]|[-> ->]]%pw_lookup.
  - intros i b [[-> ->]|[-> ->]]%pw_lookup; [exact pw_fits|]. rewrite pw_notes by lia. apply fits_none.
    intros x y Hx%elem_of_singleton Hy%elem_of_singleton _. by subst.
  - intros i b [[-> ->]|[-> ->]]%pw_lookup; [|by split; [constructor|cbn; lia]]. split; [|cbn; lia]. apply Forall_singleton.
    split; [split; [reflexivity|by apply small_fields|reflexivity]|].
    by apply (agg_verified (public_inputs pw_txn)); [apply small_fields|].
  - intros i b [[-> ->]|[-> ->]]%pw_lookup; rewrite pw_notes by lia; exact eq_refl.
  - intros i b [[-> ->]|[-> ->]]%pw_lookup Hne; [|done]. split; [apply empty_root|cbn; lia].
  - intros i j _ _. destruct i as [|i], j as [|j]; [intros _; exact eq_refl| | |rewrite !pw_notes by lia; intros _; exact eq_refl].
    + rewrite (pw_notes (S j)) by lia. intros Heq. exact (False_ind _ (ex_notes_differ (eq_sym Heq))).
    + rewrite (pw_notes (S i)) by lia. intros Heq. exact (False_ind _ (ex_notes_differ Heq)).
Qed.

(** * The prover on it *)

#[local] Notation pw_reachable := (reachable true ModeNode [] pw_chain true).
Definition pw_fresh : World := mk_world Stopped 0 (fresh_state None).

Lemma pw_seen_fresh : seen pw_chain 0 (fresh_state None).
Proof. split; [cbn; lia|]. exists None. split; [reflexivity|apply no_block_seen]. Qed.
Lemma restart_postgres c s : Forall (λ s', ps_postgres s' = ps_postgres s) (restart true c s).1.
Proof.
  unfold restart. destruct (load_smirk _ _) as [t|e|m]; [|by constructor..]. unfold write. cbn [fst]. constructor; [done|].
  unfold migrate_prover, start_worker, write, finish. repeat case_match; cbn; by repeat constructor.
Qed.
Lemma pw_started : ∃ s, prover_step true ModeNode [] pw_chain true pw_fresh (mk_world (Running 0 0) 0 s) ∧
  settled pw_chain 0 s ∧ sound pw_chain s ∧ ps_postgres s = None.
Proof.
  destruct (fresh_ok [] pw_chain true 0 None pw_chain_ok) as [Hst Hs _ _].
  destruct (restart_run true pw_chain 0 _ _ pw_chain_ok Hst Hs) as [Hall [(j & Hj & Hseen & Hset)|(_ & Hn & _)]].
  - rewrite (seen_functional pw_chain j 0 _ Hseen pw_seen_fresh) in Hj, Hset. 
    exists (run_last (fresh_state None) (restart true 0 (fresh_state None))). split; [by apply step_start|].
    pose proof (restart_postgres 0 (fresh_state None)) as Hpg. rewrite Forall_forall in Hall, Hpg.
    pose proof (run_last_in (fresh_state None) (restart true 0 (fresh_state None))) as [Heq|Hin]%elem_of_cons.
    + split; [exact Hset|]. rewrite Heq. exact (conj Hs eq_refl).
    + exact (conj Hset (conj (proj1 (proj2 (Hall _ Hin))) (Hpg _ Hin))).
  - destruct Hn. split; [apply pw_seen_fresh|done].
Qed.
Lemma pw_proved : ∃ s, pw_reachable (mk_world (Running 0 1) 0 s) ∧ settled pw_chain 1 s ∧ is_stored s 1.
Proof.
  destruct pw_started as (s & Hstep & Hset & Hs & Hpg).
  assert (next_of pw_chain 0 (Some (Ok pw_empty))) as Hnext by (by intros nb [= <-]).
  destruct (process_commit_run true ModeNode [] pw_chain 0 pw_mint 0 (Ok true) (Some (Ok pw_empty)) s pw_chain_ok eq_refl Hnext Hset Hs)
    as ([_ Hend] & Hst & Hok).
  assert (wants_proof [] 0 1 (Ok true)) as Hp by (split_and!; [lia|apply not_elem_of_nil|done]).
  set (r := process_commit true ModeNode [] 0 (Ok true) pw_mint (Some (Ok pw_empty)) s) in *.
  assert (r.2 = Ok tt) as Hr by (apply Hok; right; right; split_and!; [done|by eexists|congruence]).
  exists (run_last s r). split_and!; [|by apply Hend|].
  - exists 0, None. eapply rtc_l; [exact Hstep|]. apply rtc_once. by apply (step_commit true ModeNode [] pw_chain true 0 0 0 s pw_mint (Ok true)).
  - pose proof (run_last_in s r) as [Heq|Hin]%elem_of_cons.
    + specialize (Hend Hr). rewrite Heq in Hend. by pose proof (seen_functional pw_chain _ _ s (proj1 Hend) (proj1 Hset)).
    + specialize (Hst ltac:(done) Hp). rewrite Forall_forall in Hst. by apply Hst.
Qed.

(** * The theorems, applied *)

Lemma stored_proofs_sound_witness :
  ∃ s, pw_reachable (mk_world (Running 0 1) 0 s) ∧ ∃ r, stored_rollup (ps_db s) 1 r ∧ proof_of pw_chain 1 r.
Proof.
  destruct pw_proved as (s & Hr & _ & r & Hst). exists s. split; [exact Hr|]. exists r. split; [exact Hst|].
  apply (stored_proofs_sound true ModeNode [] pw_chain true (mk_world (Running 0 1) 0 s) pw_chain_ok Hr). exact Hst.
Defined.

Lemma no_proof_is_skipped_witness : ∃ s, pw_reachable (mk_world (Running 0 1) 0 s) ∧ is_stored s (bheight pw_mint).
Proof.
  destruct pw_proved as (s & Hr & Hset & _). exists s. split; [exact Hr|].
  apply (no_proof_is_skipped true ModeNode [] pw_chain (mk_world (Running 0 1) 0 s) 0 pw_mint 1 pw_chain_ok Hr).
  - right. exists 1%nat. split; [exact (proj1 Hset)|by vm_compute].
  - reflexivity.
  - discriminate.
  - change (0 < 1 ≤ 1). lia.
  - apply not_elem_of_nil.
Defined.

Lemma prover_goes_on_witness :
  ∃ k w', (k ≤ 2)%nat ∧ nsteps (prover_step true ModeNode [] pw_chain true) k pw_fresh w' ∧ ∃ c n, wd_phase w' = Running c n.
Proof.
  apply (prover_goes_on true ModeNode [] pw_chain true pw_fresh (Ok true) pw_chain_ok).
  - exists 0, None. apply rtc_refl.
  - intros _. reflexivity.
  - exists true. reflexivity.
Defined.

(** Every answer about the transaction is lost on the way. *)
Definition pw_env (cs : ContractRollupState) : RoundEnv :=
  mk_round_env (Ok (cs_height cs)) (Ok (cs_root_hash cs)) (Ok None) (Ok 3) (Ok 3) (Ok cs)
    (λ _, Err RollupTransactionTimeout) (λ r, Ok (default cs (verifyRollup true cs r))) true.

Lemma rollups_listed_witness :
  ∃ s l, pw_reachable (mk_world (Running 0 1) 0 s) ∧ list_rollups (ps_db s) 1 (2 ^ 64 - 1) = Ok <$> l ∧ ∃ r, (1, r) ∈ l.
Proof.
  destruct pw_proved as (s & Hr & _ & r & Hst).
  destruct (rollups_listed true ModeNode [] pw_chain true (mk_world (Running 0 1) 0 s) 1 (2 ^ 64 - 1) pw_chain_ok Hr) as (l & Hl & _ & Hin).
  - split; by vm_compute.
  - split; by vm_compute.
  - exists s, l. split; [exact Hr|]. split; [exact Hl|]. exists r. apply Hin. split; [exact Hst|lia].
Defined.
