(* ===== verification/Erc20.v ===== *)
(** The client of a token (contracts/src/erc20.rs) and the approval a client
    gives the rollup contract to move its tokens ([NodeClient::admin_approve] of
    cli/src/client.rs).

    The token on the base chain is a parameter ([TokenChain]): what a
    transaction of a signer does, what a query answers, and the wait for a
    transaction; [TokenLaws] is the documented behaviour of ERC-20 the code
    relies on.  Addresses are their bytes, transactions their hashes. *)
From S2P Require Import Prelude Aggregate.

Inductive Erc20Call :=
| CallMint (to : list Z) (amount : Z)
| CallTransfer (to : list Z) (amount : Z)
| CallApprove (spender : list Z) (amount : Z).

Class TokenChain := {
  chain : Type;
  send : chain → list Z → Erc20Call → chain * outcome ContractsError (list Z);
  confirm : chain → list Z → chain * outcome ContractsError Z;
  query_allowance : chain → option Z → list Z → list Z → outcome ContractsError Z;
  query_balance : chain → option Z → list Z → outcome ContractsError Z;
  authorization_logs : chain → list Z → list Z → outcome ContractsError (list (option (list Z)));
  key_address : list Z → list Z
}.

(** Mined approvals set the allowance of the signer for the spender and no
    other; minting sets none. *)
Class TokenLaws `{TokenChain} : Prop := {
  approve_sets c signer spender amount c' h c'' b :
    send c signer (CallApprove spender amount) = (c', Ok h) → confirm c' h = (c'', Ok b) →
    query_allowance c'' None signer spender = Ok amount;
  approve_keeps c signer spender amount c' h c'' b o s :
    send c signer (CallApprove spender amount) = (c', Ok h) → confirm c' h = (c'', Ok b) →
    (o, s) ≠ (signer, spender) → query_allowance c'' None o s = query_allowance c None o s;
  mint_keeps c signer to amount c' r o s :
    send c signer (CallMint to amount) = (c', r) →
    query_allowance c' None o s = query_allowance c None o s
}.

Definition U256_MAX : Z := 2 ^ 256 - 1.

Section erc20.
Context `{TokenChain}.

Record ERC20Contract := mk_erc20 {
  e_signer : list Z;
  e_signer_address : list Z;
  e_address : list Z;
  e_block_height : option Z
}.

Definition erc20_new (signer address : list Z) : ERC20Contract :=
  mk_erc20 signer (key_address signer) address None.
Definition at_height (self : ERC20Contract) (block_height : Z) : ERC20Contract :=
  mk_erc20 (e_signer self) (e_signer_address self) (e_address self) (Some block_height).

Definition erc20_call (self : ERC20Contract) (f : Erc20Call) (c : chain)
  : chain * outcome ContractsError (list Z) := send c (e_signer_address self) f.
Definition erc20_mint (self : ERC20Contract) (to : list Z) (amount : Z) := erc20_call self (CallMint to amount).
Definition erc20_transfer (self : ERC20Contract) (to : list Z) (amount : Z) :=
  erc20_call self (CallTransfer to amount).
Definition allowance (self : ERC20Contract) (owner spender : list Z) (c : chain) : outcome ContractsError Z :=
  query_allowance c (e_block_height self) owner spender.
Definition erc20_balance (self : ERC20Contract) (owner : list Z) (c : chain) : outcome ContractsError Z :=
  query_balance c (e_block_height self) owner.
Definition authorization_used_txn (self : ERC20Contract) (authorizer nonce : list Z) (c : chain)
  : outcome ContractsError (option (list Z)) :=
  let? logs := authorization_logs c authorizer nonce in
  Ok (head (omap id logs)).
Definition approve_max (self : ERC20Contract) (from : list Z) := erc20_call self (CallApprove from U256_MAX).
Definition approve (self : ERC20Contract) (from : list Z) (amount : Z) := erc20_call self (CallApprove from amount).

(** [admin_approve], from the loaded contracts on: [admin] is the address of the
    key [sk], which also signs for the rollup contract at [rollup]. *)
Definition admin_approve (sk erc20_contract rollup : list Z) (mint_erc20 : bool) (c : chain)
  : chain * outcome ContractsError unit :=
  let erc20 := erc20_new sk erc20_contract in
  let rollup_signer_address := key_address sk in
  let admin := key_address sk in
  let '(c, minted) := if mint_erc20 then erc20_mint erc20 admin 10000000 c else (c, Ok []) in
  match minted with
  | Ok _ =>
      match allowance erc20 rollup_signer_address admin c with
      | Ok allowed =>
          if decide (allowed ≠ U256_MAX) then
            let '(c, sent) := approve_max erc20 rollup c in
            match sent with
            | Ok approve_txn =>
                let '(c, confirmed) := confirm c approve_txn in
                (c, outcome_map (λ _, tt) confirmed)
            | Err e => (c, Err e)
            | Panic m => (c, Panic m)
            end
          else (c, Ok tt)
      | Err e => (c, Err e)
      | Panic m => (c, Panic m)
      end
  | Err e => (c, Err e)
  | Panic m => (c, Panic m)
  end.

Context `{!TokenLaws}.

(** An approval that goes through lets the rollup contract move every token of
    the admin, unless the admin had given itself an unlimited allowance. *)
Theorem admin_approve_grants sk erc20 rollup mint c c' :
  query_allowance c None (key_address sk) (key_address sk) ≠ Ok U256_MAX →
  admin_approve sk erc20 rollup mint c = (c', Ok tt) →
  query_allowance c' None (key_address sk) rollup = Ok U256_MAX.
Proof.
  intros Hself. unfold admin_approve, erc20_mint, approve_max, erc20_call, allowance. cbn.
  assert (Hm : ∀ c1 r, (if mint then send c (key_address sk) (CallMint (key_address sk) 10000000) else (c, Ok [])) = (c1, r) →
    query_allowance c1 None (key_address sk) (key_address sk) = query_allowance c None (key_address sk) (key_address sk)).
  { intros c1 r. destruct mint; [apply mint_keeps|by intros [= <- <-]]. }
  destruct (if mint then _ else _) as [c1 [r|?|?]] eqn:Hmint; try done.
  rewrite (Hm _ _ eq_refl). destruct (query_allowance c None _ (key_address sk)) as [a|?|?]; try done.
  rewrite decide_True by congruence.
  destruct (send c1 _ _) as [c2 [h|?|?]] eqn:Hs; try done.
  destruct (confirm c2 h) as [c3 [b|?|?]] eqn:Hc; try done. intros [= <-].
  by eapply approve_sets.
Qed.

(** The allowance that is looked up is not the one of the rollup contract: when
    the admin has given itself an unlimited one, nothing is approved and the call
    succeeds, whatever the rollup contract may move; *)
Theorem admin_approve_skips sk erc20 rollup c :
  query_allowance c None (key_address sk) (key_address sk) = Ok U256_MAX →
  admin_approve sk erc20 rollup false c = (c, Ok tt).
Proof.
  intros Hself. unfold admin_approve, allowance. cbn. by rewrite Hself, decide_False by (intros []; done).
Qed.

(** and otherwise every call sends an approval, also when the rollup contract has
    an unlimited allowance. *)
Theorem admin_approve_again sk erc20 rollup c a c1 h c2 b :
  query_allowance c None (key_address sk) (key_address sk) = Ok a → a ≠ U256_MAX →
  query_allowance c None (key_address sk) rollup = Ok U256_MAX →
  send c (key_address sk) (CallApprove rollup U256_MAX) = (c1, Ok h) → confirm c1 h = (c2, Ok b) →
  admin_approve sk erc20 rollup false c = (c2, Ok tt).
Proof.
  intros Hself Ha _ Hs Hc. unfold admin_approve, allowance, approve_max, erc20_call. cbn.
  by rewrite Hself, decide_True, Hs, Hc by done.
Qed.
End erc20.

(** A token that satisfies the laws: the map of its allowances; a transaction is
    mined when it is sent. *)
#[local] Instance toy_token : TokenChain := {|
  chain := gmap (list Z * list Z) Z;
  send c signer f :=
    (match f with CallApprove spender amount => <[(signer, spender) := amount]> c | _ => c end, Ok []);
  confirm c _ := (c, Ok 1);
  query_allowance c _ owner spender := Ok (default 0 (c !! (owner, spender)));
  query_balance _ _ _ := Ok 0;
  authorization_logs _ _ _ := Ok [];
  key_address k := k
|}.

#[local] Instance toy_token_laws : TokenLaws.
Proof.
  split; cbn.
  - intros c signer spender amount c' h c'' b Hs Hc. simplify_eq. by rewrite lookup_insert_eq.
  - intros c signer spender amount c' h c'' b o s Hs Hc Hne. simplify_eq. by rewrite lookup_insert_ne.
  - intros c signer to amount c' r o s Hs. by simplify_eq.
Qed.

(** A new admin approves the rollup contract; after an unlimited allowance to
    itself instead, the call leaves the rollup contract without one. *)
Example admin_approve_example :
  query_allowance (admin_approve [1] [2] [3] true ∅).1 None [1] [3] = Ok U256_MAX ∧
  query_allowance (admin_approve [1] [2] [3] true {[([1], [1]) := U256_MAX]}).1 None [1] [3] = Ok 0.
Proof. split; vm_compute; reflexivity. Qed.
