(* ===== verification/Contracts.v ===== *)
(** The client of the rollup contract (pkg/contracts/src: client.rs, fees.rs,
    util.rs, rollup.rs): fees and nonces, retries, waiting for confirmations, the
    calls and their encoding, logs, and the validator sets kept beside the contract.

    What the chain answers is an argument, one answer per attempt or poll. *)
From S2P Require Import Prelude Element MerkleHash HashCache SmirkTree Utxo Crypto.
From S2P Require Import NodeBlock Circuit Aggregate.

(** * Retries (client.rs) *)

Class NetworkFailure (E : Type) := is_network_failure : E → bool.
#[export] Instance web3_network_failure : NetworkFailure Web3Error :=
  λ e, match e with Transport _ => true | _ => false end.
#[export] Instance web3_contract_network_failure : NetworkFailure Web3ContractError :=
  λ e, match e with Api (Transport _) => true | _ => false end.

(** Milliseconds. *)
Definition DELAYS : list Z := [1000; 5000; 10000].

Section retry.
Context {E A : Type} `{NetworkFailure E}.

(** [f i] is the answer to attempt [i]; the result, the attempts made and the time
    slept. *)
Fixpoint retry_loop (f : nat → outcome E A) (i : nat) (delays : list Z) : outcome E A * nat * Z :=
  match delays with
  | [] => (Panic "internal error: entered unreachable code", 0%nat, 0)
  | delay :: delays =>
      match f i with
      | Err e =>
          if is_network_failure e then
            if decide (i = length DELAYS) then (Err e, 1%nat, 0)
            else let '(r, n, slept) := retry_loop f (S i) delays in (r, S n, delay + slept)
          else (Err e, 1%nat, 0)
      | r => (r, 1%nat, 0)
      end
  end.
Definition retry_run (f : nat → outcome E A) : outcome E A * nat * Z := retry_loop f 0 (DELAYS ++ [0]).
Definition retry_on_network_failure (f : nat → outcome E A) : outcome E A := (retry_run f).1.1.
End retry.

(** * Fees (fees.rs, estimate_eip1559_fees) *)

Definition U256_MAX : Z := 2 ^ 256 - 1.
Definition saturating_mul (a b : Z) : Z := Z.min (a * b) U256_MAX.
Definition saturating_add (a b : Z) : Z := Z.min (a + b) U256_MAX.

Inductive FeeStrategy := Lowest | Slow | Standard | Fast.
Definition percentile (s : FeeStrategy) : Z :=
  match s with Lowest => 1 | Slow => 25 | Standard => 50 | Fast => 90 end.
Definition base_fee_buffer_percent (s : FeeStrategy) : Z :=
  match s with Lowest => 101 | Slow => 110 | Standard => 125 | Fast => 150 end.

Record Eip1559Fees := mk_fees { base_fee : Z; priority_fee : Z; max_fee : Z }.
Record FeeHistory := mk_fee_history { base_fee_per_gas : list Z; reward : option (list (list Z)) }.

Record Client := mk_client { minimum_gas_price : option Z; use_latest_for_nonce : bool }.
Definition client_new (minimum_gas_price_gwei : option Z) : Client :=
  mk_client ((λ gwei, gwei * 1000000000) <$> minimum_gas_price_gwei) false.

(** [history]: the answer to eth_feeHistory for the percentile of the strategy. *)
Definition estimate_eip1559_fees (c : Client) (strategy : FeeStrategy) (history : Z → outcome Web3Error FeeHistory)
  : outcome Web3Error Eip1559Fees :=
  let? fee_history := history (percentile strategy) in
  let fees := base_fee_per_gas fee_history in
  if decide (length fees < 2)%nat
  then Err (Web3Other "fee_history.base_fee_per_gas had fewer than 2 entries")
  else
    let current_base_fee := nth (length fees - 2) fees 0 in
    let projected_next_base_fee := nth (length fees - 1) fees 0 in
    let base_fee := Z.max current_base_fee projected_next_base_fee in
    let? rewards := ok_or (reward fee_history) (Web3Other "fee_history.reward was missing in eth_feeHistory response") in
    let? priority_fee := ok_or (last rewards ≫= head)
      (Web3Other "fee_history.reward was empty or lacked a first entry for the requested percentile") in
    let buffered_base_fee := saturating_mul base_fee (base_fee_buffer_percent strategy) `div` 100 in
    let max_fee := saturating_add buffered_base_fee priority_fee in
    let max_fee := match minimum_gas_price c with
                   | Some min_price => if decide (max_fee < min_price) then min_price else max_fee
                   | None => max_fee
                   end in
    Ok (mk_fees base_fee priority_fee max_fee).

(** * Sending a call *)

Record CallOptions := mk_options {
  op_gas : Z; op_max_fee_per_gas : Z; op_max_priority_fee_per_gas : Z; op_nonce : Z; op_transaction_type : Z;
}.

(** Answers to one call, by attempt: the nonces and the estimates, and the
    transaction sent with the options. *)
Record CallEnv := mk_call_env {
  ce_history : Z → outcome Web3Error FeeHistory;
  ce_latest : nat → outcome Web3Error Z;
  ce_pending : nat → outcome Web3Error Z;
  ce_diff_size : CallOptions → nat → outcome Web3ContractError Z;
  ce_estimate_gas : CallOptions → nat → outcome Web3ContractError Z;
  ce_signed_call : CallOptions → nat → outcome Web3Error (list Z);
}.

Definition nonce (c : Client) (env : CallEnv) : outcome Web3Error Z :=
  if use_latest_for_nonce c then retry_on_network_failure (ce_latest env) else retry_on_network_failure (ce_pending env).
Definition options_eip1559 (c : Client) (strategy : FeeStrategy) (env : CallEnv) : outcome Web3Error CallOptions :=
  let? fees := estimate_eip1559_fees c strategy (ce_history env) in
  let? n := nonce c env in
  Ok (mk_options 10000000 (max_fee fees) (priority_fee fees) n 2).
Definition with_gas (o : CallOptions) (gas : Z) : CallOptions :=
  mk_options gas (op_max_fee_per_gas o) (op_max_priority_fee_per_gas o) (op_nonce o) (op_transaction_type o).
Definition contract_call (c : Client) (env : CallEnv) : outcome ContractsError (list Z) :=
  let? options := map_err ContractsWeb3 (options_eip1559 c Standard env) in
  let estimate := map_err ContractsWeb3Contract (retry_on_network_failure (ce_estimate_gas env options)) in
  let? gas := match retry_on_network_failure (ce_diff_size env options) with
              | Ok gas => if decide (gas ≠ 0) then Ok gas else estimate
              | Err _ => estimate
              | Panic m => Panic m
              end in
  map_err ContractsWeb3 (retry_on_network_failure (ce_signed_call env (with_gas options (saturating_add gas (gas `div` 10))))).

(** * Waiting for confirmations *)

Inductive ConfirmationType := Latest | LatestPlus (n : Z) | Finalised.

(** The transaction as it is known, and the clock in milliseconds when it is not.
    [None]: still waiting after these polls. *)
Fixpoint wait_for_transaction_inclusion (txn_hash : list Z) (unknown_timeout : Z)
    (polls : list ((nat → outcome Web3Error (option (option Z))) * Z)) : option (outcome ContractsError Z) :=
  match polls with
  | [] => None
  | (answer, now) :: polls =>
      match retry_on_network_failure answer with
      | Err e => Some (Err (ContractsWeb3 e))
      | Panic m => Some (Panic m)
      | Ok None =>
          if decide (unknown_timeout < now) then Some (Err (UnknownTransaction txn_hash))
          else wait_for_transaction_inclusion txn_hash unknown_timeout polls
      | Ok (Some None) => wait_for_transaction_inclusion txn_hash unknown_timeout polls
      | Ok (Some (Some block_number)) => Some (Ok block_number)
      end
  end.
Fixpoint wait_for_block (required : Z) (polls : list (nat → outcome Web3Error (option Z))) : option (outcome ContractsError unit) :=
  match polls with
  | [] => None
  | answer :: polls =>
      match retry_on_network_failure answer with
      | Err e => Some (Err (ContractsWeb3 e))
      | Panic m => Some (Panic m)
      | Ok (Some n) => if decide (required ≤ n) then Some (Ok tt) else wait_for_block required polls
      | Ok None => wait_for_block required polls
      end
  end.
Definition wait_for_additional_confirmations (block additional : Z) (polls : list (nat → outcome Web3Error Z))
  : option (outcome ContractsError unit) :=
  let required := block + additional in
  if decide (2 ^ 64 ≤ required) then Some (Panic "arithmetic operation overflow")
  else wait_for_block required ((λ (f : nat → outcome Web3Error Z) i, outcome_map Some (f i)) <$> polls).
(** The number of the finalised block, if there is one with a number. *)
Definition wait_for_finalized_confirmation (block : Z) (polls : list (nat → outcome Web3Error (option (option Z))))
  : option (outcome ContractsError unit) :=
  wait_for_block block ((λ (f : nat → outcome Web3Error (option (option Z))) i, outcome_map (λ b, b ≫= id) (f i)) <$> polls).

Definition UNKNOWN_TXN_MS : Z := 60 * 1000.
Definition wait_for_confirm (txn_hash : list Z) (confirmation_type : ConfirmationType) (start : Z)
    (inclusion : list ((nat → outcome Web3Error (option (option Z))) * Z))
    (latest : list (nat → outcome Web3Error Z)) (finalised : list (nat → outcome Web3Error (option (option Z))))
  : option (outcome ContractsError Z) :=
  match wait_for_transaction_inclusion txn_hash (start + UNKNOWN_TXN_MS) inclusion with
  | Some (Ok block_number) =>
      match confirmation_type with
      | Latest => Some (Ok block_number)
      | LatestPlus n => outcome_map (λ _, block_number) <$> wait_for_additional_confirmations block_number n latest
      | Finalised => outcome_map (λ _, block_number) <$> wait_for_finalized_confirmation block_number finalised
      end
  | r => r
  end.

(** * Encoding (util.rs, the Tokenizable instances of rollup.rs) *)

Definition convert_element_to_h256 (e : Element) : list Z := to_be_bytes e.
Definition convert_h160_to_element (h160 : list Z) : Element := from_be_bytes (replicate 12 0 ++ h160).

(** Values of ethabi, as far as the code uses them. *)
Inductive Token :=
| TAddress (a : list Z) | TFixedBytes (b : list Z) | TBytes (b : list Z) | TUint (n : Z) | TBool (b : bool)
| TArray (l : list Token) | TTuple (l : list Token) | TOther.

(** The conversions of single values by the web3 crate, with what it documents. *)
Class AbiLib := {
  h256_from_token : Token → outcome Web3ContractError (list Z);
  u256_from_token : Token → outcome Web3ContractError Z;
  bool_from_token : Token → outcome Web3ContractError bool;
  addresses_from_token : Token → outcome Web3ContractError (list (list Z));
}.
Class AbiLaws `{AbiLib} := {
  h256_token b : length b = 32%nat → h256_from_token (TFixedBytes b) = Ok b;
  u256_token n : in_width 256 n → u256_from_token (TUint n) = Ok n;
  bool_token b : bool_from_token (TBool b) = Ok b;
  addresses_token l : Forall (λ a, length a = 20%nat) l → addresses_from_token (TArray (TAddress <$> l)) = Ok l;
}.

Record ValidatorSet := mk_validator_set { validators : list (list Z); valid_from : Z }.
Record Burn := mk_burn { burn_to : list Z; burn_amount : Z; burn_kind : list Z }.
Record Mint := mk_mint { note_kind : Element; amount : Element; spent : bool }.

Section tokens.
Context `{AbiLib}.
Definition invalid_output {A} (m : string) : outcome Web3ContractError A := Err (Web3ContractOther m).

Definition validator_set_from_token (t : Token) : outcome Web3ContractError ValidatorSet :=
  match t with
  | TTuple [validators; valid_from] =>
      let? vs := addresses_from_token validators in
      let? n := u256_from_token valid_from in
      Ok (mk_validator_set vs n)
  | TTuple _ => invalid_output "expected tuple of length 2"
  | _ => invalid_output "expected tuple"
  end.
Definition validator_set_into_token (v : ValidatorSet) : Token :=
  TTuple [TArray (TAddress <$> validators v); TUint (valid_from v)].

Definition burn_from_token (t : Token) : outcome Web3ContractError Burn :=
  match t with
  | TTuple [to; amount; kind] =>
      let? to := h256_from_token to in
      let? amount := u256_from_token amount in
      let? kind := h256_from_token kind in
      Ok (mk_burn to amount kind)
  | TTuple _ => invalid_output "expected tuple of length 3"
  | _ => invalid_output "expected tuple"
  end.
Definition burn_into_token (b : Burn) : Token :=
  TTuple [TFixedBytes (burn_to b); TUint (burn_amount b); TFixedBytes (burn_kind b)].

(** A [U256] and an [Element] are numbers of 256 bits. *)
Definition mint_from_tokens (tokens : list Token) : outcome Web3ContractError Mint :=
  match tokens with
  | [] => Panic "index out of bounds: the len is 0 but the index is 0"
  | TTuple [kind; value; is_spent] :: _ =>
      let? kind := h256_from_token kind in
      let? value := u256_from_token value in
      let? is_spent := bool_from_token is_spent in
      Ok (mk_mint (from_be_bytes kind) value is_spent)
  | TTuple _ :: _ => invalid_output "expected tuple with 3 elements"
  | _ :: _ => invalid_output "expected tuple token"
  end.

(** [answer]: the tokens getMint returns. *)
Definition get_mint (answer : nat → outcome Web3ContractError (list Token)) : outcome ContractsError (option Mint) :=
  let? mint := map_err ContractsWeb3Contract (retry_on_network_failure (λ i, let? tokens := answer i in mint_from_tokens tokens)) in
  if decide (note_kind mint = ZERO ∧ amount mint = ZERO) then Ok None else Ok (Some mint).
End tokens.

(** ** verify_block *)

Definition UTXO_N : nat := 6.
Definition UTXO_INPUTS : nat := 5.

(** [r], [s] and the recovery byte as the contract takes it. *)
Definition signature_token (sig : list Z) : outcome ContractsError Token :=
  if decide (length sig < 65)%nat then Panic "range end index out of range for slice"
  else
    let v := nth 64 sig 0 in
    Ok (TTuple [TFixedBytes (take 32 sig); TFixedBytes (take 32 (drop 32 sig)); TUint (if decide (v < 27) then v + 27 else v)]).
Fixpoint signature_tokens (sigs : list (list Z)) : outcome ContractsError (list Token) :=
  match sigs with
  | [] => Ok []
  | s :: sigs => let? t := signature_token s in let? ts := signature_tokens sigs in Ok (t :: ts)
  end.
Definition verify_public_inputs (old_root new_root commit_hash : Element) (utxo_messages kzg : list Element) : list (list Z) :=
  convert_element_to_h256 <$> ([old_root; new_root; commit_hash] ++ utxo_messages ++ kzg).
(** The arguments of verifyRollup; [key_hash] is AGG_AGG_VERIFICATION_KEY_HASH. *)
Definition verify_block_args (key_hash proof : list Z) (old_root new_root commit_hash : Element)
    (utxo_messages kzg : list Element) (other_hash : list Z) (height : Z) (signatures : list (list Z)) : outcome ContractsError (list Token) :=
  if decide (length utxo_messages ≠ UTXO_N * UTXO_INPUTS)%nat then Panic "assertion `left == right` failed"
  else
    let? sigs := signature_tokens signatures in
    Ok [TUint height; TFixedBytes key_hash; TBytes proof;
        TArray (TFixedBytes <$> verify_public_inputs old_root new_root commit_hash utxo_messages kzg);
        TFixedBytes other_hash; TArray sigs].
Definition verify_block (c : Client) (send : list Token → CallEnv) (key_hash proof : list Z) (old_root new_root commit_hash : Element)
    (utxo_messages kzg : list Element) (other_hash : list Z) (height : Z) (signatures : list (list Z)) : outcome ContractsError (list Z) :=
  let? args := verify_block_args key_hash proof old_root new_root commit_hash utxo_messages kzg other_hash height signatures in
  contract_call c (send args).

(** * Logs *)

Definition MAX_SCAN_DEPTH : Z := 1000.
Record Log := mk_log {
  log_topics : list (list Z); log_data : list Z; log_txn_hash : option (list Z); log_block_number : option Z;
}.
Record MintAddedEvent := mk_mint_added {
  ma_mint_hash : list Z; ma_value : Z; ma_note_kind : list Z; ma_txn_hash : list Z; ma_block_number : Z;
}.
Record BurnedEvent := mk_burned {
  be_token : list Z; be_burn_hash : list Z; be_substitute : bool; be_recipient : list Z; be_success : bool;
  be_block_number : option Z; be_txn_hash : option (list Z);
}.

(** The blocks that are scanned up to [to_block]. *)
Definition scan_range (to_block : Z) : Z * Z := (Z.max 0 (to_block - (MAX_SCAN_DEPTH - 1)), to_block).
Definition mint_added_of (mint_hash : list Z) (l : Log) : option MintAddedEvent :=
  match log_txn_hash l, log_block_number l with
  | Some txn, Some block =>
      if decide (64 ≤ length (log_data l))%nat
      then Some (mk_mint_added mint_hash (from_be_bytes (take 32 (log_data l))) (take 32 (drop 32 (log_data l))) txn block) else None
  | _, _ => None
  end.
(** [logs from to]: the logs with the topics of the filter. *)
Definition get_mint_added_events (mint_hash : Element) (to_block : outcome Web3Error Z) (logs : Z → Z → outcome Web3Error (list Log))
  : outcome ContractsError (list MintAddedEvent) :=
  let? to_block := map_err ContractsWeb3 to_block in
  let '(from, to) := scan_range to_block in
  let? ls := map_err ContractsWeb3 (logs from to) in
  Ok (omap (mint_added_of (convert_element_to_h256 mint_hash)) ls).
Definition get_all_mint_added_events (latest : outcome Web3Error Z) (logs : Z → Z → outcome Web3Error (list Log))
  : outcome ContractsError (list MintAddedEvent) :=
  let? latest := map_err ContractsWeb3 latest in
  let '(from, to) := scan_range latest in
  let? ls := map_err ContractsWeb3 (logs from to) in
  Ok (omap (λ l, match log_topics l with _ :: mint_hash :: _ => mint_added_of mint_hash l | _ => None end) ls).

Definition burned_of (burn_hash : list Z) (l : Log) : option BurnedEvent :=
  match log_topics l with
  | _ :: token :: _ :: recipient :: _ =>
      if decide (64 ≤ length (log_data l))%nat
      then Some (mk_burned (drop 12 token) burn_hash (bool_decide (nth 31 (log_data l) 0 ≠ 0)) (drop 12 recipient)
                   (bool_decide (nth 63 (log_data l) 0 ≠ 0)) (log_block_number l) (log_txn_hash l))
      else None
  | _ => None
  end.
(** Scanned from the first block on. *)
Definition get_burned_events (burn_hash : Element) (logs : Z → outcome Web3Error (list Log)) : outcome ContractsError (list BurnedEvent) :=
  let? ls := map_err ContractsWeb3 (logs 0) in
  Ok (omap (burned_of (to_be_bytes burn_hash)) ls).
Definition was_burn_successful (burn_hash : Element) (logs : Z → outcome Web3Error (list Log)) : outcome ContractsError bool :=
  let? events := get_burned_events burn_hash logs in
  Ok (match events with [] => false | _ => existsb be_success events end).

(** * Validator sets *)

(** From the back: the last set that is valid from [height] or before. *)
Fixpoint last_valid (height : Z) (sets_from_back : list ValidatorSet) : outcome ContractsError (list (list Z)) :=
  match sets_from_back with
  | [] => Ok []
  | v :: vs =>
      if decide (2 ^ 64 ≤ valid_from v) then Panic "Integer overflow when casting to u64"
      else if decide (valid_from v ≤ height) then Ok (validators v) else last_valid height vs
  end.
Definition validators_for_height (sets : list ValidatorSet) (height : Z) : outcome ContractsError (list (list Z)) :=
  last_valid height (reverse sets).
(** Of the contract with a signer, which stands in for unknown sets. *)
Definition signed_validators_for_height (signer_address : list Z) (sets : list ValidatorSet) (height : Z)
  : outcome ContractsError (list (list Z)) :=
  let? vs := validators_for_height sets height in
  Ok (match vs with [] => [signer_address] | _ => vs end).

(** [query from]: getValidatorSets. *)
Notation SetsQuery := (Z → outcome ContractsError (list ValidatorSet)).
Definition load_all_validators (query : SetsQuery) : outcome ContractsError (list ValidatorSet) := query 0.

(** One tick of listen_for_validator_set_added: the next [from] and the logs. *)
Definition listen_tick (from latest : Z) (logs : Z → Z → list (list Z)) : Z * list (list Z) :=
  if decide (latest < from) then (from, []) else (Z.min (latest + 1) (2 ^ 64 - 1), logs from latest).

Definition MAX_CONSECUTIVE_TRANSPORT_ERRORS : Z := 5.
(** A log of a set that was added. *)
Definition on_set_added (sets : list ValidatorSet) (data : list Z) (query : SetsQuery) : outcome ContractsError (list ValidatorSet) :=
  if decide (length data < 64)%nat then Panic "range end index out of range for slice"
  else
    let index := from_be_bytes (take 32 data) in
    match sets with
    | [] => Panic "attempt to subtract with overflow"
    | _ =>
        let current_last_index := Z.of_nat (length sets) - 1 in
        if decide (2 ^ 64 ≤ index) then Panic "Integer overflow when casting to usize"
        else if decide (current_last_index < index) then
          let? new_validators := query (current_last_index + 1) in Ok (sets ++ new_validators)
        else Ok sets
    end.
(** Listening again: [Ok] with the count of errors, and the new [from]. *)
Fixpoint reconnect (errors : Z) (attempts : list (outcome Web3Error Z)) : option (outcome ContractsError (Z * Z)) :=
  match attempts with
  | [] => None
  | Ok from :: _ => Some (Ok (errors, from))
  | Err (Transport m) :: attempts =>
      if decide (MAX_CONSECUTIVE_TRANSPORT_ERRORS < errors + 1) then Some (Err (ContractsWeb3 (Transport m)))
      else reconnect (errors + 1) attempts
  | Err e :: _ => Some (Err (ContractsWeb3 e))
  | Panic m :: _ => Some (Panic m)
  end.

(** What the worker is told: a log with the answer to the query it may make, or an
    error with the attempts to listen again and the sets that are then loaded. *)
Inductive SetEvent :=
| SetLog (data : list Z) (query : SetsQuery)
| SetError (e : Web3Error) (attempts : list (outcome Web3Error Z)) (query : SetsQuery).

(** The sets, the count of consecutive errors, and the end of the worker if it has
    ended; [None]: it waits. *)
Definition worker_step (sets : list ValidatorSet) (errors : Z) (ev : SetEvent)
  : list ValidatorSet * Z * option (outcome ContractsError unit) :=
  match ev with
  | SetLog data query =>
      match on_set_added sets data query with
      | Ok sets => (sets, 0, None)
      | Err e => (sets, 0, Some (Err e))
      | Panic m => (sets, 0, Some (Panic m))
      end
  | SetError (Transport m) attempts query =>
      let errors := errors + 1 in
      if decide (MAX_CONSECUTIVE_TRANSPORT_ERRORS < errors) then (sets, errors, Some (Err (ContractsWeb3 (Transport m))))
      else
        match reconnect errors attempts with
        | None => (sets, errors, None)
        | Some (Ok (errors, _)) =>
            match load_all_validators query with
            | Ok sets => (sets, errors, None)
            | Err e => (sets, errors, Some (Err e))
            | Panic m => (sets, errors, Some (Panic m))
            end
        | Some (Err e) => (sets, errors, Some (Err e))
        | Some (Panic m) => (sets, errors, Some (Panic m))
        end
  | SetError e _ _ => (sets, errors, Some (Err (ContractsWeb3 e)))
  end.
Fixpoint set_worker_run (sets : list ValidatorSet) (errors : Z) (evs : list SetEvent)
  : list ValidatorSet * Z * option (outcome ContractsError unit) :=
  match evs with
  | [] => (sets, errors, None)
  | ev :: evs =>
      match worker_step sets errors ev with
      | (sets, errors, None) => set_worker_run sets errors evs
      | r => r
      end
  end.

(** * Restarting the worker (node/src/bin/node.rs) *)

Definition RESET_MS : Z := 30 * 60 * 1000.
(** Each run of the worker ends in a result after some time; the kept sets are not
    loaded again.  [None]: it runs. *)
Fixpoint run_contract_worker_with_retries (attempts max_restarts : Z) (runs : list (outcome ContractsError unit * Z))
  : option (outcome ContractsError unit) :=
  match runs with
  | [] => None
  | (Err e, ran_for) :: runs =>
      let attempts := (if decide (RESET_MS ≤ ran_for) then 0 else attempts) + 1 in
      if decide (max_restarts < attempts) then Some (Err e) else run_contract_worker_with_retries attempts max_restarts runs
  | (r, _) :: _ => Some r
  end.
