(* ===== verification/ContractsProps.v ===== *)
(** The client of the contract: retries and fees, waiting, what it sends, and the
    validator sets it keeps beside the contract's. *)
From S2P Require Import Prelude Element MerkleHash HashCache SmirkTree Utxo Crypto.
From S2P Require Import NodeBlock Circuit Aggregate Contracts.

(** * Retries *)

Definition network_failed {E A} `{NetworkFailure E} (r : outcome E A) : Prop := ∃ e, r = Err e ∧ is_network_failure e = true.
#[export] Instance network_failed_dec {E A} `{NetworkFailure E} (r : outcome E A) : Decision (network_failed r).
Proof.
  destruct r as [a|e|m]; [right; by intros (? & ? & _)| |right; by intros (? & ? & _)].
  destruct (is_network_failure e) eqn:He; [left; by exists e|right; intros (? & [= <-] & ?); congruence].
Defined.

Lemma retry_loop_done {E A} `{NetworkFailure E} (f : nat → outcome E A) i d ds :
  ¬ network_failed (f i) → retry_loop f i (d :: ds) = (f i, 1%nat, 0).
Proof.
  intros Hf. cbn. destruct (f i) as [a|e|m]; [done| |done]. destruct (is_network_failure e) eqn:He; [|done]. destruct Hf. by exists e.
Qed.
Lemma retry_loop_failed {E A} `{NetworkFailure E} (f : nat → outcome E A) i d ds :
  network_failed (f i) → retry_loop f i (d :: ds) =
    if decide (i = 3%nat) then (f i, 1%nat, 0) else let '(r, n, slept) := retry_loop f (S i) ds in (r, S n, d + slept).
Proof. intros (e & Hf & He). cbn. by rewrite Hf, He. Qed.

(** A retried request is asked at most four times over at most sixteen seconds
    of sleep, and answers with the first answer that is not a failure of the
    transport, or with the fourth. *)
Theorem retry_is_first_answer {E A} `{NetworkFailure E} (f : nat → outcome E A) :
  let '(r, n, slept) := retry_run f in
  (1 ≤ n ≤ 4)%nat ∧ 0 ≤ slept ≤ 16000 ∧ r = f (n - 1)%nat ∧ (∀ i, (i < n - 1)%nat → network_failed (f i)) ∧
  ((n < 4)%nat → ¬ network_failed r).
Proof.
  unfold retry_run, DELAYS. cbn [app].
  destruct (decide (network_failed (f 0%nat))) as [H0|H0]; [|rewrite (retry_loop_done _ _ _ _ H0); cbn; split_and!; [lia..|done|lia|done]].
  rewrite (retry_loop_failed _ _ _ _ H0). rewrite decide_False by done.
  destruct (decide (network_failed (f 1%nat))) as [H1|H1].
  2:{ rewrite (retry_loop_done _ _ _ _ H1). cbn. split_and!; [lia..|done| |done]. intros i Hi. by assert (i = 0%nat) as -> by lia. }
  rewrite (retry_loop_failed _ _ _ _ H1). rewrite decide_False by done.
  destruct (decide (network_failed (f 2%nat))) as [H2|H2].
  2:{ rewrite (retry_loop_done _ _ _ _ H2). cbn. split_and!; [lia..|done| |done]. intros i Hi. destruct i as [|[|]]; [done|done|lia]. }
  rewrite (retry_loop_failed _ _ _ _ H2). rewrite decide_False by done.
  destruct (decide (network_failed (f 3%nat))) as [H3|H3].
  - rewrite (retry_loop_failed _ _ _ _ H3), decide_True by done. cbn. split_and!; [lia..|done| |lia].
    intros i Hi. destruct i as [|[|[|]]]; [done|done|done|lia].
  - rewrite (retry_loop_done _ _ _ _ H3). cbn. split_and!; [lia..|done| |lia].
    intros i Hi. destruct i as [|[|[|]]]; [done|done|done|lia].
Qed.

(** * Fees *)

(** A transaction stays admissible: the offered fee covers the higher of the two
    base fees and the tip, is not below the configured minimum, and the tip is not
    above it, as the chain demands. *)
Theorem fees_admissible c strategy history fees :
  estimate_eip1559_fees c strategy history = Ok fees →
  0 ≤ priority_fee fees ≤ U256_MAX → 0 ≤ base_fee fees → base_fee fees * 150 ≤ U256_MAX →
  Z.min (base_fee fees + priority_fee fees) U256_MAX ≤ max_fee fees ∧ priority_fee fees ≤ max_fee fees ∧
  (∀ m, minimum_gas_price c = Some m → m ≤ max_fee fees).
Proof.
  unfold estimate_eip1559_fees. destruct (history (percentile strategy)) as [h|e|m]; [|done..]. cbn [outcome_bind].
  case_decide as Hlen; [done|]. destruct (reward h) as [rewards|]; [|done]. cbn [ok_or outcome_bind].
  destruct (last rewards ≫= head) as [tip|]; [|done]. cbn [ok_or outcome_bind].
  set (base := Z.max _ _). intros [= <-]. cbn [base_fee priority_fee max_fee]. intros Htip Hb Hmax.
  assert (100 ≤ base_fee_buffer_percent strategy ≤ 150) as Hp by (destruct strategy; cbn; lia).
  assert (base ≤ saturating_mul base (base_fee_buffer_percent strategy) `div` 100) as Hbuf.
  { unfold saturating_mul. rewrite Z.min_l by nia. apply Z.div_le_lower_bound; [lia|nia]. }
  set (buf := saturating_mul _ _ `div` 100) in *. unfold saturating_add.
  split_and!; [| |intros m ->; case_decide; lia]; destruct (minimum_gas_price c); try case_decide; lia.
Qed.

(** * Waiting for confirmations *)

(** The transaction was reported in the block at some poll, and no poll before
    ended the wait. *)
Lemma inclusion_seen tx t polls b :
  wait_for_transaction_inclusion tx t polls = Some (Ok b) →
  ∃ answer now, (answer, now) ∈ polls ∧ retry_on_network_failure answer = Ok (Some (Some b)).
Proof.
  induction polls as [|[answer now] polls IH]; [done|]. cbn [wait_for_transaction_inclusion].
  assert ((∃ a n, (a, n) ∈ polls ∧ retry_on_network_failure a = Ok (Some (Some b))) →
    ∃ a n, (a, n) ∈ (answer, now) :: polls ∧ retry_on_network_failure a = Ok (Some (Some b))) as Hmore.
  { intros (a & n & Hin & Ha). exists a, n. split; [by right|done]. }
  destruct (retry_on_network_failure answer) as [[[n|]|]|e|m] eqn:Ha; try done.
  - intros [= ->]. exists answer, now. split; [by left|done].
  - auto.
  - case_decide; [done|auto].
Qed.
Lemma block_reached n polls :
  wait_for_block n polls = Some (Ok tt) → ∃ answer m, answer ∈ polls ∧ retry_on_network_failure answer = Ok (Some m) ∧ n ≤ m.
Proof.
  induction polls as [|answer polls IH]; [done|]. cbn [wait_for_block].
  assert ((∃ a m, a ∈ polls ∧ retry_on_network_failure a = Ok (Some m) ∧ n ≤ m) →
    ∃ a m, a ∈ answer :: polls ∧ retry_on_network_failure a = Ok (Some m) ∧ n ≤ m) as Hmore.
  { intros (a & m & Hin & Ha). exists a, m. split; [by right|done]. }
  destruct (retry_on_network_failure answer) as [[m|]|e|p] eqn:Ha; try done; [|auto].
  case_decide; [intros _; exists answer, m; split_and!; [by left|done|done]|auto].
Qed.

Lemma retry_map {E A B} `{NetworkFailure E} (g : A → B) (f : nat → outcome E A) b :
  retry_on_network_failure (λ i, outcome_map g (f i)) = Ok b → ∃ a, retry_on_network_failure f = Ok a ∧ b = g a.
Proof.
  unfold retry_on_network_failure, retry_run. generalize (DELAYS ++ [0]) as ds. intros ds. generalize 0%nat as i.
  induction ds as [|d ds IH]; intros i; [done|]. cbn [retry_loop]. destruct (f i) as [a|e|m]; cbn [outcome_map outcome_bind].
  - cbn. intros [= <-]. by exists a.
  - destruct (is_network_failure e); [|done]. case_decide; [done|]. specialize (IH (S i)).
    destruct (retry_loop (λ i, outcome_map g (f i)) (S i) ds) as [[r n] s], (retry_loop f (S i) ds) as [[r' n'] s']. exact IH.
  - done.
Qed.

(** A confirmation says what it promises: the transaction was reported in the block
    that is returned; with additional blocks, the chain was reported that many
    blocks further; when finalised, a finalised block at or above it was. *)
Theorem confirmed_means tx kind t inclusion latest finalised b :
  wait_for_confirm tx kind t inclusion latest finalised = Some (Ok b) →
  (∃ answer now, (answer, now) ∈ inclusion ∧ retry_on_network_failure answer = Ok (Some (Some b))) ∧
  match kind with
  | Latest => True
  | LatestPlus n => ∃ answer m, answer ∈ latest ∧ retry_on_network_failure answer = Ok m ∧ b + n ≤ m
  | Finalised => ∃ answer m, answer ∈ finalised ∧ retry_on_network_failure answer = Ok (Some (Some m)) ∧ b ≤ m
  end.
Proof.
  unfold wait_for_confirm. destruct (wait_for_transaction_inclusion _ _ _) as [[b'|e|m]|] eqn:Hi; [|done..].
  apply inclusion_seen in Hi. destruct kind as [|n|]; [by intros [= <-]| |].
  - unfold wait_for_additional_confirmations. case_decide; [done|].
    destruct (wait_for_block _ _) as [[[]|e|m]|] eqn:Hw; [|done..]. cbn. intros [= <-]. split; [done|].
    apply block_reached in Hw as (a & m & (f & -> & Hin)%list_elem_of_fmap & Ha & Hle).
    apply retry_map in Ha as (k & Hk & [= ->]). by exists f, k.
  - unfold wait_for_finalized_confirmation.
    destruct (wait_for_block _ _) as [[[]|e|m]|] eqn:Hw; [|done..]. cbn. intros [= <-]. split; [done|].
    apply block_reached in Hw as (a & m & (f & -> & Hin)%list_elem_of_fmap & Ha & Hle).
    apply retry_map in Ha as ([[k|]|] & Hk & Heq); [|done..]. cbn in Heq. simplify_eq. by exists f, k.
Qed.

(** The sixty seconds run from the start, not from the moment the transaction
    became unknown: one that was pending all the time and is missing at a single
    poll after them is given up. *)
Theorem late_miss_gives_up tx start pending now :
  start + UNKNOWN_TXN_MS < now →
  (∀ answer t, (answer, t) ∈ pending → retry_on_network_failure answer = Ok (Some None)) →
  wait_for_confirm tx Latest start (pending ++ [(λ _, Ok None, now)]) [] [] = Some (Err (UnknownTransaction tx)).
Proof.
  intros Hnow. unfold wait_for_confirm. induction pending as [|[a t] pending IH]; intros Hp.
  - cbn. by rewrite decide_True.
  - cbn [app wait_for_transaction_inclusion]. rewrite (Hp a t) by (by left). apply IH. intros a' t' Hin. apply (Hp a' t'). by right.
Qed.

(** * What is sent *)

Section tokens_props.
Context `{AbiLaws}.
Theorem validator_set_roundtrip v :
  Forall (λ a, length a = 20%nat) (validators v) → in_width 256 (valid_from v) →
  validator_set_from_token (validator_set_into_token v) = Ok v.
Proof.
  intros Ha Hn. destruct v as [vs n]. unfold validator_set_into_token. cbn [validators valid_from validator_set_from_token] in *.
  by rewrite (addresses_token vs Ha), (u256_token n Hn).
Qed.
Theorem burn_roundtrip b :
  length (burn_to b) = 32%nat → length (burn_kind b) = 32%nat → in_width 256 (burn_amount b) →
  burn_from_token (burn_into_token b) = Ok b.
Proof.
  intros Ht Hk Hn. destruct b as [to n k]. unfold burn_into_token. cbn [burn_to burn_kind burn_amount burn_from_token] in *.
  by rewrite (h256_token to Ht), (u256_token n Hn), (h256_token k Hk).
Qed.
End tokens_props.

(** The call of verify_block is what verifyRollup takes apart: three words for the
    roots and the commitment, then the thirty messages, nothing else; one signature
    per approval with the recovery byte 27 or 28. *)
Theorem verify_block_call key_hash proof old_root new_root commit_hash messages other_hash height sigs :
  length messages = 30%nat → Forall wf_element (old_root :: new_root :: commit_hash :: messages) →
  Forall (λ s, length s = 65%nat ∧ nth 64 s 0 ∈ [0; 1]) sigs →
  ∃ words ts, verify_block_args key_hash proof old_root new_root commit_hash messages [] other_hash height sigs =
      Ok [TUint height; TFixedBytes key_hash; TBytes proof; TArray (TFixedBytes <$> words); TFixedBytes other_hash; TArray ts] ∧
    length words = (30 + 3)%nat ∧ from_be_bytes <$> words = old_root :: new_root :: commit_hash :: messages ∧
    Forall2 (λ s t, ∃ r s' v, s = r ++ s' ++ [v] ∧ length r = 32%nat ∧ length s' = 32%nat ∧
      t = TTuple [TFixedBytes r; TFixedBytes s'; TUint (27 + v)]) sigs ts.
Proof.
  intros Hm Hw Hs. unfold verify_block_args. rewrite Hm, decide_False by (unfold UTXO_N, UTXO_INPUTS; lia).
  assert (∃ ts, signature_tokens sigs = Ok ts ∧ Forall2 (λ s t, ∃ r s' v, s = r ++ s' ++ [v] ∧ length r = 32%nat ∧ length s' = 32%nat ∧
      t = TTuple [TFixedBytes r; TFixedBytes s'; TUint (27 + v)]) sigs ts) as (ts & Hts & Hf).
  { clear -Hs. induction Hs as [|s sigs [Hl Hv] Hs IH]; [by exists []|]. destruct IH as (ts & Hts & Hf). cbn [signature_tokens].
    unfold signature_token. rewrite decide_False by lia. cbn [outcome_bind]. rewrite Hts. cbn [outcome_bind].
    eexists. split; [reflexivity|]. constructor; [|done]. exists (take 32 s), (take 32 (drop 32 s)), (nth 64 s 0).
    split_and!; [|rewrite length_take; lia|rewrite length_take, length_drop; lia|].
    - rewrite <-(take_drop 32 s) at 1. f_equal. rewrite <-(take_drop 32 (drop 32 s)) at 1. f_equal. rewrite drop_drop.
      do 65 (destruct s as [|? s]; [done|]). by destruct s.
    - rewrite decide_True, Z.add_comm; [done|]. apply elem_of_cons in Hv as [Hv|Hv]; [|apply list_elem_of_singleton in Hv]; lia. }
  rewrite Hts. cbn [outcome_bind]. eexists _, ts. split; [reflexivity|]. unfold verify_public_inputs. rewrite app_nil_r.
  split_and!; [rewrite length_fmap, length_app, Hm; done| |done].
  rewrite <-list_fmap_compose. cbn [app]. transitivity (id <$> (old_root :: new_root :: commit_hash :: messages)); [|apply list_fmap_id].
  apply list_fmap_ext. intros i e He. cbn. apply from_to_be_bytes. rewrite Forall_forall in Hw. apply Hw. by eapply list_elem_of_lookup_2.
Qed.
