(* ===== verification/ValidatorSets.v ===== *)
(** The validator sets a client keeps beside the contract (the worker of
    pkg/contracts/src/rollup.rs): they stay the contract's as long as the worker
    listens, and fall behind when it starts to listen late. *)
From S2P Require Import Prelude Element MerkleHash HashCache SmirkTree Utxo Crypto.
From S2P Require Import NodeBlock Circuit Aggregate Contracts ContractsProps.

(** * The contract's sets *)

Definition upto (n : Z) (l : list (Z * ValidatorSet)) : list (Z * ValidatorSet) := filter (λ x, x.1 ≤ n) l.

Section sets.
(** The sets in the order they were added, each with the block of its event. *)
Context (history : list (Z * ValidatorSet)).

Definition all_sets : list ValidatorSet := history.*2.
(** How many sets there are at block [n]. *)
Definition count (n : Z) : nat := length (upto n history).
Definition sets_at (n : Z) : list ValidatorSet := take (count n) all_sets.
(** getValidatorSets at block [n]. *)
Definition sets_query (n from : Z) : outcome ContractsError (list ValidatorSet) :=
  if decide (Z.of_nat (count n) < from) then Err (ContractsOther "reverted") else Ok (drop (Z.to_nat from) (sets_at n)).
(** The ValidatorSetAdded events of the blocks [from] to [to]. *)
Definition set_log (i : nat) (v : ValidatorSet) : list Z := to_be_bytes (Z.of_nat i) ++ to_be_bytes (valid_from v).
Definition set_logs (from to : Z) : list (list Z) :=
  omap (λ '(i, (n, v)), if decide (from ≤ n ≤ to) then Some (set_log i v) else None) (imap pair history).

Context (Hsorted : StronglySorted (λ x y : Z * ValidatorSet, x.1 ≤ y.1) history).
Context (Hwidth : in_width 63 (Z.of_nat (length history))).

Lemma count_le n : (count n ≤ length history)%nat.
Proof. apply length_filter. Qed.
Lemma sorted_count (l : list (Z * ValidatorSet)) n i x :
  StronglySorted (λ x y : Z * ValidatorSet, x.1 ≤ y.1) l → l !! i = Some x →
  x.1 ≤ n ↔ (i < length (upto n l))%nat.
Proof.
  intros Hs. revert i. induction Hs as [|y l Hs IH Hy]; intros i; [done|]. rewrite Forall_forall in Hy. unfold upto in *. rewrite filter_cons.
  destruct i as [|i]; cbn [lookup list_lookup].
  - intros [= <-]. case_decide; cbn; [split; [lia|done]|]. split; [done|]. intros Hlt. exfalso.
    destruct (filter _ l) as [|z k] eqn:Hf; [cbn in Hlt; lia|].
    assert (z ∈ filter (λ x : Z * ValidatorSet, x.1 ≤ n) l) as [Hz Hin]%list_elem_of_filter by (rewrite Hf; by left).
    specialize (Hy z Hin). lia.
  - intros Hx. rewrite (IH i Hx). case_decide as Hyn; cbn; [lia|]. split; [|lia]. intros Hlt. exfalso.
    destruct (filter _ l) as [|z k] eqn:Hf; [cbn in Hlt; lia|].
    assert (z ∈ filter (λ x : Z * ValidatorSet, x.1 ≤ n) l) as [Hz Hin]%list_elem_of_filter by (rewrite Hf; by left).
    specialize (Hy z Hin). lia.
Qed.
Lemma added_by n i x : history !! i = Some x → x.1 ≤ n ↔ (i < count n)%nat.
Proof. by apply sorted_count. Qed.
Lemma count_mono n m : n ≤ m → (count n ≤ count m)%nat.
Proof.
  intros Hnm. destruct (decide (count n ≤ count m)%nat); [done|]. destruct (lookup_lt_is_Some_2 history (count m)) as [x Hx].
  { pose proof (count_le n). lia. }
  pose proof (proj2 (added_by n _ x Hx)). pose proof (proj1 (added_by m _ x Hx)). lia.
Qed.

(** ** One log *)

Definition holds (k : nat) (sets : list ValidatorSet) : Prop := sets = take k all_sets ∧ (1 ≤ k ≤ length history)%nat.

Lemma on_log_ok k sets i x m :
  holds k sets → history !! i = Some x → x.1 ≤ m →
  ∃ k', on_set_added sets (set_log i x.2) (sets_query m) = Ok (take k' all_sets) ∧ holds k' (take k' all_sets) ∧ (k ≤ k')%nat ∧ (i < k')%nat.
Proof.
  intros [-> Hk] Hx Hm. pose proof (lookup_lt_Some _ _ _ Hx) as Hi. unfold in_width in Hwidth.
  assert (length (take k all_sets) = k) as Hlen by (unfold all_sets; rewrite length_take, length_fmap; lia).
  assert (wf_element (Z.of_nat i)) as Hwf by (unfold wf_element, in_width; lia).
  assert (from_be_bytes (take 32 (set_log i x.2)) = Z.of_nat i) as Hidx.
  { unfold set_log. rewrite take_app_length' by (by rewrite to_be_bytes_length). by apply from_to_be_bytes. }
  unfold on_set_added. rewrite decide_False by (unfold set_log; rewrite length_app, !to_be_bytes_length; lia). rewrite Hidx.
  destruct (take k all_sets) as [|v vs] eqn:Htk; [cbn in Hlen; lia|]. rewrite <-Htk in *. rewrite Hlen, decide_False by lia.
  apply (added_by m i x Hx) in Hm as Hcnt. pose proof (count_le m) as Hcl.
  destruct (decide (Z.of_nat k - 1 < Z.of_nat i)) as [Hnew|Hold].
  - exists (count m). unfold sets_query. rewrite decide_False by lia. cbn [outcome_bind].
    replace (Z.to_nat (Z.of_nat k - 1 + 1)) with k by lia. split_and!; [|split; [done|lia]|lia|lia]. f_equal.
    unfold sets_at. rewrite <-(take_drop k (take (count m) all_sets)) at 2. f_equal. rewrite take_take. f_equal. lia.
  - exists k. split_and!; [done|by split|lia|lia].
Qed.

(** ** The logs of a tick *)

Lemma elem_of_set_logs from to d :
  d ∈ set_logs from to ↔ ∃ i x, history !! i = Some x ∧ from ≤ x.1 ≤ to ∧ d = set_log i x.2.
Proof.
  unfold set_logs. rewrite list_elem_of_omap. split.
  - intros ([i [n v]] & Hin & Hd). apply elem_of_lookup_imap in Hin as (j & x & [= <- <-] & Hx).
    case_decide; simplify_eq. by exists i, (n, v).
  - intros (i & [n v] & Hx & Hr & ->). exists (i, (n, v)). split; [|by rewrite decide_True].
    apply elem_of_lookup_imap. by exists i, (n, v).
Qed.
Lemma set_log_index i v j w : (i < length history)%nat → (j < length history)%nat → set_log i v = set_log j w → i = j.
Proof.
  unfold in_width in Hwidth. intros Hi Hj Heq. apply (f_equal (take 32)) in Heq. unfold set_log in Heq.
  rewrite !take_app_length' in Heq by (by rewrite to_be_bytes_length). apply (f_equal from_be_bytes) in Heq.
  rewrite !from_to_be_bytes in Heq by (unfold wf_element, in_width; lia). lia.
Qed.

Definition answered (to : Z) (d : list Z) (ev : SetEvent) : Prop := ∃ m, to ≤ m ∧ ev = SetLog d (sets_query m).
Lemma logs_run k sets errors to logs evs :
  holds k sets → (∀ d, d ∈ logs → ∃ i x, history !! i = Some x ∧ x.1 ≤ to ∧ d = set_log i x.2) → Forall2 (answered to) logs evs →
  ∃ k' e, set_worker_run sets errors evs = (take k' all_sets, e, None) ∧ holds k' (take k' all_sets) ∧ (k ≤ k')%nat ∧
    ∀ i x, history !! i = Some x → set_log i x.2 ∈ logs → (i < k')%nat.
Proof.
  intros Hk Hlogs Hevs. revert k sets errors Hk. induction Hevs as [|d ev logs evs (m & Hm & ->) Hevs IH]; intros k sets errors Hk.
  - exists k, errors. destruct Hk as [-> Hk]. split_and!; [done|done|done|]. by intros i x _ ?%elem_of_nil.
  - destruct (Hlogs d) as (i & x & Hx & Hxt & ->); [by left|].
    destruct (on_log_ok k sets i x m Hk Hx) as (k1 & Hon & Hk1 & Hle & Hi); [lia|]. cbn [set_worker_run worker_step]. rewrite Hon.
    destruct (IH ltac:(intros d Hd; apply Hlogs; by right) k1 _ 0 Hk1) as (k2 & e & Hrun & Hk2 & Hle2 & Hall).
    exists k2, e. split_and!; [done|done|lia|]. intros j y Hy [Heq|Hin]%elem_of_cons; [|by apply (Hall j y)].
    apply set_log_index in Heq as ->; [lia|by eapply lookup_lt_Some..].
Qed.

(** * The worker *)

(** The next block to look at, the sets, the count of errors and the head of the
    chain. *)
Record Keeper := mk_keeper { kp_from : Z; kp_sets : list ValidatorSet; kp_errors : Z; kp_head : Z }.

Inductive keeper_step : Keeper → Keeper → Prop :=
| keeper_block from sets errors head head' : head ≤ head' → in_width 63 head' →
    keeper_step (mk_keeper from sets errors head) (mk_keeper from sets errors head')
(** A tick of the listener: its logs and the queries they lead to. *)
| keeper_tick from sets errors head from' logs evs sets' errors' o :
    listen_tick from head set_logs = (from', logs) → Forall2 (answered head) logs evs →
    set_worker_run sets errors evs = (sets', errors', o) →
    keeper_step (mk_keeper from sets errors head) (mk_keeper from' sets' errors' head)
(** An error of the transport, the attempts to listen again, and the reload. *)
| keeper_error from sets errors head msg attempts from' m sets' errors' n :
    reconnect (errors + 1) attempts = Some (Ok (n, from')) → head ≤ from' ≤ m → in_width 63 m →
    worker_step sets errors (SetError (Transport msg) attempts (sets_query m)) = (sets', errors', None) →
    keeper_step (mk_keeper from sets errors head) (mk_keeper from' sets' errors' m).

(** Every set added before the next block to look at is known, in the contract's
    order. *)
Definition keeps_up (k : Keeper) : Prop :=
  kp_from k ≤ kp_head k + 1 ∧ in_width 63 (kp_head k) ∧ (1 ≤ count (kp_head k))%nat ∧ ∃ n, holds n (kp_sets k) ∧ (count (kp_from k - 1) ≤ n)%nat.

Lemma tick_keeps_up from sets errors head from' logs evs :
  keeps_up (mk_keeper from sets errors head) → listen_tick from head set_logs = (from', logs) → Forall2 (answered head) logs evs →
  ∃ sets' errors', set_worker_run sets errors evs = (sets', errors', None) ∧
    keeps_up (mk_keeper from' sets' errors' head) ∧ from' = Z.max from (head + 1) ∧ (∃ n, holds n sets' ∧ (count head ≤ n)%nat).
Proof.
  intros (Hfrom & Hw & Hone & n & Hn & Hcnt) Htick Hevs. cbn [kp_from kp_head kp_sets] in *. unfold in_width in *. unfold listen_tick in Htick.
  destruct (decide (head < from)) as [Hlt|Hge]; injection Htick as <- <-.
  - apply Forall2_nil_inv_l in Hevs as ->. exists sets, errors. cbn [set_worker_run].
    assert (from = head + 1) as -> by lia. split_and!; [done|split_and!; [done|done|done|by exists n]|lia|].
    exists n. replace (head + 1 - 1) with head in Hcnt by lia. done.
  - destruct (logs_run n sets errors head (set_logs from head) evs Hn) as (k & e & Hrun & Hk & Hle & Hall); [|done|].
    { intros d (i & x & Hx & Hr & ->)%elem_of_set_logs. exists i, x. split_and!; [done|lia|done]. }
    assert (count head ≤ k)%nat as Hck.
    { destruct (decide (count head ≤ k)%nat) as [?|Hgt]; [done|]. destruct (lookup_lt_is_Some_2 history k) as [x Hx].
      { pose proof (count_le head). lia. }
      assert (x.1 ≤ head) as Hxh by (apply (added_by head k x Hx); lia).
      assert (¬ x.1 ≤ from - 1) as Hxf by (rewrite (added_by (from - 1) k x Hx); lia).
      assert (k < k)%nat; [|lia]. apply (Hall k x Hx), elem_of_set_logs. exists k, x. split_and!; [done|lia|lia|done]. }
    exists (take k all_sets), e. rewrite Z.min_l by lia. split_and!; [done| |lia|by exists k].
    split_and!; cbn [kp_from kp_head kp_sets]; [lia|done|done|]. exists k. replace (head + 1 - 1) with head by lia. done.
Qed.

Lemma keeper_step_keeps k k' : keeper_step k k' → keeps_up k → keeps_up k'.
Proof.
  intros Hstep Hk. destruct Hstep as [from sets errors head head' Hle Hw'|from sets errors head from' logs evs sets' errors' o Htick Hevs Hrun|from sets errors head msg attempts from' m sets' errors' n Hrec Hle Hw' Hstep].
  - destruct Hk as (Hfrom & _ & Hone & Hn). split_and!; cbn [kp_from kp_head kp_sets] in *; [lia|done| |done].
    pose proof (count_mono head head' Hle). lia.
  - destruct (tick_keeps_up _ _ errors _ _ _ _ Hk Htick Hevs) as (s & e & Hrun' & Hk' & _). rewrite Hrun' in Hrun. by simplify_eq.
  - destruct Hk as (Hfrom & Hw & Hone & _). cbn [kp_from kp_head kp_sets] in *.
    unfold worker_step in Hstep. case_decide; [done|]. rewrite Hrec in Hstep. unfold load_all_validators, sets_query in Hstep.
    rewrite decide_False in Hstep by lia. cbn [Z.to_nat drop] in Hstep. injection Hstep as <- <-.
    assert (count head ≤ count m)%nat as Hhm by (apply count_mono; lia).
    split_and!; cbn [kp_from kp_head kp_sets]; [lia|done|lia|]. exists (count m). split; [|apply count_mono; lia].
    split; [done|]. pose proof (count_le m). lia.
Qed.

Lemma keeper_run_keeps k k' : rtc keeper_step k k' → keeps_up k → keeps_up k'.
Proof. induction 1; [done|]. eauto using keeper_step_keeps. Qed.
End sets.


(** A worker that starts to listen late does not catch up: when sets were added
    after the sets were loaded and before the first block it looks at, and none
    after, no tick brings them. *)
Theorem late_worker_misses_sets history from sets errors head from' logs evs :
  in_width 64 from → (∀ x, x ∈ history → x.1 < from) → listen_tick from head (set_logs history) = (from', logs) →
  Forall2 (answered history head) logs evs → set_worker_run sets errors evs = (sets, errors, None) ∧ from ≤ from'.
Proof.
  intros Hw Hold Htick Hevs. assert (set_logs history from head = []) as Hnone.
  { destruct (set_logs history from head) as [|d l] eqn:Hl; [done|]. assert (d ∈ set_logs history from head) as Hd by (rewrite Hl; by left).
    apply elem_of_set_logs in Hd as (i & x & Hx & Hr & _). apply list_elem_of_lookup_2, Hold in Hx. lia. }
  unfold in_width in Hw. unfold listen_tick in Htick. rewrite Hnone in Htick. destruct (decide (head < from)); injection Htick as <- <-;
    apply Forall2_nil_inv_l in Hevs as ->; split; done || lia.
Qed.

(** * Reading the sets *)

(** The validators of a height are those of the last set valid from it or before. *)
Lemma validators_for_height_last sets h :
  Forall (λ v, valid_from v < 2 ^ 64) sets →
  validators_for_height sets h = Ok (default [] (validators <$> last (filter (λ v, valid_from v ≤ h) sets))).
Proof.
  unfold validators_for_height. induction sets as [|v sets IH] using rev_ind; intros Hw; [done|].
  apply Forall_app in Hw as [Hw [Hv _]%Forall_cons]. rewrite reverse_app. cbn [reverse rev_append app last_valid].
  rewrite decide_False by lia. rewrite filter_app, filter_cons, filter_nil. destruct (decide (valid_from v ≤ h)).
  - by rewrite last_snoc.
  - rewrite app_nil_r. by apply IH.
Qed.

(** Sets that are not known yet do not matter below the heights they are valid
    from: there the kept sets answer as the contract's. *)
Theorem kept_sets_answer sets later h :
  Forall (λ v, valid_from v < 2 ^ 64) (sets ++ later) → Forall (λ v, h < valid_from v) later →
  validators_for_height sets h = validators_for_height (sets ++ later) h.
Proof.
  intros Hw Hl. rewrite !validators_for_height_last by (done || by apply Forall_app in Hw as []). rewrite filter_app.
  replace (filter (λ v, valid_from v ≤ h) later) with (@nil ValidatorSet); [by rewrite app_nil_r|].
  symmetry. apply elem_of_nil_inv. intros v [Hv Hin]%list_elem_of_filter. rewrite Forall_forall in Hl. specialize (Hl v Hin). lia.
Qed.

(** * Witness *)

Definition set_a : ValidatorSet := mk_validator_set [replicate 20 1] 0.
Definition set_b : ValidatorSet := mk_validator_set [replicate 20 2] 100.
Definition ex_history : list (Z * ValidatorSet) := [(1, set_a); (5, set_b)].
