(* ===== verification/Atomiq.v ===== *)
(** Escrows of the swap service (pkg/atomiq/src/lib.rs): flags and the words of the
    Solidity struct. *)
From S2P Require Import Prelude Element Crypto.

Definition FLAG_PAY_OUT : Z := 1.
Definition FLAG_PAY_IN : Z := 2.
Definition FLAG_REPUTATION : Z := 4.

Record Flags := mk_flags { pay_out : bool; pay_in : bool; reputation : bool; sequence : Z }.
Definition has_flag (bits flag : Z) : bool := bool_decide (Z.land bits flag = flag).
(** [as_u64] panics when the number is wider. *)
Definition flags_from_u256 (value : Z) : outcome string Flags :=
  let high := Z.shiftr value 64 in
  if decide (2 ^ 64 ≤ high) then Panic "Integer overflow when casting to u64"
  else
    let lower_bits := Z.land value (2 ^ 64 - 1) in
    Ok (mk_flags (has_flag lower_bits FLAG_PAY_OUT) (has_flag lower_bits FLAG_PAY_IN) (has_flag lower_bits FLAG_REPUTATION) high).
Definition flags_to_u256 (f : Flags) : Z :=
  Z.lor (Z.shiftl (sequence f) 64)
    (Z.lor (Z.lor (if pay_out f then FLAG_PAY_OUT else 0) (if pay_in f then FLAG_PAY_IN else 0))
           (if reputation f then FLAG_REPUTATION else 0)).

Record EscrowData := mk_escrow {
  offerer : list Z; claimer : list Z; es_amount : Z; token : list Z; flags : Flags;
  claim_handler : list Z; claim_data : list Z; refund_handler : list Z; refund_data : list Z;
  security_deposit : Z; claimer_bounty : Z; deposit_token : list Z; success_action_commitment : list Z;
}.

Definition decode_address_word (data : list Z) : outcome string (list Z) :=
  if decide (length data ≠ 32)%nat then Err "Address data must be 32 bytes" else Ok (drop 12 data).
Definition decode_u256 (data : list Z) : outcome string Z :=
  if decide (length data ≠ 32)%nat then Err "U256 data must be 32 bytes" else Ok (from_be_bytes data).
Definition decode_bytes32 (data : list Z) : outcome string (list Z) :=
  if decide (length data ≠ 32)%nat then Err "bytes32 data must be 32 bytes" else Ok data.
Definition encode_address_word (addr : list Z) : list Z := replicate 12 0 ++ addr.
Definition encode_u256 (value : Z) : list Z := to_be_bytes value.

(** The word at [offset]. *)
Definition word_at (data : list Z) (offset : nat) : list Z := take 32 (drop offset data).
Definition from_abi_encoded (data : list Z) : outcome string EscrowData :=
  if decide (length data < 416)%nat then Err "Insufficient data for EscrowData: expected at least 416 bytes"
  else
    let? offerer := decode_address_word (word_at data 0) in
    let? claimer := decode_address_word (word_at data 32) in
    let? amount := decode_u256 (word_at data 64) in
    let? token := decode_address_word (word_at data 96) in
    let? flags_raw := decode_u256 (word_at data 128) in
    let? flags := flags_from_u256 flags_raw in
    let? claim_handler := decode_address_word (word_at data 160) in
    let? claim_data := decode_bytes32 (word_at data 192) in
    let? refund_handler := decode_address_word (word_at data 224) in
    let? refund_data := decode_bytes32 (word_at data 256) in
    let? security_deposit := decode_u256 (word_at data 288) in
    let? claimer_bounty := decode_u256 (word_at data 320) in
    let? deposit_token := decode_address_word (word_at data 352) in
    let? success_action_commitment := decode_bytes32 (word_at data 384) in
    Ok (mk_escrow offerer claimer amount token flags claim_handler claim_data refund_handler refund_data
          security_deposit claimer_bounty deposit_token success_action_commitment).
(** The selector of a call is skipped. *)
Definition from_transaction_calldata (calldata : list Z) : outcome string EscrowData :=
  from_abi_encoded
    (if decide (4 < length calldata ∧ length calldata mod 32 = 4)%nat then drop 4 calldata else calldata).
Definition to_abi_encoded (e : EscrowData) : list Z :=
  encode_address_word (offerer e) ++ encode_address_word (claimer e) ++ encode_u256 (es_amount e) ++ encode_address_word (token e) ++
  encode_u256 (flags_to_u256 (flags e)) ++ encode_address_word (claim_handler e) ++ claim_data e ++
  encode_address_word (refund_handler e) ++ refund_data e ++ encode_u256 (security_deposit e) ++
  encode_u256 (claimer_bounty e) ++ encode_address_word (deposit_token e) ++ success_action_commitment e.
Definition escrow_hash `{CryptoLib} (e : EscrowData) : list Z := keccak256 (to_abi_encoded e).
Definition has_success_action (e : EscrowData) : bool := bool_decide (success_action_commitment e ≠ replicate 32 0).

(** * Flags *)

Definition wf_flags (f : Flags) : Prop := in_width 64 (sequence f).

Lemma flag_bits_small a b c :
  0 ≤ Z.lor (Z.lor (if a : bool then FLAG_PAY_OUT else 0) (if b : bool then FLAG_PAY_IN else 0)) (if c : bool then FLAG_REPUTATION else 0) < 8.
Proof. destruct a, b, c; split; by vm_compute. Qed.
Lemma flags_value f : wf_flags f → ∃ low, 0 ≤ low < 8 ∧ flags_to_u256 f = sequence f * 2 ^ 64 + low ∧
  has_flag low FLAG_PAY_OUT = pay_out f ∧ has_flag low FLAG_PAY_IN = pay_in f ∧ has_flag low FLAG_REPUTATION = reputation f.
Proof.
  intros Hs. unfold wf_flags, in_width in Hs. exists (Z.lor (Z.lor (if pay_out f then FLAG_PAY_OUT else 0) (if pay_in f then FLAG_PAY_IN else 0))
           (if reputation f then FLAG_REPUTATION else 0)).
  pose proof (flag_bits_small (pay_out f) (pay_in f) (reputation f)) as Hlow. split; [done|]. split.
  - unfold flags_to_u256. rewrite Z.shiftl_mul_pow2 by lia. set (low := Z.lor (Z.lor _ _) _) in *.
    rewrite <-Z.add_lor_land. assert (Z.land (sequence f * 2 ^ 64) low = 0) as ->; [|lia].
    apply Z.bits_inj'. intros n Hn. rewrite Z.land_spec, Z.bits_0. destruct (Z.lt_ge_cases n 64).
    + by rewrite Z.mul_pow2_bits_low.
    + replace (Z.testbit low n) with false; [by rewrite andb_false_r|]. symmetry. apply Z.bits_above_log2; [lia|].
      destruct (decide (low = 0)) as [->|]; [cbn; lia|]. apply Z.log2_lt_pow2; [lia|]. assert (2 ^ 64 ≤ 2 ^ n) by (apply Z.pow_le_mono_r; lia). lia.
  - destruct (pay_out f), (pay_in f), (reputation f); done.
Qed.
Lemma flags_width f : wf_flags f → in_width 256 (flags_to_u256 f).
Proof.
  intros Hf. destruct (flags_value f Hf) as (low & Hl & -> & _). unfold wf_flags, in_width in *.
  assert (2 ^ 64 * 2 ^ 64 < 2 ^ 256) by (by vm_compute). nia.
Qed.
Lemma flags_roundtrip f : wf_flags f → flags_from_u256 (flags_to_u256 f) = Ok f.
Proof.
  intros Hf. destruct (flags_value f Hf) as (low & Hl & -> & Ho & Hi & Hr). unfold wf_flags, in_width in Hf. unfold flags_from_u256.
  assert (Z.shiftr (sequence f * 2 ^ 64 + low) 64 = sequence f) as ->.
  { rewrite Z.shiftr_div_pow2 by lia. rewrite Z.div_add_l by lia. rewrite Z.div_small by lia. lia. }
  assert (Z.land (sequence f * 2 ^ 64 + low) (2 ^ 64 - 1) = low) as ->.
  { change (2 ^ 64 - 1) with (Z.ones 64). rewrite Z.land_ones by lia. rewrite Z.add_comm, Z.mod_add by lia. apply Z.mod_small. lia. }
  rewrite decide_False by lia. rewrite Ho, Hi, Hr. by destruct f.
Qed.

(** * Words *)

Definition words (e : EscrowData) : list (list Z) :=
  [encode_address_word (offerer e); encode_address_word (claimer e); encode_u256 (es_amount e); encode_address_word (token e);
   encode_u256 (flags_to_u256 (flags e)); encode_address_word (claim_handler e); claim_data e; encode_address_word (refund_handler e);
   refund_data e; encode_u256 (security_deposit e); encode_u256 (claimer_bounty e); encode_address_word (deposit_token e);
   success_action_commitment e].
Definition wf_escrow (e : EscrowData) : Prop :=
  Forall (λ a, length a = 20%nat) [offerer e; claimer e; token e; claim_handler e; refund_handler e; deposit_token e] ∧
  Forall (λ b, length b = 32%nat) [claim_data e; refund_data e; success_action_commitment e] ∧
  Forall (in_width 256) [es_amount e; security_deposit e; claimer_bounty e] ∧ wf_flags (flags e).

Lemma encoded_words e : to_abi_encoded e = concat (words e).
Proof. unfold to_abi_encoded, words. cbn [concat]. by rewrite app_nil_r. Qed.
Lemma word_concat ws i w : Forall (λ x, length x = 32%nat) ws → ws !! i = Some w → word_at (concat ws) (32 * i) = w.
Proof.
  intros Hw. revert i. induction Hw as [|x ws Hx Hw IH]; intros i; [done|]. unfold word_at in *. destruct i as [|i]; cbn [lookup list_lookup concat].
  - intros [= ->]. rewrite drop_0. by apply take_app_length'.
  - intros Hi. rewrite drop_app_ge by lia. rewrite Hx. replace (32 * S i - 32)%nat with (32 * i)%nat by lia. by apply IH.
Qed.
Lemma concat_length (ws : list (list Z)) : Forall (λ x, length x = 32%nat) ws → length (concat ws) = (32 * length ws)%nat.
Proof. induction 1 as [|x ws Hx Hw IH]; [done|]. cbn [concat length]. rewrite length_app, Hx, IH. lia. Qed.

Lemma padded_address a : length a = 20%nat → length (encode_address_word a) = 32%nat ∧ decode_address_word (encode_address_word a) = Ok a.
Proof.
  intros Ha. assert (length (encode_address_word a) = 32%nat) as Hl by (unfold encode_address_word; rewrite length_app, length_replicate; lia).
  split; [done|]. unfold decode_address_word. rewrite decide_False by lia. by unfold encode_address_word.
Qed.
Lemma u256_word n : in_width 256 n → length (encode_u256 n) = 32%nat ∧ decode_u256 (encode_u256 n) = Ok n.
Proof.
  intros Hn. unfold encode_u256, decode_u256. rewrite to_be_bytes_length. split; [done|]. rewrite decide_False by lia. by rewrite from_to_be_bytes.
Qed.
Lemma decode_encode_word a : length a = 20%nat → decode_address_word (encode_address_word a) = Ok a.
Proof. apply padded_address. Qed.
Lemma decode_encode_u256 n : in_width 256 n → decode_u256 (encode_u256 n) = Ok n.
Proof. apply u256_word. Qed.
Lemma bytes32_word b : length b = 32%nat → decode_bytes32 b = Ok b.
Proof. intros Hb. unfold decode_bytes32. by rewrite decide_False by lia. Qed.

Lemma words_wf e : wf_escrow e → Forall (λ x, length x = 32%nat) (words e).
Proof.
  intros (Ha & Hb & Hn & Hf). apply flags_width in Hf. unfold words.
  repeat (apply Forall_cons in Ha as [? Ha]). repeat (apply Forall_cons in Hb as [? Hb]). repeat (apply Forall_cons in Hn as [? Hn]).
  repeat (apply Forall_cons_2; [first [done|by apply padded_address|by apply u256_word]|]). constructor.
Qed.

(** An escrow survives its encoding: the call data of a transaction that carries
    it, with the four bytes of a selector or without, decodes to the same escrow. *)
Theorem escrow_roundtrip selector e :
  wf_escrow e → length selector = 4%nat ∨ selector = [] →
  from_transaction_calldata (selector ++ to_abi_encoded e) = Ok e.
Proof.
  intros Hwf Hsel. pose proof (words_wf e Hwf) as Hw. pose proof (concat_length _ Hw) as Hlen. rewrite <-encoded_words in Hlen. cbn [words length] in Hlen.
  assert (from_abi_encoded (to_abi_encoded e) = Ok e) as Henc.
  { unfold from_abi_encoded. rewrite decide_False by lia. rewrite encoded_words.
    assert (∀ i off w, off = (32 * i)%nat → words e !! i = Some w → word_at (concat (words e)) off = w) as Hat
      by (intros i off w ->; by apply word_concat). destruct Hwf as (Ha & Hb & Hn & Hf).
    repeat (apply Forall_cons in Ha as [? Ha]). repeat (apply Forall_cons in Hb as [? Hb]). repeat (apply Forall_cons in Hn as [? Hn]).
    pose proof (u256_word _ (flags_width _ Hf)) as [_ Hfw].
    rewrite (Hat 0%nat 0%nat _ eq_refl eq_refl), (Hat 1%nat 32%nat _ eq_refl eq_refl), (Hat 2%nat 64%nat _ eq_refl eq_refl), (Hat 3%nat 96%nat _ eq_refl eq_refl), (Hat 4%nat 128%nat _ eq_refl eq_refl), (Hat 5%nat 160%nat _ eq_refl eq_refl),
      (Hat 6%nat 192%nat _ eq_refl eq_refl), (Hat 7%nat 224%nat _ eq_refl eq_refl), (Hat 8%nat 256%nat _ eq_refl eq_refl), (Hat 9%nat 288%nat _ eq_refl eq_refl), (Hat 10%nat 320%nat _ eq_refl eq_refl), (Hat 11%nat 352%nat _ eq_refl eq_refl),
      (Hat 12%nat 384%nat _ eq_refl eq_refl).
    repeat first [rewrite decode_encode_word by done|rewrite decode_encode_u256 by done|rewrite bytes32_word by done|rewrite Hfw|rewrite flags_roundtrip by done|progress cbn [outcome_bind]].
    by destruct e. }
  unfold from_transaction_calldata. destruct Hsel as [Hsel| ->].
  - rewrite decide_True; [by rewrite drop_app_length'|]. rewrite length_app, Hsel, Hlen. split; [lia|done].
  - cbn [app]. rewrite decide_False; [done|]. rewrite Hlen. intros [_ Hmod]. done.
Qed.

(** What a stranger sends can stop the process: data long enough decodes or
    panics, and it panics exactly when the flags have a bit above the 128th. *)
Theorem decode_panics_iff data :
  (416 ≤ length data)%nat →
  (∃ e, from_abi_encoded data = Ok e) ∧ from_be_bytes (word_at data 128) < 2 ^ 128 ∨
  (∃ m, from_abi_encoded data = Panic m) ∧ 2 ^ 128 ≤ from_be_bytes (word_at data 128).
Proof.
  intros Hlen. assert (∀ off, (off + 32 ≤ 416)%nat → length (word_at data off) = 32%nat) as Hw.
  { intros off Hoff. unfold word_at. rewrite length_take, length_drop. lia. }
  unfold from_abi_encoded. rewrite decide_False by lia. unfold decode_address_word, decode_u256, decode_bytes32.
  rewrite !Hw by lia. rewrite !decide_False by lia. cbn [outcome_bind]. unfold flags_from_u256.
  rewrite Z.shiftr_div_pow2 by lia. set (v := from_be_bytes (word_at data 128)).
  destruct (decide (2 ^ 64 ≤ v `div` 2 ^ 64)) as [Hp|Hok]; cbn [outcome_bind].
  - right. split; [by eexists|]. assert (2 ^ 64 * (v `div` 2 ^ 64) ≤ v) by (apply Z.mul_div_le; lia). nia.
  - left. split; [by eexists|]. assert (v < 2 ^ 64 * Z.succ (v `div` 2 ^ 64)) by (apply Z.mul_succ_div_gt; lia). nia.
Qed.

Definition ex_escrow : EscrowData :=
  mk_escrow (replicate 20 1) (replicate 20 2) 1000000 (replicate 20 3) (mk_flags true false true 42) (replicate 20 4) (replicate 32 5)
    (replicate 20 6) (replicate 32 7) 50000 10000 (replicate 20 8) (replicate 32 9).
Lemma escrow_roundtrip_witness : from_transaction_calldata ([1; 2; 3; 4] ++ to_abi_encoded ex_escrow) = Ok ex_escrow.
Proof.
  apply (escrow_roundtrip [1; 2; 3; 4] ex_escrow).
  - split; [|split; [|split]]; [repeat constructor..|]; by vm_compute.
  - left. reflexivity.
Defined.
