(* ===== verification/BurnSubstitutor.v ===== *)
(** The burn substitutor (pkg/burn-substitutor/src/lib.rs): it pays out burns ahead
    of the rollup, and hands burns that must not be substituted to the swap
    service.  Answers of the node, the contracts and the service are arguments;
    every transaction that is sent is part of the result. *)
From S2P Require Import Prelude Element MerkleHash Utxo BlockStore Crypto Atomiq.

Definition MAX_ATTEMPTS : nat := 3.

(** * Retries *)

(** [op] is given the number of the attempt, from one. *)
Fixpoint retry_attempts {A} (op : Z → outcome string (option A)) (attempt : Z) (n : nat) : outcome string (option A) :=
  match n with
  | O => Ok None
  | S n => let? r := op attempt in match r with Some a => Ok (Some a) | None => retry_attempts op (attempt + 1) n end
  end.
Definition retry_until_some {A} (max_attempts : nat) (op : Z → outcome string (option A)) : outcome string (option A) :=
  retry_attempts op 1 max_attempts.

(** * The swap service *)

Record SwapEntry := mk_swap { sw_id : string; sw_state : Z; sw_input_address : string; sw_amount : string }.
Record CommitTx := mk_commit_tx {
  ct_to : string; ct_data : string; ct_value : string;
  ct_gas_limit : option string; ct_max_fee : option string; ct_max_priority_fee : option string; ct_nonce : option Z;
}.
Record OfframpResponse := mk_offramp { of_state : Z; of_commit_txs : list CommitTx; of_preimage : option string }.

(** A response: its status and its body, if it can be parsed. *)
Record Http (A : Type) := mk_http { ht_status : Z; ht_body : outcome string A }.
Arguments mk_http {A} _ _.
Arguments ht_status {A} _.
Arguments ht_body {A} _.

(** Parsers of the libraries: decimal numbers, addresses, hex; the text of an
    address; comparison without case. *)
Class TextLib := {
  from_dec_str : string → option Z;
  parse_address : string → option (list Z);
  hex_decode : string → option (list Z);
  show_address : list Z → string;
  eq_ignore_ascii_case : string → string → bool;
}.

(** A transaction as it is signed and sent. *)
Record SentTx := mk_sent_tx {
  tx_to : list Z; tx_data : list Z; tx_value : Z; tx_gas : Z;
  tx_max_fee : option Z; tx_max_priority_fee : option Z; tx_nonce : option Z;
}.

Section substitutor.
Context `{TextLib} (substitutor_address : list Z).

Definition swap_matches (burn_value : Z) (s : SwapEntry) : bool :=
  eq_ignore_ascii_case (sw_input_address s) (show_address substitutor_address) &&
  match from_dec_str (sw_amount s) with Some a => bool_decide (a = burn_value) | None => false end &&
  bool_decide (sw_state s ∈ [0; -1]).
Definition query_swaps (burn_value : Z) (answer : Z → outcome string (Http (list SwapEntry))) (attempt : Z) : outcome string (option SwapEntry) :=
  let? resp := answer attempt in
  if decide (ht_status resp ≠ 200) then Err "/swaps returned unexpected status"
  else let? swaps := ht_body resp in Ok (List.find (swap_matches burn_value) swaps).

Definition commit_ready (r : OfframpResponse) : bool :=
  bool_decide (of_state r ∈ [0; -1]) && match of_commit_txs r with [] => false | _ => true end.
Definition claimed_with_preimage (r : OfframpResponse) : bool :=
  bool_decide (of_state r ∈ [2; 3]) && bool_decide (is_Some (of_preimage r)).
Definition query_offramp (answer : Z → outcome string (Http OfframpResponse)) (attempt : Z) : outcome string (option OfframpResponse) :=
  let? resp := answer attempt in
  if decide (ht_status resp = 200) then
    let? r := ht_body resp in
    Ok (if negb (commit_ready r) && negb (claimed_with_preimage r) then None else Some r)
  else if decide (500 ≤ ht_status resp ≤ 599) then Ok None
  else Err "/offramp/:id returned unexpected status".

(** A number that may be absent. *)
Definition optional_dec (o : option string) (what : string) : outcome string (option Z) :=
  match o with None => Ok None | Some s => let? n := ok_or (from_dec_str s) what in Ok (Some n) end.
(** [None]: the transaction is not for us, and the burn is left alone. *)
Definition build_commit (burn_value : Z) (c : CommitTx) : outcome string (option SentTx) :=
  let? to := ok_or (parse_address (ct_to c)) "Failed to parse commitTx.to" in
  let? data := ok_or (hex_decode (ct_data c)) "Failed to decode commitTx.data" in
  match from_transaction_calldata data with
  | Err _ => Ok None
  | Panic m => Panic m
  | Ok escrow =>
      if decide (offerer escrow ≠ substitutor_address) then Ok None
      else if decide (es_amount escrow ≠ burn_value) then Ok None
      else
        let? value := ok_or (from_dec_str (ct_value c)) "Failed to parse commitTx.value" in
        let? gas := optional_dec (ct_gas_limit c) "Failed to parse commitTx.gasLimit" in
        let? max_fee := optional_dec (ct_max_fee c) "Failed to parse commitTx.maxFeePerGas" in
        let? priority := optional_dec (ct_max_priority_fee c) "Failed to parse commitTx.maxPriorityFeePerGas" in
        Ok (Some (mk_sent_tx to data value (default 1000000 gas) max_fee priority (ct_nonce c)))
  end.
(** [send]: signing and sending; [confirm]: waiting for the transaction. *)
Fixpoint send_commits (burn_value : Z) (send confirm : SentTx → outcome string unit) (cs : list CommitTx)
  : list SentTx * outcome string unit :=
  match cs with
  | [] => ([], Ok tt)
  | c :: cs =>
      match build_commit burn_value c with
      | Err e => ([], Err e)
      | Panic m => ([], Panic m)
      | Ok None => ([], Ok tt)
      | Ok (Some tx) =>
          match send tx with
          | Ok _ =>
              match confirm tx with
              | Ok _ => let '(sent, r) := send_commits burn_value send confirm cs in (tx :: sent, r)
              | r => ([tx], r)
              end
          | r => ([], r)
          end
      end
  end.

Record SwapEnv := mk_swap_env {
  se_swaps : Z → outcome string (Http (list SwapEntry));
  se_offramp : string → Z → outcome string (Http OfframpResponse);
  se_send : SentTx → outcome string unit;
  se_confirm : SentTx → outcome string unit;
}.
Definition handle_nosub_burn (env : SwapEnv) (amount : Element) : list SentTx * outcome string unit :=
  match retry_until_some MAX_ATTEMPTS (query_swaps amount (se_swaps env)) with
  | Err e => ([], Err e)
  | Panic m => ([], Panic m)
  | Ok None => ([], Ok tt)
  | Ok (Some swap) =>
      match retry_until_some MAX_ATTEMPTS (query_offramp (se_offramp env (sw_id swap))) with
      | Err e => ([], Err e)
      | Panic m => ([], Panic m)
      | Ok None => ([], Ok tt)
      | Ok (Some r) =>
          if decide (of_state r ∈ [2; 3]) then ([], Ok tt)
          else send_commits amount (se_send env) (se_confirm env) (of_commit_txs r)
      end
  end.

(** * Substituting burns *)

Record BurnTxn := mk_burn_txn { bt_proof : UtxoProof; bt_block_height : Z }.
(** What identifies a burn for the contract. *)
Record BurnKey := mk_burn_key { bk_address : list Z; bk_note_kind : Element; bk_hash : Element; bk_amount : Element; bk_height : Z }.
#[export] Instance burn_key_eq_dec : EqDecision BurnKey.
Proof. solve_decision. Defined.

(** The contract and the token as they are during a tick: what is substituted and
    what the substitutor owns; the failures of the calls. *)
Record Basechain := mk_basechain { bc_substituted : list BurnKey; bc_balance : Z }.
Record TickEnv := mk_tick_env {
  te_was_substituted : BurnKey → Basechain → outcome string bool;
  te_balance : Basechain → outcome string Z;
  te_substitute : BurnKey → Basechain → Basechain * outcome string (list Z);
  te_confirm : list Z → outcome string unit;
  te_swaps : SwapEnv;
}.

Definition burn_key (t : BurnTxn) : option (UtxoKind * BurnKey) :=
  match kind_messages (public_inputs (bt_proof t)) with
  | MsgBurn utxo_kind note_kind value burn_hash burn_address =>
      Some (kind_of_u8 (utxo_kind `mod` 256),
            mk_burn_key (drop 12 (to_be_bytes burn_address)) note_kind burn_hash value (bt_block_height t))
  | _ => None
  end.

(** The chain after it, the burns substituted, the transactions sent to the swap
    contract, and the result. *)
Record TickRun := mk_tick_run { tr_chain : Basechain; tr_substituted : list BurnKey; tr_swaps : list SentTx; tr_result : outcome string unit }.
Definition tick_burn (env : TickEnv) (bc : Basechain) (kind : UtxoKind) (k : BurnKey) : TickRun :=
  let stop r := mk_tick_run bc [] [] r in
  match kind with
  | KindBurn =>
      match te_was_substituted env k bc with
      | Ok true => stop (Ok tt)
      | Ok false =>
          match te_balance env bc with
          | Ok balance =>
              if decide (balance < bk_amount k) then stop (Ok tt)
              else
                match te_substitute env k bc with
                | (bc, Ok tx) =>
                    match te_confirm env tx with
                    | Ok _ => mk_tick_run bc [k] [] (Ok tt)
                    | r => mk_tick_run bc [] [] r
                    end
                | (bc, Err e) => mk_tick_run bc [] [] (Err e)
                | (bc, Panic m) => mk_tick_run bc [] [] (Panic m)
                end
          | Err e => stop (Err e)
          | Panic m => stop (Panic m)
          end
      | Err e => stop (Err e)
      | Panic m => stop (Panic m)
      end
  | _ => let '(sent, r) := handle_nosub_burn (te_swaps env) (bk_amount k) in mk_tick_run bc [] sent r
  end.
Fixpoint tick_txns (env : TickEnv) (bc : Basechain) (ts : list BurnTxn) : TickRun :=
  match ts with
  | [] => mk_tick_run bc [] [] (Ok tt)
  | t :: ts =>
      match burn_key t with
      | None => tick_txns env bc ts
      | Some (kind, k) =>
          let r := tick_burn env bc kind k in
          match tr_result r with
          | Ok _ => let r' := tick_txns env (tr_chain r) ts in
                    mk_tick_run (tr_chain r') (tr_substituted r ++ tr_substituted r') (tr_swaps r ++ tr_swaps r') (tr_result r')
          | _ => r
          end
      end
  end.

Record ListTxnsPosition := mk_position { lp_block : Z; lp_txn : Z }.
Inductive TxnCursor := TxnAfter (p : ListTxnsPosition) | TxnAfterInclusive (p : ListTxnsPosition).

(** [fetch]: a page of transactions, oldest first, and where it ends.  The cursor
    is set before the page is fetched and moved after it is done. *)
Definition substitutor_tick (env : TickEnv) (last_rollup : outcome string Z)
    (fetch : TxnCursor → outcome string (list BurnTxn * option TxnCursor)) (cursor : option TxnCursor) (bc : Basechain)
  : option TxnCursor * TickRun :=
  let stop c r := (c, mk_tick_run bc [] [] r) in
  let start := match cursor with
               | Some c => Ok c
               | None => let? h := last_rollup in Ok (TxnAfter (mk_position h (2 ^ 64 - 1)))
               end in
  match start with
  | Err e => stop None (Err e)
  | Panic m => stop None (Panic m)
  | Ok c =>
      match fetch c with
      | Err e => stop (Some c) (Err e)
      | Panic m => stop (Some c) (Panic m)
      | Ok (ts, next) =>
          let r := tick_txns env bc ts in
          match tr_result r with
          | Ok _ => ((match ts with [] => Some c | _ => next end), r)
          | _ => (Some c, r)
          end
      end
  end.
End substitutor.

(** * Properties *)

Section substitutor_props.
Context `{TextLib} (substitutor_address : list Z).
Notation tick := (substitutor_tick substitutor_address).
Implicit Types (k : BurnKey) (bc : Basechain).

(** ** Swaps *)

(** A transaction that funds an escrow of ours for the amount. *)
Definition funds (amount : Element) (tx : SentTx) : Prop :=
  ∃ e, from_transaction_calldata (tx_data tx) = Ok e ∧ offerer e = substitutor_address ∧ es_amount e = amount.

Lemma build_commit_funds amount c tx : build_commit substitutor_address amount c = Ok (Some tx) → funds amount tx.
Proof.
  unfold build_commit. destruct (parse_address (ct_to c)) as [to|]; [|done]. destruct (hex_decode (ct_data c)) as [data|]; [|done].
  cbn [ok_or outcome_bind]. destruct (from_transaction_calldata data) as [e|e|m] eqn:He; [|done..].
  case_decide as Ho; [done|]. case_decide as Ha; [done|]. destruct (from_dec_str (ct_value c)) as [v|]; [|done]. cbn [ok_or outcome_bind].
  destruct (optional_dec (ct_gas_limit c) _) as [g|?|?]; [|done..]. destruct (optional_dec (ct_max_fee c) _) as [f|?|?]; [|done..].
  destruct (optional_dec (ct_max_priority_fee c) _) as [pf|?|?]; [|done..]. cbn [outcome_bind]. intros [= <-]. exists e.
  split_and!; [done|destruct (decide (offerer e = substitutor_address)); tauto|destruct (decide (es_amount e = amount)); tauto].
Qed.
Lemma send_commits_fund amount send confirm cs : Forall (funds amount) (send_commits substitutor_address amount send confirm cs).1.
Proof.
  induction cs as [|c cs IH]; [constructor|]. cbn [send_commits]. destruct (build_commit _ amount c) as [[tx|]|e|m] eqn:Hb; [|constructor..].
  apply build_commit_funds in Hb. destruct (send tx); [|constructor..]. destruct (confirm tx); [|by repeat constructor..].
  destruct (send_commits _ amount send confirm cs) as [sent r]. by constructor.
Qed.

(** Whatever the swap service answers, each transaction that is signed for a burn
    funds an escrow of the substitutor over the amount of the burn. *)
Theorem nosub_sends_escrows env amount : Forall (funds amount) (handle_nosub_burn substitutor_address env amount).1.
Proof.
  unfold handle_nosub_burn. destruct (retry_until_some _ (query_swaps _ _ _)) as [[s|]|e|m]; [|constructor..].
  destruct (retry_until_some _ (query_offramp _)) as [[r|]|e|m]; [|constructor..]. case_decide; [constructor|]. apply send_commits_fund.
Qed.

(** ** Substitutions *)

(** The contract says what it holds and records a substitution at most once per
    call; its answers may be lost. *)
Record fair_chain (env : TickEnv) : Prop := {
  fc_was k bc b : te_was_substituted env k bc = Ok b → b = bool_decide (k ∈ bc_substituted bc);
  fc_substitute k bc bc' r : te_substitute env k bc = (bc', r) →
    bc_substituted bc' = bc_substituted bc ∧ (∀ tx, r ≠ Ok tx) ∨ bc_substituted bc' = k :: bc_substituted bc;
}.

Definition once bc : Prop := NoDup (bc_substituted bc).
Lemma tick_burn_once env bc kind k : fair_chain env → once bc → once (tr_chain (tick_burn substitutor_address env bc kind k)).
Proof.
  intros Hf Hbc. unfold tick_burn. destruct kind; try (destruct (handle_nosub_burn _ _ _); exact Hbc).
  destruct (te_was_substituted env k bc) as [[]|e|m] eqn:Hwas; try exact Hbc. apply (fc_was env Hf) in Hwas. symmetry in Hwas.
  apply bool_decide_eq_false in Hwas. destruct (te_balance env bc) as [n|e|m]; try exact Hbc. case_decide; [exact Hbc|].
  destruct (te_substitute env k bc) as [bc' r] eqn:Hs. apply (fc_substitute env Hf) in Hs.
  assert (once bc') as Hbc' by (unfold once in *; destruct Hs as [[-> _]| ->]; [done|by constructor]).
  destruct r as [tx|e|m]; [destruct (te_confirm env tx)|..]; exact Hbc'.
Qed.
Lemma tick_txns_once env bc ts : fair_chain env → once bc → once (tr_chain (tick_txns substitutor_address env bc ts)).
Proof.
  intros Hf. revert bc. induction ts as [|t ts IH]; intros bc Hbc; [done|]. cbn [tick_txns]. destruct (burn_key t) as [[kind k]|]; [|by apply IH].
  pose proof (tick_burn_once env bc kind k Hf Hbc) as Hr. cbv zeta. destruct (tr_result (tick_burn substitutor_address env bc kind k)); [by apply IH|done..].
Qed.

(** The process: ticks, each with its answers, and restarts that forget the cursor. *)
Inductive Life := LifeTick (env : TickEnv) (last_rollup : outcome string Z) (fetch : TxnCursor → outcome string (list BurnTxn * option TxnCursor)) | LifeRestart.
Fixpoint live (ls : list Life) (cursor : option TxnCursor) bc : option TxnCursor * Basechain :=
  match ls with
  | [] => (cursor, bc)
  | LifeTick env last fetch :: ls => let '(c, r) := tick env last fetch cursor bc in live ls c (tr_chain r)
  | LifeRestart :: ls => live ls None bc
  end.


(** A burn that is skipped is not looked at again: whether the substitutor could
    not pay it or no swap was found for it, the tick ends well and the cursor moves
    behind the page. *)
Theorem skipped_burns_are_passed env last fetch c bc t k next :
  fetch c = Ok ([t], next) → burn_key t = Some (KindBurn, k) →
  te_was_substituted env k bc = Ok false → te_balance env bc = Ok (bc_balance bc) → bc_balance bc < bk_amount k →
  tick env last fetch (Some c) bc = (next, mk_tick_run bc [] [] (Ok tt)).
Proof.
  intros Hfetch Hk Hwas Hbal Hlt. unfold substitutor_tick. rewrite Hfetch. cbn [tick_txns]. rewrite Hk. unfold tick_burn.
  rewrite Hwas, Hbal, decide_True by done. done.
Qed.
Theorem unmatched_burns_are_passed env last fetch c bc t k next :
  fetch c = Ok ([t], next) → burn_key t = Some (KindNoSub, k) → (∀ i, se_swaps (te_swaps env) i = Ok (mk_http 200 (Ok []))) →
  tick env last fetch (Some c) bc = (next, mk_tick_run bc [] [] (Ok tt)).
Proof.
  intros Hfetch Hk Hsw. unfold substitutor_tick. rewrite Hfetch. cbn [tick_txns]. rewrite Hk. unfold tick_burn, handle_nosub_burn.
  unfold retry_until_some, MAX_ATTEMPTS. cbn [retry_attempts]. unfold query_swaps. rewrite !Hsw. done.
Qed.
End substitutor_props.

(** * Witness *)

#[export] Instance ex_text : TextLib := {|
  from_dec_str _ := None; parse_address _ := None; hex_decode _ := None; show_address _ := EmptyString;
  eq_ignore_ascii_case _ _ := false;
|}.
Definition ex_burn_txn : BurnTxn :=
  mk_burn_txn (mk_utxo_proof [] (mk_public_input (11, 12) (0, 0) [3; 7; 500; 11; 99])) 8.
Definition ex_burn_key : BurnKey := mk_burn_key (replicate 19 0 ++ [99]) 7 11 500 8.
(** The confirmation of what is sent never arrives. *)
Definition ex_tick_env : TickEnv := {|
  te_was_substituted k bc := Ok (bool_decide (k ∈ bc_substituted bc));
  te_balance bc := Ok (bc_balance bc);
  te_substitute k bc := (mk_basechain (k :: bc_substituted bc) (bc_balance bc - bk_amount k), Ok [1]);
  te_confirm _ := Err "unknown transaction"%string;
  te_swaps := mk_swap_env (λ _, Err EmptyString) (λ _ _, Err EmptyString) (λ _, Ok tt) (λ _, Ok tt);
|}.
Definition ex_life : list Life :=
  [LifeTick ex_tick_env (Ok 5) (λ _, Ok ([ex_burn_txn], None)); LifeRestart; LifeTick ex_tick_env (Ok 5) (λ _, Ok ([ex_burn_txn], None))].
